(* ===== verification/_CoqProject ===== *)
-Q . S2P
Prelude.v
Errors.v
Floats.v
FloatFacts.v
Ranking.v
Metric.v
Filter.v
MetadataIndex.v
Collection.v
CollectionFacts.v
Sharding.v
ShardingFacts.v
Codec.v
Wire.v
WireFacts.v
Wal.v
Quantize.v
Hnsw.v
HnswCodec.v
HnswFacts.v
HnswSearch.v
HnswCompact.v
HnswCodecFacts.v
HnswInsert.v
HnswBuild.v
Disk.v
DiskFacts.v
Segment.v
HnswLength.v
SegmentFacts.v
SegmentRoundtrip.v
Manifest.v
ManifestFacts.v
Persistence.v
Recovery.v
Durability.v
FlushFacts.v
QueryFacts.v
Environment.v
Concurrent.v
ConcurrentFacts.v
Creation.v
Tree.v
TreeFacts.v
Database.v
DatabaseFacts.v
KnownIssues.v
Requests.v
RequestsFacts.v
RequestsRuns.v
Cuda.v
CudaFacts.v
Api.v
ApiFacts.v
Server.v
Local.v
ServerFacts.v
LocalSocket.v
Tls.v
Startup.v
Journal.v
JournalFacts.v
RaftLog.v
RaftLogFacts.v
RaftStateMachine.v
RaftReplica.v
RaftRecovery.v
RaftSearch.v
RaftDemo.v
Distributed.v
DistributedFacts.v
DistributedDemo.v
RaftNode.v
RaftNodeFacts.v
RaftNodeOpen.v
Bench.v
Testing.v
CoreTests.v
PersistenceTests.v
ServiceTests.v
