(* ===== verification/Prelude.v ===== *)
(** * Focal Vector: a verification library (root file)

    Focal Vector is a vector database: points (an identifier, a vector of
    [f32] components, metadata) are kept in memory, logged, flushed into
    immutable segments with an approximate-nearest-neighbour graph, sharded,
    and replicated with Raft.  The library models its core in shallow
    embedding and proves what makes each part correct.

    ** Conventions

    Machine integers are [Z] at their width ([wrap_u], [checked_add],
    [saturating_mul]); floats are IEEE-754 bit patterns computed with the
    executable specification of the Standard Library, in the program's
    operation order, the hardware's NaN pattern being the class [FloatEnv].
    Strings are byte strings.  A Rust [Result] is [result E A]: [Ok], [Err],
    or [Panic] (an index out of range, an [unreachable!]); that nothing
    panics is always a theorem.  A [&mut self] method returns its result with
    the state it leaves, on error paths too.  A [HashMap] is a [gmap]: where
    the code iterates one, the model iterates it in a fixed order and the
    result is proved independent of it.  Definitions evaluate, and every
    theorem with hypotheses is run on a concrete instance.

    ** In memory

    - [Errors] (error.rs), [Metric] (metric.rs), [Filter] (filter.rs): the
      data of every other part.  [Ranking]: sorting, the bounded heap, merging.
    - [MetadataIndex] (metadata_index.rs): [candidates_exact], the inverted
      index computes the set of points [Filter.matches] accepts.
    - [Collection], [CollectionFacts] (collection.rs): upsert, delete, get,
      exact search, snapshots.  Each operation's full effect; search is the
      exact best [k] ([is_best_k]), a notion all later searches refer to.
    - [Sharding], [ShardingFacts] (sharding.rs): the class [ShardStore] is
      what sharding needs of a shard, [ShardLaws] its laws, which the
      collection satisfies; sharded operations refine unsharded ones.

    ** The graph

    - [Quantize] (hnsw.rs): int8 codes; the AVX2 and portable dot products
      agree and never overflow.
    - [Hnsw] (hnsw.rs): building, greedy descent, layer search.  [graph_wf]
      ([HnswFacts]) is the interface between producers of graphs ([HnswInsert],
      [HnswBuild]: the build is total and does not depend on the workers;
      [HnswCodec], [HnswCompact], [HnswCodecFacts]: decoding any bytes gives an
      error or a well-formed graph) and the search ([HnswSearch]: it refines a
      set-based specification, returns distinct live nodes with their true
      scores, and is exhaustive when the beam is).
    - Fuel: a descent and a layer search visit a node at most once, so the
      number of nodes plus one is enough, and running out is a [Panic] that is
      proved impossible; a build takes one batch per turn; a level is at most
      [MAX_LEVEL]; a graph search that widens stops at the graph's size.

    ** On disk (persistence.rs)

    - [Codec]: the byte cursor with its two judgements ([decodes], [safe]).
      [Wire], [WireFacts]: CRC-32C, records; [Wal]: log recovery, whose fuel is
      the length of the file.  [Segment], [SegmentFacts], [SegmentRoundtrip],
      [HnswLength]; [Manifest], [ManifestFacts].
    - [Disk]: a directory is a map from names to bytes.  Every system call that
      changes it is an effect, and a script decides whether it succeeds, fails
      (having done part of its work), or is where the process dies.  [DiskFacts]
      is the program logic: [specifies m d Q C] gives a postcondition and a
      crash condition for all scripts.
    - [Persistence]: open, recovery, upsert, delete, flush, index refresh,
      searches.  [Recovery] says what a directory holds ([recoverable d c]:
      opening [d] gives back [c]; [store_ok]: an open handle agrees with its
      directory).  [Durability]: a write is durable once acknowledged and atomic
      under every fault, and open recovers.  [FlushFacts]: a flush changes what
      is on disk and never what it holds.  [QueryFacts]: filtered searches are
      exact; approximate ones return live points, exactly scored, best first.
    - [KnownIssues]: runs of the model that end badly, one per defect found, of
      collections and of databases.

    ** The service

    - [Environment] (cuda.rs): the search configuration read from environment
      variables, and opening with it.  [Cuda], [CudaFacts] (cuda.rs, the [cuda]
      feature of persistence.rs): the device is a cache, whose proposals are
      scored again and on which flushes do not depend.
    - [Concurrent] (concurrent.rs): a shared collection is a collection behind a
      lock; each method is its sections under the lock, a flush has three, and a
      run is any order of the sections of all threads.  [ConcurrentFacts]: in
      every run, under every fault, it is the acknowledged writes in order.
    - [Creation]: opening a fresh directory.  [Tree], [TreeFacts]: a root is a
      map from directories' places to directories; a backup or restore is a copy
      made beside its destination and renamed.  [Database] (database.rs): the
      catalogue.  [DatabaseFacts]: [serves db t contents] says that a database
      agrees with its tree; opening, creation, backups and restores establish or
      keep it under every fault.
    - [Api], [ApiFacts] (server.rs): JSON points and filters turned
      into those of the collection, with the bounds on filters; what a number of
      JSON is, is the class [JsonNumber].
    - [Server] (server.rs): authorization, admission, handlers, statuses,
      counters and the text of [/metrics].  [Local] (local.rs, crates/focal-vector-protocol,
      crates/focal-vector-client): the local service and its client, with the
      JSON codec and the connection as parameters; it converts its own types
      in its own code, as the source does.  [LocalSocket]: taking the socket,
      in a private directory, under every fault.  [ServerFacts]: requests
      without the token touch nothing, both services have the same effects and
      answers, an upsert answered 200 is durable, and the client's call is the
      service's dispatch.

    - [Requests], [RequestsFacts], [RequestsRuns]: many callers of one database
      and the background flushers.  A caller's request is its sections under the
      locks (a lookup, the sections of its call, a backup's flush and its copy,
      a creation, a restore), and a run is any order of the sections of all
      callers.  What the database and its backups hold is what the acknowledged
      requests did, in the order of their sections.  A section is atomic, which
      is what its lock gives it; two copies of backups, each under a read lock,
      are not interleaved system call by system call, and the reading requests
      that list collections and backups have no section here.
    - [Tls] (tls.rs, over the class [TlsLibrary]) and [Startup]
      (bin/focal-server.rs, bin/focal-raft-node.rs; [Address] is
      [SocketAddr::from_str], which the settings rely on): from the environment
      to what is served and where, behind which token, limits and certificates.

    ** Replication

    - [Journal], [JournalFacts]: the record files of both Raft stores; [Json]
      is the class of what is serialised, serde_json being a parameter with the
      law that a written value reads back.
    - [RaftLog], [RaftLogFacts] (raft_storage.rs): votes, commits, entries,
      truncation, purge with its checkpoint; durable and atomic.
    - [RaftStateMachine] (raft_state_machine.rs): commands are decided,
      journalled with their answer and replayed; snapshots; index refresh and
      search.  [RaftReplica]: it refines [abs_step], where a command is decided
      exactly once.  [RaftRecovery]: restarts, snapshots and installs keep the
      abstract state under every fault.  [RaftSearch]: searches, with indexes
      rebuilt outside the lock.  [RaftDemo]: the instance the theorems run on.
    - [Distributed], [DistributedFacts], [DistributedDemo] (distributed.rs):
      the client of many shards, for every schedule of its tasks; HTTP is a
      parameter, and the servers' promise a hypothesis stated with the
      contents of the shards.
    - [RaftNode] (raft_node.rs): the identity file, opening a directory up to the
      start of the consensus, requests to peers, admission, routes.  The
      consensus is the openraft library: the class [Consensus] lists its calls.
      [RaftNodeFacts]: a directory belongs to one id; requests without the token
      reach nothing.  [RaftNodeOpen]: the consensus is given the log and the
      replica that the directory holds.

    ** Tests and benchmarks

    The tests beside the code are translated into programs of the model
    ([Testing] has their vocabulary): [CoreTests], [PersistenceTests],
    [ServiceTests], with a Module per source file.  Every one is run, and passes; where a test takes too many points for that, its size is an
    argument, and a smaller one is run.  Left out are the tests whose vectors
    are the sine and cosine of the platform, those of the consensus itself, and
    those on the text of serde_json or on certificates.

    [Bench] (bin/focal-bench.rs, bin/focal-persistence-bench.rs,
    bin/focal-distributed-bench.rs): what the benchmarks ask for and the recall
    they report; the reference answer they measure against is the exact best
    [k], and the batches cover the points.

    ** Not modelled

    Binding and accepting connections (each is handed to a task of its own),
    shutting down, axum's routing and the decoding of bodies are the runtime's.
    PEM, rustls and reqwest are the class [TlsLibrary]; the CUDA driver, the
    consensus and serde_json are classes of their calls.  Of the benchmarks:
    clocks, rates and printed lines, and queries asked concurrently.  Memory
    maps are the bytes of the file; capacity reservations, paging advice and
    file locks' operating-system side have no effect on results. *)

From stdpp Require Import base gmap sets list strings sorting.
From Stdlib Require Import ZArith Lia.
From Stdlib Require Export Strings.Byte.

Declare Scope focal_scope.
Delimit Scope focal_scope with focal.
Open Scope Z_scope.
Open Scope focal_scope.

(** ** Outcomes

    A Rust function of type [Result<T, E>] can return [Ok], return [Err] or
    panic (an index out of range, an [expect], an [unreachable!]). *)

Inductive result (E A : Type) : Type :=
| Ok (a : A)
| Err (e : E)
| Panic.
Arguments Ok {E A} a.
Arguments Err {E A} e.
Arguments Panic {E A}.

Definition rbind {E A B : Type} (m : result E A) (f : A -> result E B) : result E B :=
  match m with
  | Ok a => f a
  | Err e => Err e
  | Panic => Panic
  end.

Definition rmap {E A B : Type} (f : A -> B) (m : result E A) : result E B :=
  match m with
  | Ok a => Ok (f a)
  | Err e => Err e
  | Panic => Panic
  end.

Definition map_err {E F A : Type} (f : E -> F) (m : result E A) : result F A :=
  match m with
  | Ok a => Ok a
  | Err e => Err (f e)
  | Panic => Panic
  end.

Definition ok_or {E A : Type} (o : option A) (e : E) : result E A :=
  match o with Some a => Ok a | None => Err e end.

Definition is_ok {E A : Type} (m : result E A) : bool :=
  match m with Ok _ => true | _ => false end.

Notation "'let?' p ':=' e 'in' k" := (rbind e (fun p => k))
  (at level 10, p pattern, e at level 200, k at level 200) : focal_scope.

Lemma rbind_ok_inv {E A B} (m : result E A) (f : A -> result E B) (b : B) :
  rbind m f = Ok b -> exists a, m = Ok a /\ f a = Ok b.
Proof. destruct m; simpl; intros H; try discriminate; eauto. Qed.

Lemma rbind_panic_inv {E A B} (m : result E A) (f : A -> result E B) :
  rbind m f = Panic -> m = Panic \/ exists a, m = Ok a /\ f a = Panic.
Proof. destruct m; simpl; intros H; try discriminate; eauto. Qed.

Lemma rbind_assoc {E A B C} (m : result E A) (f : A -> result E B) (g : B -> result E C) :
  rbind (rbind m f) g = rbind m (fun a => rbind (f a) g).
Proof. by destruct m. Qed.

(** [iter.map(f).collect::<Result<Vec<_>>>()]: the first failure wins. *)
Fixpoint mapM_result {E A B : Type} (f : A -> result E B) (l : list A) : result E (list B) :=
  match l with
  | [] => Ok []
  | a :: l' => let? b := f a in let? bs := mapM_result f l' in Ok (b :: bs)
  end.

(** A [for] loop that threads a state and leaves through [?]. *)
Fixpoint foldM_result {E A S : Type} (f : S -> A -> result E S) (s : S) (l : list A) : result E S :=
  match l with
  | [] => Ok s
  | a :: l' => let? s' := f s a in foldM_result f s' l'
  end.

(** [for _ in 0..n]: [n] runs of the body. *)
Fixpoint repeatM_result {E S : Type} (f : S -> result E S) (n : nat) (s : S) : result E S :=
  match n with
  | O => Ok s
  | S n' => let? s' := f s in repeatM_result f n' s'
  end.

Lemma mapM_result_ok {E A B} (f : A -> result E B) (l : list A) (bs : list B) :
  mapM_result f l = Ok bs <-> Forall2 (fun a b => f a = Ok b) l bs.
Proof.
  revert bs. induction l as [|a l IH]; intros bs; simpl; split; intros H.
  - injection H as <-. constructor.
  - by inversion H.
  - apply rbind_ok_inv in H as (b & Hb & H).
    apply rbind_ok_inv in H as (bs' & Hbs & [= <-]).
    constructor; [done|]. by apply IH.
  - inversion H as [|? b ? bs' Hb Hbs]; subst. rewrite Hb. simpl.
    apply IH in Hbs. by rewrite Hbs.
Qed.

Lemma mapM_result_no_panic {E A B} (f : A -> result E B) (l : list A) :
  (forall a, a ∈ l -> f a <> Panic) -> mapM_result f l <> Panic.
Proof.
  induction l as [|a l IH]; simpl; intros H; [done|].
  intros [Hp|(b & _ & Hp)]%rbind_panic_inv; [by apply (H a); [left|]|].
  apply rbind_panic_inv in Hp as [Hp|(bs & _ & Hp)]; [|done].
  revert Hp. apply IH. intros x Hx. apply H. by right.
Qed.

Lemma foldM_result_app {E A S} (f : S -> A -> result E S) (s : S) (l1 l2 : list A) :
  foldM_result f s (l1 ++ l2) = let? s' := foldM_result f s l1 in foldM_result f s' l2.
Proof.
  revert s. induction l1 as [|a l1 IH]; intros s; simpl; [done|].
  destruct (f s a); simpl; auto.
Qed.

Lemma Ok_inj {E A} (a b : A) : @Ok E A a = Ok b -> a = b.
Proof. congruence. Qed.

(** Case analysis on the first [?] of a computation that succeeded. *)
Ltac inv_ok H :=
  let a := fresh "a" in let Ha := fresh "Hok" in
  apply rbind_ok_inv in H as (a & Ha & H).

(** ** Computations that return *)

(** [r] returns a value satisfying [P]: no error, no panic. *)
Definition returns {E A} (r : result E A) (P : A -> Prop) : Prop := exists a, r = Ok a /\ P a.

Lemma returns_ok {E A} (a : A) (P : A -> Prop) : P a -> returns (E := E) (Ok a) P.
Proof. by exists a. Qed.

Lemma returns_bind {E A B} (r : result E A) (f : A -> result E B) (P : A -> Prop) (Q : B -> Prop) :
  returns r P -> (forall a, P a -> returns (f a) Q) -> returns (rbind r f) Q.
Proof. intros (a & -> & Ha) Hf. exact (Hf a Ha). Qed.

Lemma returns_mono {E A} (r : result E A) (P Q : A -> Prop) : returns r P -> (forall a, P a -> Q a) -> returns r Q.
Proof. intros (a & -> & Ha) HPQ. exists a. auto. Qed.

Lemma returns_fold {E A S} (f : S -> A -> result E S) (I : S -> Prop) (l : list A) (s : S) :
  I s -> (forall s a, a ∈ l -> I s -> returns (f s a) I) -> returns (foldM_result f s l) I.
Proof.
  revert s. induction l as [|a l IH]; intros s Hs Hf; cbn; [by apply returns_ok|].
  eapply returns_bind; [apply Hf; [by left|done]|]. intros s' Hs'. apply IH; [done|].
  intros s0 a0 Ha0. apply Hf. by right.
Qed.

Lemma returns_mapM {E A B} (f : A -> result E B) (R : A -> B -> Prop) (l : list A) :
  (forall a, a ∈ l -> returns (f a) (R a)) -> returns (mapM_result f l) (Forall2 R l).
Proof.
  induction l as [|a l IH]; intros Hf; cbn; [apply returns_ok; constructor|].
  eapply returns_bind; [apply Hf; by left|]. intros b Hb. cbn.
  eapply returns_bind; [apply IH; intros x Hx; apply Hf; by right|]. intros bs Hbs. apply returns_ok. by constructor.
Qed.

(** ** Machine integers

    Integers are kept in [Z]; a value of a [w]-bit unsigned type is in
    [0, 2^w).  The target is 64-bit, so [usize] is [u64]. *)

Definition U32_MAX : Z := 2 ^ 32 - 1.
Definition U64_MAX : Z := 2 ^ 64 - 1.
Definition USIZE_MAX : Z := U64_MAX.

Definition in_u (w z : Z) : Prop := 0 <= z < 2 ^ w.
Definition in_i (w z : Z) : Prop := - 2 ^ (w - 1) <= z < 2 ^ (w - 1).

#[global] Instance in_u_dec w z : Decision (in_u w z).
Proof. unfold in_u. apply _. Defined.
#[global] Instance in_i_dec w z : Decision (in_i w z).
Proof. unfold in_i. apply _. Defined.

(** [as uN] and [as iN] between integers of different widths. *)
Definition wrap_u (w z : Z) : Z := z mod 2 ^ w.
Definition wrap_i (w z : Z) : Z :=
  let u := z mod 2 ^ w in if Z.ltb u (2 ^ (w - 1)) then u else u - 2 ^ w.

Definition checked_add (max a b : Z) : option Z :=
  if Z.leb (a + b) max then Some (a + b) else None.
Definition checked_mul (max a b : Z) : option Z :=
  if Z.leb (a * b) max then Some (a * b) else None.
Definition checked_sub (a b : Z) : option Z :=
  if Z.leb b a then Some (a - b) else None.
Definition saturating_mul (a b : Z) : Z := Z.min (a * b) USIZE_MAX.
Definition saturating_add (a b : Z) : Z := Z.min (a + b) USIZE_MAX.

(** The length of a slice as a [usize]. *)
Definition zlen {A : Type} (l : list A) : Z := Z.of_nat (length l).
(** [Vec::truncate], and [iter.take]. *)
Definition truncate {A : Type} (k : Z) (l : list A) : list A := take (Z.to_nat k) l.

Lemma zlen_nonneg {A} (l : list A) : 0 <= zlen l.
Proof. unfold zlen. lia. Qed.
Lemma zlen_app {A} (l1 l2 : list A) : zlen (l1 ++ l2) = zlen l1 + zlen l2.
Proof. unfold zlen. rewrite length_app. lia. Qed.
Lemma zlen_cons {A} (x : A) (l : list A) : zlen (x :: l) = 1 + zlen l.
Proof. unfold zlen. simpl. lia. Qed.

Lemma wrap_i_id (w z : Z) : 0 < w -> in_i w z -> wrap_i w (wrap_u w z) = z.
Proof.
  intros Hw [Hl Hu]. unfold wrap_i, wrap_u.
  assert (2 ^ w = 2 * 2 ^ (w - 1)) as E.
  { replace w with (Z.succ (w - 1)) at 1 by lia. rewrite Z.pow_succ_r by lia. done. }
  assert (0 < 2 ^ (w - 1)) by (apply Z.pow_pos_nonneg; lia).
  rewrite Z.mod_mod by lia. rewrite E in *.
  destruct (Z.leb_spec 0 z).
  - rewrite Z.mod_small by lia. destruct (Z.ltb_spec z (2 ^ (w - 1))); lia.
  - rewrite <- (Z.mod_add z 1) by lia. rewrite Z.mod_small by lia.
    destruct (Z.ltb_spec (z + 1 * (2 * 2 ^ (w - 1))) (2 ^ (w - 1))); lia.
Qed.

(** ** Bytes *)

Definition u8 (b : byte) : Z := Z.of_N (Byte.to_N b).
Definition to_u8 (z : Z) : byte :=
  match Byte.of_N (Z.to_N (z mod 256)) with Some b => b | None => x00 end.

Lemma u8_range (b : byte) : 0 <= u8 b < 256.
Proof. unfold u8. pose proof (Byte.to_N_bounded b). lia. Qed.

Lemma to_u8_u8 (b : byte) : to_u8 (u8 b) = b.
Proof.
  unfold to_u8. rewrite Z.mod_small by apply u8_range.
  unfold u8. by rewrite N2Z.id, Byte.of_to_N.
Qed.

Lemma u8_to_u8 (z : Z) : u8 (to_u8 z) = z mod 256.
Proof.
  pose proof (Z.mod_pos_bound z 256 ltac:(lia)) as Hz.
  unfold to_u8. destruct (Byte.of_N (Z.to_N (z mod 256))) as [b|] eqn:E.
  - apply Byte.to_of_N in E. unfold u8. rewrite E. lia.
  - apply Byte.of_N_None_iff in E. lia.
Qed.

Lemma u8_inj (a b : byte) : u8 a = u8 b -> a = b.
Proof. intros H. by rewrite <- (to_u8_u8 a), H, to_u8_u8. Qed.

#[global] Instance byte_eq_dec : EqDecision byte := Byte.byte_eq_dec.
#[global] Instance byte_countable : Countable byte :=
  inj_countable Byte.to_N Byte.of_N Byte.of_to_N.

(** [uN::to_le_bytes] and [uN::from_le_bytes]. *)
Fixpoint le_bytes (n : nat) (z : Z) : list byte :=
  match n with
  | O => []
  | S n' => to_u8 z :: le_bytes n' (z / 256)
  end.

Fixpoint le_value (l : list byte) : Z :=
  match l with
  | [] => 0
  | b :: l' => u8 b + 256 * le_value l'
  end.

Lemma length_le_bytes (n : nat) (z : Z) : length (le_bytes n z) = n.
Proof. revert z. induction n; simpl; auto. Qed.

Lemma le_value_bytes (n : nat) (z : Z) :
  in_u (8 * Z.of_nat n) z -> le_value (le_bytes n z) = z.
Proof.
  revert z. induction n as [|n IH]; intros z [Hl Hu].
  - simpl. change (2 ^ (8 * Z.of_nat 0)) with 1 in Hu. lia.
  - simpl. rewrite u8_to_u8.
    assert (2 ^ (8 * Z.of_nat (S n)) = 256 * 2 ^ (8 * Z.of_nat n)) as E.
    { replace (8 * Z.of_nat (S n)) with (8 + 8 * Z.of_nat n) by lia.
      rewrite Z.pow_add_r by lia. done. }
    rewrite IH.
    + pose proof (Z.div_mod z 256). lia.
    + split; [apply Z.div_pos; lia|]. apply Z.div_lt_upper_bound; lia.
Qed.

Lemma le_value_range (l : list byte) : in_u (8 * zlen l) (le_value l).
Proof.
  unfold in_u. induction l as [|b l IH]; [done|].
  rewrite zlen_cons. simpl. pose proof (u8_range b).
  replace (8 * (1 + zlen l)) with (8 + 8 * zlen l) by lia.
  rewrite Z.pow_add_r by (pose proof (zlen_nonneg l); lia).
  change (2 ^ 8) with 256. lia.
Qed.

Lemma le_bytes_value (l : list byte) : le_bytes (length l) (le_value l) = l.
Proof.
  induction l as [|b l IH]; simpl; [done|].
  pose proof (u8_range b) as Hb. f_equal.
  - apply u8_inj. rewrite u8_to_u8.
    rewrite (Z.mul_comm 256), Z.mod_add by lia. by apply Z.mod_small.
  - rewrite (Z.mul_comm 256), Z.div_add by lia.
    rewrite (Z.div_small (u8 b)) by done. by rewrite Z.add_0_l.
Qed.

(** Byte strings: a Rust [String] is its UTF-8 bytes. *)
Definition bytes_of_string (s : string) : list byte := String.list_byte_of_string s.
Definition string_of_bytes (l : list byte) : string := String.string_of_list_byte l.
Definition str_len (s : string) : Z := Z.of_nat (String.length s).

Lemma string_of_bytes_of_string (s : string) : string_of_bytes (bytes_of_string s) = s.
Proof. apply String.string_of_list_byte_of_string. Qed.

Lemma bytes_of_string_of_bytes (l : list byte) : bytes_of_string (string_of_bytes l) = l.
Proof. apply String.list_byte_of_string_of_list_byte. Qed.

Lemma length_bytes_of_string (s : string) : zlen (bytes_of_string s) = str_len s.
Proof.
  unfold zlen, str_len, bytes_of_string. f_equal.
  induction s as [|a s IH]; simpl; [done|]. by f_equal.
Qed.

(** [&bytes[a..b]]: panics outside the slice. *)
Definition slice {E A : Type} (l : list A) (a b : Z) : result E (list A) :=
  if decide (0 <= a <= b /\ b <= zlen l)
  then Ok (take (Z.to_nat (b - a)) (drop (Z.to_nat a) l)) else Panic.

(** [v[i]]: panics outside the vector. *)
Definition index {E A : Type} (l : list A) (i : Z) : result E A :=
  if decide (0 <= i) then match l !! Z.to_nat i with Some x => Ok x | None => Panic end else Panic.

(** [slice.get(a..b)]: [None] outside the slice. *)
Definition get_range {A : Type} (l : list A) (a b : Z) : option (list A) :=
  if decide (0 <= a <= b /\ b <= zlen l)
  then Some (take (Z.to_nat (b - a)) (drop (Z.to_nat a) l)) else None.

Lemma slice_ok {E A} (l : list A) (a b : Z) :
  0 <= a <= b -> b <= zlen l ->
  slice (E := E) l a b = Ok (take (Z.to_nat (b - a)) (drop (Z.to_nat a) l)).
Proof. intros. unfold slice. by rewrite decide_True. Qed.

Lemma slice_app {E A} (pre mid post : list A) :
  slice (E := E) (pre ++ mid ++ post) (zlen pre) (zlen pre + zlen mid) = Ok mid.
Proof.
  rewrite slice_ok; [|unfold zlen; lia|rewrite !zlen_app; unfold zlen; lia].
  f_equal. replace (Z.to_nat (zlen pre + zlen mid - zlen pre)) with (length mid) by (unfold zlen; lia).
  unfold zlen at 1. rewrite Nat2Z.id, drop_app_length. apply take_app_length.
Qed.

Lemma elem_of_take_list {A} (k : nat) (l : list A) (x : A) : x ∈ take k l -> x ∈ l.
Proof. intros (i & Hi & _)%elem_of_take. by eapply list_elem_of_lookup_2. Qed.

Lemma elem_of_truncate {A} (k : Z) (l : list A) (x : A) : x ∈ truncate k l -> x ∈ l.
Proof. apply elem_of_take_list. Qed.

Lemma Forall_mp {A} (P Q : A -> Prop) (l : list A) :
  Forall (fun x => P x -> Q x) l -> Forall P l -> Forall Q l.
Proof. rewrite !Forall_forall. eauto. Qed.

Create HintDb focal.
Create Rewrite HintDb focal.
#[export] Hint Resolve zlen_nonneg u8_range length_le_bytes le_value_range : focal.
#[export] Hint Rewrite @zlen_app @zlen_cons length_le_bytes : focal.
