(* ===== verification/Errors.v ===== *)
(** * Errors: the error type every component returns ([src/src/error.rs])

    Messages are byte strings; [to_string] is the [Display] impl, whose text
    ends up in replicated [Rejected] responses and in API bodies. *)

From stdpp Require Import base strings pretty.
From S2P Require Import Prelude.

Inductive Error : Type :=
| InvalidDimension (expected actual : Z)
| InvalidVector (message : string)
| InvalidConfig (message : string)
| InvalidConfiguration (message : string)
| InvalidQuery (message : string)
| Io (message : string)
| CorruptStorage (message : string)
| Concurrency (message : string)
| NotFound (message : string)
| AlreadyExists (message : string)
| Unauthorized
| ResourceExhausted (message : string)
| SequenceOverflow.

#[global] Instance Error_eq_dec : EqDecision Error.
Proof. solve_decision. Defined.

Abbreviation Result := (result Error).

(** Decimal rendering of an integer, as [{}] formats it. *)
Definition fmt_int (z : Z) : string := pretty z.

Definition to_string (e : Error) : string :=
  match e with
  | InvalidDimension expected actual =>
      "invalid vector dimension: expected " +:+ fmt_int expected +:+ ", got " +:+ fmt_int actual
  | InvalidVector message => "invalid vector: " +:+ message
  | InvalidConfig message => "invalid collection config: " +:+ message
  | InvalidConfiguration message => "invalid configuration: " +:+ message
  | InvalidQuery message => "invalid query: " +:+ message
  | Io message => "storage I/O error: " +:+ message
  | CorruptStorage message => "corrupt storage: " +:+ message
  | Concurrency message => "concurrency error: " +:+ message
  | NotFound message => "not found: " +:+ message
  | AlreadyExists message => "already exists: " +:+ message
  | Unauthorized => "unauthorized"
  | ResourceExhausted message => "resource exhausted: " +:+ message
  | SequenceOverflow => "collection sequence overflow"
  end.

(** The variants a decoder of stored bytes may return. *)
Definition is_corrupt (e : Error) : bool :=
  match e with CorruptStorage _ => true | _ => false end.
