(* ===== verification/Floats.v ===== *)
(** * Floats: [f32] and [f64] as IEEE-754 bit patterns

    A float is its bit pattern, a [Z] in [0, 2^32) or [0, 2^64), because the
    code compares ([total_cmp]), hashes ([to_bits]) and stores
    ([to_le_bytes]) bit patterns.  Arithmetic unpacks to [SpecFloat], the
    kernel library's executable IEEE-754 specification (round to nearest
    even), and packs the rounded result.  The bit pattern of a NaN produced by
    an operation is not fixed by Rust: it is a parameter, [FloatEnv]. *)

From stdpp Require Import base numbers.
From Stdlib Require Import ZArith Lia Floats.SpecFloat.
From S2P Require Import Prelude.

(** An interchange format: stored significand bits and exponent bits. *)
Record fmt : Type := Fmt { mant_bits : Z; exp_bits : Z }.
Definition fmt32 : fmt := Fmt 23 8.
Definition fmt64 : fmt := Fmt 52 11.

Definition width (f : fmt) : Z := 1 + exp_bits f + mant_bits f.
Definition prec (f : fmt) : Z := mant_bits f + 1.
Definition emax (f : fmt) : Z := 2 ^ (exp_bits f - 1).
(** Exponent of the unit in the last place of a subnormal. *)
Definition ulp_min (f : fmt) : Z := 3 - emax f - prec f.

(** The NaN pattern the hardware produces (its "default NaN"). *)
Class FloatEnv : Type := {
  nan_bits : fmt -> Z;
  nan32_range : 2 ^ 31 - 2 ^ 23 < nan_bits fmt32 mod 2 ^ 31;
  nan64_range : 2 ^ 63 - 2 ^ 52 < nan_bits fmt64 mod 2 ^ 63;
  nan_bits_range : in_u 32 (nan_bits fmt32) /\ in_u 64 (nan_bits fmt64)
}.

Definition fields (f : fmt) (b : Z) : bool * Z * Z :=
  (Z.leb (2 ^ (width f - 1)) b, (b / 2 ^ mant_bits f) mod 2 ^ exp_bits f, b mod 2 ^ mant_bits f).

Definition unpack (f : fmt) (b : Z) : spec_float :=
  let '(s, e, m) := fields f b in
  if Z.eqb e (2 ^ exp_bits f - 1) then (if Z.eqb m 0 then S754_infinity s else S754_nan)
  else if Z.eqb e 0 then
    match m with Zpos p => S754_finite s p (ulp_min f) | _ => S754_zero s end
  else
    match m + 2 ^ mant_bits f with
    | Zpos p => S754_finite s p (e - 1 + ulp_min f)
    | _ => S754_nan
    end.

Definition sign_bit (f : fmt) (s : bool) : Z := if s then 2 ^ (width f - 1) else 0.

Section Arithmetic.
Context `{FloatEnv} (f : fmt).

Definition pack (x : spec_float) : Z :=
  match x with
  | S754_zero s => sign_bit f s
  | S754_infinity s => sign_bit f s + (2 ^ exp_bits f - 1) * 2 ^ mant_bits f
  | S754_nan => nan_bits f
  | S754_finite s m e =>
      if Z.ltb (Zpos m) (2 ^ mant_bits f) then sign_bit f s + Zpos m
      else sign_bit f s + (e - ulp_min f) * 2 ^ mant_bits f + Zpos m
  end.

Definition fadd (a b : Z) : Z := pack (SFadd (prec f) (emax f) (unpack f a) (unpack f b)).
Definition fsub (a b : Z) : Z := pack (SFsub (prec f) (emax f) (unpack f a) (unpack f b)).
Definition fmul (a b : Z) : Z := pack (SFmul (prec f) (emax f) (unpack f a) (unpack f b)).
Definition fdiv (a b : Z) : Z := pack (SFdiv (prec f) (emax f) (unpack f a) (unpack f b)).
Definition fsqrt (a : Z) : Z := pack (SFsqrt (prec f) (emax f) (unpack f a)).
(** [iN as fN]. *)
Definition of_int (z : Z) : Z := pack (binary_normalize (prec f) (emax f) z 0 false).
Definition frecip (a : Z) : Z := fdiv (of_int 1) a.
(** [x as fN] from another format [g]. *)
Definition fcast (g : fmt) (a : Z) : Z :=
  match unpack g a with
  | S754_finite s m e =>
      pack (binary_normalize (prec f) (emax f) (if s then Zneg m else Zpos m) e s)
  | x => pack x
  end.
(** [f32::round]: to the nearest integer, halves away from zero. *)
Definition fround (a : Z) : Z :=
  match unpack f a with
  | S754_finite s m e =>
      if Z.leb 0 e then a
      else let n := (Zpos m + 2 ^ (- e - 1)) / 2 ^ (- e) in
           if Z.eqb n 0 then sign_bit f s
           else pack (binary_normalize (prec f) (emax f) (if s then - n else n) 0 s)
  | _ => a
  end.
(** [iter::Sum] starts from [-0.0], the neutral element of IEEE addition. *)
Definition fsum (l : list Z) : Z := fold_left fadd l (sign_bit f true).
End Arithmetic.

Section Comparison.
Context (f : fmt).

Definition fcompare (a b : Z) : option comparison := SFcompare (unpack f a) (unpack f b).
Definition feqb (a b : Z) : bool := match fcompare a b with Some Eq => true | _ => false end.
Definition fltb (a b : Z) : bool := match fcompare a b with Some Lt => true | _ => false end.
Definition fleb (a b : Z) : bool := match fcompare a b with Some (Lt | Eq) => true | _ => false end.
Definition fgtb (a b : Z) : bool := fltb b a.
Definition fgeb (a b : Z) : bool := fleb b a.

(** The bits without the sign. *)
Definition magnitude (b : Z) : Z := b mod 2 ^ (width f - 1).
(** The magnitude of infinity: every larger one is a NaN. *)
Definition inf_magnitude : Z := (2 ^ exp_bits f - 1) * 2 ^ mant_bits f.

Definition is_finite (b : Z) : bool := Z.ltb (magnitude b) inf_magnitude.
Definition is_nan (b : Z) : bool := Z.ltb inf_magnitude (magnitude b).

Definition fneg (b : Z) : Z := Z.lxor b (2 ^ (width f - 1)).
Definition fabs (b : Z) : Z := magnitude b.
(** [f32::max]: a NaN operand is ignored. *)
Definition fmax (a b : Z) : Z :=
  if is_nan a then b else if is_nan b then a else if fltb a b then b else a.
(** [f32::clamp]. *)
Definition fclamp (lo hi a : Z) : Z := if fltb a lo then lo else if fgtb a hi then hi else a.
(** [x as iN]: truncates, saturates, and sends NaN to zero. *)
Definition to_int (w a : Z) : Z :=
  match unpack f a with
  | S754_nan | S754_zero _ => 0
  | S754_infinity s => if s then - 2 ^ (w - 1) else 2 ^ (w - 1) - 1
  | S754_finite s m e =>
      let n := if Z.leb 0 e then Zpos m * 2 ^ e else Zpos m / 2 ^ (- e) in
      Z.max (- 2 ^ (w - 1)) (Z.min (2 ^ (w - 1) - 1) (if s then - n else n))
  end.

(** [f32::total_cmp]: bits as a signed integer, the magnitude flipped
    below zero, then the integer order. *)
Definition total_key (b : Z) : Z :=
  let left := wrap_i (width f) b in
  Z.lxor left (Z.shiftr (wrap_u (width f) (Z.shiftr left (width f - 1))) 1).
Definition total_cmp (a b : Z) : comparison := Z.compare (total_key a) (total_key b).
End Comparison.

Definition f32_zero : Z := 0.
Definition f32_one : Z := 1065353216.

(** The x86-64 default NaN (sign set, quiet bit set). *)
#[refine] Definition x86_64_env : FloatEnv :=
  {| nan_bits f := 2 ^ (width f - 1) + (2 ^ exp_bits f - 1) * 2 ^ mant_bits f + 2 ^ (mant_bits f - 1) |}.
Proof. all: vm_compute; repeat split; congruence. Defined.

(** ** [total_cmp] is the order of an integer key *)

Definition wf_fmt (f : fmt) : Prop := 0 < mant_bits f /\ 1 < exp_bits f.
Lemma wf_fmt32 : wf_fmt fmt32. Proof. by split. Qed.
Lemma wf_fmt64 : wf_fmt fmt64. Proof. by split. Qed.

Lemma total_cmp_antisym f a b : total_cmp f b a = CompOpp (total_cmp f a b).
Proof. unfold total_cmp. apply Z.compare_antisym. Qed.

Lemma total_cmp_refl f a : total_cmp f a a = Eq.
Proof. apply Z.compare_refl. Qed.

Section TotalOrder.
Context (f : fmt) (Hf : wf_fmt f).

Let half := 2 ^ (width f - 1).
Let M := 2 ^ mant_bits f.

Lemma half_split : half = 2 ^ exp_bits f * M.
Proof.
  unfold half, M, width. destruct Hf. rewrite <- Z.pow_add_r by lia. f_equal. lia.
Qed.

Lemma width_split : 2 ^ width f = 2 * half.
Proof.
  unfold half. destruct Hf. unfold width. rewrite <- Z.pow_succ_r by lia. f_equal. lia.
Qed.

Lemma M_pos : 0 < M.
Proof. unfold M. destruct Hf. apply Z.pow_pos_nonneg; lia. Qed.

Lemma half_pos : 0 < half.
Proof. unfold half, width. destruct Hf. apply Z.pow_pos_nonneg; lia. Qed.

Lemma lxor_ones (n c : Z) : 0 <= n -> 0 <= c < 2 ^ n -> Z.lxor c (2 ^ n - 1) = 2 ^ n - 1 - c.
Proof.
  intros Hn Hc.
  assert (2 ^ n - 1 = Z.ones n) as E by (rewrite Z.ones_equiv; lia).
  rewrite E. enough (c + Z.lxor c (Z.ones n) = Z.ones n) by lia.
  rewrite Z.add_nocarry_lxor.
  - by rewrite <- Z.lxor_assoc, Z.lxor_nilpotent, Z.lxor_0_l.
  - apply Z.bits_inj_iff'. intros i Hi.
    rewrite Z.land_spec, Z.lxor_spec, Z.bits_0, Z.testbit_ones_nonneg by lia.
    destruct (Z.ltb_spec i n); [by destruct (Z.testbit c i)|].
    assert (Z.testbit c i = false) as ->; [|done].
    destruct (decide (c = 0)) as [->|]; [apply Z.bits_0|].
    apply Z.bits_above_log2; [lia|]. apply Z.log2_lt_pow2; [lia|].
    pose proof (Z.pow_le_mono_r 2 n i). lia.
Qed.

Lemma total_key_pos b : 0 <= b < half -> total_key f b = b.
Proof.
  intros Hb. unfold total_key, wrap_i.
  pose proof width_split as Hw. pose proof half_pos.
  rewrite Z.mod_small by lia. fold half.
  destruct (Z.ltb_spec b half); [|lia].
  rewrite (Z.shiftr_div_pow2 b) by (unfold width; destruct Hf; lia). fold half.
  rewrite (Z.div_small b half) by exact Hb. unfold wrap_u. rewrite Z.mod_0_l by lia. apply Z.lxor_0_r.
Qed.

Lemma total_key_neg b : half <= b < 2 * half -> total_key f b = - 1 - magnitude f b.
Proof.
  intros Hb. unfold total_key, wrap_i, magnitude.
  pose proof width_split as Hw. pose proof half_pos.
  assert (0 <= width f - 1) by (unfold width; destruct Hf; lia).
  rewrite (Z.mod_small b (2 ^ width f)) by lia. fold half.
  destruct (Z.ltb_spec b half); [lia|].
  rewrite (Z.shiftr_div_pow2 (b - 2 ^ width f)) by done. fold half. rewrite Hw.
  replace ((b - 2 * half) / half) with (-1)
    by (apply (Z.div_unique_pos _ _ _ (b - half)); lia).
  unfold wrap_u. rewrite Hw.
  replace (-1 mod (2 * half)) with (2 * half - 1)
    by (apply (Z.mod_unique_pos _ _ (-1)); lia).
  rewrite Z.shiftr_div_pow2 by lia. change (2 ^ 1) with 2.
  replace ((2 * half - 1) / 2) with (half - 1)
    by (apply (Z.div_unique_pos _ _ _ 1); lia).
  replace (b mod half) with (b - half) by (apply (Z.mod_unique_pos _ _ 1); lia).
  replace (b - 2 * half) with (Z.lnot (2 * half - 1 - b)) by (unfold Z.lnot; lia).
  rewrite <- Z.lnot_lxor_l.
  rewrite (lxor_ones (width f - 1)) by (fold half; lia). fold half. unfold Z.lnot. lia.
Qed.

Lemma total_key_inj a b : in_u (width f) a -> in_u (width f) b -> total_key f a = total_key f b -> a = b.
Proof.
  unfold in_u. rewrite width_split. intros Ha Hb E. pose proof half_pos.
  unfold magnitude in *.
  assert (forall x, half <= x < 2 * half -> magnitude f x = x - half) as Hmag.
  { intros x Hx. unfold magnitude. fold half. symmetry. apply (Z.mod_unique_pos _ _ 1); lia. }
  destruct (Z.ltb_spec a half), (Z.ltb_spec b half);
    rewrite ?(total_key_pos a), ?(total_key_pos b), ?(total_key_neg a), ?(total_key_neg b) in E by lia;
    rewrite ?Hmag in E by lia; lia.
Qed.

Lemma total_cmp_eq a b : in_u (width f) a -> in_u (width f) b -> total_cmp f a b = Eq -> a = b.
Proof. intros Ha Hb E. apply Z.compare_eq in E. by apply total_key_inj. Qed.
End TotalOrder.

(** ** IEEE comparison agrees with [total_cmp]

    Away from NaN, and once [-0.0] has been canonicalised to [0.0], the order
    of the numbers is the order of the keys. *)

Section IeeeOrder.
Context (f : fmt) (Hf : wf_fmt f).
Abbreviation half := (2 ^ (width f - 1)).
Abbreviation M := (2 ^ mant_bits f).
Abbreviation inf := (inf_magnitude f).

(** What [unpack] yields for a sign and a magnitude. *)
Inductive unpacked (s : bool) (mag : Z) : spec_float -> Prop :=
| unpacked_zero : mag = 0 -> unpacked s mag (S754_zero s)
| unpacked_inf : mag = inf -> unpacked s mag (S754_infinity s)
| unpacked_finite p e :
    0 < mag < inf -> mag = Zpos p + (e - ulp_min f) * M -> Zpos p < 2 * M ->
    ulp_min f <= e -> e = ulp_min f \/ M <= Zpos p -> unpacked s mag (S754_finite s p e).

Lemma unpack_unpacked b :
  0 <= b -> is_nan f b = false -> unpacked (Z.leb half b) (magnitude f b) (unpack f b).
Proof.
  intros Hb Hn. unfold is_nan in Hn. apply Z.ltb_ge in Hn. unfold unpack, fields.
  pose proof (M_pos f Hf) as HM. pose proof (half_split f Hf) as Hh.
  assert (0 < 2 ^ exp_bits f) by (destruct Hf; apply Z.pow_pos_nonneg; lia).
  assert ((b / M) mod 2 ^ exp_bits f = magnitude f b / M) as ->.
  { unfold magnitude. rewrite Hh. rewrite (Z.mul_comm (2 ^ exp_bits f)).
    rewrite Z.rem_mul_r by lia. rewrite Z.mul_comm, Z.div_add by lia.
    rewrite (Z.div_small (b mod M)) by (by apply Z.mod_pos_bound). lia. }
  assert (b mod M = magnitude f b mod M) as ->.
  { unfold magnitude. rewrite Hh. rewrite (Z.mul_comm (2 ^ exp_bits f)).
    rewrite Z.rem_mul_r by lia. rewrite Z.mul_comm, Z.mod_add by lia. by rewrite Z.mod_mod by lia. }
  assert (0 <= magnitude f b) as H0 by (apply Z.mod_pos_bound; nia).
  revert H0 Hn. generalize (magnitude f b) as m. generalize (Z.leb half b) as s. intros s m H0 Hn.
  unfold inf_magnitude in Hn.
  pose proof (Z.div_mod m M ltac:(lia)) as Hdm. pose proof (Z.mod_pos_bound m M ltac:(lia)) as Hmm.
  assert (m / M <= 2 ^ exp_bits f - 1) by nia. assert (0 <= m / M) by (apply Z.div_pos; lia).
  destruct (Z.eqb_spec (m / M) (2 ^ exp_bits f - 1)) as [E|E].
  { assert (m mod M = 0) as -> by nia. rewrite Z.eqb_refl. apply unpacked_inf.
    unfold inf_magnitude. nia. }
  assert (m < inf) by (unfold inf_magnitude; nia).
  destruct (Z.eqb_spec (m / M) 0) as [E0|E0].
  - rewrite E0 in Hdm. destruct (m mod M) as [|p|p] eqn:Ep; [|apply unpacked_finite; lia|lia].
    apply unpacked_zero. lia.
  - destruct (m mod M + M) as [|p|p] eqn:Ep; [lia| |lia].
    apply unpacked_finite; nia.
Qed.

Lemma unpacked_compare s1 m1 x1 s2 m2 x2 :
  unpacked s1 m1 x1 -> unpacked s2 m2 x2 ->
  SFcompare x1 x2 =
    Some (if decide (m1 = 0 /\ m2 = 0) then Eq else
          match s1, s2 with
          | false, false => m1 ?= m2 | true, true => m2 ?= m1
          | true, false => Lt | false, true => Gt
          end).
Proof.
  pose proof (M_pos f Hf) as HM.
  assert (0 < inf) as Hinf.
  { unfold inf_magnitude. assert (2 ^ 1 < 2 ^ exp_bits f) by (destruct Hf; apply Z.pow_lt_mono_r; lia). nia. }
  intros H1 H2.
  destruct H1 as [E1|E1|p1 e1 R1 E1 B1 L1 C1], H2 as [E2|E2|p2 e2 R2 E2 B2 L2 C2];
    try (rewrite decide_False by lia); try (rewrite decide_True by lia); cbn [SFcompare].
  9: {
    assert ((e1 ?= e2) = Eq -> (m1 ?= m2) = (Zpos p1 ?= Zpos p2)) as HEq.
    { intros E%Z.compare_eq. destruct (Z.compare_spec (Zpos p1) (Zpos p2)) as [Hc|Hc|Hc];
        [apply Z.compare_eq_iff|apply Z.compare_lt_iff|apply Z.compare_gt_iff]; nia. }
    assert ((e1 ?= e2) = Lt -> m1 < m2) as HLt by (rewrite Z.compare_lt_iff; intros; nia).
    assert ((e1 ?= e2) = Gt -> m2 < m1) as HGt by (rewrite Z.compare_gt_iff; intros; nia).
    rewrite (Z.compare_antisym m1 m2). fold (Pos.compare p1 p2). change (Pos.compare p1 p2) with (Zpos p1 ?= Zpos p2).
    destruct s1, s2, (e1 ?= e2) eqn:Ee; try done; f_equal; cbn [CompOpp];
      try (by rewrite HEq); try (specialize (HLt eq_refl)); try (specialize (HGt eq_refl));
      symmetry; rewrite <- ?(Z.compare_antisym m1 m2);
      first [by apply Z.compare_lt_iff | by apply Z.compare_gt_iff]. }
  all: destruct s1, s2; try done; f_equal; symmetry;
    first [apply Z.compare_eq_iff; lia | apply Z.compare_lt_iff; lia | apply Z.compare_gt_iff; lia].
Qed.

Lemma fcompare_total_cmp a b :
  in_u (width f) a -> in_u (width f) b -> is_nan f a = false -> is_nan f b = false ->
  ~ (magnitude f a = 0 /\ magnitude f b = 0) \/ a = b ->
  fcompare f a b = Some (total_cmp f a b).
Proof.
  unfold in_u. rewrite (width_split f Hf). intros Ha Hb Na Nb Hz.
  unfold fcompare. rewrite (unpacked_compare _ _ _ _ _ _ (unpack_unpacked a (proj1 Ha) Na)
                             (unpack_unpacked b (proj1 Hb) Nb)). f_equal.
  destruct Hz as [Hz| ->]; [rewrite decide_False by done|
    rewrite total_cmp_refl; case_decide; [done|destruct (Z.leb half b); apply Z.compare_refl]].
  pose proof (half_pos f Hf). unfold total_cmp.
  assert (forall x, half <= x < 2 * half -> magnitude f x = x - half) as Hn.
  { intros x Hx. unfold magnitude. symmetry. apply (Z.mod_unique_pos _ _ 1); lia. }
  assert (forall x, 0 <= x < half -> magnitude f x = x) as Hp.
  { intros x Hx. unfold magnitude. by apply Z.mod_small. }
  destruct (Z.leb_spec half a), (Z.leb_spec half b);
    rewrite ?(total_key_pos f Hf a), ?(total_key_pos f Hf b),
            ?(total_key_neg f Hf a), ?(total_key_neg f Hf b) by lia;
    rewrite ?(Hn a), ?(Hn b), ?(Hp a), ?(Hp b) by lia;
    symmetry; destruct (Z.compare_spec a b); 
    first [apply Z.compare_lt_iff; lia | apply Z.compare_gt_iff; lia |
      destruct (Z.compare_spec (b - half) (a - half));
        first [apply Z.compare_eq_iff; lia | apply Z.compare_lt_iff; lia | apply Z.compare_gt_iff; lia] |
      reflexivity | idtac].
  all: try (apply Z.compare_eq_iff; lia).
  all: try (by subst; rewrite Z.compare_refl).
Qed.

Lemma unpack_nan a : 0 <= a -> is_nan f a = true -> unpack f a = S754_nan.
Proof.
  intros Ha Hn. unfold is_nan in Hn. apply Z.ltb_lt in Hn. unfold unpack, fields.
  pose proof (M_pos f Hf) as HM. pose proof (half_split f Hf) as Hh.
  assert (0 < 2 ^ exp_bits f) by (destruct Hf; apply Z.pow_pos_nonneg; lia).
  assert (0 <= magnitude f a < half) as Hm by (apply Z.mod_pos_bound; nia).
  assert ((a / M) mod 2 ^ exp_bits f = 2 ^ exp_bits f - 1 /\ a mod M <> 0) as [-> Hmod].
  { unfold magnitude, inf_magnitude in *. rewrite Hh in *. rewrite (Z.mul_comm (2 ^ exp_bits f)) in *.
    rewrite Z.rem_mul_r in * by lia. pose proof (Z.mod_pos_bound a M HM).
    pose proof (Z.mod_pos_bound (a / M) (2 ^ exp_bits f) ltac:(lia)).
    assert ((a / M) mod 2 ^ exp_bits f = 2 ^ exp_bits f - 1) by nia. split; [done|nia]. }
  rewrite Z.eqb_refl. by destruct (Z.eqb_spec (a mod M) 0).
Qed.

(** An IEEE comparison with a NaN operand is never true. *)
Lemma fcompare_nan a b :
  0 <= a -> 0 <= b -> is_nan f a = true \/ is_nan f b = true -> fcompare f a b = None.
Proof.
  intros Ha Hb [Hn|Hn]; unfold fcompare;
    [by rewrite (unpack_nan a Ha Hn)|rewrite (unpack_nan b Hb Hn)]. by destruct (unpack f a).
Qed.
End IeeeOrder.
