(* ===== verification/FloatFacts.v ===== *)
(** * FloatFacts: the results of rounding are valid bit patterns

    Every arithmetic operation ends in [binary_round_aux]; here its result is
    shown to be a zero, an infinity or a finite number of the format, so that
    packing it yields a bit pattern of the right width that is not a NaN. *)

From stdpp Require Import base numbers.
From Stdlib Require Import ZArith Lia Floats.SpecFloat.
From S2P Require Import Prelude Floats.

Lemma digits2_pos_bounds (p : positive) :
  2 ^ (Zpos (digits2_pos p) - 1) <= Zpos p < 2 ^ Zpos (digits2_pos p).
Proof.
  induction p as [p IH|p IH|]; cbn [digits2_pos]; [| |by compute].
  all: rewrite Pos2Z.inj_succ; replace (Z.succ (Zpos (digits2_pos p)) - 1) with (Zpos (digits2_pos p)) by lia;
    assert (2 ^ Zpos (digits2_pos p) = 2 * 2 ^ (Zpos (digits2_pos p) - 1)) as E
      by (rewrite <- Z.pow_succ_r by lia; f_equal; lia);
    rewrite Z.pow_succ_r by lia; lia.
Qed.

Lemma shr_m_shr_1 mrs : 0 <= shr_m mrs -> shr_m (shr_1 mrs) = shr_m mrs / 2.
Proof.
  destruct mrs as [m r s]. cbn [shr_m]. intros Hm.
  destruct m as [|[p|p|]|p]; cbn -[Z.div]; try lia; try done.
  - apply (Z.div_unique_pos _ _ _ 1); lia.
  - apply (Z.div_unique_pos _ _ _ 0); lia.
Qed.

Lemma shr_m_iter (n : positive) mrs :
  0 <= shr_m mrs -> shr_m (iter_pos shr_1 n mrs) = shr_m mrs / 2 ^ Zpos n.
Proof.
  revert mrs. induction n as [n IH|n IH|]; intros mrs Hm; cbn [iter_pos].
  - assert (0 <= shr_m (shr_1 mrs)) by (rewrite shr_m_shr_1 by done; apply Z.div_pos; lia).
    assert (0 < 2 ^ Zpos n) by (apply Z.pow_pos_nonneg; lia).
    rewrite IH by (rewrite IH by done; apply Z.div_pos; lia). rewrite IH, shr_m_shr_1 by done.
    rewrite !Z.div_div by lia. f_equal. rewrite (Pos2Z.inj_xI n).
    replace (2 * Z.pos n + 1) with (Z.pos n + Z.pos n + 1) by lia.
    rewrite !Z.pow_add_r by lia. change (2 ^ 1) with 2. ring.
  - assert (0 < 2 ^ Zpos n) by (apply Z.pow_pos_nonneg; lia).
    rewrite IH by (rewrite IH by done; apply Z.div_pos; lia). rewrite IH by done.
    rewrite Z.div_div by lia. f_equal. rewrite (Pos2Z.inj_xO n).
    replace (2 * Z.pos n) with (Z.pos n + Z.pos n) by lia. by rewrite Z.pow_add_r by lia.
  - by rewrite shr_m_shr_1.
Qed.

Section Valid.
Context (f : fmt) (Hf : wf_fmt f).
Abbreviation M := (2 ^ mant_bits f).
Abbreviation fexp := (SpecFloat.fexp (prec f) (emax f)).

(** A finite number, a zero or an infinity of the format. *)
Definition valid (x : spec_float) : Prop :=
  match x with
  | S754_nan => False
  | S754_finite _ m e =>
      Zpos m < 2 * M /\ ulp_min f <= e <= emax f - prec f /\ (e = ulp_min f \/ M <= Zpos m)
  | _ => True
  end.

Lemma fexp_eq e : fexp e = Z.max (e - prec f) (ulp_min f).
Proof. unfold SpecFloat.fexp, emin, ulp_min. done. Qed.

Lemma prec_pow : 2 ^ prec f = 2 * M.
Proof. unfold prec. destruct Hf. rewrite Z.pow_add_r by lia. change (2 ^ 1) with 2. lia. Qed.

(** Rounding to the format's grid, from a location at or below it. *)
Lemma shr_fexp_spec m e l :
  0 <= m -> e <= fexp (Zdigits2 m + e) ->
  exists mrs, shr_fexp (prec f) (emax f) m e l = (mrs, fexp (Zdigits2 m + e)) /\
    shr_m mrs = m / 2 ^ (fexp (Zdigits2 m + e) - e).
Proof.
  intros Hm He. unfold shr_fexp, shr.
  assert (shr_m (shr_record_of_loc m l) = m) as Hsm by (destruct l as [|[]]; done).
  destruct (fexp (Zdigits2 m + e) - e) as [|n|n] eqn:E; [| |lia].
  - exists (shr_record_of_loc m l). rewrite Hsm, Z.div_1_r. split; [f_equal; lia|done].
  - eexists. split; [f_equal; lia|]. rewrite shr_m_iter by (rewrite Hsm; done). by rewrite Hsm.
Qed.

Lemma round_range m l : m <= round_nearest_even m l <= m + 1.
Proof. destruct l as [|[]]; simpl; try lia. destruct (Z.even m); lia. Qed.

Lemma rounded_significand m e :
  0 < m -> e <= fexp (Zdigits2 m + e) ->
  let e1 := fexp (Zdigits2 m + e) in
  let m1 := m / 2 ^ (e1 - e) in
  0 <= m1 < 2 * M /\ ulp_min f <= e1 /\ (e1 = ulp_min f \/ M <= m1).
Proof.
  intros Hm He e1 m1. subst m1.
  destruct m as [|p|p]; [lia| |lia]. cbn [Zdigits2] in *.
  pose proof (digits2_pos_bounds p) as Hp. pose proof prec_pow as HP.
  assert (0 < prec f) by (unfold prec; destruct Hf; lia).
  rewrite fexp_eq in *. set (d := Zpos (digits2_pos p)) in *.
  assert (e1 = Z.max (d + e - prec f) (ulp_min f)) as E1 by apply fexp_eq.
  split; [|split; [lia|]].
  - split; [apply Z.div_pos; [lia|apply Z.pow_pos_nonneg; lia]|].
    apply Z.div_lt_upper_bound; [apply Z.pow_pos_nonneg; lia|].
    rewrite <- HP, <- Z.pow_add_r by lia.
    eapply Z.lt_le_trans; [apply Hp|]. apply Z.pow_le_mono_r; lia.
  - destruct (Z.eq_dec e1 (ulp_min f)); [by left|right].
    assert (e1 - e = d - prec f) as -> by lia.
    apply Z.div_le_lower_bound; [apply Z.pow_pos_nonneg; lia|].
    rewrite <- Z.pow_add_r by (destruct Hf; unfold prec in *; lia).
    eapply Z.le_trans; [|apply Hp]. apply Z.pow_le_mono_r; unfold prec in *; lia.
Qed.

Lemma binary_round_aux_valid s m e l :
  0 < m -> e <= fexp (Zdigits2 m + e) -> valid (binary_round_aux (prec f) (emax f) s m e l).
Proof.
  intros Hm He. unfold binary_round_aux.
  destruct (shr_fexp_spec m e l) as (mrs & -> & Hmrs); [lia|done|].
  pose proof (rounded_significand m e Hm He) as HR. cbn zeta in HR. rewrite <- Hmrs in HR.
  set (e1 := fexp (Zdigits2 m + e)) in *. destruct HR as (Hm1 & He1 & Hc1).
  pose proof (round_range (shr_m mrs) (loc_of_shr_record mrs)) as Hr.
  set (m2 := round_nearest_even _ _) in *.
  pose proof (M_pos f Hf) as HM. pose proof prec_pow as HP.
  assert (0 < prec f) by (unfold prec; destruct Hf; lia).
  destruct m2 as [|p|p] eqn:Em2; [| |lia].
  { unfold shr_fexp. cbn [Zdigits2]. rewrite fexp_eq.
    assert (Z.max (0 + e1 - prec f) (ulp_min f) - e1 <= 0) by lia.
    unfold shr. destruct (Z.max (0 + e1 - prec f) (ulp_min f) - e1); [done|lia|done]. }
  unfold shr_fexp. cbn [Zdigits2]. rewrite fexp_eq.
  pose proof (digits2_pos_bounds p) as Hp. set (d := Zpos (digits2_pos p)) in *.
  assert (d <= prec f + 1).
  { assert (d - 1 < prec f + 1); [|lia]. apply (Z.pow_lt_mono_r_iff 2); [lia|lia|].
    rewrite Z.pow_add_r by lia. change (2 ^ 1) with 2. lia. }
  destruct (Z.max (d + e1 - prec f) (ulp_min f) - e1) as [|n|n] eqn:En.
  - cbn [shr shr_record_of_loc shr_m]. destruct (Z.leb_spec e1 (emax f - prec f)); [|done].
    assert (d <= prec f) by lia.
    assert (2 ^ d <= 2 ^ prec f) by (apply Z.pow_le_mono_r; lia).
    cbn [valid]. split; [lia|]. split; [lia|]. destruct Hc1; [by left|right; lia].
  - assert (d = prec f + 1 /\ n = 1%positive) as [Hd ->] by lia.
    assert (Zpos p = 2 * M) as Hp2.
    { replace (d - 1) with (prec f) in Hp by lia. lia. }
    assert (exists q, Zpos p = Zpos q~0) as [q Hq].
    { destruct p as [q|q|]; [|by exists q|]; lia. }
    injection Hq as ->. cbn.
    destruct (Z.leb_spec (e1 + 1) (emax f - prec f)); [|done].
    cbn [valid]. split; [lia|]. split; [lia|]. right. lia.
  - cbn [shr shr_record_of_loc shr_m]. destruct (Z.leb_spec e1 (emax f - prec f)); [|done].
    assert (d <= prec f) by lia.
    assert (2 ^ d <= 2 ^ prec f) by (apply Z.pow_le_mono_r; lia).
    cbn [valid]. split; [lia|]. split; [lia|]. destruct Hc1; [by left|right; lia].
Qed.

Lemma digits2_shift p (d : positive) :
  digits2_pos (Pos.iter xO p d) = (digits2_pos p + d)%positive.
Proof.
  induction d as [|d IH] using Pos.peano_ind; cbn [Pos.iter digits2_pos]; [lia|].
  rewrite Pos.iter_succ. cbn [digits2_pos]. rewrite IH. lia.
Qed.

Lemma binary_round_valid s p e : valid (binary_round (prec f) (emax f) s p e).
Proof.
  unfold binary_round, shl_align.
  destruct (fexp (Zpos (digits2_pos p) + e) - e) as [|n|n] eqn:En;
    apply binary_round_aux_valid; cbn [Zdigits2]; try lia.
  rewrite digits2_shift. rewrite !fexp_eq in *. lia.
Qed.

Lemma binary_normalize_valid z e s : valid (binary_normalize (prec f) (emax f) z e s).
Proof. destruct z; [done|apply binary_round_valid|apply binary_round_valid]. Qed.

Lemma emax_pow : 2 * emax f = 2 ^ exp_bits f.
Proof. unfold emax. destruct Hf. rewrite <- Z.pow_succ_r by lia. f_equal. lia. Qed.

Lemma pack_valid `{FloatEnv} x : valid x -> in_u (width f) (pack f x) /\ is_nan f (pack f x) = false.
Proof.
  intros Hv. unfold in_u, is_nan. rewrite (width_split f Hf), Z.ltb_ge.
  pose proof (half_split f Hf) as Hh. pose proof (M_pos f Hf) as HM. pose proof emax_pow as HE.
  pose proof (half_pos f Hf) as HH. set (half := 2 ^ (width f - 1)) in *.
  assert (2 <= emax f) by (unfold emax; destruct Hf; change 2 with (2 ^ 1) at 1; apply Z.pow_le_mono_r; lia).
  assert (forall s mag, 0 <= mag <= inf_magnitude f ->
            0 <= sign_bit f s + mag < 2 * half /\ magnitude f (sign_bit f s + mag) <= inf_magnitude f) as Hm.
  { intros s mag Hmag. unfold inf_magnitude in *. unfold magnitude. fold half.
    assert (mag < half) by nia. destruct s; cbn [sign_bit]; fold half.
    - split; [lia|]. replace (half + mag) with (mag + 1 * half) by lia.
      rewrite Z.mod_add, Z.mod_small by lia. lia.
    - split; [lia|]. rewrite Z.mod_small by lia. lia. }
  unfold inf_magnitude in Hm. destruct x as [s|s| |s m e]; cbn [pack valid] in *; [|by apply Hm; nia|done|].
  - replace (sign_bit f s) with (sign_bit f s + 0) by lia. apply Hm. nia.
  - destruct Hv as (H1 & H2 & H3).
    assert (emax f - prec f - ulp_min f = 2 * emax f - 3) as Hr by (unfold ulp_min; lia).
    destruct (Z.ltb_spec (Zpos m) M); [apply Hm; nia|].
    rewrite <- Z.add_assoc. apply Hm. nia.
Qed.

(** [iN as fN] is never a NaN. *)
Lemma of_int_valid `{FloatEnv} z : in_u (width f) (of_int f z) /\ is_nan f (of_int f z) = false.
Proof. apply pack_valid, binary_normalize_valid. Qed.
End Valid.
