(* ===== verification/Ranking.v ===== *)
(** * Ranking: sorting, bounded heaps and the merge of ranked lists

    The standard-library pieces the searches are built from: comparators
    ([Ordering], [then_with], [reverse]), [sort_unstable_by], [dedup_by], and
    [BinaryHeap] as the bounded best-[k] buffer.  A comparator is a function
    to [comparison] with the laws of a total preorder ([TotalCmp]). *)

From stdpp Require Import base gmap list sorting strings.
From Stdlib Require Import ZArith Lia.
From Stdlib Require Ascii String.
From S2P Require Import Prelude.

(** ** Comparators *)

Class TotalCmp {A : Type} (cmp : A -> A -> comparison) : Prop := {
  cmp_antisym x y : cmp y x = CompOpp (cmp x y);
  cmp_trans x y z : cmp x y <> Gt -> cmp y z <> Gt -> cmp x z <> Gt
}.
Arguments cmp_antisym {A} cmp {_} x y.
Arguments cmp_trans {A} cmp {_} x y z _ _.

(** [a.cmp(b).then_with(|| ...)] *)
Definition then_with {A : Type} (c1 c2 : A -> A -> comparison) (x y : A) : comparison :=
  match c1 x y with Eq => c2 x y | r => r end.
Definition cmp_on {A B : Type} (f : A -> B) (c : B -> B -> comparison) (x y : A) : comparison := c (f x) (f y).
Definition cmp_rev {A : Type} (c : A -> A -> comparison) (x y : A) : comparison := c y x.

#[global] Typeclasses Opaque then_with cmp_on cmp_rev.

Section Laws.
Context {A : Type} (cmp : A -> A -> comparison) `{!TotalCmp cmp}.

Lemma cmp_refl x : cmp x x = Eq.
Proof. pose proof (cmp_antisym cmp x x) as H. by destruct (cmp x x). Qed.

Lemma cmp_gt_lt x y : cmp x y = Gt <-> cmp y x = Lt.
Proof. rewrite (cmp_antisym cmp x y). by destruct (cmp x y). Qed.

Lemma cmp_le_total x y : cmp x y <> Gt \/ cmp y x <> Gt.
Proof. rewrite (cmp_antisym cmp x y). destruct (cmp x y); naive_solver. Qed.

Lemma cmp_not_lt_ge x y : cmp x y <> Lt -> cmp y x <> Gt.
Proof. rewrite (cmp_antisym cmp x y). destruct (cmp x y); naive_solver. Qed.

Lemma cmp_lt_trans x y z : cmp x y = Lt -> cmp y z <> Gt -> cmp x z = Lt.
Proof.
  intros H1 H2. destruct (cmp x z) eqn:E; [exfalso|done|exfalso].
  - assert (cmp z x <> Gt) as H3 by (rewrite (cmp_antisym cmp x z), E; done).
    pose proof (cmp_trans cmp y z x H2 H3) as H4. apply H4. by rewrite cmp_gt_lt.
  - eapply (cmp_trans cmp x y z); [by rewrite H1|done|done].
Qed.

Lemma cmp_eq_trans x y z : cmp x y = Eq -> cmp y z = Eq -> cmp x z = Eq.
Proof.
  intros H1 H2.
  assert (cmp x z <> Gt) as H3 by (eapply (cmp_trans cmp x y z); congruence).
  assert (cmp z x <> Gt) as H4
    by (eapply (cmp_trans cmp z y x); rewrite (cmp_antisym cmp); [rewrite H2|rewrite H1]; done).
  rewrite (cmp_antisym cmp x z) in H4. by destruct (cmp x z).
Qed.
End Laws.

#[global] Instance cmp_on_total {A B} (f : A -> B) (c : B -> B -> comparison) :
  TotalCmp c -> TotalCmp (cmp_on f c).
Proof. intros H. constructor; unfold cmp_on; [intros; apply (cmp_antisym c)|intros x y z; apply (cmp_trans c)]. Qed.

#[global] Instance cmp_rev_total {A} (c : A -> A -> comparison) : TotalCmp c -> TotalCmp (cmp_rev c).
Proof. intros H. constructor; unfold cmp_rev; [intros; apply (cmp_antisym c)|intros x y z ??; by apply (cmp_trans c z y x)]. Qed.

#[global] Instance then_with_total {A} (c1 c2 : A -> A -> comparison) :
  TotalCmp c1 -> TotalCmp c2 -> TotalCmp (then_with c1 c2).
Proof.
  intros H1 H2. constructor; unfold then_with.
  - intros x y. rewrite (cmp_antisym c1 x y), (cmp_antisym c2 x y). by destruct (c1 x y).
  - intros x y z Hxy Hyz.
    assert (c1 x y <> Gt) as L1 by (by destruct (c1 x y)).
    assert (c1 y z <> Gt) as L2 by (by destruct (c1 y z)).
    pose proof (cmp_trans c1 _ _ _ L1 L2) as L3.
    destruct (c1 x z) eqn:E; try done.
    assert (c1 z x = Eq) as Ezx by (by rewrite (cmp_antisym c1 x z), E).
    assert (c1 x y = Eq) as Exy.
    { assert (c1 y x <> Gt) by (eapply (cmp_trans c1 y z x); congruence).
      rewrite (cmp_antisym c1 x y) in *. by destruct (c1 x y). }
    assert (c1 y z = Eq) as Eyz.
    { assert (c1 z y <> Gt) by (eapply (cmp_trans c1 z x y); congruence).
      rewrite (cmp_antisym c1 y z) in *. by destruct (c1 y z). }
    rewrite Exy in Hxy. rewrite Eyz in Hyz. by eapply (cmp_trans c2).
Qed.

#[global] Instance Zcompare_total : TotalCmp Z.compare.
Proof.
  constructor; [intros; apply Z.compare_antisym|].
  intros x y z. change (x <= y -> y <= z -> x <= z). lia.
Qed.

(** [str::cmp]: lexicographic on the bytes. *)
Definition str_cmp : string -> string -> comparison := String.compare.
#[global] Typeclasses Opaque str_cmp.

Lemma str_cmp_eq s1 s2 : str_cmp s1 s2 = Eq <-> s1 = s2.
Proof.
  split; [apply String.compare_eq_iff|intros ->]. unfold str_cmp.
  induction s2 as [|a s IH]; simpl; [done|]. unfold Ascii.compare. by rewrite N.compare_refl.
Qed.

Lemma ascii_compare_trans a b c :
  Ascii.compare a b <> Gt -> Ascii.compare b c <> Gt -> Ascii.compare a c <> Gt.
Proof.
  unfold Ascii.compare. change (Ascii.N_of_ascii a <= Ascii.N_of_ascii b -> Ascii.N_of_ascii b <= Ascii.N_of_ascii c -> Ascii.N_of_ascii a <= Ascii.N_of_ascii c)%N. lia.
Qed.

#[global] Instance str_cmp_total : TotalCmp str_cmp.
Proof.
  assert (TotalCmp Ascii.compare) as Ha.
  { constructor; [intros; apply Ascii.compare_antisym|apply ascii_compare_trans]. }
  constructor; [intros; apply String.compare_antisym|].
  unfold str_cmp. intros x. induction x as [|a x IH]; intros [|b y] [|c z]; simpl; try done.
  intros H1 H2.
  assert (Ascii.compare a b <> Gt) as L1 by (by destruct (Ascii.compare a b)).
  assert (Ascii.compare b c <> Gt) as L2 by (by destruct (Ascii.compare b c)).
  pose proof (cmp_trans Ascii.compare _ _ _ L1 L2) as L3.
  destruct (Ascii.compare a c) eqn:E; try done.
  apply Ascii.compare_eq_iff in E. subst c.
  assert (Ascii.compare a b = Eq) as Eab.
  { rewrite (cmp_antisym Ascii.compare a b) in L2. by destruct (Ascii.compare a b). }
  apply Ascii.compare_eq_iff in Eab as Eab'. subst b. rewrite Eab in H1, H2. eapply IH; eauto.
Qed.

(** ** Sorting *)

Section Sorting.
Context {A : Type} (cmp : A -> A -> comparison).

Fixpoint insert_by (x : A) (l : list A) : list A :=
  match l with
  | [] => [x]
  | y :: l' => match cmp x y with Lt => x :: l | _ => y :: insert_by x l' end
  end.

(** [slice::sort_unstable_by]; elements the comparator equates keep their
    order here. *)
Definition sort_by (l : list A) : list A := fold_left (fun s x => insert_by x s) l [].

Definition le_by (x y : A) : Prop := cmp x y <> Gt.

(** [Vec::dedup_by] on a key: drop an element equal to the one kept before it. *)
Fixpoint dedup_by {K : Type} `{EqDecision K} (key : A -> K) (prev : option K) (l : list A) : list A :=
  match l with
  | [] => []
  | x :: l' => if decide (prev = Some (key x)) then dedup_by key prev l'
               else x :: dedup_by key (Some (key x)) l'
  end.

(** [BinaryHeap]: the elements in increasing order, the maximum last. *)
Definition heap_push (x : A) (h : list A) : list A := insert_by x h.
Definition heap_peek (h : list A) : option A := last h.
Definition heap_pop (h : list A) : list A := removelast h.

(** One turn of the bounded best-[k] loop: push while there is room, replace
    the maximum when the candidate ranks before it. *)
Definition topk_step (k : Z) (heap : list A) (x : A) : list A :=
  if Z.ltb (zlen heap) k then heap_push x heap
  else match heap_peek heap with
       | Some worst => match cmp x worst with
                       | Lt => heap_push x (heap_pop heap)
                       | _ => heap
                       end
       | None => heap
       end.
Definition topk (k : Z) (l : list A) : list A := sort_by (fold_left (topk_step k) l []).
End Sorting.

Section SortingFacts.
Context {A : Type} (cmp : A -> A -> comparison) `{!TotalCmp cmp}.
Implicit Types (l s : list A) (x y : A) (k : nat).

Lemma insert_by_perm x l : insert_by cmp x l ≡ₚ x :: l.
Proof.
  induction l as [|y l IH]; simpl; [done|].
  destruct (cmp x y); [|done|]; rewrite IH; apply Permutation_swap.
Qed.

Lemma fold_insert_perm l s : fold_left (fun s x => insert_by cmp x s) l s ≡ₚ l ++ s.
Proof.
  revert s. induction l as [|x l IH]; intros s; simpl; [done|].
  rewrite IH, insert_by_perm. by rewrite Permutation_middle.
Qed.

Lemma sort_by_perm l : sort_by cmp l ≡ₚ l.
Proof. unfold sort_by. rewrite fold_insert_perm. by rewrite app_nil_r. Qed.

Lemma length_sort_by l : length (sort_by cmp l) = length l.
Proof. by rewrite sort_by_perm. Qed.

Lemma elem_of_sort_by x l : x ∈ sort_by cmp l <-> x ∈ l.
Proof. by rewrite sort_by_perm. Qed.

Lemma insert_by_sorted x s :
  StronglySorted (le_by cmp) s -> StronglySorted (le_by cmp) (insert_by cmp x s).
Proof.
  induction 1 as [|y s Hs IH Hy]; simpl; [by repeat constructor|].
  destruct (cmp x y) eqn:E.
  - constructor; [done|]. rewrite insert_by_perm. constructor; [|done].
    unfold le_by. by rewrite (cmp_antisym cmp x y), E.
  - constructor; [by constructor|]. constructor; [unfold le_by; by rewrite E|].
    eapply Forall_impl; [exact Hy|]. intros z Hz. eapply (cmp_trans cmp); [|exact Hz]. by rewrite E.
  - constructor; [done|]. rewrite insert_by_perm. constructor; [|done].
    unfold le_by. by rewrite (cmp_antisym cmp x y), E.
Qed.

Lemma sort_by_sorted l : StronglySorted (le_by cmp) (sort_by cmp l).
Proof.
  unfold sort_by. assert (StronglySorted (le_by cmp) ([] : list A)) as H by constructor.
  revert H. generalize (@nil A) as s. induction l as [|x l IH]; intros s Hs; simpl; [done|].
  apply IH. by apply insert_by_sorted.
Qed.

Lemma sort_by_snoc l x : sort_by cmp (l ++ [x]) = insert_by cmp x (sort_by cmp l).
Proof. unfold sort_by. by rewrite fold_left_app. Qed.

(** The comparator separates the elements of a list. *)
Definition separates l : Prop := forall x y, x ∈ l -> y ∈ l -> cmp x y = Eq -> x = y.

Lemma separates_perm l1 l2 : l1 ≡ₚ l2 -> separates l1 -> separates l2.
Proof. intros Hp H x y Hx Hy. apply H; by rewrite Hp. Qed.

Lemma separates_sub l1 l2 : l2 ⊆ l1 -> separates l1 -> separates l2.
Proof. intros Hs H x y Hx Hy. apply H; by apply Hs. Qed.

Lemma sorted_unique s1 s2 :
  separates s1 -> s1 ≡ₚ s2 -> StronglySorted (le_by cmp) s1 -> StronglySorted (le_by cmp) s2 -> s1 = s2.
Proof.
  intros Hu Hp H1 H2. apply (StronglySorted_unique_strong (le_by cmp)); try done.
  intros x y Hx Hy Hxy Hyx. apply Hu; [done|by rewrite Hp|].
  unfold le_by in *. rewrite (cmp_antisym cmp x y) in Hyx. by destruct (cmp x y).
Qed.

(** Sorting does not depend on the order of the input. *)
Lemma sort_by_perm_eq l1 l2 : separates l1 -> l1 ≡ₚ l2 -> sort_by cmp l1 = sort_by cmp l2.
Proof.
  intros Hu Hp. apply sorted_unique; try apply sort_by_sorted.
  - eapply separates_perm; [|exact Hu]. by rewrite sort_by_perm.
  - by rewrite !sort_by_perm.
Qed.

Lemma sort_by_id s : StronglySorted (le_by cmp) s -> separates s -> sort_by cmp s = s.
Proof.
  intros Hs Hu. apply sorted_unique; [|apply sort_by_perm|apply sort_by_sorted|done].
  eapply separates_perm; [|exact Hu]. by rewrite sort_by_perm.
Qed.

Lemma last_sorted_ge x s w :
  StronglySorted (le_by cmp) s -> last s = Some w -> x ∈ s -> cmp x w <> Gt.
Proof.
  intros Hs Hw Hx. apply last_Some in Hw as [l' ->].
  apply elem_of_app in Hx as [Hx|Hx].
  - by eapply (StronglySorted_app_1_elem_of (le_by cmp) l' [w]); [| |apply list_elem_of_singleton].
  - apply list_elem_of_singleton in Hx as ->. by rewrite (cmp_refl cmp).
Qed.

Lemma sorted_take k s : StronglySorted (le_by cmp) s -> StronglySorted (le_by cmp) (take k s).
Proof.
  intros Hs. rewrite <- (take_drop k s) in Hs. by apply StronglySorted_app_1_l in Hs.
Qed.
End SortingFacts.

(** ** The bounded heap computes a prefix of the sorted list *)

Section TopK.
Context {A : Type} (cmp : A -> A -> comparison) `{!TotalCmp cmp}.
Implicit Types (l s : list A) (x y : A) (k : nat).

Lemma take_insert_by k x s :
  StronglySorted (le_by cmp) s ->
  take k (insert_by cmp x s) =
    if decide (length s < k)%nat then insert_by cmp x s
    else match last (take k s) with
         | Some w => match cmp x w with
                     | Lt => insert_by cmp x (take (pred k) s)
                     | _ => take k s
                     end
         | None => []
         end.
Proof.
  intros Hs. revert k. induction Hs as [|y s Hs IH Hy]; intros [|k]; simpl; try done.
  { by destruct k. }
  destruct (cmp x y) eqn:E.
  1,3: simpl; rewrite IH; destruct (decide (length s < k)%nat), (decide (S (length s) < S k)%nat);
    try lia; try done;
    destruct k as [|k]; simpl; [by rewrite E|];
    destruct s as [|z s]; simpl in *; [lia|];
    change (last (y :: z :: take k s)) with (last (z :: take k s));
    destruct (last (z :: take k s)) as [w|] eqn:Ew; [|by apply last_None in Ew];
    destruct (cmp x w); rewrite ?E; done.
  destruct (decide (S (length s) < S k)%nat).
  { rewrite take_ge; [done|simpl; lia]. }
  destruct (last (y :: take k s)) as [w|] eqn:Ew; [|by apply last_None in Ew].
  assert (cmp x w = Lt) as ->.
  { eapply (cmp_lt_trans cmp); [exact E|].
    eapply (last_sorted_ge cmp y (y :: take k s)); [|done|left].
    apply (sorted_take cmp (S k) (y :: s)). by constructor. }
  destruct k as [|k]; simpl; [done|]. by rewrite E.
Qed.

Lemma removelast_take k s : (0 < k <= length s)%nat -> removelast (take k s) = take (pred k) s.
Proof.
  revert s. induction k as [|k IH]; intros [|x s] H; simpl in *; try lia.
  destruct k as [|k]; [done|]. destruct s as [|y s]; [simpl in *; lia|].
  cbn [take]. change (removelast (x :: y :: take k s)) with (x :: removelast (y :: take k s)).
  f_equal. apply (IH (y :: s)). simpl in *. lia.
Qed.

Lemma topk_step_sorted k x s :
  StronglySorted (le_by cmp) s ->
  topk_step cmp (Z.of_nat k) (take k s) x = take k (insert_by cmp x s).
Proof.
  intros Hs. rewrite take_insert_by by done. unfold topk_step, heap_peek, heap_push, heap_pop.
  assert (zlen (take k s) = Z.of_nat (Nat.min k (length s))) as Hl.
  { unfold zlen. by rewrite length_take. }
  rewrite Hl. destruct (Z.ltb_spec (Z.of_nat (k `min` length s)) (Z.of_nat k)) as [Hk|Hk].
  { rewrite decide_True by lia. by rewrite take_ge by lia. }
  rewrite decide_False by lia.
  destruct (last (take k s)) as [w|] eqn:Ew; [|by apply last_None in Ew].
  destruct (cmp x w); try done. f_equal. destruct k as [|k]; [done|].
  apply removelast_take. lia.
Qed.

Lemma topk_loop k l l0 :
  fold_left (topk_step cmp (Z.of_nat k)) l (take k (sort_by cmp l0)) = take k (sort_by cmp (l0 ++ l)).
Proof.
  revert l0. induction l as [|x l IH]; intros l0; simpl; [by rewrite app_nil_r|].
  rewrite topk_step_sorted by apply sort_by_sorted, _.
  rewrite <- sort_by_snoc, IH. by rewrite <- app_assoc.
Qed.

(** The heap loop leaves the first [k] elements of the sorted input. *)
Lemma topk_heap k l :
  fold_left (topk_step cmp (Z.of_nat k)) l [] = take k (sort_by cmp l).
Proof.
  pose proof (topk_loop k l []) as H. simpl in H. unfold sort_by in H at 1. simpl in H.
  by rewrite take_nil in H.
Qed.

Lemma topk_spec (k : Z) l :
  0 <= k -> separates cmp l -> topk cmp k l = truncate k (sort_by cmp l).
Proof.
  intros Hk Hu. unfold topk, truncate.
  replace k with (Z.of_nat (Z.to_nat k)) at 1 by lia. rewrite topk_heap.
  apply sort_by_id; [done|apply sorted_take, sort_by_sorted, _|].
  eapply separates_sub; [|exact Hu]. intros x Hx%elem_of_take_list. by rewrite elem_of_sort_by in Hx.
Qed.

Lemma take_insert_take k x s :
  StronglySorted (le_by cmp) s -> take k (insert_by cmp x (take k s)) = take k (insert_by cmp x s).
Proof.
  intros Hs. rewrite !take_insert_by by (try apply sorted_take; done).
  rewrite length_take, !take_take, Nat.min_id.
  destruct (decide (length s < k)%nat).
  - rewrite decide_True by lia. by rewrite take_ge by lia.
  - rewrite decide_False by lia. by replace (pred k `min` k)%nat with (pred k) by lia.
Qed.

Lemma take_sort_app_l k l1 l2 :
  separates cmp l1 ->
  take k (sort_by cmp (take k (sort_by cmp l1) ++ l2)) = take k (sort_by cmp (l1 ++ l2)).
Proof.
  intros Hu. induction l2 as [|x l2 IH] using rev_ind.
  - rewrite !app_nil_r. rewrite sort_by_id; [by rewrite take_take, Nat.min_id|done| |].
    + apply sorted_take, sort_by_sorted, _.
    + eapply separates_sub; [|exact Hu]. intros x Hx%elem_of_take_list.
      by rewrite elem_of_sort_by in Hx.
  - rewrite !app_assoc, !sort_by_snoc.
    rewrite <- take_insert_take by apply sort_by_sorted, _. rewrite IH.
    by rewrite take_insert_take by apply sort_by_sorted, _.
Qed.

Lemma sort_app_comm l1 l2 :
  separates cmp (l1 ++ l2) -> sort_by cmp (l1 ++ l2) = sort_by cmp (l2 ++ l1).
Proof. intros Hu. apply sort_by_perm_eq; [done|done|]. apply Permutation_app_comm. Qed.

Lemma take_sort_app_r k l1 l2 :
  separates cmp (l1 ++ l2) ->
  take k (sort_by cmp (l1 ++ take k (sort_by cmp l2))) = take k (sort_by cmp (l1 ++ l2)).
Proof.
  intros Hu. rewrite (sort_app_comm l1 l2) by done.
  rewrite <- (take_sort_app_l k l2 l1).
  - f_equal. apply sort_app_comm. eapply separates_sub; [|exact Hu].
    intros x [Hx|Hx]%elem_of_app; apply elem_of_app; [by left|right].
    apply elem_of_take_list in Hx. by rewrite elem_of_sort_by in Hx.
  - eapply separates_sub; [|exact Hu]. intros x Hx. apply elem_of_app. by right.
Qed.

(** The best [k] of a union are the best [k] of the parts' best [k]. *)
Lemma take_sort_concat k (ls : list (list A)) :
  separates cmp (concat ls) ->
  take k (sort_by cmp (concat (map (fun l => take k (sort_by cmp l)) ls))) =
  take k (sort_by cmp (concat ls)).
Proof.
  induction ls as [|l ls IH]; intros Hu; [done|]. cbn [map concat] in *.
  assert (separates cmp (concat ls)) as Hls.
  { eapply separates_sub; [|exact Hu]. intros x Hx. apply elem_of_app. by right. }
  assert (separates cmp l) as Hl.
  { eapply separates_sub; [|exact Hu]. intros x Hx. apply elem_of_app. by left. }
  rewrite take_sort_app_l by done.
  assert (forall m, m ∈ ls -> take k (sort_by cmp m) ⊆ m) as Hsub.
  { intros m _ x Hx%elem_of_take_list. by rewrite elem_of_sort_by in Hx. }
  assert (concat (map (fun l => take k (sort_by cmp l)) ls) ⊆ concat ls) as Hc.
  { clear -Hsub. induction ls as [|m ls IH]; [done|]. cbn [map concat].
    intros x [Hx|Hx]%elem_of_app; apply elem_of_app; [left; eapply Hsub; [by left|done]|right].
    apply IH; [|done]. intros m' Hm'. apply Hsub. by right. }
  rewrite <- take_sort_app_r.
  - rewrite IH by done. by apply take_sort_app_r.
  - eapply separates_sub; [|exact Hu]. intros x [Hx|Hx]%elem_of_app; apply elem_of_app; auto.
Qed.
End TopK.

(** ** Reading a ranked prefix *)

Lemma map_insert_by {A B} (f : A -> B) (c : B -> B -> comparison) x l :
  map f (insert_by (cmp_on f c) x l) = insert_by c (f x) (map f l).
Proof.
  induction l as [|y l IH]; [done|]. cbn [insert_by map]. unfold cmp_on at 1.
  destruct (c (f x) (f y)); cbn [map]; by rewrite ?IH.
Qed.

Lemma map_sort_by {A B} (f : A -> B) (c : B -> B -> comparison) l :
  map f (sort_by (cmp_on f c) l) = sort_by c (map f l).
Proof.
  induction l as [|x l IH] using rev_ind; [done|].
  by rewrite sort_by_snoc, map_app, map_insert_by, IH, <- sort_by_snoc.
Qed.

(** What is cut off ranks after everything kept. *)
Lemma truncate_sort_best {A} (cmp : A -> A -> comparison) `{!TotalCmp cmp} (k : Z) l x y :
  x ∈ truncate k (sort_by cmp l) -> y ∈ l -> y ∉ truncate k (sort_by cmp l) -> cmp x y <> Gt.
Proof.
  unfold truncate. intros Hx Hy Hn. pose proof (sort_by_sorted cmp l) as Hs.
  rewrite <- (elem_of_sort_by cmp) in Hy.
  rewrite <- (take_drop (Z.to_nat k) (sort_by cmp l)) in Hs, Hy.
  apply elem_of_app in Hy as [Hy|Hy]; [done|].
  by eapply (StronglySorted_app_1_elem_of (le_by cmp)) in Hs; [exact Hs| |].
Qed.

Lemma zlen_truncate_sort {A} (cmp : A -> A -> comparison) (k : Z) l :
  0 <= k -> zlen (truncate k (sort_by cmp l)) = Z.min k (zlen l).
Proof. intros Hk. unfold zlen, truncate. rewrite length_take, length_sort_by. lia. Qed.

(** A duplicate-free part of [l2] that has its best [k] has the same best [k]. *)
Lemma take_sort_between {A} (cmp : A -> A -> comparison) `{!TotalCmp cmp} (k : nat) l1 l2 :
  separates cmp l2 -> NoDup l1 -> NoDup l2 -> l1 ⊆ l2 -> take k (sort_by cmp l2) ⊆ l1 ->
  take k (sort_by cmp l1) = take k (sort_by cmp l2).
Proof.
  intros Hu Hn1 Hn2 H12 Hk. pose proof (sort_by_sorted cmp l2) as Hs. set (s := sort_by cmp l2) in *.
  assert (NoDup s) as Hns by (unfold s; by rewrite sort_by_perm).
  rewrite <- (take_drop k s) in Hns, Hs. apply NoDup_app in Hns as (HnT & Hdisj & _).
  destruct (submseteq_Permutation (take k s) l1) as [R HR]; [by apply NoDup_submseteq|].
  assert (R ⊆ drop k s) as HRD.
  { intros x Hx. assert (x ∈ s) as Hxs by (unfold s; rewrite elem_of_sort_by; apply H12; rewrite HR; set_solver).
    rewrite <- (take_drop k s) in Hxs. apply elem_of_app in Hxs as [Hxs|]; [|done].
    rewrite HR in Hn1. apply NoDup_app in Hn1 as (_ & Hn & _). by destruct (Hn x Hxs). }
  assert (sort_by cmp l1 = take k s ++ sort_by cmp R) as ->.
  { apply (sorted_unique cmp).
    - eapply separates_sub; [|exact Hu]. intros x Hx. apply H12. by rewrite elem_of_sort_by in Hx.
    - by rewrite !sort_by_perm.
    - apply sort_by_sorted, _.
    - apply StronglySorted_app. split; [|split; [by apply StronglySorted_app_1_l in Hs|apply sort_by_sorted, _]].
      intros x y Hx Hy. apply (StronglySorted_app_1_elem_of (le_by cmp) (take k s) (drop k s)); [done|done|].
      apply HRD. by rewrite elem_of_sort_by in Hy. }
  destruct (decide (length s <= k)%nat) as [Hl|Hl].
  - rewrite (drop_ge s k Hl) in HRD. assert (R = []) as -> by (apply list_nil_subseteq, HRD). by rewrite app_nil_r, take_take, Nat.min_id.
  - rewrite take_app_le by (rewrite length_take; lia). by rewrite take_take, Nat.min_id.
Qed.

(** ** Removing duplicates from a ranked list *)

Section Dedup.
Context {A K : Type} (cmp : A -> A -> comparison) `{!TotalCmp cmp} `{EqDecision K} (key : A -> K).
Implicit Types (l s : list A) (x y : A).

(** Two elements with the same key are the same element. *)
Definition keyed l : Prop := forall x y, x ∈ l -> y ∈ l -> key x = key y -> x = y.

Lemma keyed_sub l1 l2 : l2 ⊆ l1 -> keyed l1 -> keyed l2.
Proof. intros Hs H x y Hx Hy. apply H; by apply Hs. Qed.

Lemma dedup_by_subset prev l : dedup_by key prev l ⊆ l.
Proof.
  revert prev. induction l as [|x l IH]; intros prev y; simpl; [done|].
  case_decide.
  - intros Hy%IH. by right.
  - intros [->|Hy%IH]%elem_of_cons; [by left|by right].
Qed.

Lemma dedup_by_elem prev l x :
  keyed l -> x ∈ l -> prev = Some (key x) \/ x ∈ dedup_by key prev l.
Proof.
  revert prev. induction l as [|y l IH]; intros prev Hk Hx; [by apply not_elem_of_nil in Hx|].
  assert (keyed l) as Hk' by (eapply keyed_sub; [|exact Hk]; by right).
  simpl. apply elem_of_cons in Hx as [->|Hx].
  - case_decide; [by left|right]. left.
  - case_decide as Hd; [by apply IH|].
    destruct (IH (Some (key y)) Hk' Hx) as [[= E]|?]; [right|right; by right].
    rewrite (Hk x y); [left|by right|left|done].
Qed.

Lemma dedup_by_NoDup prev l :
  separates cmp l -> keyed l -> StronglySorted (le_by cmp) l ->
  (forall p, prev = Some p -> forall x y, x ∈ l -> y ∈ l -> key x = p -> cmp x y <> Gt) ->
  NoDup (map key (dedup_by key prev l)) /\
  (forall p, prev = Some p -> p ∉ map key (dedup_by key prev l)).
Proof.
  intros Hu Hk Hs. revert prev. induction Hs as [|x l Hs IH Hx]; intros prev Hp; simpl.
  { split; [constructor|]. intros p _ Hin. by apply not_elem_of_nil in Hin. }
  assert (separates cmp l) as Hu' by (eapply separates_sub; [|exact Hu]; by right).
  assert (keyed l) as Hk' by (eapply keyed_sub; [|exact Hk]; by right).
  specialize (IH Hu' Hk'). rewrite Forall_forall in Hx.
  case_decide as Hd.
  { apply IH. intros p Hp' y z Hy Hz. apply (Hp p Hp'); by right. }
  simpl. destruct (IH (Some (key x))) as [Hn Hni].
  { intros p [= <-] y z Hy Hz E. rewrite (Hk y x) by (try (by right); try left; done).
    by apply Hx. }
  split; [constructor; [by apply Hni|done]|].
  intros p Hpp. rewrite not_elem_of_cons. split; [by intros ->|].
  intros (y & E & Hy)%list_elem_of_fmap. apply Hd. rewrite Hpp. f_equal.
  apply dedup_by_subset in Hy.
  rewrite E. f_equal. apply Hu; [by right|left|].
  pose proof (Hp p Hpp y x ltac:(by right) ltac:(left) ltac:(done)) as H1.
  pose proof (Hx y Hy) as H2. unfold le_by in H2. rewrite (cmp_antisym cmp y x) in H2.
  by destruct (cmp y x).
Qed.

Lemma dedup_by_sorted prev l :
  StronglySorted (le_by cmp) l -> StronglySorted (le_by cmp) (dedup_by key prev l).
Proof.
  intros Hs. revert prev. induction Hs as [|x l Hs IH Hx]; intros prev; simpl; [constructor|].
  case_decide; [done|]. constructor; [done|].
  rewrite Forall_forall in *. intros y Hy. apply Hx. by eapply dedup_by_subset.
Qed.

Lemma dedup_by_id prev l :
  NoDup (map key l) -> (forall p, prev = Some p -> p ∉ map key l) -> dedup_by key prev l = l.
Proof.
  revert prev. induction l as [|x l IH]; intros prev Hn Hp; simpl in *; [done|].
  apply NoDup_cons in Hn as [Hx Hn]. rewrite decide_False.
  - f_equal. apply IH; [done|]. by intros p [= <-].
  - intros E. apply (Hp _ E). left.
Qed.

(** Sorting then dropping neighbours with the same key lists every distinct
    element once, in rank order, whatever the input order. *)
Lemma dedup_sort_spec l :
  separates cmp l -> keyed l ->
  NoDup (map key (dedup_by key None (sort_by cmp l))) /\
  StronglySorted (le_by cmp) (dedup_by key None (sort_by cmp l)) /\
  (forall x, x ∈ dedup_by key None (sort_by cmp l) <-> x ∈ l).
Proof.
  intros Hu Hk.
  assert (sort_by cmp l ⊆ l) as Hsub by (intros x; by rewrite elem_of_sort_by).
  repeat split.
  - apply dedup_by_NoDup; [by eapply separates_sub|by eapply keyed_sub|apply sort_by_sorted, _|done].
  - apply dedup_by_sorted, sort_by_sorted, _.
  - intros Hx%dedup_by_subset. by apply Hsub.
  - intros Hx. destruct (dedup_by_elem None (sort_by cmp l) x) as [?|?]; try done.
    + by eapply keyed_sub.
    + by rewrite elem_of_sort_by.
Qed.
End Dedup.

(** ** Ordered maps

    [BTreeMap<String, V>] is a finite map whose iteration order is the order
    of its keys. *)

Definition key_cmp {V : Type} : string * V -> string * V -> comparison := cmp_on fst str_cmp.
Definition btree_iter {V : Type} (m : gmap string V) : list (string * V) := sort_by key_cmp (map_to_list m).

#[global] Instance key_cmp_total {V} : TotalCmp (@key_cmp V).
Proof. apply cmp_on_total, str_cmp_total. Qed.

Lemma btree_iter_perm {V} (m : gmap string V) : btree_iter m ≡ₚ map_to_list m.
Proof. apply sort_by_perm. Qed.

Lemma elem_of_btree_iter {V} (m : gmap string V) k v : (k, v) ∈ btree_iter m <-> m !! k = Some v.
Proof. unfold btree_iter. rewrite elem_of_sort_by. apply elem_of_map_to_list. Qed.

Lemma NoDup_btree_keys {V} (m : gmap string V) : NoDup (btree_iter m).*1.
Proof. rewrite btree_iter_perm. apply NoDup_fst_map_to_list. Qed.

Lemma list_to_map_btree_iter {V} (m : gmap string V) : list_to_map (btree_iter m) = m.
Proof.
  trans (list_to_map (M := gmap string V) (map_to_list m)); [|apply list_to_map_to_list].
  apply list_to_map_proper; [apply NoDup_btree_keys|apply btree_iter_perm].
Qed.

(** Inserting the entries one by one, as a decoder does, rebuilds the map. *)
Lemma fold_insert_btree_iter {V} (m : gmap string V) :
  fold_left (fun acc kv => <[kv.1 := kv.2]> acc) (btree_iter m) ∅ = m.
Proof.
  trans (list_to_map (M := gmap string V) (btree_iter m)); [|apply list_to_map_btree_iter].
  assert (forall (l : list (string * V)) (acc : gmap string V), NoDup l.*1 ->
    fold_left (fun acc kv => <[kv.1 := kv.2]> acc) l acc = list_to_map l ∪ acc) as Hl.
  { induction l as [|[k v] l IH]; intros acc Hn; simpl; [by rewrite (left_id_L ∅ (∪))|].
    apply NoDup_cons in Hn as [Hk Hn]. rewrite IH by done.
    rewrite <- insert_union_l. symmetry. rewrite insert_union_r; [done|].
    by apply not_elem_of_list_to_map_1. }
  rewrite Hl by apply NoDup_btree_keys. apply (right_id_L ∅ (∪)).
Qed.
