(* ===== verification/Metric.v ===== *)
(** * Metric: vector preparation and scoring ([src/src/metric.rs]) *)

From stdpp Require Import base list strings.
From Stdlib Require Import ZArith Lia.
From S2P Require Import Prelude Errors Floats.

Inductive Metric : Type := Cosine | DotProduct | Euclidean.

#[global] Instance Metric_eq_dec : EqDecision Metric.
Proof. solve_decision. Defined.

(** [slice.chunks_exact(4)]: the full chunks and the remainder. *)
Fixpoint chunks4 {A : Type} (l : list A) : list (A * A * A * A) * list A :=
  match l with
  | a :: b :: c :: d :: l' => let '(q, r) := chunks4 l' in ((a, b, c, d) :: q, r)
  | _ => ([], l)
  end.

Section Scores.
Context `{FloatEnv}.

Abbreviation add := (fadd fmt32).
Abbreviation sub := (fsub fmt32).
Abbreviation mul := (fmul fmt32).

Definition to_f64 (x : Z) : Z := fcast fmt64 fmt32 x.

(** The squared norm [prepare] computes, in double precision. *)
Definition squared_norm (vector : list Z) : Z :=
  fsum fmt64 (map (fun value => fmul fmt64 (to_f64 value) (to_f64 value)) vector).

Definition prepare (self : Metric) (vector : list Z) : Result (list Z) :=
  if existsb (fun value => negb (is_finite fmt32 value)) vector
  then Err (InvalidVector "components must be finite")
  else if decide (self = Cosine) then
    let squared := squared_norm vector in
    if feqb fmt64 squared 0 || negb (is_finite fmt64 squared)
    then Err (InvalidVector "cosine similarity requires a finite, non-zero norm")
    else
      let inverse_norm := fcast fmt32 fmt64 (frecip fmt64 (fsqrt fmt64 squared)) in
      Ok (map (fun value => mul value inverse_norm) vector)
  else Ok vector.

(** One round of the four-accumulator loop. *)
Definition lanes (term : Z -> Z -> Z) (sums : Z * Z * Z * Z)
    (chunk : (Z * Z * Z * Z) * (Z * Z * Z * Z)) : Z * Z * Z * Z :=
  let '(s0, s1, s2, s3) := sums in
  let '((l0, l1, l2, l3), (r0, r1, r2, r3)) := chunk in
  (add s0 (term l0 r0), add s1 (term l1 r1), add s2 (term l2 r2), add s3 (term l3 r3)).

Definition reduce4 (term : Z -> Z -> Z) (left right : list Z) : Z :=
  let '(left_chunks, left_rem) := chunks4 left in
  let '(right_chunks, right_rem) := chunks4 right in
  let '(s0, s1, s2, s3) :=
    fold_left (lanes term) (zip left_chunks right_chunks) (f32_zero, f32_zero, f32_zero, f32_zero) in
  add (fsum fmt32 [s0; s1; s2; s3]) (fsum fmt32 (zip_with term left_rem right_rem)).

Definition dot_product (left right : list Z) : Z := reduce4 mul left right.

Definition squared_distance (left right : list Z) : Z :=
  reduce4 (fun l r => let delta := sub l r in mul delta delta) left right.

Definition score (self : Metric) (query candidate : list Z) : Z :=
  match self with
  | Cosine | DotProduct => dot_product query candidate
  | Euclidean => fneg fmt32 (squared_distance query candidate)
  end.

(** ** What [prepare] guarantees *)

Definition all_finite (v : list Z) : Prop := Forall (fun x => is_finite fmt32 x = true) v.

Lemma existsb_not_finite v :
  existsb (fun value => negb (is_finite fmt32 value)) v = false <-> all_finite v.
Proof.
  unfold all_finite. induction v as [|x v IH]; simpl; [by split; constructor|].
  rewrite orb_false_iff, negb_false_iff, IH, Forall_cons. done.
Qed.

Lemma prepare_length self v v' : prepare self v = Ok v' -> length v' = length v.
Proof.
  unfold prepare. destruct (existsb _ _); [done|]. case_decide; [|by intros [= <-]].
  destruct (_ || _); [done|]. intros [= <-]. by rewrite length_map.
Qed.

Lemma prepare_finite_input self v v' : prepare self v = Ok v' -> all_finite v.
Proof.
  unfold prepare. destruct (existsb _ _) eqn:E; [done|]. intros _. by apply existsb_not_finite.
Qed.

Lemma prepare_no_panic self v : prepare self v <> Panic.
Proof.
  unfold prepare. destruct (existsb _ _); [done|]. case_decide; [|done]. by destruct (_ || _).
Qed.

(** Without normalisation, preparation is the identity on finite vectors. *)
Lemma prepare_identity self v : self <> Cosine -> all_finite v -> prepare self v = Ok v.
Proof.
  intros Hc Hv. unfold prepare. rewrite (proj2 (existsb_not_finite v) Hv).
  by rewrite decide_False.
Qed.

Lemma prepare_identity_inv self v v' : self <> Cosine -> prepare self v = Ok v' -> v' = v.
Proof.
  intros Hc Hp. rewrite prepare_identity in Hp; [congruence|done|by eapply prepare_finite_input].
Qed.
End Scores.
