(* ===== verification/Filter.v ===== *)
(** * Filter: metadata values and filter expressions ([src/src/filter.rs]) *)

From stdpp Require Import base gmap list strings.
From Stdlib Require Import ZArith Lia.
From S2P Require Import Prelude Errors Floats.

Inductive Value : Type :=
| Keyword (value : string)
| Integer (value : Z)
| Float (value : Z)
| Boolean (value : bool).

#[global] Instance Value_eq_dec : EqDecision Value.
Proof. solve_decision. Defined.

(** [BTreeMap<String, Value>] *)
Abbreviation Metadata := (gmap string Value).

Inductive Filter : Type :=
| MatchAll
| FEq (field : string) (value : Value)
| FRange (field : string) (gte lt : option Z)
| FAnd (filters : list Filter)
| FOr (filters : list Filter)
| FNot (filter : Filter).

(** Induction that reaches the filters inside [FAnd] and [FOr]. *)
Section FilterInd.
Context (P : Filter -> Prop).
Context (Hall : P MatchAll) (Heq : forall field value, P (FEq field value))
  (Hrange : forall field gte lt, P (FRange field gte lt))
  (Hand : forall filters, Forall P filters -> P (FAnd filters))
  (Hor : forall filters, Forall P filters -> P (FOr filters))
  (Hnot : forall filter, P filter -> P (FNot filter)).

Fixpoint Filter_nested_ind (f : Filter) : P f :=
  let go := fix go (l : list Filter) : Forall P l :=
    match l with
    | [] => Forall_nil_2 P
    | x :: l' => Forall_cons_2 P x l' (Filter_nested_ind x) (go l')
    end in
  match f with
  | MatchAll => Hall
  | FEq field value => Heq field value
  | FRange field gte lt => Hrange field gte lt
  | FAnd filters => Hand filters (go filters)
  | FOr filters => Hor filters (go filters)
  | FNot filter => Hnot filter (Filter_nested_ind filter)
  end.
End FilterInd.

(** The derived [PartialEq]: floats compare as IEEE numbers. *)
Definition value_eqb (a b : Value) : bool :=
  match a, b with
  | Keyword x, Keyword y => bool_decide (x = y)
  | Integer x, Integer y => Z.eqb x y
  | Float x, Float y => feqb fmt64 x y
  | Boolean x, Boolean y => Bool.eqb x y
  | _, _ => false
  end.

Section Matching.
Context `{FloatEnv}.

Definition numeric_value (value : Value) : option Z :=
  match value with
  | Integer value => Some (of_int fmt64 value)
  | Float value => if is_finite fmt64 value then Some value else None
  | _ => None
  end.

Definition in_range (gte lt : option Z) (value : Z) : bool :=
  match gte with None => true | Some lower => fgeb fmt64 value lower end &&
  match lt with None => true | Some upper => fltb fmt64 value upper end.

Fixpoint matches (self : Filter) (metadata : Metadata) : bool :=
  match self with
  | MatchAll => true
  | FEq field value =>
      match metadata !! field with Some v => value_eqb v value | None => false end
  | FRange field gte lt =>
      match metadata !! field ≫= numeric_value with
      | Some value => in_range gte lt value
      | None => false
      end
  | FAnd filters => forallb (fun filter => matches filter metadata) filters
  | FOr filters => existsb (fun filter => matches filter metadata) filters
  | FNot filter => negb (matches filter metadata)
  end.

(** [filter.is_none_or(|filter| filter.matches(..))] *)
Definition matches_opt (filter : option Filter) (metadata : Metadata) : bool :=
  match filter with None => true | Some f => matches f metadata end.
End Matching.

(** Values whose integers and floats fit their machine types. *)
Definition value_wf (v : Value) : Prop :=
  match v with
  | Integer z => in_i 64 z
  | Float b => in_u 64 b
  | _ => True
  end.
