(* ===== verification/MetadataIndex.v ===== *)
(** * MetadataIndex: equality and numeric-range postings for filters
      ([src/src/metadata_index.rs])

    The index is built once from a snapshot; [candidates] answers a filter
    from the postings.  The refinement theorem states that it returns exactly
    the identifiers whose metadata satisfy [Filter.matches]. *)

From stdpp Require Import base gmap sets list strings.
From Stdlib Require Import ZArith Lia.
From S2P Require Import Prelude Errors Floats FloatFacts Ranking Filter.

(** The [MetadataRecord] trait. *)
Class MetadataRecord (P : Type) : Type := {
  record_id : P -> string;
  record_metadata : P -> Metadata
}.

Inductive ScalarKey : Type :=
| KKeyword (value : string)
| KInteger (value : Z)
| KFloat (bits : Z)
| KBoolean (value : bool).

#[global] Instance ScalarKey_eq_dec : EqDecision ScalarKey.
Proof. solve_decision. Defined.

Definition ScalarKey_code (k : ScalarKey) : (string + Z) + (Z + bool) :=
  match k with
  | KKeyword s => inl (inl s) | KInteger z => inl (inr z)
  | KFloat z => inr (inl z) | KBoolean b => inr (inr b)
  end.
Definition ScalarKey_decode (c : (string + Z) + (Z + bool)) : ScalarKey :=
  match c with
  | inl (inl s) => KKeyword s | inl (inr z) => KInteger z
  | inr (inl z) => KFloat z | inr (inr b) => KBoolean b
  end.
#[global] Instance ScalarKey_countable : Countable ScalarKey.
Proof. refine (inj_countable' ScalarKey_code ScalarKey_decode _). by intros []. Defined.

(** [if value == 0.0 { 0.0 } else { value }]: [-0.0] is stored as [0.0]. *)
Definition canonical (value : Z) : Z := if feqb fmt64 value 0 then 0 else value.

Definition from_value (value : Value) : option ScalarKey :=
  match value with
  | Keyword value => Some (KKeyword value)
  | Integer value => Some (KInteger value)
  | Float value => if negb (is_nan fmt64 value) then Some (KFloat (canonical value)) else None
  | Boolean value => Some (KBoolean value)
  end.

(** [OrderedF64]: ordered by [total_cmp], so equal exactly when the bits are. *)
Definition OrderedF64_new (value : Z) : Z := canonical value.
Definition OrderedF64_cmp (a b : Z) : comparison := total_cmp fmt64 a b.

Record MetadataIndex : Type := MkIndex {
  all_ids : gset string;
  equality : gmap string (gmap ScalarKey (gset string));
  numeric : gmap string (gmap Z (gset string))
}.

(** [map.entry(field).or_default().entry(key).or_default().insert(id)] *)
Definition post {K : Type} `{Countable K} (m : gmap string (gmap K (gset string)))
    (field : string) (key : K) (id : string) : gmap string (gmap K (gset string)) :=
  let inner := default ∅ (m !! field) in
  <[field := <[key := {[id]} ∪ default ∅ (inner !! key)]> inner]> m.

Section Index.
Context `{FloatEnv} {P : Type} `{!MetadataRecord P}.

Definition index_value (id : string) (index : MetadataIndex) (entry : string * Value) : MetadataIndex :=
  let '(field, value) := entry in
  let index := match from_value value with
               | Some key => MkIndex (all_ids index) (post (equality index) field key id) (numeric index)
               | None => index
               end in
  match numeric_value value with
  | Some value => MkIndex (all_ids index) (equality index)
                    (post (numeric index) field (OrderedF64_new value) id)
  | None => index
  end.

Definition index_point (index : MetadataIndex) (point : P) : MetadataIndex :=
  let id := record_id point in
  fold_left (index_value id) (btree_iter (record_metadata point))
    (MkIndex ({[id]} ∪ all_ids index) (equality index) (numeric index)).

Definition build (points : list P) : MetadataIndex := fold_left index_point points (MkIndex ∅ ∅ ∅).

Definition within (lower upper : option Z) (key : Z) : bool :=
  match lower with
  | Some l => match OrderedF64_cmp l key with Gt => false | _ => true end
  | None => true
  end &&
  match upper with
  | Some u => match OrderedF64_cmp key u with Lt => true | _ => false end
  | None => true
  end.

(** [BTreeMap::range((lower, upper))] panics when the start is after the end. *)
Definition btree_range (values : gmap Z (gset string)) (lower upper : option Z) : Result (gset string) :=
  match lower, upper with
  | Some l, Some u =>
      match OrderedF64_cmp l u with
      | Gt => Panic
      | _ => Ok (⋃ (map snd (List.filter (fun kv => within lower upper kv.1) (map_to_list values))))
      end
  | _, _ => Ok (⋃ (map snd (List.filter (fun kv => within lower upper kv.1) (map_to_list values))))
  end.

Definition range (self : MetadataIndex) (field : string) (gte lt : option Z) : Result (gset string) :=
  if match gte with Some g => is_nan fmt64 g | None => false end ||
     match lt with Some l => is_nan fmt64 l | None => false end then Ok ∅
  else if match gte, lt with Some lower, Some upper => fgeb fmt64 lower upper | _, _ => false end then Ok ∅
  else match numeric self !! field with
       | None => Ok ∅
       | Some values => btree_range values (OrderedF64_new <$> gte) (OrderedF64_new <$> lt)
       end.

(** The loop over the remaining conjuncts, which stops at an empty set. *)
Definition and_loop (answer : Filter -> Result (gset string)) :=
  fix loop (filters : list Filter) (kept : gset string) : Result (gset string) :=
    match filters with
    | [] => Ok kept
    | filter :: filters' =>
        let? next := answer filter in
        let kept := base.filter (.∈ next) kept in
        if decide (kept = ∅) then Ok kept else loop filters' kept
    end.

Definition or_loop (answer : Filter -> Result (gset string)) :=
  fix loop (filters : list Filter) (acc : gset string) : Result (gset string) :=
    match filters with
    | [] => Ok acc
    | filter :: filters' => let? next := answer filter in loop filters' (acc ∪ next)
    end.

Fixpoint candidates (self : MetadataIndex) (filter : Filter) : Result (gset string) :=
  match filter with
  | MatchAll => Ok (all_ids self)
  | FEq field value =>
      Ok (default ∅ (from_value value ≫= fun key => equality self !! field ≫= (.!! key)))
  | FRange field gte lt => range self field gte lt
  | FAnd filters =>
      match filters with
      | [] => Ok (all_ids self)
      | first :: rest =>
          let? kept := candidates self first in and_loop (candidates self) rest kept
      end
  | FOr filters => or_loop (candidates self) filters ∅
  | FNot filter => let? excluded := candidates self filter in Ok (all_ids self ∖ excluded)
  end.
End Index.

(** Closes a comparison of a positive magnitude with zero, read either way. *)
Ltac cmp_pos :=
  first [by apply Z.compare_lt_iff | by apply Z.compare_gt_iff
        | symmetry; first [by apply Z.compare_lt_iff | by apply Z.compare_gt_iff]].

(** ** Canonical doubles: IEEE comparison is the order of the keys *)

Section Canonical.
Lemma canonical_zero x : in_u 64 x -> is_nan fmt64 x = false ->
  canonical x = if Z.eqb (magnitude fmt64 x) 0 then 0 else x.
Proof.
  intros Hx Hn. unfold canonical, feqb, fcompare.
  rewrite (unpacked_compare fmt64 wf_fmt64 _ _ _ _ _ _
    (unpack_unpacked fmt64 wf_fmt64 x (proj1 Hx) Hn) (unpack_unpacked fmt64 wf_fmt64 0 ltac:(lia) eq_refl)).
  change (magnitude fmt64 0) with 0. change (Z.leb (2 ^ (width fmt64 - 1)) 0) with false.
  destruct (Z.eqb_spec (magnitude fmt64 x) 0) as [E|E]; [by rewrite decide_True|].
  rewrite decide_False by tauto. destruct (Z.leb _ x); [done|].
  destruct (Z.compare_spec (magnitude fmt64 x) 0); done.
Qed.

Lemma canonical_in_u x : in_u 64 x -> in_u 64 (canonical x).
Proof. unfold canonical. by destruct (feqb fmt64 x 0). Qed.

Lemma canonical_nan x : is_nan fmt64 x = false -> is_nan fmt64 (canonical x) = false.
Proof. unfold canonical. by destruct (feqb fmt64 x 0). Qed.

Lemma fcompare_canonical x y :
  in_u 64 x -> in_u 64 y -> is_nan fmt64 x = false -> is_nan fmt64 y = false ->
  fcompare fmt64 x y = Some (total_cmp fmt64 (canonical x) (canonical y)).
Proof.
  intros Hx Hy Nx Ny.
  pose proof (canonical_in_u x Hx) as Hcx. pose proof (canonical_in_u y Hy) as Hcy.
  pose proof (canonical_nan x Nx) as Ncx. pose proof (canonical_nan y Ny) as Ncy.
  trans (fcompare fmt64 (canonical x) (canonical y)).
  - unfold fcompare. rewrite !(unpacked_compare fmt64 wf_fmt64 _ _ _ _ _ _
      (unpack_unpacked fmt64 wf_fmt64 _ (proj1 Hx) Nx) (unpack_unpacked fmt64 wf_fmt64 _ (proj1 Hy) Ny)).
    rewrite !(unpacked_compare fmt64 wf_fmt64 _ _ _ _ _ _
      (unpack_unpacked fmt64 wf_fmt64 _ (proj1 Hcx) Ncx) (unpack_unpacked fmt64 wf_fmt64 _ (proj1 Hcy) Ncy)).
    f_equal. rewrite !canonical_zero by done.
    destruct (Z.eqb_spec (magnitude fmt64 x) 0) as [E1|E1], (Z.eqb_spec (magnitude fmt64 y) 0) as [E2|E2];
      change (magnitude fmt64 0) with 0; change (Z.leb (2 ^ (width fmt64 - 1)) 0) with false;
      rewrite ?E1, ?E2; try done; repeat case_decide; try lia.
    + assert (0 < magnitude fmt64 y) by (assert (0 <= magnitude fmt64 y) by (apply Z.mod_pos_bound; done); lia).
      by destruct (Z.leb _ x), (Z.leb _ y); first [done | cmp_pos].
    + assert (0 < magnitude fmt64 x) by (assert (0 <= magnitude fmt64 x) by (apply Z.mod_pos_bound; done); lia).
      by destruct (Z.leb _ x), (Z.leb _ y); first [done | cmp_pos].
  - apply (fcompare_total_cmp fmt64 wf_fmt64); try done.
    rewrite !canonical_zero by done.
    destruct (Z.eqb_spec (magnitude fmt64 x) 0), (Z.eqb_spec (magnitude fmt64 y) 0);
      change (magnitude fmt64 0) with 0; tauto.
Qed.

Lemma feqb_canonical x y :
  in_u 64 x -> in_u 64 y ->
  feqb fmt64 x y = true <->
  is_nan fmt64 x = false /\ is_nan fmt64 y = false /\ canonical x = canonical y.
Proof.
  intros Hx Hy. unfold feqb.
  destruct (is_nan fmt64 x) eqn:Nx; [|destruct (is_nan fmt64 y) eqn:Ny].
  1,2: rewrite (fcompare_nan fmt64 wf_fmt64) by (destruct Hx, Hy; auto); naive_solver.
  rewrite fcompare_canonical by done. split.
  - intros E. destruct (total_cmp _ _ _) eqn:Ec; try done.
    split_and!; [done..|]. apply (total_cmp_eq fmt64 wf_fmt64); try done; by apply canonical_in_u.
  - intros (_ & _ & ->). by rewrite total_cmp_refl.
Qed.
End Canonical.

(** Filters whose literals fit their machine types. *)
Fixpoint filter_wf (f : Filter) : Prop :=
  match f with
  | MatchAll => True
  | FEq _ value => value_wf value
  | FRange _ gte lt =>
      match gte with Some g => in_u 64 g | None => True end /\
      match lt with Some l => in_u 64 l | None => True end
  | FAnd filters | FOr filters => fold_right (fun f acc => filter_wf f /\ acc) True filters
  | FNot filter => filter_wf filter
  end.

Lemma filter_wf_Forall fs : fold_right (fun f acc => filter_wf f /\ acc) True fs <-> Forall filter_wf fs.
Proof. induction fs as [|f fs IH]; simpl; [by split|]. by rewrite Forall_cons, IH. Qed.

Section Keys.
Context `{FloatEnv}.

Lemma value_eqb_from_value v1 v2 :
  value_wf v1 -> value_wf v2 ->
  value_eqb v1 v2 = true <-> exists k, from_value v1 = Some k /\ from_value v2 = Some k.
Proof.
  intros W1 W2. destruct v1 as [s1|z1|b1|b1], v2 as [s2|z2|b2|b2]; simpl in *;
    try (split; [done|intros (k & E1 & E2); try congruence;
                 repeat destruct (negb (is_nan _ _)); congruence]).
  - rewrite bool_decide_eq_true. naive_solver.
  - rewrite Z.eqb_eq. naive_solver.
  - rewrite feqb_canonical by done.
    destruct (is_nan fmt64 b1), (is_nan fmt64 b2); simpl; split;
      try (intros (? & ? & ?); congruence).
    + intros (_ & _ & ->). eauto.
    + intros (k & [= <-] & [= E]). done.
  - rewrite Bool.eqb_true_iff. naive_solver.
Qed.

Lemma numeric_value_wf v x :
  value_wf v -> numeric_value v = Some x -> in_u 64 x /\ is_nan fmt64 x = false.
Proof.
  destruct v as [|z|b|]; simpl; intros W E; try done.
  - injection E as <-. apply (of_int_valid fmt64 wf_fmt64).
  - destruct (is_finite fmt64 b) eqn:Ef; [|done]. injection E as <-. split; [done|].
    unfold is_finite in Ef. apply Z.ltb_lt in Ef. unfold is_nan. apply Z.ltb_ge. lia.
Qed.

(** The bounds of a range filter, read on keys. *)
Lemma in_range_within gte lt x :
  filter_wf (FRange "" gte lt) -> in_u 64 x -> is_nan fmt64 x = false ->
  match gte with Some g => is_nan fmt64 g | None => false end = false ->
  match lt with Some l => is_nan fmt64 l | None => false end = false ->
  in_range gte lt x = within (OrderedF64_new <$> gte) (OrderedF64_new <$> lt) (OrderedF64_new x).
Proof.
  intros [Wg Wl] Wx Nx Ng Nl. unfold in_range, within, fgeb, fleb, fltb, OrderedF64_cmp, OrderedF64_new.
  f_equal.
  - destruct gte as [g|]; simpl; [|done]. rewrite fcompare_canonical by done.
    by destruct (total_cmp _ _ _).
  - destruct lt as [l|]; simpl; [|done]. rewrite fcompare_canonical by done.
    by destruct (total_cmp _ _ _).
Qed.

(** An empty or NaN-bounded range matches nothing. *)
Lemma in_range_nan gte lt x :
  filter_wf (FRange "" gte lt) -> in_u 64 x ->
  match gte with Some g => is_nan fmt64 g | None => false end ||
  match lt with Some l => is_nan fmt64 l | None => false end = true ->
  in_range gte lt x = false.
Proof.
  intros [Wg Wl] Wx Hn. unfold in_range, fgeb, fleb, fltb.
  apply orb_true_iff in Hn as [Hn|Hn].
  - destruct gte as [g|]; [|done].
    rewrite (fcompare_nan fmt64 wf_fmt64) by (destruct Wg, Wx; auto). done.
  - destruct lt as [l|]; [|done].
    rewrite (fcompare_nan fmt64 wf_fmt64 x) by (destruct Wl, Wx; auto). by rewrite andb_false_r.
Qed.

Lemma in_range_inverted lower upper x :
  in_u 64 lower -> in_u 64 upper -> in_u 64 x ->
  is_nan fmt64 lower = false -> is_nan fmt64 upper = false -> is_nan fmt64 x = false ->
  fgeb fmt64 lower upper = true -> in_range (Some lower) (Some upper) x = false.
Proof.
  intros Wl Wu Wx Nl Nu Nx. unfold in_range, fgeb, fleb, fltb.
  rewrite !fcompare_canonical by done. unfold total_cmp.
  destruct (Z.compare_spec (total_key fmt64 (canonical upper)) (total_key fmt64 (canonical lower))),
    (Z.compare_spec (total_key fmt64 (canonical lower)) (total_key fmt64 (canonical x))),
    (Z.compare_spec (total_key fmt64 (canonical x)) (total_key fmt64 (canonical upper))); try done; lia.
Qed.

Lemma range_not_inverted lower upper :
  in_u 64 lower -> in_u 64 upper -> is_nan fmt64 lower = false -> is_nan fmt64 upper = false ->
  fgeb fmt64 lower upper = false -> OrderedF64_cmp (canonical lower) (canonical upper) = Lt.
Proof.
  intros Wl Wu Nl Nu. unfold fgeb, fleb, OrderedF64_cmp. rewrite fcompare_canonical by done.
  unfold total_cmp. rewrite (Z.compare_antisym (total_key fmt64 (canonical lower))).
  by destruct (total_key fmt64 (canonical lower) ?= _).
Qed.
End Keys.

(** ** The postings of a built index *)

Definition postings {K : Type} `{Countable K} (m : gmap string (gmap K (gset string)))
    (field : string) (key : K) : gset string := default ∅ (m !! field ≫= (.!! key)).

Lemma elem_of_postings_post {K} `{Countable K} (m : gmap string (gmap K (gset string))) field key id f' k' id' :
  id' ∈ postings (post m field key id) f' k' <->
  (f' = field /\ k' = key /\ id' = id) \/ id' ∈ postings m f' k'.
Proof.
  unfold postings, post. destruct (decide (f' = field)) as [->|Hf].
  - rewrite lookup_insert_eq. cbn [mbind option_bind].
    destruct (decide (k' = key)) as [->|Hk].
    + rewrite lookup_insert_eq. simpl. rewrite elem_of_union, elem_of_singleton.
      destruct (m !! field); simpl; [naive_solver|]. rewrite lookup_empty. naive_solver.
    + rewrite lookup_insert_ne by done. destruct (m !! field); simpl; [naive_solver|].
      rewrite lookup_empty. naive_solver.
  - rewrite lookup_insert_ne by done. naive_solver.
Qed.

Section Built.
Context `{FloatEnv} {P : Type} `{!MetadataRecord P}.
Implicit Types (ps : list P) (p : P).

Lemma fold_index_value id l idx f k id' :
  let idx' := fold_left (index_value id) l idx in
  all_ids idx' = all_ids idx /\
  (id' ∈ postings (equality idx') f k <->
     id' ∈ postings (equality idx) f k \/
     (id' = id /\ exists v, (f, v) ∈ l /\ from_value v = Some k)) /\
  (forall n, id' ∈ postings (numeric idx') f n <->
     id' ∈ postings (numeric idx) f n \/
     (id' = id /\ exists v x, (f, v) ∈ l /\ numeric_value v = Some x /\ OrderedF64_new x = n)).
Proof.
  revert idx. induction l as [|[f0 v0] l IH]; intros idx; cbn [fold_left].
  { cbn zeta. setoid_rewrite elem_of_nil. split_and!; [done|naive_solver|naive_solver]. }
  destruct (IH (index_value id idx (f0, v0))) as (Ha & He & Hn). cbn zeta in *.
  split_and!.
  - rewrite Ha. simpl. by destruct (from_value v0), (numeric_value v0).
  - rewrite He. setoid_rewrite elem_of_cons.
    assert (id' ∈ postings (equality (index_value id idx (f0, v0))) f k <->
            id' ∈ postings (equality idx) f k \/ (id' = id /\ f = f0 /\ from_value v0 = Some k)) as ->.
    { simpl. destruct (from_value v0), (numeric_value v0); simpl;
        rewrite ?elem_of_postings_post; naive_solver. }
    split.
    + intros [[?|(-> & -> & ?)]|(-> & v & ? & ?)]; [by left|right..]; eauto 10.
    + intros [?|(-> & v & [[= -> ->]|?] & ?)]; [by left; left|left; right|right]; eauto 10.
  - intros n. rewrite Hn. setoid_rewrite elem_of_cons.
    assert (id' ∈ postings (numeric (index_value id idx (f0, v0))) f n <->
            id' ∈ postings (numeric idx) f n \/
            (id' = id /\ f = f0 /\ exists x, numeric_value v0 = Some x /\ OrderedF64_new x = n)) as ->.
    { simpl. destruct (from_value v0), (numeric_value v0); simpl;
        rewrite ?elem_of_postings_post; naive_solver. }
    split.
    + intros [[?|(-> & -> & x & ? & ?)]|(-> & v & x & ? & ? & ?)]; [by left|right..]; eauto 12.
    + intros [?|(-> & v & x & [[= -> ->]|?] & ? & ?)]; [by left; left|left; right|right]; eauto 12.
Qed.

Lemma fold_index_point ps idx f k id :
  let idx' := fold_left index_point ps idx in
  (id ∈ all_ids idx' <-> id ∈ all_ids idx \/ exists p, p ∈ ps /\ record_id p = id) /\
  (id ∈ postings (equality idx') f k <->
     id ∈ postings (equality idx) f k \/
     exists p v, p ∈ ps /\ record_id p = id /\ record_metadata p !! f = Some v /\ from_value v = Some k) /\
  (forall n, id ∈ postings (numeric idx') f n <->
     id ∈ postings (numeric idx) f n \/
     exists p v x, p ∈ ps /\ record_id p = id /\ record_metadata p !! f = Some v /\
       numeric_value v = Some x /\ OrderedF64_new x = n).
Proof.
  revert idx. induction ps as [|p ps IH]; intros idx; cbn [fold_left].
  { cbn zeta. setoid_rewrite elem_of_nil. split_and!; naive_solver. }
  destruct (IH (index_point idx p)) as (Ha & He & Hn). cbn zeta in *.
  destruct (fold_index_value (record_id p) (btree_iter (record_metadata p))
    (MkIndex ({[record_id p]} ∪ all_ids idx) (equality idx) (numeric idx)) f k id) as (Fa & Fe & Fn).
  fold (index_point idx p) in Fa, Fe, Fn. cbn [all_ids equality numeric] in *.
  setoid_rewrite elem_of_btree_iter in Fe. setoid_rewrite elem_of_btree_iter in Fn.
  setoid_rewrite elem_of_cons. split_and!.
  - rewrite Ha, Fa. set_solver.
  - rewrite He, Fe. split.
    + intros [[?|(-> & v & ? & ?)]|(q & v & ? & ? & ? & ?)]; [by left|right..]; eauto 10.
    + intros [?|(q & v & [->|?] & <- & ? & ?)]; [by left; left|left; right|right]; eauto 10.
  - intros n. rewrite Hn, Fn. split.
    + intros [[?|(-> & v & x & ? & ? & ?)]|(q & v & x & ? & ? & ? & ? & ?)]; [by left|right..]; eauto 12.
    + intros [?|(q & v & x & [->|?] & <- & ? & ? & ?)]; [by left; left|left; right|right]; eauto 12.
Qed.

Lemma build_ids ps id : id ∈ all_ids (build ps) <-> exists p, p ∈ ps /\ record_id p = id.
Proof. unfold build. rewrite (proj1 (fold_index_point ps _ "" (KBoolean true) id)). simpl. set_solver. Qed.

Lemma build_equality ps f k id :
  id ∈ postings (equality (build ps)) f k <->
  exists p v, p ∈ ps /\ record_id p = id /\ record_metadata p !! f = Some v /\ from_value v = Some k.
Proof.
  unfold build. destruct (fold_index_point ps (MkIndex ∅ ∅ ∅) f k id) as (_ & -> & _).
  unfold postings at 1. simpl. rewrite lookup_empty. simpl. set_solver.
Qed.

Lemma build_numeric ps f n id :
  id ∈ postings (numeric (build ps)) f n <->
  exists p v x, p ∈ ps /\ record_id p = id /\ record_metadata p !! f = Some v /\
    numeric_value v = Some x /\ OrderedF64_new x = n.
Proof.
  unfold build. destruct (fold_index_point ps (MkIndex ∅ ∅ ∅) f (KBoolean true) id) as (_ & _ & Hn).
  rewrite Hn. unfold postings at 1. simpl. rewrite lookup_empty. simpl. set_solver.
Qed.

(** ** [candidates] refines [matches] *)

Definition points_wf ps : Prop :=
  NoDup (map record_id ps) /\
  forall p f v, p ∈ ps -> record_metadata p !! f = Some v -> value_wf v.

Definition satisfies ps (f : Filter) (id : string) : Prop :=
  exists p, p ∈ ps /\ record_id p = id /\ matches f (record_metadata p) = true.

Lemma points_unique ps p q : points_wf ps -> p ∈ ps -> q ∈ ps -> record_id p = record_id q -> p = q.
Proof.
  intros [Hn _] Hp Hq E. apply list_elem_of_lookup in Hp as [i Hi]. apply list_elem_of_lookup in Hq as [j Hj].
  assert (i = j) as ->; [|congruence].
  eapply (NoDup_lookup (map record_id ps)); [done| |]; rewrite list_lookup_fmap.
  - by rewrite Hi.
  - rewrite Hj. simpl. by rewrite E.
Qed.

Lemma elem_of_btree_union (l : list (Z * gset string)) g id :
  id ∈ ⋃ (map snd (List.filter (fun kv => g kv.1) l)) <-> exists n s, (n, s) ∈ l /\ g n = true /\ id ∈ s.
Proof.
  induction l as [|[n s] l IH]; simpl.
  { setoid_rewrite elem_of_nil. set_solver. }
  setoid_rewrite elem_of_cons. destruct (g n) eqn:E; simpl.
  - rewrite elem_of_union, IH. split.
    + intros [?|(n' & s' & ? & ? & ?)]; eauto 10.
    + intros (n' & s' & [[= -> ->]|?] & ? & ?); eauto 10.
  - rewrite IH. split.
    + intros (n' & s' & ? & ? & ?); eauto 10.
    + intros (n' & s' & [[= -> ->]|?] & ? & ?); [congruence|eauto 10].
Qed.

Lemma range_spec ps field gte lt :
  points_wf ps -> filter_wf (FRange field gte lt) ->
  exists s, range (build ps) field gte lt = Ok s /\
    forall id, id ∈ s <-> satisfies ps (FRange field gte lt) id.
Proof.
  intros Hps Hf. unfold range.
  assert (forall p v x, p ∈ ps -> record_metadata p !! field = Some v -> numeric_value v = Some x ->
    in_u 64 x /\ is_nan fmt64 x = false) as Hx.
  { intros p v x Hp Hv. eapply numeric_value_wf, Hps; done. }
  assert (forall id, satisfies ps (FRange field gte lt) id <->
    exists p v x, p ∈ ps /\ record_id p = id /\ record_metadata p !! field = Some v /\
      numeric_value v = Some x /\ in_range gte lt x = true) as Hsat.
  { intros id. unfold satisfies. cbn [matches]. split.
    - intros (p & Hp & Hid & Hm). destruct (record_metadata p !! field) as [v|] eqn:Ev; [|done].
      cbn [mbind option_bind] in Hm. destruct (numeric_value v) as [x|] eqn:Ex; [|done].
      by exists p, v, x.
    - intros (p & v & x & Hp & Hid & Ev & Ex & Hr). exists p. rewrite Ev. simpl. by rewrite Ex. }
  setoid_rewrite Hsat. clear Hsat.
  destruct (_ || _) eqn:Hnan.
  { exists ∅. split; [done|]. intros id. split; [set_solver|].
    intros (p & v & x & Hp & _ & Ev & Ex & Hr).
    rewrite in_range_nan in Hr; [done|done|by eapply Hx|done]. }
  apply orb_false_iff in Hnan as [Ng Nl].
  destruct (match gte, lt with Some lower, Some upper => fgeb fmt64 lower upper | _, _ => false end) eqn:Hinv.
  { destruct gte as [g|], lt as [l|]; try done. destruct Hf as [Wg Wl].
    exists ∅. split; [done|]. intros id. split; [set_solver|].
    intros (p & v & x & Hp & _ & Ev & Ex & Hr). destruct (Hx p v x Hp Ev Ex).
    by rewrite in_range_inverted in Hr. }
  destruct (numeric (build ps) !! field) as [values|] eqn:Hvals.
  - assert (btree_range values (OrderedF64_new <$> gte) (OrderedF64_new <$> lt) =
      Ok (⋃ (map snd (List.filter (fun kv => within (OrderedF64_new <$> gte) (OrderedF64_new <$> lt) kv.1)
        (map_to_list values))))) as ->.
    { unfold btree_range. destruct gte as [g|], lt as [l|]; try done. destruct Hf as [Wg Wl].
      cbn [fmap option_fmap option_map]. unfold OrderedF64_new at 1 2.
      by rewrite range_not_inverted. }
    eexists. split; [done|]. intros id. rewrite elem_of_btree_union.
    pose proof (build_numeric ps field) as Hb. unfold postings in Hb. rewrite Hvals in Hb. simpl in Hb.
    split.
    + intros (n & s & Hin%elem_of_map_to_list & Hw & Hid).
      assert (id ∈ default ∅ (values !! n)) as (p & v & x & Hp & E & Ev & Ex & <-)%Hb by (by rewrite Hin).
      destruct (Hx p v x Hp Ev Ex). exists p, v, x. split_and!; try done. by rewrite in_range_within.
    + intros (p & v & x & Hp & E & Ev & Ex & Hr). destruct (Hx p v x Hp Ev Ex).
      assert (id ∈ default ∅ (values !! OrderedF64_new x)) as Hin.
      { apply Hb. by exists p, v, x. }
      destruct (values !! OrderedF64_new x) as [s|] eqn:Es; [|by apply elem_of_empty in Hin].
      exists (OrderedF64_new x), s. split_and!; [by apply elem_of_map_to_list| |done].
      by rewrite <- in_range_within.
  - exists ∅. split; [done|]. intros id. split; [set_solver|].
    intros (p & v & x & Hp & E & Ev & Ex & Hr).
    assert (id ∈ postings (numeric (build ps)) field (OrderedF64_new x)) as Hin.
    { apply build_numeric. by exists p, v, x. }
    unfold postings in Hin. rewrite Hvals in Hin. by apply elem_of_empty in Hin.
Qed.
End Built.

Section Refinement.
Context `{FloatEnv} {P : Type} `{!MetadataRecord P}.
Context (ps : list P) (Hps : points_wf ps).
Abbreviation sat := (satisfies ps).
Abbreviation answers f s := (forall id : string, id ∈ (s : gset string) <-> sat f id).

Lemma satisfies_id f id : sat f id -> id ∈ all_ids (build ps).
Proof. intros (p & Hp & E & _). apply build_ids. eauto. Qed.

Lemma satisfies_matches f p : p ∈ ps -> sat f (record_id p) <-> matches f (record_metadata p) = true.
Proof.
  intros Hp. split; [|intros Hm; by exists p].
  intros (q & Hq & E & Hm). by rewrite <- (points_unique ps q p Hps Hq Hp E).
Qed.

(** The identifiers that satisfy every filter of a list. *)
Lemma satisfies_and fs id :
  sat (FAnd fs) id <-> id ∈ all_ids (build ps) /\ Forall (fun f => sat f id) fs.
Proof.
  split.
  - intros (p & Hp & <- & Hm). split; [apply build_ids; eauto|]. cbn [matches] in Hm.
    rewrite forallb_forall in Hm. rewrite Forall_forall. intros f Hf.
    apply satisfies_matches; [done|]. apply Hm. by apply list_elem_of_In.
  - intros [(p & Hp & <-)%build_ids Hf]. apply satisfies_matches; [done|]. cbn [matches].
    rewrite forallb_forall. intros f Hin%list_elem_of_In. rewrite Forall_forall in Hf.
    apply (satisfies_matches f p Hp). by apply Hf.
Qed.

Lemma satisfies_or fs id : sat (FOr fs) id <-> Exists (fun f => sat f id) fs.
Proof.
  rewrite Exists_exists. split.
  - intros (p & Hp & <- & Hm). cbn [matches] in Hm. apply existsb_exists in Hm as (f & Hf%list_elem_of_In & Hm).
    exists f. split; [done|]. by apply satisfies_matches.
  - intros (f & Hf%list_elem_of_In & (p & Hp & <- & Hm)). apply satisfies_matches; [done|]. cbn [matches].
    apply existsb_exists. eauto.
Qed.

Lemma satisfies_not f id : sat (FNot f) id <-> id ∈ all_ids (build ps) /\ ~ sat f id.
Proof.
  split.
  - intros (p & Hp & <- & Hm). split; [apply build_ids; eauto|].
    rewrite satisfies_matches by done. cbn [matches] in Hm. by destruct (matches f (record_metadata p)).
  - intros [(p & Hp & <-)%build_ids Hn]. apply satisfies_matches; [done|].
    rewrite satisfies_matches in Hn by done. cbn [matches]. by destruct (matches f (record_metadata p)).
Qed.

Abbreviation answered f := (exists s, candidates (build ps) f = Ok s /\ answers f s).

Lemma and_loop_spec fs kept :
  Forall (fun f => answered f) fs ->
  exists s, and_loop (candidates (build ps)) fs kept = Ok s /\
    forall id, id ∈ s <-> id ∈ kept /\ Forall (fun f => sat f id) fs.
Proof.
  intros Hfs. revert kept. induction Hfs as [|f fs (s1 & E1 & Hs1) Hfs IH]; intros kept; cbn [and_loop].
  { exists kept. split; [done|]. intros id. split; [by intros ?|by intros [? _]]. }
  rewrite E1. cbn [rbind]. cbn zeta. case_decide as Hk.
  - eexists. split; [done|]. intros id. rewrite Forall_cons. rewrite <- Hs1. set_solver.
  - destruct (IH (base.filter (.∈ s1) kept)) as (s & E & Hs). exists s. split; [done|].
    intros id. rewrite Hs, Forall_cons, elem_of_filter, <- Hs1. tauto.
Qed.

Lemma or_loop_spec fs acc :
  Forall (fun f => answered f) fs ->
  exists s, or_loop (candidates (build ps)) fs acc = Ok s /\
    forall id, id ∈ s <-> id ∈ acc \/ Exists (fun f => sat f id) fs.
Proof.
  intros Hfs. revert acc. induction Hfs as [|f fs (s1 & E1 & Hs1) Hfs IH]; intros acc; cbn [or_loop].
  { exists acc. split; [done|]. intros id. rewrite Exists_nil. tauto. }
  rewrite E1. cbn [rbind]. destruct (IH (acc ∪ s1)) as (s & E & Hs). exists s. split; [done|].
  intros id. rewrite Hs, Exists_cons, elem_of_union, Hs1. tauto.
Qed.

Lemma eq_candidates field value : value_wf value -> answered (FEq field value).
Proof.
  intros Hwf. eexists. split; [done|]. intros id. unfold satisfies. cbn [matches].
  destruct (from_value value) as [k|] eqn:Ek; cbn [mbind option_bind].
  - fold (postings (equality (build ps)) field k). rewrite build_equality. split.
    + intros (p & v & Hp & E & Ev & Evk). exists p. rewrite Ev. split_and!; [done..|].
      apply value_eqb_from_value; [by eapply Hps|done|eauto].
    + intros (p & Hp & E & Hm). destruct (record_metadata p !! field) as [v|] eqn:Ev; [|done].
      apply value_eqb_from_value in Hm as (k' & E1 & E2); [|by eapply Hps|done].
      exists p, v. split_and!; congruence.
  - split; [set_solver|]. intros (p & Hp & E & Hm).
    destruct (record_metadata p !! field) as [v|] eqn:Ev; [|done].
    apply value_eqb_from_value in Hm as (k' & E1 & E2); [congruence|by eapply Hps|done].
Qed.

Lemma candidates_answer (f : Filter) : filter_wf f -> answered f.
Proof.
  induction f as [|field value|field gte lt|fs IH|fs IH|f IH] using Filter_nested_ind; intros Hwf.
  - exists (all_ids (build ps)). split; [done|]. intros id. rewrite build_ids. unfold satisfies. naive_solver.
  - by apply eq_candidates.
  - by apply range_spec.
  - cbn [filter_wf] in Hwf. apply filter_wf_Forall in Hwf.
    assert (Forall (fun f => answered f) fs) as Hans by (by eapply Forall_mp).
    destruct fs as [|f0 fs]; cbn [candidates].
    { exists (all_ids (build ps)). split; [done|]. intros id. rewrite satisfies_and, Forall_nil. tauto. }
    apply Forall_cons in Hans as [(s0 & -> & Hs0) Hans]. cbn [rbind].
    destruct (and_loop_spec fs s0 Hans) as (s & E & Hs). exists s. split; [done|]. intros id.
    rewrite Hs, Hs0, satisfies_and, Forall_cons. pose proof (satisfies_id f0 id). tauto.
  - cbn [filter_wf] in Hwf. apply filter_wf_Forall in Hwf.
    assert (Forall (fun f => answered f) fs) as Hans by (by eapply Forall_mp).
    destruct (or_loop_spec fs ∅ Hans) as (s & E & Hs). exists s. split; [done|].
    intros id. rewrite Hs, satisfies_or. set_solver.
  - destruct (IH Hwf) as (s & E & Hs). cbn [candidates]. rewrite E. cbn [rbind].
    eexists. split; [done|]. intros id. rewrite elem_of_difference, Hs, satisfies_not. done.
Qed.
End Refinement.

(** C6 (candidates_exact). For a snapshot with distinct point IDs, the
    metadata index returns, without panicking, exactly the IDs whose metadata
    satisfy the filter, for every filter expression: NaN and inverted ranges,
    signed zeros, early exits of conjunctions and negations included. *)
Theorem candidates_exact `{FloatEnv} {P : Type} `{!MetadataRecord P} (ps : list P) (f : Filter) :
  points_wf ps -> filter_wf f ->
  exists s, candidates (build ps) f = Ok s /\
    forall id, id ∈ s <-> exists p, p ∈ ps /\ record_id p = id /\ matches f (record_metadata p) = true.
Proof. intros Hps Hf. exact (candidates_answer ps Hps f Hf). Qed.


(** A record for the examples: an identifier and its metadata. *)
#[local] Instance pair_record : MetadataRecord (string * Metadata) :=
  {| record_id := fst; record_metadata := snd |}.

(** 4607182418800017408 and 4611686018427387904 are 1.0 and 2.0; the filter
    asks for 1.0 <= n < 2.0 and not kind = "y". *)
Definition demo_records : list (string * Metadata) :=
  [("a", {["n" := Integer 1; "kind" := Keyword "x"]}); ("b", {["n" := Float 4607182418800017408; "kind" := Keyword "y"]});
   ("c", {["n" := Integer 2]})].
Definition demo_filter : Filter :=
  FAnd [FRange "n" (Some 4607182418800017408) (Some 4611686018427387904); FNot (FEq "kind" (Keyword "y"))].

Lemma candidates_exact_witness :
  points_wf demo_records /\ filter_wf demo_filter /\
  exists s, candidates (@build x86_64_env _ pair_record demo_records) demo_filter = Ok s /\
    ("a" ∈ s) /\ ~ ("b" ∈ s) /\ ~ ("c" ∈ s).
Proof.
  assert (points_wf demo_records) as Hp.
  { split; [apply (bool_decide_unpack _); vm_compute; exact I|].
    intros p f v Hin Hv. unfold demo_records in Hin. rewrite !elem_of_cons in Hin.
    destruct Hin as [-> |[-> |[-> |Hin]]]; [| | |by apply not_elem_of_nil in Hin]; cbn in Hv;
      repeat (apply lookup_insert_Some in Hv as [[_ <-]|[_ Hv]]; [split; vm_compute; congruence || exact I|]);
      apply lookup_singleton_Some in Hv as [_ <-]; split; vm_compute; congruence || exact I. }
  assert (filter_wf demo_filter) as Hf by (simpl; repeat split; vm_compute; congruence).
  split; [exact Hp|]. split; [exact Hf|].
  destruct (@candidates_exact x86_64_env _ pair_record demo_records demo_filter Hp Hf) as (s & Hs & _).
  exists s. split; [exact Hs|].
  assert (candidates (@build x86_64_env _ pair_record demo_records) demo_filter = Ok {["a"]}) as E
    by (vm_compute; reflexivity).
  rewrite Hs in E. injection E as ->. rewrite !elem_of_singleton.
  split; [reflexivity|]. split; intros [=].
Defined.
