(* ===== verification/Collection.v ===== *)
(** * Collection: the in-memory exact-search engine ([src/src/collection.rs])

    A method that takes [&mut self] returns its [Result] together with the
    collection it leaves behind, on the error paths too. *)

From stdpp Require Import base gmap sets list strings sorting.
From Stdlib Require Import ZArith Lia.
From S2P Require Import Prelude Errors Floats Ranking Metric Filter MetadataIndex.

Record CollectionConfig : Type := MkConfig { dimension : Z; metric : Metric }.

#[global] Instance CollectionConfig_eq_dec : EqDecision CollectionConfig.
Proof. solve_decision. Defined.

Record UpsertPoint : Type := MkUpsert {
  up_id : string; up_vector : list Z; up_metadata : Metadata
}.

(** ** Point vectors: owned, or read from a mapped segment *)

Inductive PointVector : Type :=
| Owned (vector : list Z)
| Mapped (mapping : list byte) (offset len : Z).

(** A byte slice reinterpreted as little-endian [f32] values. *)
Fixpoint f32s_of_bytes (l : list byte) : list Z :=
  match l with
  | a :: b :: c :: d :: l' => le_value [a; b; c; d] :: f32s_of_bytes l'
  | _ => []
  end.
Definition bytes_of_f32s (v : list Z) : list byte := concat (map (le_bytes 4) v).

(** A [Mapped] value is only made by [mapped], which checks the bounds that
    the slice [mapping[offset..offset + len * 4]] needs (see [mapped_as_slice]). *)
Definition as_slice (self : PointVector) : list Z :=
  match self with
  | Owned vector => vector
  | Mapped mapping offset len =>
      f32s_of_bytes (take (Z.to_nat (len * 4)) (drop (Z.to_nat offset) mapping))
  end.

Definition is_memory_mapped (self : PointVector) : bool :=
  match self with Mapped _ _ _ => true | Owned _ => false end.

Definition mapped (mapping : list byte) (offset len : Z) : Result PointVector :=
  let? byte_len := ok_or (checked_mul USIZE_MAX len 4) (CorruptStorage "mapped vector length overflows") in
  let? end_ := ok_or (checked_add USIZE_MAX offset byte_len) (CorruptStorage "mapped vector offset overflows") in
  if negb (Z.eqb (offset mod 4) 0) || Z.ltb (zlen mapping) end_
  then Err (CorruptStorage "mapped vector is unaligned or outside its segment")
  else Ok (Mapped mapping offset len).

(** ** Points *)

Record Point : Type := MkPoint {
  pt_id : string; pt_vector : list Z; pt_metadata : Metadata; pt_sequence : Z
}.

Record StoredPoint : Type := MkStored {
  sp_id : string; sp_vector : PointVector; sp_metadata : Metadata; sp_sequence : Z;
  sp_public_view : option Point
}.

Definition to_owned_point (self : StoredPoint) : Point :=
  MkPoint (sp_id self) (as_slice (sp_vector self)) (sp_metadata self) (sp_sequence self).

Definition into_owned (self : StoredPoint) : Point :=
  match sp_public_view self with Some view => view | None => to_owned_point self end.

(** [Clone] drops the cached view. *)
Definition clone_stored (self : StoredPoint) : StoredPoint :=
  MkStored (sp_id self) (sp_vector self) (sp_metadata self) (sp_sequence self) None.

Definition stored_from_point (point : Point) : StoredPoint :=
  MkStored (pt_id point) (Owned (pt_vector point)) (pt_metadata point) (pt_sequence point) None.

#[global] Instance Point_record : MetadataRecord Point :=
  {| record_id := pt_id; record_metadata := pt_metadata |}.
#[global] Instance StoredPoint_record : MetadataRecord StoredPoint :=
  {| record_id := sp_id; record_metadata := sp_metadata |}.

Record SearchHit : Type := MkHit {
  hit_id : string; hit_score : Z; hit_metadata : Metadata; hit_sequence : Z
}.

(** [RankedPoint]'s [Ord]: higher score first, then smaller ID. *)
Definition ranked_cmp : StoredPoint * Z -> StoredPoint * Z -> comparison :=
  then_with (cmp_rev (cmp_on snd (total_cmp fmt32))) (cmp_on (fun r => sp_id r.1) str_cmp).

(** The order of results, used wherever hits are merged. *)
Definition hit_cmp : SearchHit -> SearchHit -> comparison :=
  then_with (cmp_rev (cmp_on hit_score (total_cmp fmt32))) (cmp_on hit_id str_cmp).

Definition hit_of (ranked : StoredPoint * Z) : SearchHit :=
  MkHit (sp_id ranked.1) ranked.2 (sp_metadata ranked.1) (sp_sequence ranked.1).

(** ** The collection *)

Record Collection : Type := MkCollection {
  config : CollectionConfig;
  points : gmap string StoredPoint;
  sequence : Z
}.

Definition new (config : CollectionConfig) : Result Collection :=
  if Z.eqb (dimension config) 0 then Err (InvalidConfig "dimension must be greater than zero")
  else Ok (MkCollection config ∅ 0).

Definition len (self : Collection) : Z := Z.of_nat (size (points self)).
Definition is_empty (self : Collection) : bool := bool_decide (points self = ∅).
Definition latest_sequence (self : Collection) : Z := sequence self.

(** The values of the hash map, in some order. *)
Definition values (self : Collection) : list StoredPoint := (map_to_list (points self)).*2.

Definition next_sequence (self : Collection) : Result Z :=
  ok_or (checked_add U64_MAX (sequence self) 1) SequenceOverflow.

Definition apply_prepared_upsert (self : Collection) (prepared : list StoredPoint) (sequence : Z) : Collection :=
  MkCollection (config self) (fold_left (fun m p => <[sp_id p := p]> m) prepared (points self)) sequence.

Definition apply_delete_at (self : Collection) (ids : list string) (sequence : Z) : Collection :=
  MkCollection (config self) (fold_left (fun m id => base.delete id m) ids (points self)) sequence.

Definition delete (self : Collection) (ids : list string) : Result Z * Collection :=
  match next_sequence self with
  | Ok sequence => (Ok sequence, apply_delete_at self ids sequence)
  | Err e => (Err e, self)
  | Panic => (Panic, self)
  end.

Definition get (self : Collection) (id : string) : option Point * Collection :=
  match points self !! id with
  | None => (None, self)
  | Some point =>
      match sp_public_view point with
      | Some view => (Some view, self)
      | None =>
          let view := to_owned_point point in
          let point' := MkStored (sp_id point) (sp_vector point) (sp_metadata point) (sp_sequence point)
                          (Some view) in
          (Some view, MkCollection (config self) (<[id := point']> (points self)) (sequence self))
      end
  end.

Definition get_stored (self : Collection) (id : string) : option StoredPoint := points self !! id.

Definition snapshot_stored_points (self : Collection) : list StoredPoint :=
  sort_by (cmp_on sp_id str_cmp) (map clone_stored (values self)).

Definition snapshot_points (self : Collection) : list Point :=
  sort_by (cmp_on pt_id str_cmp) (map (fun p => into_owned (clone_stored p)) (values self)).

Definition vector_storage_stats (self : Collection) : Z * Z * Z :=
  fold_left (fun '(mapped, owned, owned_bytes) point =>
      if is_memory_mapped (sp_vector point) then (mapped + 1, owned, owned_bytes)
      else (mapped, owned + 1, owned_bytes + zlen (as_slice (sp_vector point)) * 4))
    (values self) (0, 0, 0).

Definition replace_persisted_points (self : Collection) (persisted : list StoredPoint) : Collection :=
  MkCollection (config self)
    (fold_left (fun m point =>
       match m !! sp_id point with
       | Some current => if Z.eqb (sp_sequence current) (sp_sequence point)
                         then <[sp_id point := point]> m else m
       | None => m
       end) persisted (points self))
    (sequence self).

(** The insert loop of [restore_stored_snapshot]; it stops at a duplicate. *)
Fixpoint insert_distinct (m : gmap string StoredPoint) (l : list StoredPoint) : gmap string StoredPoint * bool :=
  match l with
  | [] => (m, true)
  | point :: l' =>
      let m' := <[sp_id point := point]> m in
      if decide (is_Some (m !! sp_id point)) then (m', false) else insert_distinct m' l'
  end.

Definition restore_stored_snapshot (self : Collection) (pts : list StoredPoint) (seq : Z) : Result unit * Collection :=
  if existsb (fun point => Z.ltb seq (sp_sequence point)) pts
  then (Err (CorruptStorage "point sequence is newer than its segment"), self)
  else
    let '(m, distinct) := insert_distinct ∅ pts in
    if distinct then (Ok tt, MkCollection (config self) m seq)
    else (Err (CorruptStorage "segment contains duplicate point IDs"), MkCollection (config self) m (sequence self)).

Definition restore_snapshot (self : Collection) (pts : list Point) (seq : Z) : Result unit * Collection :=
  restore_stored_snapshot self (map stored_from_point pts) seq.

Section Searching.
Context `{FloatEnv}.

Fixpoint prepare_points (config : CollectionConfig) (sequence : Z) (points : list UpsertPoint)
    : Result (list StoredPoint) :=
  match points with
  | [] => Ok []
  | point :: points' =>
      if negb (Z.eqb (zlen (up_vector point)) (dimension config))
      then Err (InvalidDimension (dimension config) (zlen (up_vector point)))
      else if decide (up_id point = "") then Err (InvalidQuery "point ID must not be empty")
      else
        let? vector := prepare (metric config) (up_vector point) in
        let? prepared := prepare_points config sequence points' in
        Ok (MkStored (up_id point) (Owned vector) (up_metadata point) sequence None :: prepared)
  end.

Definition prepare_upsert (self : Collection) (points : list UpsertPoint) (sequence : Z)
    : Result (list StoredPoint) :=
  match points with
  | [] => Err (InvalidQuery "upsert batch must not be empty")
  | _ => prepare_points (config self) sequence points
  end.

Definition upsert (self : Collection) (points : list UpsertPoint) : Result Z * Collection :=
  match (let? sequence := next_sequence self in
         let? prepared := prepare_upsert self points sequence in
         Ok (sequence, prepared)) with
  | Ok (sequence, prepared) => (Ok sequence, apply_prepared_upsert self prepared sequence)
  | Err e => (Err e, self)
  | Panic => (Panic, self)
  end.

Definition top_k (self : Collection) (query : list Z) (k : Z) (points : list StoredPoint) : list SearchHit :=
  map hit_of (topk ranked_cmp k
    (map (fun point => (point, score (metric (config self)) query (as_slice (sp_vector point)))) points)).

Definition validate_query (self : Collection) (query : list Z) (k : Z) : Result (list Z) :=
  if Z.eqb k 0 then Err (InvalidQuery "k must be greater than zero")
  else if negb (Z.eqb (zlen query) (dimension (config self)))
  then Err (InvalidDimension (dimension (config self)) (zlen query))
  else prepare (metric (config self)) query.

Definition search (self : Collection) (query : list Z) (k : Z) (filter : option Filter) : Result (list SearchHit) :=
  let? query := validate_query self query k in
  Ok (top_k self query k (List.filter (fun point => matches_opt filter (sp_metadata point)) (values self))).

Definition search_ids (self : Collection) (query : list Z) (k : Z) (ids : gset string) (filter : option Filter)
    : Result (list SearchHit) :=
  let? query := validate_query self query k in
  Ok (top_k self query k
        (List.filter (fun point => matches_opt filter (sp_metadata point))
           (omap (fun id => points self !! id) (elements ids)))).
End Searching.
