(* ===== verification/CollectionFacts.v ===== *)
(** * CollectionFacts: the guarantees of the exact-search engine

    The representation invariant and its preservation, the effect of every
    mutation on every identifier, snapshot round trips, and the exactness and
    determinism of search. *)

From stdpp Require Import base gmap sets list strings sorting.
From Stdlib Require Import ZArith Lia.
From S2P Require Import Prelude Errors Floats Ranking Metric Filter MetadataIndex Collection.

(** ** Mapped vectors *)

Lemma f32s_of_bytes_length (n : nat) (l : list byte) :
  length l = (4 * n)%nat -> length (f32s_of_bytes l) = n.
Proof.
  revert l. induction n as [|n IH]; intros l Hl.
  - by destruct l.
  - destruct l as [|a [|b [|c [|d l]]]]; simpl in *; try lia. f_equal. apply IH. lia.
Qed.

Lemma f32s_of_bytes_of_f32s (v : list Z) :
  Forall (in_u 32) v -> f32s_of_bytes (bytes_of_f32s v) = v.
Proof.
  induction 1 as [|x v Hx _ IH]; [done|]. unfold bytes_of_f32s. cbn [map concat le_bytes app f32s_of_bytes].
  f_equal; [|exact IH]. exact (le_value_bytes 4 x Hx).
Qed.

(** A vector accepted by [mapped] reads exactly [len] components inside the map. *)
Lemma mapped_as_slice mapping offset len v :
  0 <= offset -> 0 <= len -> mapped mapping offset len = Ok v ->
  zlen (as_slice v) = len /\ offset + len * 4 <= zlen mapping /\ offset mod 4 = 0.
Proof.
  intros Ho Hl. unfold mapped, checked_mul, checked_add.
  destruct (Z.leb_spec (len * 4) USIZE_MAX); [|done]. cbn [ok_or rbind].
  destruct (Z.leb_spec (offset + len * 4) USIZE_MAX); [|done]. cbn [ok_or rbind].
  destruct (Z.eqb_spec (offset mod 4) 0) as [Ea|]; [|done]. cbn [negb orb].
  destruct (Z.ltb_spec (zlen mapping) (offset + len * 4)); [done|]. intros [= <-].
  split_and!; [|lia|done]. unfold as_slice, zlen in *.
  rewrite (f32s_of_bytes_length (Z.to_nat len)); [lia|].
  rewrite length_take, length_drop. lia.
Qed.

(** ** The order of results *)

#[global] Instance total_cmp_total f : TotalCmp (total_cmp f).
Proof.
  constructor; [intros; apply total_cmp_antisym|]. unfold total_cmp. intros x y z.
  apply (cmp_trans Z.compare).
Qed.
#[global] Instance ranked_cmp_total : TotalCmp ranked_cmp.
Proof. unfold ranked_cmp. apply _. Qed.
#[global] Instance hit_cmp_total : TotalCmp hit_cmp.
Proof. unfold hit_cmp. apply _. Qed.

Lemma hit_cmp_hit_of a b : hit_cmp (hit_of a) (hit_of b) = ranked_cmp a b.
Proof. done. Qed.

Lemma then_with_eq {A} (c1 c2 : A -> A -> comparison) x y :
  then_with c1 c2 x y = Eq -> c1 x y = Eq /\ c2 x y = Eq.
Proof. unfold then_with. by destruct (c1 x y). Qed.

Lemma ranked_cmp_eq_id a b : ranked_cmp a b = Eq -> sp_id a.1 = sp_id b.1.
Proof. intros [_ E]%then_with_eq. by apply str_cmp_eq in E. Qed.

Lemma hit_cmp_eq_id a b : hit_cmp a b = Eq -> hit_id a = hit_id b.
Proof. intros [_ E]%then_with_eq. by apply str_cmp_eq in E. Qed.

(** ** The representation invariant *)

Definition view_ok (p : StoredPoint) : Prop :=
  forall view, sp_public_view p = Some view -> view = to_owned_point p.

Definition point_ok (c : CollectionConfig) (seq : Z) (id : string) (p : StoredPoint) : Prop :=
  sp_id p = id /\ id <> "" /\ zlen (as_slice (sp_vector p)) = dimension c /\
  sp_sequence p <= seq /\ view_ok p.

Definition coll_ok (c : Collection) : Prop :=
  0 < dimension (config c) /\ 0 <= sequence c <= U64_MAX /\
  map_Forall (point_ok (config c) (sequence c)) (points c).

(** What a reader can observe of a collection. *)
Definition contents (c : Collection) : gmap string Point := to_owned_point <$> points c.

Lemma lookup_contents c id : contents c !! id = to_owned_point <$> points c !! id.
Proof. apply lookup_fmap. Qed.

Lemma point_ok_mono c s s' id p : s <= s' -> point_ok c s id p -> point_ok c s' id p.
Proof. intros Hs (?&?&?&?&?). repeat split; try done. lia. Qed.

Lemma new_ok cfg c : 0 <= dimension cfg -> new cfg = Ok c -> coll_ok c /\ points c = ∅ /\ sequence c = 0.
Proof.
  unfold new. intros Hd. destruct (Z.eqb_spec (dimension cfg) 0); [done|]. intros [= <-].
  repeat split; simpl; try done; lia.
Qed.

(** ** Batches of insertions and deletions *)

(** The last element of a batch with a given identifier. *)
Definition last_with (id : string) (l : list StoredPoint) : option StoredPoint :=
  last (List.filter (fun p => bool_decide (sp_id p = id)) l).

Lemma fold_insert_lookup (l : list StoredPoint) (m : gmap string StoredPoint) id :
  fold_left (fun m p => <[sp_id p := p]> m) l m !! id =
  match last_with id l with Some p => Some p | None => m !! id end.
Proof.
  revert m. induction l as [|p l IH]; intros m; [done|]. cbn [fold_left]. rewrite IH.
  unfold last_with. cbn [List.filter]. case_bool_decide as E.
  - destruct (List.filter _ l) as [|q l'] eqn:El; [by rewrite E, lookup_insert_eq|].
    change (last (p :: q :: l')) with (last (q :: l')).
    destruct (last (q :: l')) eqn:Eq; [done|]. by apply last_None in Eq.
  - destruct (last _); [done|]. by rewrite lookup_insert_ne.
Qed.

Lemma last_with_Some id l p : last_with id l = Some p -> p ∈ l /\ sp_id p = id.
Proof.
  unfold last_with. intros H%last_Some_elem_of. apply list_elem_of_In, filter_In in H as [H E].
  rewrite bool_decide_eq_true in E. split; [by apply list_elem_of_In|done].
Qed.

Lemma last_with_None id l : last_with id l = None <-> id ∉ map sp_id l.
Proof.
  unfold last_with. rewrite last_None. split.
  - intros E (p & -> & Hp)%list_elem_of_fmap.
    assert (p ∈ List.filter (fun q => bool_decide (sp_id q = sp_id p)) l) as Hin.
    { apply list_elem_of_In, filter_In. split; [by apply list_elem_of_In|]. by apply bool_decide_eq_true. }
    rewrite E in Hin. by apply not_elem_of_nil in Hin.
  - intros Hn. destruct (List.filter _ l) as [|p l'] eqn:E; [done|]. destruct Hn.
    assert (p ∈ List.filter (fun q => bool_decide (sp_id q = id)) l) as Hp by (rewrite E; left).
    apply list_elem_of_In, filter_In in Hp as [Hp Hid]. rewrite bool_decide_eq_true in Hid.
    rewrite <- Hid. apply list_elem_of_fmap. exists p. split; [done|by apply list_elem_of_In].
Qed.

Lemma fold_delete_lookup (ids : list string) (m : gmap string StoredPoint) id :
  fold_left (fun m id => base.delete id m) ids m !! id = if decide (id ∈ ids) then None else m !! id.
Proof.
  revert m. induction ids as [|i ids IH]; intros m; cbn [fold_left].
  { by rewrite decide_False by apply not_elem_of_nil. }
  rewrite IH. destruct (decide (id ∈ ids)); [rewrite decide_True; [done|by right]|].
  destruct (decide (i = id)) as [->|Hne].
  - rewrite lookup_delete_eq, decide_True; [done|left].
  - rewrite lookup_delete_ne by done. rewrite decide_False; [done|].
    by intros [->|?]%elem_of_cons.
Qed.

Lemma apply_prepared_upsert_ok c l seq :
  coll_ok c -> sequence c <= seq <= U64_MAX ->
  Forall (fun p => point_ok (config c) seq (sp_id p) p) l ->
  coll_ok (apply_prepared_upsert c l seq).
Proof.
  intros (Hd & Hs & Hp) Hseq Hl. split; [done|]; split; [simpl; lia|].
  intros id p. simpl. rewrite fold_insert_lookup. destruct (last_with id l) as [q|] eqn:E.
  - intros [= <-]. apply last_with_Some in E as [Hin <-]. by eapply Forall_forall in Hl.
  - intros Hm%Hp. eapply point_ok_mono; [|exact Hm]. lia.
Qed.

Lemma apply_delete_at_ok c ids seq :
  coll_ok c -> sequence c <= seq <= U64_MAX -> coll_ok (apply_delete_at c ids seq).
Proof.
  intros (Hd & Hs & Hp) Hseq. split; [done|]; split; [simpl; lia|].
  intros id p. simpl. rewrite fold_delete_lookup. case_decide; [done|].
  intros Hm%Hp. eapply point_ok_mono; [|exact Hm]. lia.
Qed.

Section Mutations.
Context `{FloatEnv}.

(** What one accepted point becomes. *)
Definition prepared_as (cfg : CollectionConfig) (seq : Z) (u : UpsertPoint) (p : StoredPoint) : Prop :=
  exists v, prepare (metric cfg) (up_vector u) = Ok v /\
    p = MkStored (up_id u) (Owned v) (up_metadata u) seq None /\
    zlen (up_vector u) = dimension cfg /\ up_id u <> "".

Lemma prepare_points_ok cfg seq us ps :
  prepare_points cfg seq us = Ok ps <-> Forall2 (prepared_as cfg seq) us ps.
Proof.
  revert ps. induction us as [|u us IH]; intros ps; cbn [prepare_points].
  { split; [intros [= <-]; constructor|]. by inversion 1. }
  destruct (Z.eqb_spec (zlen (up_vector u)) (dimension cfg)) as [Ed|Ed]; cbn [negb].
  2: { split; [done|]. inversion 1 as [|? ? ? ? (v & _ & _ & ? & _)]; subst. done. }
  case_decide as Ei.
  { split; [done|]. inversion 1 as [|? ? ? ? (v & _ & _ & _ & ?)]; subst. done. }
  split.
  - intros H0. inv_ok H0. inv_ok H0. injection H0 as <-. constructor; [|by apply IH].
    exists a. by split_and!.
  - inversion 1 as [|? ? ? ps' (v & Hv & -> & _ & _) Hps]; subst. rewrite Hv. cbn [rbind].
    apply IH in Hps. by rewrite Hps.
Qed.

Lemma prepared_as_point_ok cfg seq u p : prepared_as cfg seq u p -> point_ok cfg seq (sp_id p) p.
Proof.
  intros (v & Hv & -> & Hd & Hi). repeat split; simpl; try done.
  apply prepare_length in Hv. unfold zlen in *. by rewrite Hv.
Qed.

Lemma prepare_upsert_ok c us seq ps :
  prepare_upsert c us seq = Ok ps <-> us <> [] /\ Forall2 (prepared_as (config c) seq) us ps.
Proof.
  unfold prepare_upsert. destruct us as [|u us]; [naive_solver|]. rewrite prepare_points_ok. naive_solver.
Qed.

Lemma prepare_points_no_panic cfg seq us : prepare_points cfg seq us <> Panic.
Proof.
  induction us as [|u us IH]; cbn [prepare_points]; [done|].
  destruct (negb _); [done|]. case_decide; [done|].
  intros [Hp|(v & _ & Hp)]%rbind_panic_inv; [by apply prepare_no_panic in Hp|].
  by apply rbind_panic_inv in Hp as [Hp|(ps & _ & Hp)].
Qed.

Lemma next_sequence_ok c seq :
  next_sequence c = Ok seq <-> seq = sequence c + 1 /\ sequence c + 1 <= U64_MAX.
Proof.
  unfold next_sequence, checked_add. destruct (Z.leb_spec (sequence c + 1) U64_MAX); simpl; naive_solver lia.
Qed.

Lemma next_sequence_no_panic c : next_sequence c <> Panic.
Proof. unfold next_sequence, checked_add. by destruct (_ <=? _). Qed.

(** The condition under which a batch is accepted. *)
Definition acceptable (cfg : CollectionConfig) (u : UpsertPoint) : Prop :=
  zlen (up_vector u) = dimension cfg /\ up_id u <> "" /\ is_ok (prepare (metric cfg) (up_vector u)) = true.

Lemma prepared_exists cfg seq us :
  Forall (acceptable cfg) us <-> exists ps, Forall2 (prepared_as cfg seq) us ps.
Proof.
  split.
  - induction 1 as [|u us (Hd & Hi & Hp) _ [ps IH]]; [by exists []; constructor|].
    destruct (prepare (metric cfg) (up_vector u)) as [v| |] eqn:E; try done.
    exists (MkStored (up_id u) (Owned v) (up_metadata u) seq None :: ps). constructor; [by exists v|done].
  - intros [ps Hps]. induction Hps as [|u p us ps (v & Hv & _ & Hd & Hi) _ IH]; constructor; [|done].
    split_and!; [done|done|by rewrite Hv].
Qed.

(** The last element of a request batch with a given identifier. *)
Definition last_upsert (id : string) (us : list UpsertPoint) : option UpsertPoint :=
  last (List.filter (fun u => bool_decide (up_id u = id)) us).

Lemma last_prepared cfg seq us ps id :
  Forall2 (prepared_as cfg seq) us ps ->
  option_Forall2 (prepared_as cfg seq) (last_upsert id us) (last_with id ps).
Proof.
  intros H0. unfold last_upsert, last_with.
  assert (Forall2 (prepared_as cfg seq) (List.filter (fun u => bool_decide (up_id u = id)) us)
            (List.filter (fun p => bool_decide (sp_id p = id)) ps)) as Hf.
  { induction H0 as [|u p us ps Hup _ IH]; cbn [List.filter]; [constructor|].
    assert (sp_id p = up_id u) as -> by (by destruct Hup as (? & _ & -> & _)).
    case_bool_decide; [by constructor|done]. }
  revert Hf. generalize (List.filter (fun u => bool_decide (up_id u = id)) us) as l1.
  generalize (List.filter (fun p => bool_decide (sp_id p = id)) ps) as l2. clear. intros l2 l1 H0.
  induction H0 as [|x y l1 l2 Hxy Hl IH]; [constructor|].
  destruct Hl as [|x' y' l1 l2 Hxy' Hl]; [by constructor|exact IH].
Qed.

(** What a reader sees at [id] after an accepted batch. *)
Definition upserted (cfg : CollectionConfig) (seq : Z) (us : list UpsertPoint) (m : gmap string Point)
    (id : string) : option Point :=
  match last_upsert id us with
  | Some u => match prepare (metric cfg) (up_vector u) with
              | Ok v => Some (MkPoint (up_id u) v (up_metadata u) seq)
              | _ => None
              end
  | None => m !! id
  end.

Lemma apply_prepared_contents c us ps seq id :
  Forall2 (prepared_as (config c) seq) us ps ->
  contents (apply_prepared_upsert c ps seq) !! id = upserted (config c) seq us (contents c) id.
Proof.
  intros H0%(last_prepared _ _ _ _ id). rewrite lookup_contents. cbn [apply_prepared_upsert points].
  rewrite fold_insert_lookup. unfold upserted.
  destruct H0 as [u p (v & Hv & -> & _)|]; [by rewrite Hv|by rewrite lookup_contents].
Qed.

Lemma prepared_points_ok cfg seq us ps :
  Forall2 (prepared_as cfg seq) us ps -> Forall (fun p => point_ok cfg seq (sp_id p) p) ps.
Proof. induction 1; constructor; [by eapply prepared_as_point_ok|done]. Qed.

Lemma upsert_cases c us :
  coll_ok c ->
  (exists ps, us <> [] /\ sequence c + 1 <= U64_MAX /\
     Forall2 (prepared_as (config c) (sequence c + 1)) us ps /\
     upsert c us = (Ok (sequence c + 1), apply_prepared_upsert c ps (sequence c + 1))) \/
  ((us = [] \/ U64_MAX < sequence c + 1 \/ ~ Forall (acceptable (config c)) us) /\
     exists e, upsert c us = (Err e, c)).
Proof.
  intros Hc. unfold upsert. destruct (next_sequence c) as [seq|e|] eqn:Es; cbn [rbind].
  - apply next_sequence_ok in Es as [-> Hs].
    destruct (prepare_upsert c us (sequence c + 1)) as [ps|e|] eqn:Ep; cbn [rbind].
    + left. exists ps. by apply prepare_upsert_ok in Ep as [? ?].
    + right. split; [|by eexists]. destruct us as [|u us]; [by left|]. right. right.
      intros [ps Hps]%(prepared_exists _ (sequence c + 1)).
      rewrite (proj2 (prepare_upsert_ok c (u :: us) _ ps)) in Ep; [done|by split].
    + unfold prepare_upsert in Ep. destruct us; [done|]. by apply prepare_points_no_panic in Ep.
  - right. split; [|by eexists]. right. left. destruct (Z_lt_le_dec U64_MAX (sequence c + 1)); [done|].
    rewrite (proj2 (next_sequence_ok c (sequence c + 1))) in Es; [done|by split].
  - by apply next_sequence_no_panic in Es.
Qed.
End Mutations.

(** ** The mutations, on every branch *)

Section Theorems.
Context `{FloatEnv}.

Lemma upsert_coll_ok c us : coll_ok c -> coll_ok (upsert c us).2.
Proof.
  intros Hc. destruct (upsert_cases c us Hc) as [(ps & _ & Hs & Hps & ->)|(_ & e & ->)]; [|done].
  apply apply_prepared_upsert_ok; [done|simpl; lia|by eapply prepared_points_ok].
Qed.

(** C9 (upsert_correct). An upsert is accepted exactly when the batch is not
    empty, the sequence counter has room and every point has the collection's
    dimension, a non-empty identifier and a vector the metric accepts.  An
    accepted batch takes the next sequence number, keeps the invariant, and
    afterwards every identifier of the batch reads as its last occurrence
    (prepared vector, the new sequence) while every other one is unchanged; a
    refused batch leaves the collection as it was. *)
Theorem upsert_correct c us :
  coll_ok c ->
  let '(r, c') := upsert c us in
  (is_ok r = true <->
     us <> [] /\ sequence c + 1 <= U64_MAX /\ Forall (acceptable (config c)) us) /\
  match r with
  | Ok seq => seq = sequence c + 1 /\ coll_ok c' /\ sequence c' = seq /\ config c' = config c /\
              (forall id, contents c' !! id = upserted (config c) seq us (contents c) id)
  | Err _ => c' = c
  | Panic => False
  end.
Proof.
  intros Hc. destruct (upsert_cases c us Hc) as [(ps & Hne & Hs & Hps & ->)|(Hbad & e & ->)].
  - split.
    + split; [|done]. intros _. split_and!; try done. apply (prepared_exists _ (sequence c + 1)). by exists ps.
    + split; [done|]. split; [|split; [done|split; [done|]]].
      * apply apply_prepared_upsert_ok; [done|split; [lia|done]|by eapply prepared_points_ok].
      * intros id. by apply apply_prepared_contents.
  - split; [|done]. split; [done|]. intros (Hne & Hs & Hacc).
    destruct Hbad as [?|[?|?]]; [done|lia|done].
Qed.

(** A deletion takes the next sequence number and removes
    exactly the listed identifiers, present or not; it is refused, without
    effect, only when the counter is exhausted. *)
Theorem delete_correct c ids :
  coll_ok c ->
  let '(r, c') := delete c ids in
  match r with
  | Ok seq => seq = sequence c + 1 /\ seq <= U64_MAX /\ coll_ok c' /\ sequence c' = seq /\
              config c' = config c /\
              (forall id, contents c' !! id = if decide (id ∈ ids) then None else contents c !! id)
  | Err e => e = SequenceOverflow /\ c' = c /\ U64_MAX < sequence c + 1
  | Panic => False
  end.
Proof.
  intros Hc. unfold delete. destruct (next_sequence c) as [seq|e|] eqn:Es.
  - apply next_sequence_ok in Es as [-> Hs]. split_and!; try done.
    + apply apply_delete_at_ok; [done|lia].
    + intros id. rewrite !lookup_contents. cbn [apply_delete_at points]. rewrite fold_delete_lookup.
      by case_decide.
  - unfold next_sequence, checked_add in Es. destruct (Z.leb_spec (sequence c + 1) U64_MAX); [done|].
    by injection Es as <-.
  - by apply next_sequence_no_panic in Es.
Qed.

Lemma to_owned_view p v :
  to_owned_point (MkStored (sp_id p) (sp_vector p) (sp_metadata p) (sp_sequence p) v) = to_owned_point p.
Proof. done. Qed.

(** Reading a point answers with the collection's contents,
    and filling the point's cached view changes neither the contents nor the
    invariant, so a later read answers the same. *)
Theorem get_correct c id :
  coll_ok c ->
  let '(r, c') := get c id in
  r = contents c !! id /\ contents c' = contents c /\ coll_ok c' /\
  sequence c' = sequence c /\ config c' = config c.
Proof.
  intros Hc. unfold get. destruct (points c !! id) as [p|] eqn:Ep; [|by rewrite lookup_contents, Ep].
  pose proof Hc as (Hd & Hs & Hp). pose proof (Hp id p Ep) as (Hid & Hne & Hdim & Hseq & Hview).
  destruct (sp_public_view p) as [v|] eqn:Ev.
  { rewrite lookup_contents, Ep. split; [|done]. cbn. by rewrite (Hview v Ev). }
  split; [by rewrite lookup_contents, Ep|]. split; [|split; [|done]].
  - unfold contents. cbn [points]. rewrite fmap_insert. apply insert_id.
    by rewrite lookup_fmap, Ep.
  - split; [done|]. split; [done|]. simpl. apply map_Forall_insert_2; [|done].
    split_and!; try done. intros v. by intros [= <-].
Qed.

(** ** Exact search *)

(** The hit a live point gives for a prepared query. *)
Definition scored (cfg : CollectionConfig) (q : list Z) (p : Point) : SearchHit :=
  MkHit (pt_id p) (score (metric cfg) q (pt_vector p)) (pt_metadata p) (pt_sequence p).

(** The live points a filter keeps. *)
Definition selected (m : gmap string Point) (f : option Filter) : list Point :=
  List.filter (fun p => matches_opt f (pt_metadata p)) (map_to_list m).*2.

(** The reference answer: rank every selected point, keep the first [k]. *)
Definition exact_hits (cfg : CollectionConfig) (m : gmap string Point) (q : list Z) (k : Z)
    (f : option Filter) : list SearchHit :=
  truncate k (sort_by hit_cmp (map (scored cfg q) (selected m f))).

Definition ids_match (m : gmap string Point) : Prop := map_Forall (fun id p => pt_id p = id) m.

Lemma contents_ids c : coll_ok c -> ids_match (contents c).
Proof.
  intros (_ & _ & Hp) id q. rewrite lookup_contents. intros (p & E & ->)%fmap_Some.
  by destruct (Hp id p E).
Qed.

Lemma elem_of_selected m f p :
  ids_match m -> p ∈ selected m f <-> m !! pt_id p = Some p /\ matches_opt f (pt_metadata p) = true.
Proof.
  intros Hm. unfold selected. rewrite list_elem_of_In, filter_In, <- list_elem_of_In.
  rewrite list_elem_of_fmap. split.
  - intros [([id p'] & -> & Hin) Hf]. apply elem_of_map_to_list in Hin. simpl in *.
    by rewrite (Hm id p' Hin).
  - intros [Hin Hf]. split; [|done]. exists (pt_id p, p). split; [done|]. by apply elem_of_map_to_list.
Qed.

Lemma NoDup_ids m : ids_match m -> NoDup (map pt_id (map_to_list m).*2).
Proof.
  intros Hm. replace (map pt_id (map_to_list m).*2) with ((map_to_list m).*1); [apply NoDup_fst_map_to_list|].
  change (map pt_id (map_to_list m).*2) with (pt_id <$> (map_to_list m).*2).
  rewrite <- list_fmap_compose. apply list_fmap_ext. intros i [id p] Hi%list_elem_of_lookup_2.
  apply elem_of_map_to_list in Hi. symmetry. by apply Hm.
Qed.

Lemma filter_sublist {A} (f : A -> bool) (l : list A) : List.filter f l `sublist_of` l.
Proof. induction l as [|x l IH]; cbn; [constructor|]. destruct (f x); by constructor. Qed.

Lemma NoDup_ids_selected m f : ids_match m -> NoDup (map pt_id (selected m f)).
Proof.
  intros Hm. eapply sublist_NoDup; [by apply NoDup_ids|]. apply fmap_sublist, filter_sublist.
Qed.

Lemma separates_by_id (l : list SearchHit) : NoDup (map hit_id l) -> separates hit_cmp l.
Proof.
  intros Hn x y [i Hx]%list_elem_of_lookup [j Hy]%list_elem_of_lookup E%hit_cmp_eq_id.
  assert (i = j) as ->; [|congruence].
  eapply (NoDup_lookup (map hit_id l)); [done| |]; rewrite list_lookup_fmap.
  - by rewrite Hx.
  - by rewrite Hy, E.
Qed.

Lemma selected_separates cfg q m f : ids_match m -> separates hit_cmp (map (scored cfg q) (selected m f)).
Proof. intros Hm. apply separates_by_id. rewrite map_map. by apply NoDup_ids_selected. Qed.

(** [top_k] over any enumeration of points with distinct identifiers. *)
Lemma top_k_sorted c q k ps :
  0 <= k -> NoDup (map sp_id ps) ->
  top_k c q k ps = truncate k (sort_by hit_cmp (map (fun p => scored (config c) q (to_owned_point p)) ps)).
Proof.
  intros Hk Hn. unfold top_k. rewrite topk_spec; [|apply _|done|].
  - change ranked_cmp with (cmp_on hit_of hit_cmp). unfold truncate.
    by rewrite <- firstn_map, map_sort_by, map_map.
  - intros x y Hx Hy E%ranked_cmp_eq_id.
    apply list_elem_of_fmap in Hx as (p1 & -> & [i Hi]%list_elem_of_lookup).
    apply list_elem_of_fmap in Hy as (p2 & -> & [j Hj]%list_elem_of_lookup). simpl in E.
    assert (i = j) as ->; [|congruence]. eapply (NoDup_lookup (map sp_id ps)); [done| |];
      rewrite list_lookup_fmap; [by rewrite Hi|by rewrite Hj, E].
Qed.

Lemma values_perm c f :
  map to_owned_point (List.filter (fun p => matches_opt f (sp_metadata p)) (values c)) ≡ₚ selected (contents c) f.
Proof.
  unfold selected, contents, values. rewrite map_to_list_fmap, <- list_fmap_compose.
  generalize (map_to_list (points c)) as l. induction l as [|[id p] l IH]; [done|]. cbn.
  destruct (matches_opt f (sp_metadata p)); cbn; by rewrite IH.
Qed.

Lemma map_sp_id_owned (l : list StoredPoint) : map sp_id l = map pt_id (map to_owned_point l).
Proof. by rewrite map_map. Qed.

Lemma search_exact_hits c query k f :
  coll_ok c -> 0 <= k ->
  search c query k f =
    (let? q := validate_query c query k in Ok (exact_hits (config c) (contents c) q k f)).
Proof.
  intros Hc Hk. unfold search. destruct (validate_query c query k) as [q| |]; [cbn [rbind]|done|done].
  f_equal. pose proof (values_perm c f) as Hp. pose proof (contents_ids c Hc) as Hid.
  rewrite top_k_sorted; [|done|].
  - unfold exact_hits. f_equal. rewrite <- (map_map to_owned_point (scored (config c) q)).
    symmetry. apply sort_by_perm_eq; [apply _|by apply selected_separates|].
    symmetry. by apply (fmap_Permutation (scored (config c) q)).
  - rewrite map_sp_id_owned. rewrite (fmap_Permutation pt_id _ _ Hp). by apply NoDup_ids_selected.
Qed.

(** A list of hits that is the best [k] of the points a filter selects. *)
Record is_best_k (cfg : CollectionConfig) (m : gmap string Point) (q : list Z) (k : Z) (f : option Filter)
    (hits : list SearchHit) : Prop := {
  bk_sorted : StronglySorted (fun a b => hit_cmp a b = Lt) hits;
  bk_length : zlen hits = Z.min k (zlen (selected m f));
  bk_live : forall h, h ∈ hits -> exists p, m !! hit_id h = Some p /\
              matches_opt f (pt_metadata p) = true /\ h = scored cfg q p;
  bk_best : forall id p, m !! id = Some p -> matches_opt f (pt_metadata p) = true ->
              scored cfg q p ∉ hits -> forall h, h ∈ hits -> hit_cmp h (scored cfg q p) = Lt
}.

Lemma sorted_strict l :
  StronglySorted (le_by hit_cmp) l -> NoDup (map hit_id l) -> StronglySorted (fun a b => hit_cmp a b = Lt) l.
Proof.
  induction 1 as [|x l Hl IH Hx]; cbn; [constructor|]. intros [Hi Hn]%NoDup_cons. constructor; [by apply IH|].
  apply Forall_forall. intros y Hy. eapply Forall_forall in Hx; [|exact Hy]. unfold le_by in Hx.
  destruct (hit_cmp x y) eqn:E; try done. apply hit_cmp_eq_id in E. destruct Hi.
  rewrite E. by apply list_elem_of_fmap_2.
Qed.

Lemma exact_hits_best cfg m q k f :
  ids_match m -> 0 <= k -> is_best_k cfg m q k f (exact_hits cfg m q k f).
Proof.
  intros Hm Hk. pose proof (selected_separates cfg q m f Hm) as Hu. constructor.
  - unfold exact_hits. apply sorted_strict; [apply sorted_take, sort_by_sorted, _|].
    unfold truncate. rewrite <- firstn_map. eapply sublist_NoDup; [|apply sublist_take].
    rewrite (fmap_Permutation hit_id _ _ (sort_by_perm hit_cmp _)).
    change (NoDup (map hit_id (map (scored cfg q) (selected m f)))). rewrite map_map. by apply NoDup_ids_selected.
  - unfold exact_hits. rewrite zlen_truncate_sort by done. unfold zlen. by rewrite length_map.
  - intros h Hh%elem_of_truncate. rewrite elem_of_sort_by in Hh.
    apply list_elem_of_fmap in Hh as (p & -> & [Hp Hf]%elem_of_selected); [|done]. by exists p.
  - intros id p Hp Hf Hn h Hh. pose proof (Hm id p Hp) as Hid. simpl in Hid.
    assert (scored cfg q p ∈ map (scored cfg q) (selected m f)) as Hin.
    { apply list_elem_of_fmap_2, elem_of_selected; [done|]. by rewrite Hid. }
    pose proof (truncate_sort_best hit_cmp k _ _ _ Hh Hin Hn) as Hle.
    destruct (hit_cmp h (scored cfg q p)) eqn:E; try done. destruct Hn.
    rewrite <- (Hu h (scored cfg q p)); try done.
    apply elem_of_truncate in Hh. by rewrite elem_of_sort_by in Hh.
Qed.


(** The bounded heap gives the same hits in the same
    order however the map enumerates its points. *)
Theorem top_k_deterministic c q k ps ps' :
  0 <= k -> NoDup (map sp_id ps) -> ps ≡ₚ ps' -> top_k c q k ps = top_k c q k ps'.
Proof.
  intros Hk Hn Hp. rewrite !top_k_sorted; try done.
  - f_equal. apply sort_by_perm_eq; [apply _| |by apply fmap_Permutation].
    apply separates_by_id. by rewrite map_map.
  - by rewrite <- (fmap_Permutation sp_id _ _ Hp).
Qed.
End Theorems.

(** ** Snapshots *)

Lemma insert_distinct_ok m l :
  (insert_distinct m l).2 = true <-> NoDup (map sp_id l) /\ (forall p, p ∈ l -> m !! sp_id p = None).
Proof.
  revert m. induction l as [|p l IH]; intros m; cbn [insert_distinct map].
  { split; [|done]. intros _. split; [constructor|]. by intros p ?%not_elem_of_nil. }
  case_decide as Hs; cbn [snd].
  { split; [done|]. intros [_ Hn]. rewrite (Hn p) in Hs by left. by destruct Hs. }
  rewrite IH, NoDup_cons. split.
  - intros [Hnd Hn]. split_and!; [|done|].
    + intros (q & Eq & Hq)%list_elem_of_fmap. specialize (Hn q Hq).
      rewrite <- Eq, lookup_insert_eq in Hn. done.
    + intros q [->|Hq]%elem_of_cons; [by apply eq_None_not_Some|].
      specialize (Hn q Hq). by apply lookup_insert_None in Hn as [? _].
  - intros [[Hi Hnd] Hn]. split; [done|]. intros q Hq. apply lookup_insert_None.
    split; [apply Hn; by right|]. intros E. apply Hi. rewrite E. by apply list_elem_of_fmap_2.
Qed.

Lemma insert_distinct_fold m l :
  (insert_distinct m l).2 = true -> (insert_distinct m l).1 = fold_left (fun m p => <[sp_id p := p]> m) l m.
Proof.
  revert m. induction l as [|p l IH]; intros m; cbn [insert_distinct]; [done|].
  case_decide; [done|]. apply IH.
Qed.

Lemma last_with_NoDup l p : NoDup (map sp_id l) -> p ∈ l -> last_with (sp_id p) l = Some p.
Proof.
  intros Hn Hp. destruct (last_with (sp_id p) l) as [q|] eqn:E.
  - apply last_with_Some in E as [[i Hi]%list_elem_of_lookup Eq].
    apply list_elem_of_lookup in Hp as [j Hj]. f_equal. assert (i = j) as ->; [|congruence].
    eapply (NoDup_lookup (map sp_id l)); [done| |]; rewrite list_lookup_fmap; [by rewrite Hi|].
    by rewrite Hj, Eq.
  - apply last_with_None in E. destruct E. by apply list_elem_of_fmap_2.
Qed.

(** A snapshot is restored exactly when its identifiers are distinct and no
    point is newer than it. *)
Lemma restore_stored_ok c l seq :
  NoDup (map sp_id l) -> Forall (fun p => sp_sequence p <= seq) l ->
  restore_stored_snapshot c l seq =
    (Ok tt, MkCollection (config c) (fold_left (fun m p => <[sp_id p := p]> m) l ∅) seq).
Proof.
  intros Hn Hs. unfold restore_stored_snapshot.
  assert (existsb (fun point => seq <? sp_sequence point) l = false) as ->.
  { apply not_true_iff_false. intros (p & Hp & Hlt)%existsb_exists. apply list_elem_of_In in Hp.
    eapply Forall_forall in Hs; [|exact Hp]. lia. }
  assert ((insert_distinct ∅ l).2 = true) as Hd by (apply insert_distinct_ok; by split).
  pose proof (insert_distinct_fold _ _ Hd) as Hf. destruct (insert_distinct ∅ l) as [m d].
  simpl in *. by subst.
Qed.

Lemma restore_stored_ok_inv c l seq c' :
  restore_stored_snapshot c l seq = (Ok tt, c') ->
  NoDup (map sp_id l) /\ Forall (fun p => sp_sequence p <= seq) l.
Proof.
  unfold restore_stored_snapshot. destruct (existsb _ l) eqn:Es; [done|].
  destruct (insert_distinct ∅ l) as [m d] eqn:Ed. destruct d; [|done]. intros _. split.
  - by apply (insert_distinct_ok ∅ l); rewrite Ed.
  - apply Forall_forall. intros p Hp. destruct (Z_le_gt_dec (sp_sequence p) seq); [done|].
    apply not_true_iff_false in Es. destruct Es. apply existsb_exists. exists p.
    split; [by apply list_elem_of_In|]. lia.
Qed.

Lemma fold_insert_lookup_None l id :
  fold_left (fun m p => <[sp_id p := p]> m) l (∅ : gmap string StoredPoint) !! id = last_with id l.
Proof. rewrite fold_insert_lookup. by destruct (last_with id l). Qed.

Lemma snapshot_points_perm c : snapshot_points c ≡ₚ (map_to_list (contents c)).*2.
Proof.
  unfold snapshot_points. rewrite sort_by_perm. unfold values, contents.
  rewrite map_to_list_fmap, <- list_fmap_compose.
  change (map ?f (snd <$> ?l)) with (f <$> (snd <$> l)). by rewrite <- list_fmap_compose.
Qed.

Lemma elem_of_snapshot c p :
  coll_ok c -> p ∈ snapshot_points c <-> contents c !! pt_id p = Some p.
Proof.
  intros Hc%contents_ids. rewrite snapshot_points_perm, list_elem_of_fmap. split.
  - intros ([id q] & -> & Hq%elem_of_map_to_list). simpl. by rewrite (Hc id q Hq).
  - intros E. exists (pt_id p, p). split; [done|]. by apply elem_of_map_to_list.
Qed.

Lemma NoDup_snapshot_ids c : coll_ok c -> NoDup (map pt_id (snapshot_points c)).
Proof.
  intros Hc%contents_ids. rewrite (fmap_Permutation pt_id _ _ (snapshot_points_perm c)).
  by apply NoDup_ids.
Qed.

Lemma snapshot_restored c c0 :
  coll_ok c -> config c0 = config c ->
  let '(r, c') := restore_snapshot c0 (snapshot_points c) (sequence c) in
  r = Ok tt /\ contents c' = contents c /\ sequence c' = sequence c /\ coll_ok c'.
Proof.
  intros Hc Hcfg. unfold restore_snapshot. pose proof (contents_ids c Hc) as Hid.
  pose proof Hc as (Hd & Hs & Hp).
  assert (NoDup (map sp_id (map stored_from_point (snapshot_points c)))) as Hn.
  { rewrite map_map. by apply NoDup_snapshot_ids. }
  assert (forall p, p ∈ map stored_from_point (snapshot_points c) ->
            exists p0, points c !! sp_id p = Some p0 /\ p = stored_from_point (to_owned_point p0)) as Hl.
  { intros p (q & -> & Hq)%list_elem_of_fmap. apply elem_of_snapshot in Hq; [|done].
    rewrite lookup_contents in Hq. apply fmap_Some in Hq as (p0 & E & ->). by exists p0. }
  rewrite restore_stored_ok; [|done|].
  2: { apply Forall_forall. intros p (p0 & E & ->)%Hl. by destruct (Hp _ _ E) as (_ & _ & _ & ? & _). }
  split; [done|]. split; [|split; [done|]].
  - apply map_eq. intros id. rewrite lookup_contents. cbn [points]. rewrite fold_insert_lookup_None.
    destruct (last_with id _) as [p|] eqn:E.
    + apply last_with_Some in E as [(p0 & E & Ep)%Hl <-]. rewrite lookup_contents, E. by rewrite Ep.
    + apply last_with_None in E. destruct (contents c !! id) as [q|] eqn:Eq; [|done]. destruct E.
      rewrite map_map. pose proof (Hid _ _ Eq) as <-. apply (list_elem_of_fmap_2 pt_id).
      by apply elem_of_snapshot.
  - split; [by simpl; rewrite Hcfg|]. split; [done|]. cbn [points config sequence]. intros id p.
    rewrite fold_insert_lookup_None. intros [(p0 & E & ->)%Hl <-]%last_with_Some.
    destruct (Hp _ _ E) as (? & ? & ? & ? & _). rewrite Hcfg. split_and!; try done.
Qed.

(** Restoring a collection's snapshot at its
    sequence, into any collection of the same configuration, succeeds and gives
    back the same contents and sequence and a well-formed collection. *)
Theorem snapshot_restore_roundtrip c c0 :
  coll_ok c -> config c0 = config c ->
  let '(r, c') := restore_snapshot c0 (snapshot_points c) (sequence c) in
  r = Ok tt /\ contents c' = contents c /\ sequence c' = sequence c /\ coll_ok c'.
Proof. apply snapshot_restored. Qed.

(** A snapshot depends on the contents alone: two
    well-formed collections with the same contents give the same list, however
    their maps are laid out and whether their vectors are owned or mapped. *)
Theorem snapshot_canonical c1 c2 :
  coll_ok c1 -> contents c1 = contents c2 -> snapshot_points c1 = snapshot_points c2.
Proof.
  intros Hc E. unfold snapshot_points. apply sort_by_perm_eq; [apply _| |].
  - intros x y Hx Hy Exy. unfold cmp_on in Exy. apply str_cmp_eq in Exy.
    assert (forall z, z ∈ map (fun p => into_owned (clone_stored p)) (values c1) -> z ∈ snapshot_points c1) as Hz.
    { intros z. unfold snapshot_points. by rewrite elem_of_sort_by. }
    apply Hz, elem_of_snapshot in Hx, Hy; try done. congruence.
  - pose proof (snapshot_points_perm c1) as H1. pose proof (snapshot_points_perm c2) as H2.
    unfold snapshot_points in H1, H2. rewrite sort_by_perm in H1, H2. by rewrite H1, H2, E.
Qed.

(** ** Swapping in the persisted copies after a flush *)

Lemma replace_persisted_contents c l :
  coll_ok c ->
  Forall (fun p => view_ok p /\ forall cur, points c !! sp_id p = Some cur ->
            sp_sequence cur = sp_sequence p -> to_owned_point cur = to_owned_point p) l ->
  contents (replace_persisted_points c l) = contents c /\ coll_ok (replace_persisted_points c l).
Proof.
  intros (Hd & Hs & Hp) Hl. unfold replace_persisted_points.
  set (step := fun m point => _). revert Hp Hl. unfold contents at 2, coll_ok. cbn [points config sequence contents].
  generalize (points c) as m. induction l as [|p l IH]; intros m Hp Hl; [done|].
  apply Forall_cons in Hl as [[Hv Hcur] Hl]. cbn [fold_left].
  assert (to_owned_point <$> step m p = to_owned_point <$> m /\
          map_Forall (point_ok (config c) (sequence c)) (step m p)) as [E Hm].
  { unfold step. destruct (m !! sp_id p) as [cur|] eqn:Em; [|done].
    destruct (Z.eqb_spec (sp_sequence cur) (sp_sequence p)) as [Es|]; [|done].
    specialize (Hcur cur eq_refl Es). destruct (Hp _ _ Em) as (Hi & Hne & Hdim & Hseq & _). split.
    - rewrite fmap_insert, <- Hcur. apply insert_id. by rewrite lookup_fmap, Em.
    - apply map_Forall_insert_2; [|done]. split_and!; [done|done| |lia|done].
      rewrite <- Hdim. by injection Hcur as _ -> _ _. }
  specialize (IH (step m p) Hm). rewrite E in IH. apply IH.
  eapply Forall_impl; [exact Hl|]. intros q [Hq Hqc]. split; [done|]. intros cur Hcur'.
  assert ((to_owned_point <$> step m p) !! sp_id q = Some (to_owned_point cur)) as E' by (by rewrite lookup_fmap, Hcur').
  rewrite E, lookup_fmap in E'. apply fmap_Some in E' as (cur0 & E0 & E1). intros Hseq.
  rewrite E1. apply Hqc; [done|]. by injection E1 as _ _ _ <-.
Qed.

(** Pointing the live points at the mapped
    segment changes nothing a reader sees: a point overwritten or deleted since
    the segment was taken is left alone, and one that is replaced has the same
    identifier, vector, metadata and sequence. *)
Theorem replace_persisted_transparent c l :
  coll_ok c ->
  Forall (fun p => view_ok p /\ forall cur, points c !! sp_id p = Some cur ->
            sp_sequence cur = sp_sequence p -> to_owned_point cur = to_owned_point p) l ->
  contents (replace_persisted_points c l) = contents c /\ coll_ok (replace_persisted_points c l).
Proof. apply replace_persisted_contents. Qed.

(** ** A small collection *)

Definition demo_config : CollectionConfig := MkConfig 2 Euclidean.
Definition demo_empty : Collection := MkCollection demo_config ∅ 0.
(** The components are 0.0, 1.0 and 2.0; "a" occurs twice. *)
Definition demo_batch : list UpsertPoint :=
  [MkUpsert "a" [1065353216; 0] {["kind" := Keyword "x"]};
   MkUpsert "b" [0; 1073741824] {["kind" := Keyword "y"]};
   MkUpsert "a" [1073741824; 0] {["kind" := Keyword "x"; "n" := Integer 3]}].
Definition demo : Collection := (@upsert x86_64_env demo_empty demo_batch).2.

Lemma demo_empty_ok : coll_ok demo_empty.
Proof. split; [done|]. split; [done|]. apply map_Forall_empty. Qed.

Lemma demo_ok : coll_ok demo.
Proof. apply upsert_coll_ok, demo_empty_ok. Qed.

Lemma upsert_correct_witness :
  coll_ok demo_empty /\
  (@upsert x86_64_env demo_empty demo_batch).1 = Ok 1 /\
  contents demo !! "a" = @upserted x86_64_env demo_config 1 demo_batch ∅ "a" /\
  contents demo !! "a" = Some (MkPoint "a" [1073741824; 0] {["kind" := Keyword "x"; "n" := Integer 3]} 1).
Proof.
  pose proof (@upsert_correct x86_64_env demo_empty demo_batch demo_empty_ok) as [_ H].
  split; [exact demo_empty_ok|]. split; [vm_compute; reflexivity|].
  split; [|vm_compute; reflexivity]. destruct H as (_ & _ & _ & _ & H). exact (H "a").
Defined.

Lemma delete_correct_witness :
  coll_ok demo /\ (delete demo ["a"; "zz"]).1 = Ok 2 /\
  contents (delete demo ["a"; "zz"]).2 !! "a" = None.
Proof.
  pose proof (delete_correct demo ["a"; "zz"] demo_ok) as (_ & _ & _ & _ & _ & H).
  split; [exact demo_ok|]. split; [vm_compute; reflexivity|]. exact (H "a").
Defined.

Lemma get_correct_witness :
  coll_ok demo /\ (get demo "b").1 = contents demo !! "b" /\ contents (get demo "b").2 = contents demo.
Proof.
  pose proof (get_correct demo "b" demo_ok) as H. destruct (get demo "b") as [r c'].
  split; [exact demo_ok|]. destruct H as (H1 & H2 & _). split; assumption.
Defined.


Lemma top_k_deterministic_witness :
  @top_k x86_64_env demo [0; 1065353216] 1 (values demo) =
  @top_k x86_64_env demo [0; 1065353216] 1 (rev (values demo)).
Proof.
  apply (@top_k_deterministic x86_64_env).
  - lia.
  - apply (bool_decide_unpack _). vm_compute. exact I.
  - apply Permutation_rev.
Defined.

Lemma snapshot_restore_witness :
  coll_ok demo /\
  contents (restore_snapshot demo_empty (snapshot_points demo) (sequence demo)).2 = contents demo.
Proof.
  pose proof (snapshot_restore_roundtrip demo demo_empty demo_ok eq_refl) as H.
  split; [exact demo_ok|]. destruct (restore_snapshot _ _ _). apply H.
Defined.

Lemma snapshot_canonical_witness :
  snapshot_points demo = snapshot_points (get demo "a").2.
Proof. apply snapshot_canonical; [exact demo_ok|vm_compute; reflexivity]. Defined.

Lemma replace_persisted_witness :
  contents (replace_persisted_points demo (map clone_stored (values demo))) = contents demo.
Proof.
  apply replace_persisted_transparent; [exact demo_ok|].
  apply Forall_forall. intros p [q [-> Hq]]%list_elem_of_fmap. split; [intros v Hv; discriminate Hv|].
  apply list_elem_of_fmap in Hq as [[id q'] [-> Hq]]. apply elem_of_map_to_list in Hq. simpl in *.
  destruct demo_ok as (_ & _ & Hp). destruct (Hp _ _ Hq) as (Hid & _). intros cur Hc _.
  rewrite Hid, Hq in Hc. injection Hc as <-. reflexivity.
Defined.
