(* ===== verification/Sharding.v ===== *)
(** * Sharding: statically partitioned collections ([src/src/sharding.rs])

    Shards are reached through the class [ShardStore]; its laws are what the
    routing and merging theorems rely on. *)

From stdpp Require Import base gmap sets list strings sorting.
From Stdlib Require Import ZArith Lia.
From S2P Require Import Prelude Errors Floats Ranking Metric Filter MetadataIndex Collection CollectionFacts.

(** ** Placement *)

(** FNV-1a, 64 bits. *)
Definition stable_hash (bytes : list byte) : Z :=
  fold_left (fun hash byte => wrap_u 64 (Z.lxor hash (u8 byte) * 0x100000001b3)) bytes 0xcbf29ce484222325.

Definition shard_index (id : string) (shard_count : Z) : Result Z :=
  if Z.ltb 0 shard_count then Ok (stable_hash (bytes_of_string id) mod shard_count) else Panic.

Lemma stable_hash_range bytes : in_u 64 (stable_hash bytes).
Proof.
  unfold stable_hash. assert (in_u 64 0xcbf29ce484222325) as H by (split; vm_compute; congruence).
  revert H. generalize 0xcbf29ce484222325. induction bytes as [|b bytes IH]; intros h Hh; [done|].
  cbn [fold_left]. apply IH. apply Z.mod_pos_bound. lia.
Qed.

(** ** What a shard promises *)

Class ShardStore (S : Type) : Type := {
  sh_config : S -> CollectionConfig;
  sh_contents : S -> gmap string Point;
  sh_ok : S -> Prop;
  (** the store answers searches with this filter exactly *)
  sh_exact : S -> option Filter -> Prop;
  sh_upsert : S -> list UpsertPoint -> Result Z * S;
  sh_delete : S -> list string -> Result Z * S;
  sh_search : S -> list Z -> Z -> option Filter -> Z -> Result (list SearchHit);
  sh_flush : S -> Result Z * S;
  sh_len : S -> Result Z
}.

Class ShardLaws `{FloatEnv} (S : Type) `{!ShardStore S} : Prop := {
  sh_upsert_law s us : sh_ok s ->
    let '(r, s') := sh_upsert s us in
    sh_ok s' /\ sh_config s' = sh_config s /\
    match r with
    | Ok seq => forall id, sh_contents s' !! id = upserted (sh_config s) seq us (sh_contents s) id
    | Err _ => sh_contents s' = sh_contents s
    | Panic => False
    end;
  sh_delete_law s ids : sh_ok s ->
    let '(r, s') := sh_delete s ids in
    sh_ok s' /\ sh_config s' = sh_config s /\
    match r with
    | Ok seq => forall id, sh_contents s' !! id = if decide (id ∈ ids) then None else sh_contents s !! id
    | Err _ => sh_contents s' = sh_contents s
    | Panic => False
    end;
  sh_ids_law s : sh_ok s -> ids_match (sh_contents s);
  sh_search_law s query k f ef q : sh_ok s -> sh_exact s f -> 0 < k ->
    zlen query = dimension (sh_config s) -> prepare (metric (sh_config s)) query = Ok q ->
    sh_search s query k f ef = Ok (exact_hits (sh_config s) (sh_contents s) q k f);
  sh_len_law s n : sh_ok s -> sh_len s = Ok n -> n = Z.of_nat (size (sh_contents s))
}.

Record ShardCommit : Type := MkCommit { commit_shard : Z; commit_sequence : Z; affected_points : Z }.

(** ** The sharded collection *)

Section Sharded.
Context `{FloatEnv} {S : Type} `{!ShardStore S}.

Record ShardedCollection : Type := MkSharded { sharded_config : CollectionConfig; shards : list S }.

(** [format!("shard-{shard:05}")] *)
Definition pad5 (s : string) : string := String.concat "" (repeat "0" (5 - String.length s)) +:+ s.
Definition shard_directory (root : string) (shard : Z) : string := root +:+ "/shard-" +:+ pad5 (fmt_int shard).

(** [open_shard] is [SharedCollection::open] on one directory. *)
Definition open (open_shard : string -> CollectionConfig -> Result S) (root : string)
    (config : CollectionConfig) (shard_count : Z) : Result ShardedCollection :=
  if Z.eqb shard_count 0 then Err (InvalidConfig "shard count must be greater than zero")
  else
    let? _ := Collection.new config in
    let? shards := mapM_result (fun shard => open_shard (shard_directory root shard) config) (seqZ 0 shard_count) in
    Ok (MkSharded config shards).

Definition shard_count (self : ShardedCollection) : Z := zlen (shards self).
Definition shard_for_id (self : ShardedCollection) (id : string) : Result Z := shard_index id (zlen (shards self)).

Definition validate_points (config : CollectionConfig) (points : list UpsertPoint) : Result unit :=
  let? validator := Collection.new config in
  rmap (fun _ => tt) (Collection.upsert validator points).1.

(** [batches[shard].push(item)], for every item in order. *)
Definition push_batch {A : Type} (id_of : A -> string) (n : Z) (batches : list (list A)) (item : A)
    : Result (list (list A)) :=
  let? shard := shard_index (id_of item) n in
  match batches !! Z.to_nat shard with
  | Some batch => Ok (<[Z.to_nat shard := batch ++ [item]]> batches)
  | None => Panic
  end.
Definition route {A : Type} (id_of : A -> string) (n : Z) (items : list A) : Result (list (list A)) :=
  foldM_result (push_batch id_of n) (repeat [] (Z.to_nat n)) items.

(** The commit loop: shards in order, empty batches skipped, the first failure
    ends the request with the earlier shards committed. *)
Fixpoint commit_batches {A : Type} (apply : S -> list A -> Result Z * S) (shard : Z) (stores : list S)
    (batches : list (list A)) : Result (list ShardCommit) * list S :=
  match stores, batches with
  | s :: stores', batch :: batches' =>
      match batch with
      | [] => let '(r, ss) := commit_batches apply (shard + 1) stores' batches' in (r, s :: ss)
      | _ =>
          match apply s batch with
          | (Ok sequence, s') =>
              let '(r, ss) := commit_batches apply (shard + 1) stores' batches' in
              (rmap (cons (MkCommit shard sequence (zlen batch))) r, s' :: ss)
          | (Err e, s') => (Err e, s' :: stores')
          | (Panic, s') => (Panic, s' :: stores')
          end
      end
  | _, _ => (Ok [], stores)
  end.

Definition commit_routed {A : Type} (id_of : A -> string) (apply : S -> list A -> Result Z * S)
    (self : ShardedCollection) (items : list A) : Result (list ShardCommit) * ShardedCollection :=
  match route id_of (zlen (shards self)) items with
  | Ok batches =>
      let '(r, ss) := commit_batches apply 0 (shards self) batches in
      (r, MkSharded (sharded_config self) ss)
  | Err e => (Err e, self)
  | Panic => (Panic, self)
  end.

Definition upsert (self : ShardedCollection) (points : list UpsertPoint)
    : Result (list ShardCommit) * ShardedCollection :=
  match points with
  | [] => (Err (InvalidQuery "upsert batch must not be empty"), self)
  | _ =>
      match validate_points (sharded_config self) points with
      | Ok _ => commit_routed up_id sh_upsert self points
      | Err e => (Err e, self)
      | Panic => (Panic, self)
      end
  end.

Definition delete (self : ShardedCollection) (ids : list string)
    : Result (list ShardCommit) * ShardedCollection :=
  match ids with
  | [] => (Err (InvalidQuery "delete batch must not be empty"), self)
  | _ =>
      if existsb (fun id => bool_decide (id = "")) ids
      then (Err (InvalidQuery "point ID must not be empty"), self)
      else commit_routed (fun id => id) sh_delete self ids
  end.

Definition is_panic {A : Type} (r : Result A) : bool := match r with Panic => true | _ => false end.

(** Joining the scoped workers in order.  A panic that is joined becomes an
    error; one left unjoined by an earlier failure is raised by the scope. *)
Fixpoint join_all {A : Type} (results : list (Result A)) : Result (list A) :=
  match results with
  | [] => Ok []
  | Ok a :: rest => let? l := join_all rest in Ok (a :: l)
  | Err e :: rest => if existsb is_panic rest then Panic else Err e
  | Panic :: rest =>
      if existsb is_panic rest then Panic else Err (Concurrency "shard search worker panicked")
  end.

Definition compare_hits : SearchHit -> SearchHit -> comparison := hit_cmp.

Definition search (self : ShardedCollection) (query : list Z) (k : Z) (filter : option Filter) (ef_search : Z)
    : Result (list SearchHit) :=
  if Z.eqb k 0 then Err (InvalidQuery "k must be greater than zero")
  else if negb (Z.eqb (zlen query) (dimension (sharded_config self)))
  then Err (InvalidDimension (dimension (sharded_config self)) (zlen query))
  else
    let? shard_results := join_all (map (fun shard => sh_search shard query k filter ef_search) (shards self)) in
    Ok (truncate k (sort_by compare_hits (concat shard_results))).

Definition len (self : ShardedCollection) : Result Z :=
  foldM_result (fun total shard => let? n := sh_len shard in Ok (total + n)) 0 (shards self).

Fixpoint flush_from (shard : Z) (stores : list S) : Result (list ShardCommit) * list S :=
  match stores with
  | [] => (Ok [], [])
  | s :: stores' =>
      match sh_flush s with
      | (Ok sequence, s') =>
          match sh_len s' with
          | Ok n => let '(r, ss) := flush_from (shard + 1) stores' in
                    (rmap (cons (MkCommit shard sequence n)) r, s' :: ss)
          | Err e => (Err e, s' :: stores')
          | Panic => (Panic, s' :: stores')
          end
      | (Err e, s') => (Err e, s' :: stores')
      | (Panic, s') => (Panic, s' :: stores')
      end
  end.

Definition flush (self : ShardedCollection) : Result (list ShardCommit) * ShardedCollection :=
  let '(r, ss) := flush_from 0 (shards self) in (r, MkSharded (sharded_config self) ss).
End Sharded.
Arguments ShardedCollection : clear implicits.
