(* ===== verification/ShardingFacts.v ===== *)
(** * ShardingFacts: routing, partial commits and the exact global merge *)

From stdpp Require Import base gmap sets list strings sorting.
From Stdlib Require Import ZArith Lia.
From S2P Require Import Prelude Errors Floats Ranking Metric Filter MetadataIndex Collection CollectionFacts.
From S2P Require Import Sharding.

(** ** Placement *)

Definition shard_of (n : Z) (id : string) : nat := Z.to_nat (stable_hash (bytes_of_string id) mod n).

Lemma shard_index_ok n id : 0 < n -> shard_index id n = Ok (Z.of_nat (shard_of n id)).
Proof.
  intros Hn. unfold shard_index, shard_of. rewrite (proj2 (Z.ltb_lt 0 n)) by lia.
  rewrite Z2Nat.id; [done|]. apply Z.mod_pos_bound. lia.
Qed.

Lemma shard_of_lt n id : 0 < n -> (shard_of n id < Z.to_nat n)%nat.
Proof. intros Hn. unfold shard_of. apply Z2Nat.inj_lt; try lia; apply Z.mod_pos_bound; lia. Qed.

(** ** Routing *)

Section Routing.
Context {A : Type} (id_of : A -> string) (n : Z) (Hn : 0 < n).

Definition batch_of (items : list A) (i : nat) : list A :=
  List.filter (fun x => bool_decide (shard_of n (id_of x) = i)) items.

Lemma batch_of_snoc items x i :
  batch_of (items ++ [x]) i = batch_of items i ++ (if decide (shard_of n (id_of x) = i) then [x] else []).
Proof. unfold batch_of. rewrite List.filter_app. cbn. by case_bool_decide; case_decide. Qed.

(** Each item ends in the batch of its shard, in request order. *)
Lemma route_ok items : route id_of n items = Ok (map (batch_of items) (seq 0 (Z.to_nat n))).
Proof.
  unfold route. induction items as [|x items IH] using rev_ind.
  { cbn [foldM_result]. f_equal. clear. generalize 0%nat as s. induction (Z.to_nat n) as [|m IH]; intros s; [done|].
    cbn. f_equal. apply IH. }
  rewrite foldM_result_app, IH. cbn [rbind foldM_result]. unfold push_batch.
  rewrite shard_index_ok by done. cbn [rbind]. rewrite Nat2Z.id.
  pose proof (shard_of_lt n (id_of x) Hn) as Hlt.
  change (map (batch_of items) ?l) with (batch_of items <$> l) at 1.
  rewrite list_lookup_fmap, lookup_seq_lt by done. cbn [fmap option_fmap option_map rbind]. f_equal.
  apply list_eq. intros i. change (map (batch_of items) ?l) with (batch_of items <$> l).
  change (map (batch_of (items ++ [x])) ?l) with (batch_of (items ++ [x]) <$> l).
  destruct (decide (i = shard_of n (id_of x))) as [->|Hi].
  - rewrite list_lookup_insert_eq by (by rewrite length_fmap, length_seq).
    rewrite list_lookup_fmap, lookup_seq_lt by done. cbn. by rewrite batch_of_snoc, decide_True.
  - rewrite list_lookup_insert_ne by done. rewrite !list_lookup_fmap.
    destruct (decide (i < Z.to_nat n)%nat).
    + rewrite !lookup_seq_lt by done. cbn. rewrite batch_of_snoc, decide_False by done. by rewrite app_nil_r.
    + by rewrite !lookup_seq_ge by lia.
Qed.
End Routing.

Lemma filter_filter_imp {A} (f g : A -> bool) (l : list A) :
  (forall x, f x = true -> g x = true) -> List.filter f (List.filter g l) = List.filter f l.
Proof.
  intros Himp. induction l as [|x l IH]; [done|]. cbn. destruct (g x) eqn:Eg; cbn; [by rewrite IH|].
  destruct (f x) eqn:Ef; [|done]. apply Himp in Ef. congruence.
Qed.

Lemma last_upsert_batch n us id i :
  last_upsert id (batch_of up_id n us i) = if decide (shard_of n id = i) then last_upsert id us else None.
Proof.
  unfold last_upsert, batch_of. case_decide as E.
  - f_equal. apply filter_filter_imp. intros u Hu. rewrite bool_decide_eq_true in *. by rewrite Hu.
  - apply last_None. induction us as [|u us IH]; [done|]. cbn.
    case_bool_decide as Ei; [|done]. cbn. case_bool_decide as Eu; [|done]. by rewrite Eu in Ei.
Qed.

Lemma elem_of_batch_ids n ids id i :
  id ∈ batch_of (fun id => id) n ids i <-> id ∈ ids /\ shard_of n id = i.
Proof. unfold batch_of. by rewrite list_elem_of_In, filter_In, <- list_elem_of_In, bool_decide_eq_true. Qed.

(** ** Concatenations *)

Lemma elem_of_concat_lookup {A} (ls : list (list A)) (a : A) :
  a ∈ concat ls <-> exists i l, ls !! i = Some l /\ a ∈ l.
Proof.
  rewrite list_elem_of_In, in_concat. split.
  - intros (l & [i Hi]%list_elem_of_In%list_elem_of_lookup & Ha). exists i, l. by rewrite list_elem_of_In.
  - intros (i & l & Hi & Ha). exists l. rewrite <- !list_elem_of_In. split; [by eapply list_elem_of_lookup_2|done].
Qed.

Lemma NoDup_concat_lookup {A} (ls : list (list A)) :
  (forall i l, ls !! i = Some l -> NoDup l) ->
  (forall i j l1 l2 a, ls !! i = Some l1 -> ls !! j = Some l2 -> a ∈ l1 -> a ∈ l2 -> i = j) ->
  NoDup (concat ls).
Proof.
  induction ls as [|l ls IH]; intros Hn Hd; cbn; [constructor|]. apply NoDup_app. split_and!.
  - exact (Hn 0%nat l eq_refl).
  - intros a Ha (i & l2 & Hi & Ha2)%elem_of_concat_lookup. by pose proof (Hd 0%nat (S i) l l2 a eq_refl Hi Ha Ha2).
  - apply IH; [intros i; exact (Hn (S i))|]. intros i j l1 l2 a Hi Hj H1 H2.
    by injection (Hd (S i) (S j) l1 l2 a Hi Hj H1 H2).
Qed.

(** ** The commit loop *)

Section Commits.
Context {S A : Type} (apply : S -> list A -> Result Z * S).

Definition committed (r : Result (list ShardCommit)) (i : Z) (s : S) (b : list A) (s' : S) : Prop :=
  match r with
  | Ok commits => (b = [] /\ s' = s) \/
      exists sequence, b <> [] /\ apply s b = (Ok sequence, s') /\ MkCommit i sequence (zlen b) ∈ commits
  | _ => s' = s \/ exists r', apply s b = (r', s')
  end.

Lemma commit_batches_spec i ss bs r ss' :
  length ss = length bs -> commit_batches apply i ss bs = (r, ss') ->
  length ss' = length ss /\
  forall j s b, ss !! j = Some s -> bs !! j = Some b ->
    exists s', ss' !! j = Some s' /\ committed r (i + Z.of_nat j) s b s'.
Proof.
  revert i bs r ss'. induction ss as [|s ss IH]; intros i [|b bs] r ss' Hl E; cbn [commit_batches length] in *; try done.
  { injection E as <- <-. split; [done|]. intros j s b. by rewrite lookup_nil. }
  injection Hl as Hl.
  assert (forall r1 l, committed r1 i s b l -> (forall rest, r = r1 -> ss' = l :: rest -> length rest = length ss ->
     (forall j s0 b0, ss !! j = Some s0 -> bs !! j = Some b0 -> exists s', rest !! j = Some s' /\ committed r (i + 1 + Z.of_nat j) s0 b0 s') ->
     length ss' = Datatypes.S (length ss) /\ forall j s0 b0, (s :: ss) !! j = Some s0 -> (b :: bs) !! j = Some b0 ->
       exists s', ss' !! j = Some s' /\ committed r (i + Z.of_nat j) s0 b0 s')) as Hstep.
  { intros r1 l Hc rest -> -> Hlen Hrest. split; [by cbn; rewrite Hlen|]. intros [|j] s0 b0 Hs Hb; cbn in *.
    - injection Hs as <-. injection Hb as <-. exists l. split; [done|]. by rewrite Z.add_0_r.
    - destruct (Hrest j s0 b0 Hs Hb) as (s' & ? & Hs'). exists s'. split; [done|].
      by replace (i + Z.of_nat (Datatypes.S j)) with (i + 1 + Z.of_nat j) by lia. }
  assert (forall r1, (forall c, r1 <> Ok c) -> forall j s0 b0, ss !! j = Some s0 -> bs !! j = Some b0 ->
     exists s', ss !! j = Some s' /\ committed r1 (i + 1 + Z.of_nat j) s0 b0 s') as Hkeep.
  { intros r1 Hr1 j s0 b0 Hs _. exists s0. split; [done|]. destruct r1 as [c| |]; [by destruct (Hr1 c)|by left|by left]. }
  destruct b as [|x b].
  - destruct (commit_batches apply (i + 1) ss bs) as [r0 ss0] eqn:E0. injection E as <- <-.
    destruct (IH _ _ _ _ Hl E0) as [Hlen Hrest]. eapply (Hstep r0); try done. destruct r0; by left.
  - destruct (apply s (x :: b)) as [[sequence|e|] s1] eqn:Ea.
    + destruct (commit_batches apply (i + 1) ss bs) as [r0 ss0] eqn:E0. injection E as <- <-.
      destruct (IH _ _ _ _ Hl E0) as [Hlen Hrest]. eapply Hstep; try done.
      * destruct r0 as [c|e|]; cbn; [right|by right; eexists|by right; eexists].
        exists sequence. split_and!; [done|done|left].
      * intros j s0 b0 Hs Hb. destruct (Hrest j s0 b0 Hs Hb) as (s' & Hs' & Hc). exists s'. split; [done|].
        destruct r0 as [c|e|]; cbn in *; [|done|done]. destruct Hc as [?|(q & ? & ? & ?)]; [by left|].
        right. exists q. split_and!; [done|done|by right].
    + injection E as <- <-. eapply Hstep; try done; [by right; eexists|by apply Hkeep].
    + injection E as <- <-. eapply Hstep; try done; [by right; eexists|by apply Hkeep].
Qed.
End Commits.

(** ** The sharded contents *)

Section Theorems.
Context `{FloatEnv} {S : Type} `{!ShardStore S} `{!ShardLaws S}.

Definition sharded_contents (self : ShardedCollection S) : gmap string Point := ⋃ (map sh_contents (shards self)).

(** Every shard is well formed, has the common configuration, and holds only
    identifiers placed on it. *)
Definition sharded_ok (self : ShardedCollection S) : Prop :=
  0 < zlen (shards self) /\
  forall i s, shards self !! i = Some s ->
    sh_ok s /\ sh_config s = sharded_config self /\
    forall id p, sh_contents s !! id = Some p -> shard_of (zlen (shards self)) id = i.

Definition home (self : ShardedCollection S) (id : string) : nat := shard_of (zlen (shards self)) id.

Lemma home_exists self id : sharded_ok self -> exists s, shards self !! home self id = Some s.
Proof.
  intros [Hn _]. apply lookup_lt_is_Some_2. pose proof (shard_of_lt _ id Hn) as Hlt. unfold home, zlen in *. lia.
Qed.

(** A point is stored on its home shard and nowhere else. *)
Lemma sharded_lookup self id s :
  sharded_ok self -> shards self !! home self id = Some s -> sharded_contents self !! id = sh_contents s !! id.
Proof.
  intros [Hn Hok] Hs. unfold sharded_contents, home in *.
  assert (forall i s', shards self !! i = Some s' -> i <> shard_of (zlen (shards self)) id -> sh_contents s' !! id = None) as Hother.
  { intros i s' Hs' Hi. destruct (sh_contents s' !! id) as [p|] eqn:E; [|done].
    destruct (Hok i s' Hs') as (_ & _ & Hp). by destruct Hi; rewrite <- (Hp id p E). }
  clear Hok. revert Hs Hother. generalize (shard_of (zlen (shards self)) id) as h. generalize (shards self) as l.
  induction l as [|s0 l IH]; intros h Hs Hother; [done|]. cbn [map union_list foldr].
  destruct h as [|h]; cbn in Hs.
  - injection Hs as ->. destruct (sh_contents s !! id) as [p|] eqn:E.
    + by apply lookup_union_Some_l.
    + apply lookup_union_None. split; [done|]. apply lookup_union_list_None_2. apply Forall_fmap, Forall_forall.
      intros s' [j Hj]%list_elem_of_lookup. exact (Hother (Datatypes.S j) s' Hj ltac:(done)).
  - rewrite lookup_union_r; [|by apply (Hother 0%nat)]. apply (IH h Hs).
    intros i s' Hs' Hi. apply (Hother (Datatypes.S i) s' Hs'). congruence.
Qed.

Lemma sharded_ids self : sharded_ok self -> ids_match (sharded_contents self).
Proof.
  intros Hok id p Hp. destruct (home_exists self id Hok) as [s Hs]. rewrite (sharded_lookup self id s) in Hp by done.
  destruct Hok as [_ Hok]. destruct (Hok _ _ Hs) as (Hs' & _). exact (sh_ids_law s Hs' id p Hp).
Qed.

(** ** Mutations *)

(** Committing per-shard batches keeps the invariant and reaches exactly the
    home shards of the items. *)
Lemma commit_routed_spec {A} (id_of : A -> string) (apply : S -> list A -> Result Z * S) self items :
  sharded_ok self ->
  (forall i s, shards self !! i = Some s ->
     let '(r, s') := apply s (batch_of id_of (zlen (shards self)) items i) in
     sh_ok s' /\ sh_config s' = sh_config s /\
     forall id p, sh_contents s' !! id = Some p -> home self id = i) ->
  let '(r, self') := commit_routed id_of apply self items in
  sharded_ok self' /\ zlen (shards self') = zlen (shards self) /\ sharded_config self' = sharded_config self /\
  forall id s, shards self !! home self id = Some s ->
    exists s', shards self' !! home self id = Some s' /\
      committed apply r (Z.of_nat (home self id)) s (batch_of id_of (zlen (shards self)) items (home self id)) s'.
Proof.
  intros [Hn Hok] Happ. unfold commit_routed. rewrite route_ok by done.
  set (bs := map _ _). destruct (commit_batches apply 0 (shards self) bs) as [r ss'] eqn:E.
  assert (forall i s, shards self !! i = Some s -> bs !! i = Some (batch_of id_of (zlen (shards self)) items i)) as Hbs.
  { intros i s Hs%lookup_lt_Some. unfold bs. change (map ?f ?l) with (f <$> l).
    rewrite list_lookup_fmap, lookup_seq_lt by (unfold zlen; lia). done. }
  apply commit_batches_spec in E as [Hlen Hall].
  2: { unfold bs, zlen. rewrite length_map, length_seq. lia. }
  assert (zlen ss' = zlen (shards self)) as Hz by (unfold zlen; by rewrite Hlen).
  split_and!; [|done|done|].
  - split; cbn [shards sharded_config]; rewrite ?Hz; [done|]. intros i s' Hs'.
    destruct (lookup_lt_is_Some_2 (shards self) i) as [s Hs].
    { rewrite <- Hlen. by eapply lookup_lt_Some. }
    destruct (Hall i s _ Hs (Hbs i s Hs)) as (s'' & Hs'' & Hc). assert (s'' = s') as -> by congruence.
    destruct (Hok i s Hs) as (Hs1 & Hs2 & Hs3).
    assert (s' = s \/ exists r', apply s (batch_of id_of (zlen (shards self)) items i) = (r', s')) as [->|[r' Er]].
    { unfold committed in Hc. destruct r; [|done|done]. destruct Hc as [[_ ?]|(q & _ & ? & _)]; eauto. }
    + by split_and!.
    + specialize (Happ i s Hs). rewrite Er in Happ. destruct Happ as (? & Hcfg & ?).
      split_and!; [done|by rewrite Hcfg|done].
  - intros id s Hs. exact (Hall _ s _ Hs (Hbs _ s Hs)).
Qed.

Lemma upserted_batch cfg sequence us m id n :
  upserted cfg sequence (batch_of up_id n us (shard_of n id)) m id = upserted cfg sequence us m id.
Proof. unfold upserted. by rewrite last_upsert_batch, decide_True. Qed.

Lemma upserted_home cfg sequence us m id p n i :
  upserted cfg sequence (batch_of up_id n us i) m id = Some p -> shard_of n id = i \/ m !! id = Some p.
Proof. unfold upserted. rewrite last_upsert_batch. case_decide; eauto. Qed.

Lemma shard_upsert_ok self us i s :
  sharded_ok self -> shards self !! i = Some s ->
  let '(r, s') := sh_upsert s (batch_of up_id (zlen (shards self)) us i) in
  sh_ok s' /\ sh_config s' = sh_config s /\ forall id p, sh_contents s' !! id = Some p -> home self id = i.
Proof.
  intros [Hn Hok] Hs. destruct (Hok i s Hs) as (Hs1 & _ & Hs3).
  pose proof (sh_upsert_law s (batch_of up_id (zlen (shards self)) us i) Hs1) as Hl.
  destruct (sh_upsert _ _) as [r s']. destruct Hl as (? & ? & Hr). split_and!; [done|done|].
  intros id p Hp. destruct r as [q|e|]; [|rewrite Hr in Hp; by apply Hs3 in Hp|done].
  rewrite Hr in Hp. apply upserted_home in Hp as [?|Hp]; [done|]. by apply Hs3 in Hp.
Qed.

Lemma shard_delete_ok self ids i s :
  sharded_ok self -> shards self !! i = Some s ->
  let '(r, s') := sh_delete s (batch_of (fun id => id) (zlen (shards self)) ids i) in
  sh_ok s' /\ sh_config s' = sh_config s /\ forall id p, sh_contents s' !! id = Some p -> home self id = i.
Proof.
  intros [Hn Hok] Hs. destruct (Hok i s Hs) as (Hs1 & _ & Hs3).
  pose proof (sh_delete_law s (batch_of (fun id => id) (zlen (shards self)) ids i) Hs1) as Hl.
  destruct (sh_delete _ _) as [r s']. destruct Hl as (? & ? & Hr). split_and!; [done|done|].
  intros id p Hp. destruct r as [q|e|]; [|rewrite Hr in Hp; by apply Hs3 in Hp|done].
  rewrite Hr in Hp. case_decide; [done|]. by apply Hs3 in Hp.
Qed.

(** The configuration accepts the batch. *)
Lemma validate_points_ok cfg us :
  0 < dimension cfg -> is_ok (validate_points cfg us) = true <-> us <> [] /\ Forall (acceptable cfg) us.
Proof.
  intros Hd. unfold validate_points, new. rewrite (proj2 (Z.eqb_neq (dimension cfg) 0)) by lia. cbn [rbind].
  assert (coll_ok (MkCollection cfg ∅ 0)) as Hc.
  { split; [done|]. split; [done|]. apply map_Forall_empty. }
  destruct (upsert_cases _ us Hc) as [(ps & Hne & _ & Hps & ->)|(Hbad & e & ->)]; cbn.
  - split; [|done]. intros _. split; [done|]. apply (prepared_exists _ (0 + 1)). by exists ps.
  - split; [done|]. intros [Hne Hacc]. destruct Hbad as [?|[Hs|?]]; [done|by vm_compute in Hs|done].
Qed.

(** What the home shard's part of a batch means for one identifier. *)
Lemma home_upsert self us id s r s' :
  sharded_ok self -> shards self !! home self id = Some s ->
  sh_upsert s (batch_of up_id (zlen (shards self)) us (home self id)) = (r, s') ->
  match r with
  | Ok sequence =>
      sh_contents s' !! id = upserted (sharded_config self) sequence us (sharded_contents self) id
  | _ => sh_contents s' !! id = sharded_contents self !! id
  end.
Proof.
  intros Hok Hs E. pose proof Hok as [Hn Hall]. destruct (Hall _ _ Hs) as (Hs1 & Hs2 & _).
  pose proof (sh_upsert_law s (batch_of up_id (zlen (shards self)) us (home self id)) Hs1) as Hl.
  rewrite E in Hl. destruct Hl as (_ & _ & Hl). destruct r as [q|e|]; [|by rewrite Hl, (sharded_lookup self id s)|done].
  rewrite Hl, Hs2. unfold home. rewrite upserted_batch. unfold upserted.
  destruct (last_upsert id us); [done|]. by rewrite (sharded_lookup self id s).
Qed.

Lemma home_delete self ids id s r s' :
  sharded_ok self -> shards self !! home self id = Some s ->
  sh_delete s (batch_of (fun id => id) (zlen (shards self)) ids (home self id)) = (r, s') ->
  match r with
  | Ok _ => sh_contents s' !! id = if decide (id ∈ ids) then None else sharded_contents self !! id
  | _ => sh_contents s' !! id = sharded_contents self !! id
  end.
Proof.
  intros Hok Hs E. pose proof Hok as [Hn Hall]. destruct (Hall _ _ Hs) as (Hs1 & Hs2 & _).
  pose proof (sh_delete_law s (batch_of (fun id => id) (zlen (shards self)) ids (home self id)) Hs1) as Hl.
  rewrite E in Hl. destruct Hl as (_ & _ & Hl). rewrite (sharded_lookup self id s) by done.
  destruct r as [q|e|]; [|by rewrite Hl|done]. rewrite Hl.
  destruct (decide (id ∈ ids)) as [Hi|Hi]; [rewrite decide_True|rewrite decide_False]; try done;
    rewrite elem_of_batch_ids; unfold home; tauto.
Qed.

(** A sharded upsert keeps every point on its
    home shard whatever the outcome.  If it succeeds, every identifier reads as
    one unsharded upsert of the whole batch would leave it, at the sequence its
    home shard reported; if a shard fails, each identifier is either untouched
    or fully updated. *)
Theorem sharded_upsert_correct self us :
  sharded_ok self ->
  let '(r, self') := upsert self us in
  sharded_ok self' /\
  forall id,
    match r with
    | Ok commits =>
        (last_upsert id us = None /\ sharded_contents self' !! id = sharded_contents self !! id) \/
        exists c, c ∈ commits /\ commit_shard c = Z.of_nat (home self id) /\
          sharded_contents self' !! id =
            upserted (sharded_config self) (commit_sequence c) us (sharded_contents self) id
    | _ => sharded_contents self' !! id = sharded_contents self !! id \/
        exists sequence, sharded_contents self' !! id =
          upserted (sharded_config self) sequence us (sharded_contents self) id
    end.
Proof.
  intros Hok. unfold upsert. destruct us as [|u us]; [by split; [|left]|]. set (l := u :: us).
  destruct (validate_points (sharded_config self) l); [|by split; [|left]|by split; [|left]].
  pose proof (commit_routed_spec up_id sh_upsert self l Hok (fun i s => shard_upsert_ok self l i s Hok)) as Hc.
  destruct (commit_routed up_id sh_upsert self l) as [r self']. destruct Hc as (Hok' & Hz & Hcfg & Hid).
  split; [done|]. intros id. destruct (home_exists self id Hok) as [s Hs]. destruct (Hid id s Hs) as (s' & Hs' & Hc).
  rewrite (sharded_lookup self' id s') by (done || by unfold home; rewrite Hz).
  pose proof (fun r' => home_upsert self l id s r' s' Hok Hs) as Hup.
  unfold committed in Hc. destruct r as [commits|e|].
  - destruct Hc as [[Hb ->]|(q & _ & E & Hin)].
    + left. split; [|by rewrite (sharded_lookup self id s)].
      pose proof (last_upsert_batch (zlen (shards self)) l id (home self id)) as Hl.
      rewrite Hb, decide_True in Hl by done. by symmetry.
    + right. eexists. split_and!; [exact Hin|done|]. exact (Hup _ E).
  - destruct Hc as [->|[r' E]]; [left; by rewrite (sharded_lookup self id s)|]. apply Hup in E. destruct r'; eauto.
  - destruct Hc as [->|[r' E]]; [left; by rewrite (sharded_lookup self id s)|]. apply Hup in E. destruct r'; eauto.
Qed.

(** A batch with any point the configuration
    does not accept is refused before any shard changes. *)
Theorem sharded_validation_first self us :
  0 < dimension (sharded_config self) -> ~ Forall (acceptable (sharded_config self)) us ->
  (upsert self us).2 = self /\ is_ok (upsert self us).1 = false.
Proof.
  intros Hd Hn. unfold upsert. destruct us as [|u us]; [done|].
  pose proof (validate_points_ok (sharded_config self) (u :: us) Hd) as Hv.
  destruct (validate_points (sharded_config self) (u :: us)); [|done|done].
  destruct Hn. by apply Hv.
Qed.

(** A successful sharded delete removes exactly
    the listed identifiers from the whole collection; a failed one leaves each
    identifier as it was or removed; placement is kept either way. *)
Theorem sharded_delete_correct self ids :
  sharded_ok self ->
  let '(r, self') := delete self ids in
  sharded_ok self' /\
  forall id,
    match r with
    | Ok _ => sharded_contents self' !! id = if decide (id ∈ ids) then None else sharded_contents self !! id
    | _ => sharded_contents self' !! id = sharded_contents self !! id \/
           (id ∈ ids /\ sharded_contents self' !! id = None)
    end.
Proof.
  intros Hok. unfold delete. destruct ids as [|i ids]; [by split; [|left]|]. set (l := i :: ids).
  destruct (existsb _ l); [by split; [|left]|].
  pose proof (commit_routed_spec (fun id => id) sh_delete self l Hok (fun i s => shard_delete_ok self l i s Hok)) as Hc.
  destruct (commit_routed (fun id => id) sh_delete self l) as [r self']. destruct Hc as (Hok' & Hz & Hcfg & Hid).
  split; [done|]. intros id. destruct (home_exists self id Hok) as [s Hs]. destruct (Hid id s Hs) as (s' & Hs' & Hc).
  rewrite (sharded_lookup self' id s') by (done || by unfold home; rewrite Hz).
  pose proof (fun r' => home_delete self l id s r' s' Hok Hs) as Hdel.
  unfold committed in Hc. destruct r as [commits|e|].
  - destruct Hc as [[Hb ->]|(q & _ & E & Hin)]; [|exact (Hdel _ E)].
    rewrite <- (sharded_lookup self id s) by done. rewrite decide_False; [done|]. intros Hin.
    apply (not_elem_of_nil id). rewrite <- Hb. by apply elem_of_batch_ids.
  - destruct Hc as [->|[r' E]]; [left; by rewrite (sharded_lookup self id s)|]. apply Hdel in E.
    destruct r'; [|by left|by left]. rewrite E. case_decide; [by right|by left].
  - destruct Hc as [->|[r' E]]; [left; by rewrite (sharded_lookup self id s)|]. apply Hdel in E.
    destruct r'; [|by left|by left]. rewrite E. case_decide; [by right|by left].
Qed.

(** ** The global merge *)

Lemma sharded_selected_perm self f :
  sharded_ok self -> selected (sharded_contents self) f ≡ₚ concat (map (fun s => selected (sh_contents s) f) (shards self)).
Proof.
  intros Hok. pose proof (sharded_ids self Hok) as Hid. pose proof Hok as [Hn Hall].
  assert (forall i l, map (fun s => selected (sh_contents s) f) (shards self) !! i = Some l ->
    NoDup l /\ forall p, p ∈ l -> home self (pt_id p) = i /\ p ∈ selected (sharded_contents self) f) as Hl.
  { intros i l Hi. apply list_lookup_fmap_Some in Hi as (s & -> & Hs). destruct (Hall i s Hs) as (Hs1 & _ & Hs3).
    pose proof (sh_ids_law s Hs1) as Hsid. split; [by eapply NoDup_fmap_1, (NoDup_ids_selected _ f Hsid)|].
    intros p [Hp Hf]%elem_of_selected; [|done]. split; [by apply (Hs3 _ p)|]. apply elem_of_selected; [done|].
    split; [|done]. rewrite (sharded_lookup self (pt_id p) s); [done|done|]. unfold home. by rewrite (Hs3 _ _ Hp). }
  apply NoDup_Permutation; [by eapply NoDup_fmap_1, (NoDup_ids_selected _ f Hid)| |].
  - apply NoDup_concat_lookup; [intros i l Hi; by apply (Hl i l)|].
    intros i j l1 l2 p Hi Hj Hp1 Hp2. destruct (Hl i l1 Hi) as [_ H1]. destruct (Hl j l2 Hj) as [_ H2].
    destruct (H1 p Hp1) as [<- _]. by destruct (H2 p Hp2) as [<- _].
  - intros p. rewrite elem_of_concat_lookup. split.
    + intros [Hp Hf]%elem_of_selected; [|done]. destruct (home_exists self (pt_id p) Hok) as [s Hs].
      exists (home self (pt_id p)), (selected (sh_contents s) f). split; [apply list_lookup_fmap_Some; eauto|].
      rewrite (sharded_lookup self (pt_id p) s) in Hp by done.
      destruct (Hall _ s Hs) as (Hs1 & _). by apply elem_of_selected; [apply sh_ids_law|].
    + intros (i & l & Hi & Hp). by apply (Hl i l Hi).
Qed.

Lemma join_all_ok {A} (l : list A) : join_all (map (fun a => Ok a) l) = Ok l.
Proof. induction l as [|a l IH]; [done|]. cbn in *. by rewrite IH. Qed.

(** The best [k] of all shards are the merged best [k] of each. *)
Lemma merge_exact self q k f :
  sharded_ok self -> 0 <= k ->
  truncate k (sort_by compare_hits
    (concat (map (fun s => exact_hits (sharded_config self) (sh_contents s) q k f) (shards self)))) =
  exact_hits (sharded_config self) (sharded_contents self) q k f.
Proof.
  intros Hok Hk. unfold exact_hits, compare_hits, truncate.
  pose proof (fmap_Permutation (scored (sharded_config self) q) _ _ (sharded_selected_perm self f Hok)) as Hp.
  change (fmap (scored (sharded_config self) q)) with (map (scored (sharded_config self) q)) in Hp.
  rewrite concat_map, map_map in Hp.
  pose proof (selected_separates (sharded_config self) q _ f (sharded_ids self Hok)) as Hsep.
  rewrite (sort_by_perm_eq hit_cmp _ _ Hsep Hp).
  rewrite <- (take_sort_concat hit_cmp _ _ (separates_perm hit_cmp _ _ Hp Hsep)). by rewrite map_map.
Qed.

(** C32 (sharded_search_correct). When every shard answers exactly, the merge of
    the shards' concurrent results is the exact best [k] of the whole
    collection: the same hits in the same order as one unsharded search. *)
Theorem sharded_search_correct self query k f ef q :
  sharded_ok self -> (forall s, s ∈ shards self -> sh_exact s f) -> 0 < k ->
  zlen query = dimension (sharded_config self) -> prepare (metric (sharded_config self)) query = Ok q ->
  search self query k f ef = Ok (exact_hits (sharded_config self) (sharded_contents self) q k f) /\
  is_best_k (sharded_config self) (sharded_contents self) q k f
    (exact_hits (sharded_config self) (sharded_contents self) q k f).
Proof.
  intros Hok Hex Hk Hd Hq. split; [|apply exact_hits_best; [by apply sharded_ids|lia]].
  unfold search. rewrite (proj2 (Z.eqb_neq k 0)) by lia. rewrite Hd, Z.eqb_refl. cbn [negb].
  assert (map (fun s => sh_search s query k f ef) (shards self) =
    map (fun h => Ok h) (map (fun s => exact_hits (sharded_config self) (sh_contents s) q k f) (shards self))) as ->.
  { rewrite map_map. apply map_ext_in. intros s Hs%list_elem_of_In. pose proof Hs as [i Hi]%list_elem_of_lookup.
    destruct Hok as [_ Hall]. destruct (Hall i s Hi) as (Hs1 & Hs2 & _).
    rewrite (sh_search_law s query k f ef q); rewrite ?Hs2; try done. by apply Hex. }
  rewrite join_all_ok. cbn [rbind]. f_equal. apply merge_exact; [done|lia].
Qed.
End Theorems.

(** ** The in-memory collection is a shard *)

#[global] Instance Collection_store `{FloatEnv} : ShardStore Collection := {
  sh_config := config; sh_contents := contents; sh_ok := coll_ok; sh_exact _ _ := True;
  sh_upsert := Collection.upsert; sh_delete := Collection.delete;
  sh_search c query k f _ := Collection.search c query k f;
  sh_flush c := (Ok (sequence c), c); sh_len c := Ok (Collection.len c)
}.

#[global] Instance Collection_laws `{FloatEnv} : ShardLaws Collection.
Proof.
  constructor; cbn.
  - intros c us Hc. destruct (upsert_cases c us Hc) as [(ps & Hne & Hs & Hps & ->)|(Hbad & e & ->)]; [|done].
    split_and!; [apply apply_prepared_upsert_ok; [done|split; [lia|done]|by eapply prepared_points_ok]|done|].
    intros id. by apply apply_prepared_contents.
  - intros c ids Hc. unfold Collection.delete. destruct (next_sequence c) as [seq|e|] eqn:Es; [|done|].
    + apply next_sequence_ok in Es as [-> Hs].
      split_and!; [apply apply_delete_at_ok; [done|split; [lia|done]]|done|].
      intros id. rewrite !lookup_contents. cbn. rewrite fold_delete_lookup. by case_decide.
    + by apply next_sequence_no_panic in Es.
  - apply contents_ids.
  - intros c query k f _ q Hc _ Hk Hd Hq. rewrite search_exact_hits by (done || lia). unfold validate_query.
    rewrite (proj2 (Z.eqb_neq k 0)) by lia. by rewrite Hd, Z.eqb_refl, Hq.
  - intros c n _ [= <-]. unfold Collection.len, contents. by rewrite map_size_fmap.
Qed.

(** ** A collection of two shards *)

#[local] Existing Instance x86_64_env.

Definition demo_sharded : ShardedCollection Collection :=
  (upsert (MkSharded demo_config [demo_empty; demo_empty]) demo_batch).2.

Lemma demo_shards_ok : sharded_ok (MkSharded demo_config [demo_empty; demo_empty]).
Proof.
  split; [done|]. intros i s Hs%list_elem_of_lookup_2. cbn [shards] in Hs.
  assert (s = demo_empty) as -> by (rewrite !elem_of_cons in Hs; destruct Hs as [?|[?|?%not_elem_of_nil]]; done).
  split; [exact demo_empty_ok|]. split; [done|]. intros id p Hp. vm_compute in Hp. discriminate Hp.
Qed.

(** The two points of the batch land on two shards. *)
Lemma sharded_upsert_witness :
  let '(r, self') := upsert (MkSharded demo_config [demo_empty; demo_empty]) demo_batch in
  is_ok r = true /\ sharded_ok self' /\
  map (fun s => size (points s)) (shards self') = [1%nat; 1%nat].
Proof.
  pose proof (sharded_upsert_correct (MkSharded demo_config [demo_empty; demo_empty]) demo_batch
    demo_shards_ok) as H.
  assert (is_ok (upsert (MkSharded demo_config [demo_empty; demo_empty]) demo_batch).1 = true) as Hr
    by (vm_compute; reflexivity).
  assert (map (fun s => size (points s))
    (shards (upsert (MkSharded demo_config [demo_empty; demo_empty]) demo_batch).2) =
    [1%nat; 1%nat]) as Hm by (vm_compute; reflexivity).
  destruct (upsert _ _) as [r self']. split; [exact Hr|]. split; [exact (proj1 H)|exact Hm].
Defined.

Lemma demo_sharded_ok : sharded_ok demo_sharded.
Proof.
  unfold demo_sharded. unfold upsert. cbn [demo_batch sharded_config].
  destruct (validate_points _ _); try exact demo_shards_ok.
  match goal with |- sharded_ok (commit_routed _ _ ?s ?l).2 =>
    pose proof (commit_routed_spec up_id sh_upsert s l demo_shards_ok
      (fun i sh => shard_upsert_ok s l i sh demo_shards_ok)) as Hc end.
  destruct (commit_routed _ _ _ _). by destruct Hc.
Qed.

Lemma sharded_delete_witness :
  let '(r, self') := delete demo_sharded ["a"; "zz"] in
  is_ok r = true /\ sharded_ok self' /\ sharded_contents self' !! "a" = None.
Proof.
  pose proof (sharded_delete_correct demo_sharded ["a"; "zz"] demo_sharded_ok) as H.
  assert (is_ok (delete demo_sharded ["a"; "zz"]).1 = true) as Hr by (vm_compute; reflexivity).
  assert (sharded_contents (delete demo_sharded ["a"; "zz"]).2 !! "a" = None) as Hm by (vm_compute; reflexivity).
  destruct (delete _ _) as [r self']. split; [exact Hr|]. split; [exact (proj1 H)|exact Hm].
Defined.

Lemma sharded_validation_witness :
  (upsert demo_sharded [MkUpsert "c" [0] ∅]).2 = demo_sharded.
Proof.
  apply sharded_validation_first.
  - vm_compute. reflexivity.
  - intros Hf. apply Forall_inv in Hf as [Hd _]. vm_compute in Hd. discriminate Hd.
Defined.

Lemma sharded_search_witness :
  exists hits, search demo_sharded [0; 1065353216] 2 None 64 = Ok hits /\ map hit_id hits = ["b"; "a"].
Proof.
  exists (exact_hits demo_config (sharded_contents demo_sharded) [0; 1065353216] 2 None). split.
  - apply (sharded_search_correct demo_sharded [0; 1065353216] 2 None 64 [0; 1065353216]).
    + exact demo_sharded_ok.
    + intros s _. exact I.
    + lia.
    + vm_compute. reflexivity.
    + vm_compute. reflexivity.
  - vm_compute. reflexivity.
Defined.
