(* ===== verification/Codec.v ===== *)
(** * Codec: the byte-cursor monad behind the storage decoders

    [Decoder] of [src/src/persistence.rs] and [GraphDecoder] of
    [src/src/hnsw.rs] are the same cursor over a slice.  A decoder is a state
    transformer with errors; [decodes] and [safe] are the two judgements the
    formats are verified with: what an encoding decodes to, and that no input
    makes a decoder panic or leave the slice. *)

From stdpp Require Import base gmap list strings.
From Stdlib Require Import ZArith Lia.
From S2P Require Import Prelude Errors.

Record Decoder : Type := MkDecoder { input : list byte; position : Z }.

Definition decoder_new (bytes : list byte) : Decoder := MkDecoder bytes 0.

Definition dec (A : Type) : Type := Decoder -> Result (A * Decoder).

Definition dret {A : Type} (a : A) : dec A := fun s => Ok (a, s).
Definition dbind {A B : Type} (d : dec A) (k : A -> dec B) : dec B :=
  fun s => let? p := d s in k p.1 p.2.
Definition dlift {A : Type} (r : Result A) : dec A := fun s => let? a := r in Ok (a, s).
Definition dfail {A : Type} (e : Error) : dec A := dlift (Err e).
(** [if cond { return Err(e) }] *)
Definition dguard (cond : bool) (e : Error) : dec unit := if cond then dfail e else dret tt.
Definition dposition : dec Z := fun s => Ok (position s, s).

Notation "'let!' p ':=' d 'in' k" := (dbind d (fun p => k))
  (at level 200, p pattern, d at level 100, k at level 200, right associativity) : focal_scope.
#[global] Open Scope focal_scope.

(** [take]: the next [length] bytes. *)
Definition take_with (overflow truncated : Error) (length : Z) : dec (list byte) := fun s =>
  let? end_ := ok_or (checked_add USIZE_MAX (position s) length) overflow in
  let? value := ok_or (get_range (input s) (position s) end_) truncated in
  Ok (value, MkDecoder (input s) end_).

(** [slice.try_into().expect("fixed slice")] *)
Definition fixed (n : nat) (l : list byte) : Result (list byte) :=
  if Nat.eqb (length l) n then Ok l else Panic.

(** [for _ in 0..n] pushing each result. *)
Fixpoint dec_list {A : Type} (n : nat) (d : dec A) : dec (list A) :=
  match n with
  | O => dret []
  | S n' => let! x := d in let! l := dec_list n' d in dret (x :: l)
  end.

(** A loop that threads a state. *)
Fixpoint dec_for {A S : Type} (l : list A) (body : S -> A -> dec S) (s : S) : dec S :=
  match l with
  | [] => dret s
  | a :: l' => let! s' := body s a in dec_for l' body s'
  end.

Definition run_dec {A : Type} (d : dec A) (bytes : list byte) : Result A :=
  let? p := d (decoder_new bytes) in Ok p.1.

(** ** UTF-8 validity, as [String::from_utf8] checks it *)

Definition in_range8 (lo hi : Z) (b : byte) : bool := Z.leb lo (u8 b) && Z.leb (u8 b) hi.
Definition continuation : byte -> bool := in_range8 0x80 0xBF.

Fixpoint utf8_valid (l : list byte) : bool :=
  match l with
  | [] => true
  | b :: l1 =>
      if in_range8 0x00 0x7F b then utf8_valid l1
      else match l1 with
      | [] => false
      | b1 :: l2 =>
          if in_range8 0xC2 0xDF b then continuation b1 && utf8_valid l2
          else match l2 with
          | [] => false
          | b2 :: l3 =>
              if in_range8 0xE0 0xEF b then
                in_range8 (if Z.eqb (u8 b) 0xE0 then 0xA0 else 0x80) (if Z.eqb (u8 b) 0xED then 0x9F else 0xBF) b1
                  && continuation b2 && utf8_valid l3
              else match l3 with
              | [] => false
              | b3 :: l4 =>
                  in_range8 0xF0 0xF4 b &&
                  in_range8 (if Z.eqb (u8 b) 0xF0 then 0x90 else 0x80) (if Z.eqb (u8 b) 0xF4 then 0x8F else 0xBF) b1
                    && continuation b2 && continuation b3 && utf8_valid l4
              end
          end
      end
  end.

(** ** What an encoding decodes to *)

Definition decodes {A : Type} (d : dec A) (bs : list byte) (a : A) : Prop :=
  forall pre post, zlen (pre ++ bs ++ post) <= USIZE_MAX ->
    d (MkDecoder (pre ++ bs ++ post) (zlen pre)) = Ok (a, MkDecoder (pre ++ bs ++ post) (zlen (pre ++ bs))).

Lemma decodes_ret {A} (a : A) : decodes (dret a) [] a.
Proof. intros pre post _. unfold dret. by rewrite app_nil_r. Qed.

Lemma decodes_bind {A B} (d : dec A) (k : A -> dec B) bs1 bs2 a b :
  decodes d bs1 a -> decodes (k a) bs2 b -> decodes (dbind d k) (bs1 ++ bs2) b.
Proof.
  intros H1 H2 pre post Hl. unfold dbind. rewrite <- app_assoc in *.
  rewrite (H1 pre (bs2 ++ post) Hl). cbn [rbind fst snd]. rewrite !app_assoc in *.
  rewrite <- (app_assoc (pre ++ bs1)) in *. rewrite (H2 (pre ++ bs1) post Hl). by rewrite app_assoc.
Qed.

Lemma decodes_bind_ret {A B} (d : dec A) (k : A -> dec B) bs a b :
  decodes d bs a -> k a = dret b -> decodes (dbind d k) bs b.
Proof.
  intros H1 H2. rewrite <- (app_nil_r bs). eapply decodes_bind; [done|]. rewrite H2. apply decodes_ret.
Qed.

Lemma decodes_lift {A} (r : Result A) a : r = Ok a -> decodes (dlift r) [] a.
Proof. intros -> pre post _. unfold dlift. cbn. by rewrite app_nil_r. Qed.

Lemma decodes_guard b e : b = false -> decodes (dguard b e) [] tt.
Proof. intros ->. apply decodes_ret. Qed.

Lemma decodes_then {A B} (d : dec A) (k : A -> dec B) a bs b :
  decodes d [] a -> decodes (k a) bs b -> decodes (dbind d k) bs b.
Proof. intros H1 H2. exact (decodes_bind d k [] bs a b H1 H2). Qed.

Lemma decodes_take overflow truncated bs : decodes (take_with overflow truncated (zlen bs)) bs bs.
Proof.
  intros pre post Hl. unfold take_with, checked_add. cbn [position input].
  rewrite !zlen_app in *. pose proof (zlen_nonneg post). pose proof (zlen_nonneg pre). pose proof (zlen_nonneg bs).
  rewrite (proj2 (Z.leb_le _ _)) by lia. cbn [ok_or rbind].
  pose proof (slice_app (E := Error) pre bs post) as Hs. unfold slice in Hs. unfold get_range.
  destruct (decide _); [|done]. injection Hs as ->. done.
Qed.

Lemma decodes_list {A} (d : dec A) (enc : A -> list byte) (l : list A) :
  Forall (fun x => decodes d (enc x) x) l -> decodes (dec_list (length l) d) (concat (map enc l)) l.
Proof.
  induction 1 as [|x l Hx _ IH]; cbn; [apply decodes_ret|]. eapply decodes_bind; [exact Hx|].
  by eapply decodes_bind_ret; [exact IH|].
Qed.

Lemma decodes_for {A S} (body : S -> A -> dec S) (enc : A -> list byte) (step : S -> A -> S) (l : list A) s :
  Forall (fun x => forall s, decodes (body s x) (enc x) (step s x)) l ->
  decodes (dec_for l body s) (concat (map enc l)) (fold_left step l s).
Proof.
  intros H. revert s. induction H as [|x l Hx _ IH]; intros s; cbn; [apply decodes_ret|].
  eapply decodes_bind; [apply Hx|apply IH].
Qed.

Lemma decodes_run {A} (d : dec A) bs a : decodes d bs a -> zlen bs <= USIZE_MAX -> run_dec d bs = Ok a.
Proof.
  intros H Hl. specialize (H [] []). cbn in H. rewrite app_nil_r in H. unfold run_dec, decoder_new.
  change (zlen (@nil byte)) with 0 in H. by rewrite H.
Qed.

(** ** Decoders that stay inside the slice *)

Definition cursor_ok (s : Decoder) : Prop := 0 <= position s <= zlen (input s).

Definition safe {A : Type} (d : dec A) : Prop :=
  forall s, cursor_ok s ->
    match d s with
    | Ok (_, s') => cursor_ok s' /\ input s' = input s /\ position s <= position s'
    | Err _ => True
    | Panic => False
    end.

Lemma safe_ret {A} (a : A) : safe (dret a).
Proof. intros s Hs. cbn. split_and!; [done|done|lia]. Qed.

Lemma safe_bind {A B} (d : dec A) (k : A -> dec B) : safe d -> (forall a, safe (k a)) -> safe (dbind d k).
Proof.
  intros H1 H2 s Hs. unfold dbind. specialize (H1 s Hs). destruct (d s) as [[a s']| |]; [|done|done].
  destruct H1 as (Hs' & Hi & Hp). specialize (H2 a s' Hs'). cbn. destruct (k a s') as [[b s'']| |]; [|done|done].
  destruct H2 as (? & ? & ?). split_and!; [done|congruence|lia].
Qed.

Lemma safe_lift {A} (r : Result A) : r <> Panic -> safe (dlift r).
Proof. intros Hr s Hs. unfold dlift. destruct r; cbn; [split_and!; [done|done|lia]|done|done]. Qed.

Lemma safe_fail {A} e : safe (@dfail A e).
Proof. by apply safe_lift. Qed.

Lemma safe_guard b e : safe (dguard b e).
Proof. destruct b; [apply safe_fail|apply safe_ret]. Qed.

Lemma safe_position : safe dposition.
Proof. intros s Hs. cbn. split_and!; [done|done|lia]. Qed.

Lemma take_with_inv overflow truncated n s l s' :
  cursor_ok s -> take_with overflow truncated n s = Ok (l, s') ->
  0 <= n /\ zlen l = n /\ cursor_ok s' /\ input s' = input s /\ position s' = position s + n /\
  l = take (Z.to_nat n) (drop (Z.to_nat (position s)) (input s)).
Proof.
  intros [Hp Hl] H. unfold take_with, checked_add in H.
  destruct (Z.leb_spec (position s + n) USIZE_MAX); [|done]. cbn [ok_or rbind] in H.
  unfold get_range in H. destruct (decide _) as [Hd|]; [|done]. cbn in H. injection H as <- <-.
  unfold cursor_ok, zlen in *. cbn. rewrite length_take, length_drop.
  replace (position s + n - position s) with n by lia. split_and!; lia || done.
Qed.

Lemma safe_take overflow truncated n : safe (take_with overflow truncated n).
Proof.
  intros s Hs. destruct (take_with overflow truncated n s) as [[l s']|e|] eqn:E; [|done|].
  - apply take_with_inv in E as (? & ? & ? & ? & ? & _); [|done]. split_and!; [done|done|lia].
  - unfold take_with, checked_add in E. destruct (_ <=? _); [|done]. cbn in E. by destruct (get_range _ _ _).
Qed.

(** Reading a fixed number of bytes never trips the array conversion. *)
Lemma safe_take_fixed {A} overflow truncated (n : nat) (k : list byte -> dec A) :
  (forall l, length l = n -> safe (k l)) ->
  safe (let! l := take_with overflow truncated (Z.of_nat n) in let! l := dlift (fixed n l) in k l).
Proof.
  intros Hk s Hs. unfold dbind at 1.
  destruct (take_with overflow truncated (Z.of_nat n) s) as [[l s']|e|] eqn:E; [|done|].
  - apply take_with_inv in E as (_ & Hl & Hs' & Hi & Hp & _); [|done].
    assert (length l = n) as Hn by (unfold zlen in Hl; lia). cbn. unfold fixed, dbind, dlift.
    rewrite (proj2 (Nat.eqb_eq _ _) Hn). cbn. specialize (Hk l Hn s' Hs').
    destruct (k l s') as [[a s'']| |]; [|done|done]. destruct Hk as (? & ? & ?). split_and!; [done|congruence|lia].
  - pose proof (safe_take overflow truncated (Z.of_nat n) s Hs) as Ht. by rewrite E in Ht.
Qed.

Lemma safe_list {A} n (d : dec A) : safe d -> safe (dec_list n d).
Proof.
  intros Hd. induction n as [|n IH]; cbn; [apply safe_ret|]. apply safe_bind; [done|]. intros x.
  apply safe_bind; [done|]. intros l. apply safe_ret.
Qed.

Lemma safe_for {A S} (l : list A) (body : S -> A -> dec S) s :
  (forall s a, safe (body s a)) -> safe (dec_for l body s).
Proof.
  intros Hb. revert s. induction l as [|a l IH]; intros s; cbn; [apply safe_ret|]. by apply safe_bind.
Qed.

Lemma run_dec_no_panic {A} (d : dec A) bytes : safe d -> run_dec d bytes <> Panic.
Proof.
  intros Hd. unfold run_dec. specialize (Hd (decoder_new bytes)).
  destruct (d (decoder_new bytes)) as [[a s]| |]; [done|done|]. cbn in *. destruct Hd.
  split; cbn; [lia|apply zlen_nonneg].
Qed.

(** ** What a decoder guarantees of its result *)

Definition ensures {A : Type} (d : dec A) (P : A -> Prop) : Prop :=
  forall s, cursor_ok s ->
    match d s with
    | Ok (a, s') => cursor_ok s' /\ input s' = input s /\ position s <= position s' /\ P a
    | Err _ => True
    | Panic => False
    end.

Lemma ensures_safe {A} (d : dec A) P : ensures d P -> safe d.
Proof. intros Hd s Hs. specialize (Hd s Hs). destruct (d s) as [[a s']| |]; tauto. Qed.

Lemma safe_ensures {A} (d : dec A) : safe d -> ensures d (fun _ => True).
Proof. intros Hd s Hs. specialize (Hd s Hs). destruct (d s) as [[a s']| |]; tauto. Qed.

Lemma ensures_mono {A} (d : dec A) (P Q : A -> Prop) : ensures d P -> (forall a, P a -> Q a) -> ensures d Q.
Proof.
  intros Hd HPQ s Hs. specialize (Hd s Hs). destruct (d s) as [[a s']| |]; [|done|done].
  destruct Hd as (? & ? & ? & ?). split_and!; auto.
Qed.

Lemma ensures_ret {A} (a : A) (P : A -> Prop) : P a -> ensures (dret a) P.
Proof. intros Ha s Hs. cbn. split_and!; [done|done|lia|done]. Qed.

Lemma ensures_bind {A B} (d : dec A) (k : A -> dec B) P Q :
  ensures d P -> (forall a, P a -> ensures (k a) Q) -> ensures (dbind d k) Q.
Proof.
  intros H1 H2 s Hs. unfold dbind. specialize (H1 s Hs). destruct (d s) as [[a s']| |]; [|done|done].
  destruct H1 as (Hs' & Hi & Hp & Ha). specialize (H2 a Ha s' Hs'). cbn. destruct (k a s') as [[b s'']| |]; [|done|done].
  destruct H2 as (? & ? & ? & ?). split_and!; [done|congruence|lia|done].
Qed.

Lemma ensures_lift {A} (r : Result A) (P : A -> Prop) :
  r <> Panic -> (forall a, r = Ok a -> P a) -> ensures (dlift r) P.
Proof. intros Hr HP s Hs. unfold dlift. destruct r; cbn; [split_and!; [done|done|lia|by apply HP]|done|done]. Qed.

Lemma ensures_guard b e (Q : Prop) : (b = false -> Q) -> ensures (dguard b e) (fun _ => Q).
Proof. destruct b; intros HQ s Hs; cbn; [done|]. split_and!; [done|done|lia|by apply HQ]. Qed.

Lemma ensures_fail {A} e (P : A -> Prop) : ensures (dfail e) P.
Proof. by intros s Hs. Qed.

Lemma ensures_list {A} n (d : dec A) P : ensures d P -> ensures (dec_list n d) (fun l => length l = n /\ Forall P l).
Proof.
  intros Hd. induction n as [|n IH]; cbn [dec_list]; [by apply ensures_ret; split; [|constructor]|].
  eapply ensures_bind; [exact Hd|]. intros x Hx. eapply ensures_bind; [exact IH|]. intros l [Hl HP].
  apply ensures_ret. split; [cbn; by rewrite Hl|by constructor].
Qed.

(** A loop invariant indexed by the number of completed turns. *)
Lemma ensures_for {A S} (l : list A) (body : S -> A -> dec S) (I : nat -> S -> Prop) k s :
  I k s -> (forall i a s, l !! i = Some a -> I (k + i)%nat s -> ensures (body s a) (I (Datatypes.S (k + i)))) ->
  ensures (dec_for l body s) (I (k + length l)%nat).
Proof.
  revert k s. induction l as [|a l IH]; intros k s Hs Hb; cbn [dec_for length].
  { apply ensures_ret. by rewrite Nat.add_0_r. }
  eapply ensures_bind; [apply (Hb 0%nat a s eq_refl); by rewrite Nat.add_0_r|]. intros s' Hs'.
  replace (k + Datatypes.S (length l))%nat with (Datatypes.S k + length l)%nat by lia.
  rewrite Nat.add_0_r in Hs'. apply IH; [done|]. intros i a' s0 Hi HI. replace (Datatypes.S k + i)%nat with (k + Datatypes.S i)%nat in * by lia.
  by apply (Hb (Datatypes.S i)).
Qed.

Lemma ensures_take_fixed {A} overflow truncated (n : nat) (k : list byte -> dec A) P :
  (forall l, length l = n -> ensures (k l) P) ->
  ensures (let! l := take_with overflow truncated (Z.of_nat n) in let! l := dlift (fixed n l) in k l) P.
Proof.
  intros Hk s Hs. unfold dbind at 1.
  destruct (take_with overflow truncated (Z.of_nat n) s) as [[l s']|e|] eqn:E; [|done|].
  - apply take_with_inv in E as (_ & Hl & Hs' & Hi & Hp & _); [|done].
    assert (length l = n) as Hn by (unfold zlen in Hl; lia). cbn. unfold fixed, dbind, dlift.
    rewrite (proj2 (Nat.eqb_eq _ _) Hn). cbn. specialize (Hk l Hn s' Hs').
    destruct (k l s') as [[a s'']| |]; [|done|done]. destruct Hk as (? & ? & ? & ?). split_and!; [done|congruence|lia|done].
  - pose proof (safe_take overflow truncated (Z.of_nat n) s Hs) as Ht. by rewrite E in Ht.
Qed.

Lemma run_dec_ensures {A} (d : dec A) bytes P :
  ensures d P -> match run_dec d bytes with Ok a => P a | Err _ => True | Panic => False end.
Proof.
  intros Hd. unfold run_dec. specialize (Hd (decoder_new bytes)).
  destruct (d (decoder_new bytes)) as [[a s]| |]; cbn in *.
  - apply Hd. split; cbn; [lia|apply zlen_nonneg].
  - done.
  - apply Hd. split; cbn; [lia|apply zlen_nonneg].
Qed.

#[export] Hint Resolve safe_ret safe_fail safe_guard safe_position safe_take safe_list : focal.
Ltac solve_safe :=
  repeat first
    [ progress intros
    | solve [eauto 2 with focal nocore]
    | apply safe_ret | apply safe_fail | apply safe_guard | apply safe_position
    | apply safe_take_fixed | apply safe_bind | apply safe_take | apply safe_list | apply safe_for ].
