(* ===== verification/Wire.v ===== *)
(** * Wire: the byte formats of the write-ahead log ([src/src/persistence.rs])

    CRC-32C, the streaming checksum writer, the primitive encoders and
    decoders, the records of the log and the collection metadata file. *)

From stdpp Require Import base gmap sets list strings sorting.
From Stdlib Require Import ZArith Lia.
From S2P Require Import Prelude Errors Floats Ranking Metric Filter MetadataIndex Collection CollectionFacts Codec.

Definition MAX_FRAME_BYTES : Z := 256 * 1024 * 1024.
Definition MAX_ITEMS : Z := 1000000.
Definition META_MAGIC : list byte := bytes_of_string "FVMT".
Definition WAL_MAGIC : list byte := bytes_of_string "FVWL".
Definition FORMAT_VERSION : Z := 1.

(** ** CRC-32C *)

Definition not32 (x : Z) : Z := Z.lxor x (2 ^ 32 - 1).

Definition crc32c_shift (crc : Z) : Z :=
  Z.lxor (Z.shiftr crc 1) (Z.land 0x82f63b78 (wrap_u 32 (0 - Z.land crc 1))).
Definition crc32c_byte (crc : Z) (byte : byte) : Z := Nat.iter 8 crc32c_shift (Z.lxor crc (u8 byte)).
Definition crc32c_update (crc : Z) (bytes : list byte) : Z := fold_left crc32c_byte bytes crc.
Definition crc32c (bytes : list byte) : Z := not32 (crc32c_update (not32 0) bytes).

(** ** Encoders *)

Definition put_count (count : Z) : Result (list byte) :=
  if Z.leb count U32_MAX then Ok (le_bytes 4 count) else Err (InvalidQuery "batch is too large").

Definition put_string (value : string) : Result (list byte) :=
  let? n := put_count (str_len value) in Ok (n ++ bytes_of_string value).

Definition encode_value (value : Value) : Result (list byte) :=
  match value with
  | Keyword value => let? s := put_string value in Ok (to_u8 1 :: s)
  | Integer value => Ok (to_u8 2 :: le_bytes 8 (wrap_u 64 value))
  | Float value => if is_finite fmt64 value then Ok (to_u8 3 :: le_bytes 8 value)
                   else Err (InvalidQuery "metadata floats must be finite")
  | Boolean value => Ok [to_u8 4; to_u8 (if value then 1 else 0)]
  end.

(** [for item in items { ... }], appending to the output. *)
Definition put_each {A : Type} (put : A -> Result (list byte)) (items : list A) : Result (list byte) :=
  let? parts := mapM_result put items in Ok (concat parts).

Definition put_entry (entry : string * Value) : Result (list byte) :=
  let? key := put_string entry.1 in let? value := encode_value entry.2 in Ok (key ++ value).

Definition put_metadata (metadata : Metadata) : Result (list byte) :=
  let? n := put_count (Z.of_nat (size metadata)) in
  let? entries := put_each put_entry (btree_iter metadata) in
  Ok (n ++ entries).

Definition put_point (id : string) (vector : list Z) (metadata : Metadata) : Result (list byte) :=
  let? i := put_string id in
  let? n := put_count (zlen vector) in
  let? m := put_metadata metadata in
  Ok (i ++ n ++ bytes_of_f32s vector ++ m).

Definition encode_upsert (sequence : Z) (points : list StoredPoint) : Result (list byte) :=
  let? n := put_count (zlen points) in
  let? body := put_each (fun p => put_point (sp_id p) (as_slice (sp_vector p)) (sp_metadata p)) points in
  Ok (to_u8 1 :: le_bytes 8 sequence ++ n ++ body).

Definition encode_delete (sequence : Z) (ids : list string) : Result (list byte) :=
  let? n := put_count (zlen ids) in
  let? body := put_each put_string ids in
  Ok (to_u8 2 :: le_bytes 8 sequence ++ n ++ body).

(** ** The streaming checksum writer *)

Record Crc32cWriter : Type := MkWriter { inner : list byte; crc : Z; written : Z }.

Definition writer_new : Crc32cWriter := MkWriter [] (not32 0) 0.
Definition writer_finish (self : Crc32cWriter) : list byte * Z := (inner self, not32 (crc self)).

(** One [write] of the file accepts a prefix of the buffer; [write_all] calls
    it until everything is taken, with the given non-empty prefixes. *)
Definition write (self : Crc32cWriter) (bytes : list byte) : Crc32cWriter :=
  MkWriter (inner self ++ bytes) (crc32c_update (crc self) bytes) (saturating_add (written self) (zlen bytes)).
Definition write_all (self : Crc32cWriter) (chunks : list (list byte)) : Crc32cWriter := fold_left write chunks self.

(** ** The decoder *)

Definition take : Z -> dec (list byte) :=
  take_with (CorruptStorage "WAL length overflow") (CorruptStorage "truncated WAL payload").

Definition take_fixed (n : nat) : dec (list byte) :=
  let! l := take (Z.of_nat n) in let! l := dlift (fixed n l) in dret l.

(** [self.take(1)?[0]] *)
Definition byte_ : dec Z :=
  let! l := take (Z.of_nat 1) in let! l := dlift (fixed 1 l) in dret (le_value l).
Definition u32 : dec Z := let! l := take_fixed 4 in dret (le_value l).
Definition u64 : dec Z := let! l := take_fixed 8 in dret (le_value l).

Definition f32 : dec Z :=
  let! l := take_fixed 4 in
  let! _ := dguard (negb (is_finite fmt32 (le_value l))) (CorruptStorage "non-finite vector component") in
  dret (le_value l).

Definition count : dec Z :=
  let! count := u32 in
  let! _ := dguard (Z.ltb MAX_ITEMS count) (CorruptStorage "WAL item count exceeds limit") in
  dret count.

Definition string_ : dec string :=
  let! length := count in
  let! bytes := take length in
  let! _ := dguard (negb (utf8_valid bytes)) (CorruptStorage "WAL contains invalid UTF-8") in
  dret (string_of_bytes bytes).

Definition value : dec Value :=
  let! tag := byte_ in
  match tag with
  | 1 => let! s := string_ in dret (Keyword s)
  | 2 => let! l := take_fixed 8 in dret (Integer (wrap_i 64 (le_value l)))
  | 3 => let! l := take_fixed 8 in
         let! _ := dguard (negb (is_finite fmt64 (le_value l))) (CorruptStorage "non-finite metadata float") in
         dret (Float (le_value l))
  | 4 => let! b := byte_ in
         match b with
         | 0 => dret (Boolean false)
         | 1 => dret (Boolean true)
         | _ => dfail (CorruptStorage "invalid boolean encoding")
         end
  | tag => dfail (CorruptStorage ("unknown metadata value tag " +:+ fmt_int tag))
  end.

Definition finish : dec unit := fun s =>
  if Z.eqb (position s) (zlen (input s)) then Ok (tt, s)
  else Err (CorruptStorage "trailing bytes in WAL payload").

Definition entry : dec (string * Value) := let! k := string_ in let! v := value in dret (k, v).

(** Inserting the decoded entries one by one: the last of a repeated key wins. *)
Definition metadata_of_entries (entries : list (string * Value)) : Metadata :=
  fold_left (fun m kv => <[kv.1 := kv.2]> m) entries ∅.

Definition metadata : dec Metadata :=
  let! n := count in
  let! entries := dec_list (Z.to_nat n) entry in
  dret (metadata_of_entries entries).

(** ** Applying a record to a collection *)

Definition upsert_point (config : CollectionConfig) : dec UpsertPoint :=
  let! id := string_ in
  let! dim := count in
  let! _ := dguard (negb (Z.eqb dim (dimension config)))
    (CorruptStorage ("stored vector dimension " +:+ fmt_int dim +:+ " differs from collection dimension "
                     +:+ fmt_int (dimension config))) in
  let! vector := dec_list (Z.to_nat dim) f32 in
  let! m := metadata in
  dret (MkUpsert id vector m).

Definition upsert_body (config : CollectionConfig) : dec (list UpsertPoint) :=
  let! n := count in
  let! points := dec_list (Z.to_nat n) (upsert_point config) in
  let! _ := finish in
  dret points.

Definition delete_body : dec (list string) :=
  let! n := count in
  let! _ := dguard (Z.eqb n 0) (CorruptStorage "empty delete WAL record") in
  let! ids := dec_list (Z.to_nat n) string_ in
  let! _ := finish in
  dret ids.

Definition record_header : dec (Z * Z) := let! operation := byte_ in let! sequence := u64 in dret (operation, sequence).

Section Apply.
Context `{FloatEnv}.

Definition apply_operation (collection : Collection) (operation sequence : Z) (s : Decoder)
    : Result (list string) * Collection :=
  match operation with
  | 1 =>
      match (let? (points, _) := upsert_body (config collection) s in
             let? prepared := prepare_upsert collection points sequence in
             Ok (map up_id points, prepared)) with
      | Ok (ids, prepared) => (Ok ids, apply_prepared_upsert collection prepared sequence)
      | Err e => (Err e, collection)
      | Panic => (Panic, collection)
      end
  | 2 =>
      match delete_body s with
      | Ok (ids, _) => (Ok ids, apply_delete_at collection ids sequence)
      | Err e => (Err e, collection)
      | Panic => (Panic, collection)
      end
  | tag => (Err (CorruptStorage ("unknown WAL operation " +:+ fmt_int tag)), collection)
  end.

Definition apply_payload (collection : Collection) (payload : list byte) : Result (list string) * Collection :=
  match record_header (decoder_new payload) with
  | Ok ((operation, sequence), s) =>
      if Z.leb sequence (latest_sequence collection) then (Ok [], collection)
      else match checked_add U64_MAX (latest_sequence collection) 1 with
      | None => (Err SequenceOverflow, collection)
      | Some expected =>
          if negb (Z.eqb sequence expected) then
            (Err (CorruptStorage ("non-consecutive WAL sequence: expected " +:+ fmt_int expected +:+ ", got "
                                  +:+ fmt_int sequence)), collection)
          else apply_operation collection operation sequence s
      end
  | Err e => (Err e, collection)
  | Panic => (Panic, collection)
  end.
End Apply.

(** ** The collection metadata file *)

Definition metric_tag (metric : Metric) : Z :=
  match metric with Cosine => 1 | DotProduct => 2 | Euclidean => 3 end.

Definition parse_metric (tag : Z) : Result Metric :=
  match tag with
  | 1 => Ok Cosine
  | 2 => Ok DotProduct
  | 3 => Ok Euclidean
  | _ => Err (CorruptStorage ("unknown metric tag " +:+ fmt_int tag))
  end.

Definition encode_metadata (config : CollectionConfig) : list byte :=
  let bytes := META_MAGIC ++ [to_u8 FORMAT_VERSION; to_u8 (metric_tag (metric config))]
                 ++ le_bytes 8 (dimension config) in
  bytes ++ le_bytes 4 (crc32c bytes).

Definition decode_metadata (bytes : list byte) : Result CollectionConfig :=
  let bad_header := Err (CorruptStorage "invalid collection metadata header") in
  if negb (Z.eqb (zlen bytes) 18) then bad_header else
  let? magic := slice bytes 0 4 in
  if negb (bool_decide (magic = META_MAGIC)) then bad_header else
  let? version := index bytes 4 in
  if negb (Z.eqb (u8 version) FORMAT_VERSION) then bad_header else
  let? stored := slice bytes 14 18 in
  let? stored := fixed 4 stored in
  let? body := slice bytes 0 14 in
  if negb (Z.eqb (crc32c body) (le_value stored))
  then Err (CorruptStorage "collection metadata checksum mismatch") else
  let? tag := index bytes 5 in
  let? metric := parse_metric (u8 tag) in
  let? dim := slice bytes 6 14 in
  let? dim := fixed 8 dim in
  if Z.eqb (le_value dim) 0 then Err (CorruptStorage "collection dimension must be non-zero")
  else Ok (MkConfig (le_value dim) metric).
