(* ===== verification/WireFacts.v ===== *)
(** * WireFacts: checksums, round trips and panic freedom of the log formats *)

From stdpp Require Import base gmap sets list strings sorting.
From Stdlib Require Import ZArith Lia.
From S2P Require Import Prelude Errors Floats Ranking Metric Filter MetadataIndex Collection CollectionFacts Codec Wire.

(** ** The checksum *)

Lemma in_u_lxor w a b : 0 <= w -> in_u w a -> in_u w b -> in_u w (Z.lxor a b).
Proof.
  intros Hw [Ha Ha'] [Hb Hb'].
  assert (0 <= Z.lxor a b) as Hn by (apply Z.lxor_nonneg; tauto). split; [done|].
  destruct (Z.eq_dec (Z.lxor a b) 0) as [->|Hne]; [apply Z.pow_pos_nonneg; lia|].
  apply Z.log2_lt_pow2; [lia|].
  eapply Z.le_lt_trans; [apply Z.log2_lxor; lia|].
  assert (0 < w) as Hw'.
  { destruct (Z.eq_dec w 0) as [->|]; [|lia]. change (2 ^ 0) with 1 in *.
    assert (a = 0) as -> by lia. assert (b = 0) as -> by lia. by destruct Hne. }
  apply Z.max_lub_lt.
  - destruct (Z.eq_dec a 0) as [->|]; [cbn; lia|apply Z.log2_lt_pow2; lia].
  - destruct (Z.eq_dec b 0) as [->|]; [cbn; lia|apply Z.log2_lt_pow2; lia].
Qed.

Lemma u8_in_u32 b : in_u 32 (u8 b).
Proof. pose proof (u8_range b). split; [lia|]. change (2 ^ 32) with 4294967296. lia. Qed.

(** One shift: the low bit decides whether the polynomial is added. *)
Lemma crc32c_shift_eq x :
  crc32c_shift x = Z.lxor (x / 2) (if Z.odd x then 0x82f63b78 else 0).
Proof.
  unfold crc32c_shift, wrap_u. rewrite Z.shiftr_div_pow2 by lia. change (2 ^ 1) with 2. f_equal.
  change 1 with (Z.ones 1) at 1. rewrite Z.land_ones by lia. change (2 ^ 1) with 2.
  rewrite Zmod_odd. by destruct (Z.odd x).
Qed.

Lemma crc32c_shift_range x : in_u 32 x -> in_u 32 (crc32c_shift x).
Proof.
  intros [H1 H2]. rewrite crc32c_shift_eq. apply in_u_lxor; [lia| |].
  - split; [apply Z.div_pos; lia|]. apply Z.div_lt_upper_bound; lia.
  - destruct (Z.odd x); split; vm_compute; congruence.
Qed.

(** The polynomial's top bit makes the shift reversible. *)
Lemma crc32c_shift_top x : in_u 32 x -> Z.testbit (crc32c_shift x) 31 = Z.odd x.
Proof.
  intros [H1 H2]. rewrite crc32c_shift_eq, Z.lxor_spec.
  assert (Z.testbit (x / 2) 31 = false) as ->.
  { change (x / 2) with (x / 2 ^ 1). rewrite Z.div_pow2_bits by lia. change (31 + 1) with 32.
    destruct (Z.eq_dec x 0) as [->|]; [done|]. apply Z.bits_above_log2; [lia|]. apply Z.log2_lt_pow2; lia. }
  by destruct (Z.odd x).
Qed.

Lemma crc32c_shift_inj x y : in_u 32 x -> in_u 32 y -> crc32c_shift x = crc32c_shift y -> x = y.
Proof.
  intros Hx Hy E. assert (Z.odd x = Z.odd y) as Ho by (rewrite <- !crc32c_shift_top by done; by rewrite E).
  rewrite !crc32c_shift_eq, Ho in E.
  assert (x / 2 = y / 2) as Hh.
  { set (p := if Z.odd y then _ else _) in E.
    rewrite <- (Z.lxor_0_r (x / 2)), <- (Z.lxor_0_r (y / 2)), <- (Z.lxor_nilpotent p), <- !Z.lxor_assoc. by rewrite E. }
  rewrite (Z.div_mod x 2), (Z.div_mod y 2) by lia. by rewrite Hh, !Zmod_odd, Ho.
Qed.

Lemma iter_shift_range n x : in_u 32 x -> in_u 32 (Nat.iter n crc32c_shift x).
Proof. intros Hx. induction n as [|n IH]; cbn; [done|]. by apply crc32c_shift_range. Qed.

Lemma iter_shift_inj n x y :
  in_u 32 x -> in_u 32 y -> Nat.iter n crc32c_shift x = Nat.iter n crc32c_shift y -> x = y.
Proof.
  intros Hx Hy. induction n as [|n IH]; cbn; [done|]. intros E%crc32c_shift_inj; [by apply IH| |];
    by apply iter_shift_range.
Qed.

Lemma lxor_cancel_l a b c : Z.lxor a b = Z.lxor a c -> b = c.
Proof.
  intros E. rewrite <- (Z.lxor_0_l b), <- (Z.lxor_0_l c), <- (Z.lxor_nilpotent a), !Z.lxor_assoc. by rewrite E.
Qed.

Lemma lxor_cancel_r a b c : Z.lxor a c = Z.lxor b c -> a = b.
Proof. rewrite (Z.lxor_comm a), (Z.lxor_comm b). apply lxor_cancel_l. Qed.

Lemma crc32c_byte_range c b : in_u 32 c -> in_u 32 (crc32c_byte c b).
Proof. intros Hc. apply iter_shift_range, in_u_lxor; [lia|done|apply u8_in_u32]. Qed.

Lemma crc32c_update_range c bs : in_u 32 c -> in_u 32 (crc32c_update c bs).
Proof.
  revert c. induction bs as [|b bs IH]; intros c Hc; cbn; [done|]. by apply IH, crc32c_byte_range.
Qed.

Lemma crc32c_range bs : in_u 32 (crc32c bs).
Proof.
  unfold crc32c, not32. apply in_u_lxor; [lia| |split; vm_compute; congruence].
  apply crc32c_update_range. split; vm_compute; congruence.
Qed.

Lemma crc32c_update_app c b1 b2 : crc32c_update c (b1 ++ b2) = crc32c_update (crc32c_update c b1) b2.
Proof. apply fold_left_app. Qed.

Lemma crc32c_update_inj c c' bs :
  in_u 32 c -> in_u 32 c' -> crc32c_update c bs = crc32c_update c' bs -> c = c'.
Proof.
  revert c c'. induction bs as [|b bs IH]; intros c c' Hc Hc' E; [done|]. cbn [crc32c_update fold_left] in E.
  apply IH in E; [|by apply crc32c_byte_range..].
  apply (iter_shift_inj 8) in E; [by apply lxor_cancel_r in E| |]; apply in_u_lxor; (lia || done || apply u8_in_u32).
Qed.

(** Overwriting any single byte of a message with a
    different one changes its CRC-32C. *)
Theorem crc32c_detects_byte pre post b b' :
  b <> b' -> crc32c (pre ++ b :: post) <> crc32c (pre ++ b' :: post).
Proof.
  intros Hne E. unfold crc32c, not32 in E. apply lxor_cancel_r in E. rewrite !crc32c_update_app in E.
  set (c := crc32c_update _ pre) in E.
  assert (in_u 32 c) as Hc by (apply crc32c_update_range; split; vm_compute; congruence).
  cbn [crc32c_update fold_left] in E. apply crc32c_update_inj in E; [|by apply crc32c_byte_range..].
  apply (iter_shift_inj 8) in E; [|apply in_u_lxor; (lia || done || apply u8_in_u32)..].
  apply lxor_cancel_l, u8_inj in E. done.
Qed.

Lemma crc32c_detects_byte_witness : crc32c [x00; x01; x02] <> crc32c [x00; x03; x02].
Proof. apply (crc32c_detects_byte [x00] [x02] x01 x03). discriminate. Defined.

Lemma crc32c_check_value : crc32c (bytes_of_string "123456789") = 0xe3069283.
Proof. vm_compute. reflexivity. Qed.

(** However the operating system splits the writes,
    the streaming writer has passed on exactly the bytes and ends with the
    CRC-32C of all of them; its position is their number. *)
Theorem crc_writer_streams chunks :
  writer_finish (write_all writer_new chunks) = (concat chunks, crc32c (concat chunks)) /\
  written (write_all writer_new chunks) = Z.min (zlen (concat chunks)) USIZE_MAX.
Proof.
  assert (forall w, inner (write_all w chunks) = inner w ++ concat chunks /\
    crc (write_all w chunks) = crc32c_update (crc w) (concat chunks) /\
    (0 <= written w <= USIZE_MAX ->
     written (write_all w chunks) = Z.min (written w + zlen (concat chunks)) USIZE_MAX)) as Hw.
  { unfold write_all. induction chunks as [|c chunks IH]; intros w; cbn [fold_left concat].
    { split_and!; [by rewrite app_nil_r|done|]. intros. unfold zlen. cbn. lia. }
    destruct (IH (write w c)) as (H1 & H2 & H3). rewrite H1, H2. cbn [inner crc write written].
    rewrite app_assoc, crc32c_update_app. split_and!; [done|done|]. intros Hr.
    pose proof (zlen_nonneg c). pose proof (zlen_nonneg (concat chunks)). rewrite H3; cbn [written write];
      unfold saturating_add; rewrite ?zlen_app; lia. }
  destruct (Hw writer_new) as (H1 & H2 & H3). unfold writer_finish. rewrite H1, H2. split; [done|].
  rewrite H3; [done|]. cbn. split; [lia|]. vm_compute. congruence.
Qed.

(** ** Round trips of the primitives *)

(** What the decoder accepts back. *)
Definition str_wf (s : string) : Prop := utf8_valid (bytes_of_string s) = true /\ str_len s <= MAX_ITEMS.
Definition value_storable (v : Value) : Prop :=
  match v with
  | Keyword s => str_wf s
  | Integer z => in_i 64 z
  | Float b => in_u 64 b /\ is_finite fmt64 b = true
  | Boolean _ => True
  end.
Definition metadata_storable (m : Metadata) : Prop :=
  Z.of_nat (size m) <= MAX_ITEMS /\ map_Forall (fun k v => str_wf k /\ value_storable v) m.
Definition vector_storable (v : list Z) : Prop :=
  zlen v <= MAX_ITEMS /\ Forall (fun x => in_u 32 x /\ is_finite fmt32 x = true) v.

#[global] Instance str_wf_dec s : Decision (str_wf s).
Proof. unfold str_wf. apply _. Defined.
#[global] Instance value_storable_dec v : Decision (value_storable v).
Proof. destruct v; cbn; apply _. Defined.
#[global] Instance metadata_storable_dec m : Decision (metadata_storable m).
Proof. unfold metadata_storable. apply _. Defined.
#[global] Instance vector_storable_dec v : Decision (vector_storable v).
Proof. unfold vector_storable. apply _. Defined.

Lemma decodes_fixed n l : length l = n -> decodes (take_fixed n) l l.
Proof.
  intros Hl. unfold take_fixed. replace (Z.of_nat n) with (zlen l) by (unfold zlen; lia).
  eapply decodes_bind_ret; [apply decodes_take|]. cbn. unfold fixed, dbind, dlift.
  by rewrite (proj2 (Nat.eqb_eq _ _) Hl).
Qed.

Lemma decodes_byte z : in_u 8 z -> decodes byte_ [to_u8 z] z.
Proof.
  intros Hz. unfold byte_. change (Z.of_nat 1) with (zlen [to_u8 z]).
  eapply decodes_bind_ret; [apply decodes_take|]. cbn beta. unfold dbind, dlift, fixed. cbn [length Nat.eqb rbind fst snd].
  pose proof (le_value_bytes 1 z Hz) as E. cbn [le_bytes] in E. by rewrite E.
Qed.

Lemma decodes_u32 z : in_u 32 z -> decodes u32 (le_bytes 4 z) z.
Proof.
  intros Hz. eapply decodes_bind_ret; [apply (decodes_fixed 4), length_le_bytes|].
  f_equal. by apply le_value_bytes.
Qed.

Lemma decodes_u64 z : in_u 64 z -> decodes u64 (le_bytes 8 z) z.
Proof.
  intros Hz. eapply decodes_bind_ret; [apply (decodes_fixed 8), length_le_bytes|].
  f_equal. by apply le_value_bytes.
Qed.

Lemma decodes_f32 z : in_u 32 z -> is_finite fmt32 z = true -> decodes f32 (le_bytes 4 z) z.
Proof.
  intros Hz Hf. eapply decodes_bind_ret; [apply (decodes_fixed 4), length_le_bytes|].
  cbn beta. rewrite (le_value_bytes 4) by done. by rewrite Hf.
Qed.

Lemma decodes_count z : 0 <= z <= MAX_ITEMS -> decodes count (le_bytes 4 z) z.
Proof.
  intros Hz. eapply decodes_bind_ret.
  - apply decodes_u32. split; [lia|]. unfold MAX_ITEMS in Hz. change (2 ^ 32) with 4294967296. lia.
  - cbn beta. by rewrite (proj2 (Z.ltb_ge _ _)) by lia.
Qed.

Lemma put_count_ok n bs : put_count n = Ok bs -> bs = le_bytes 4 n.
Proof. unfold put_count. destruct (_ <=? _); congruence. Qed.

Lemma put_count_small n : n <= MAX_ITEMS -> put_count n = Ok (le_bytes 4 n).
Proof. intros Hn. unfold put_count. rewrite (proj2 (Z.leb_le _ _)); [done|]. unfold MAX_ITEMS, U32_MAX in *. lia. Qed.

Lemma decodes_string s bs : str_wf s -> put_string s = Ok bs -> decodes string_ bs s.
Proof.
  intros [Hu Hl] H. unfold put_string in H. inv_ok H. apply put_count_ok in Hok as ->. apply Ok_inj in H as <-.
  eapply decodes_bind; [apply decodes_count; unfold str_len in *; lia|].
  rewrite <- length_bytes_of_string. eapply decodes_bind_ret; [apply decodes_take|].
  cbn beta. rewrite Hu. cbn. by rewrite string_of_bytes_of_string.
Qed.

Lemma decodes_value v bs : value_storable v -> encode_value v = Ok bs -> decodes value bs v.
Proof.
  intros Hv H. destruct v as [s|z|b|b]; cbn [value_storable encode_value] in Hv, H.
  - inv_ok H. apply Ok_inj in H as <-. change (to_u8 1 :: a) with ([to_u8 1] ++ a).
    eapply decodes_bind; [by apply decodes_byte|]. eapply decodes_bind_ret; [by apply decodes_string|done].
  - apply Ok_inj in H as <-. change (?x :: ?l) with ([x] ++ l). eapply decodes_bind; [by apply decodes_byte|].
    eapply decodes_bind_ret; [apply (decodes_fixed 8), length_le_bytes|]. cbn beta.
    rewrite (le_value_bytes 8) by (apply Z.mod_pos_bound; lia). by rewrite (wrap_i_id 64) by (done || lia).
  - destruct Hv as [Hr Hf]. rewrite Hf in H. apply Ok_inj in H as <-. change (?x :: ?l) with ([x] ++ l).
    eapply decodes_bind; [by apply decodes_byte|].
    eapply decodes_bind_ret; [apply (decodes_fixed 8), length_le_bytes|]. cbn beta.
    rewrite (le_value_bytes 8) by done. by rewrite Hf.
  - apply Ok_inj in H as <-. change [?x; ?y] with ([x] ++ [y]). eapply decodes_bind; [by apply decodes_byte|].
    eapply decodes_bind_ret; [apply decodes_byte; by destruct b|]. by destruct b.
Qed.

Lemma decodes_each {A} (put : A -> Result (list byte)) (d : dec A) (l : list A) bs :
  (forall x b, x ∈ l -> put x = Ok b -> decodes d b x) ->
  put_each put l = Ok bs -> decodes (dec_list (length l) d) bs l.
Proof.
  intros Hd H. unfold put_each in H. inv_ok H. apply Ok_inj in H as <-. apply mapM_result_ok in Hok.
  induction Hok as [|x b l bs Hx _ IH]; cbn; [apply decodes_ret|].
  eapply decodes_bind; [apply Hd; [left|done]|]. eapply decodes_bind_ret; [|done].
  apply IH. intros y b' Hy. apply Hd. by right.
Qed.

Lemma decodes_entry kv bs :
  str_wf kv.1 -> value_storable kv.2 -> put_entry kv = Ok bs -> decodes entry bs kv.
Proof.
  intros Hk Hv H. unfold put_entry in H. inv_ok H. inv_ok H. apply Ok_inj in H as <-.
  eapply decodes_bind; [by apply decodes_string|]. eapply decodes_bind_ret; [by apply decodes_value|].
  by destruct kv.
Qed.

Lemma decodes_metadata m bs : metadata_storable m -> put_metadata m = Ok bs -> decodes metadata bs m.
Proof.
  intros [Hn Hm] H. unfold put_metadata in H. inv_ok H. inv_ok H. apply Ok_inj in H as <-.
  apply put_count_ok in Hok as ->. eapply decodes_bind; [apply decodes_count; lia|].
  rewrite Nat2Z.id. replace (size m) with (length (btree_iter m)) by (by rewrite btree_iter_perm, length_map_to_list).
  eapply decodes_bind_ret; [|unfold metadata_of_entries; by rewrite fold_insert_btree_iter].
  eapply decodes_each; [|exact Hok0]. intros [k v] b Hin Hb. apply elem_of_btree_iter in Hin.
  destruct (Hm k v Hin). by apply decodes_entry.
Qed.

Lemma decodes_vector v : vector_storable v -> decodes (dec_list (length v) f32) (bytes_of_f32s v) v.
Proof.
  intros [_ Hv]. apply decodes_list. eapply Forall_impl; [exact Hv|]. intros x [Hx Hf]. by apply decodes_f32.
Qed.

(** ** No input makes the decoder panic *)

Lemma safe_byte : safe byte_.
Proof. apply safe_take_fixed. intros. apply safe_ret. Qed.
Lemma safe_fixed n : safe (take_fixed n).
Proof. apply safe_take_fixed. intros. apply safe_ret. Qed.
#[export] Hint Resolve safe_byte safe_fixed : focal.

Lemma safe_u32 : safe u32.
Proof. unfold u32. solve_safe. Qed.
Lemma safe_u64 : safe u64.
Proof. unfold u64. solve_safe. Qed.
Lemma safe_f32 : safe f32.
Proof. unfold f32. solve_safe. Qed.
#[export] Hint Resolve safe_u32 safe_u64 safe_f32 : focal.
Lemma safe_count : safe count.
Proof. unfold count. solve_safe. Qed.
#[export] Hint Resolve safe_count : focal.
Lemma safe_string : safe string_.
Proof. unfold string_, take. solve_safe. Qed.
#[export] Hint Resolve safe_string : focal.

Lemma safe_value : safe value.
Proof.
  unfold value. apply safe_bind; [apply safe_byte|]. intros tag.
  repeat (match goal with |- safe (match ?x with _ => _ end) => destruct x end; solve_safe);
  repeat (match goal with |- safe (match ?x with _ => _ end) => destruct x end; solve_safe).
Qed.
#[export] Hint Resolve safe_value : focal.
Lemma safe_entry : safe entry.
Proof. unfold entry. solve_safe. Qed.
#[export] Hint Resolve safe_entry : focal.
Lemma safe_metadata : safe metadata.
Proof. unfold metadata. solve_safe. Qed.
#[export] Hint Resolve safe_metadata : focal.
Lemma safe_upsert_point cfg : safe (upsert_point cfg).
Proof. unfold upsert_point. solve_safe. Qed.
Lemma safe_finish : safe finish.
Proof. intros s Hs. unfold finish. destruct (_ =? _); [split_and!; [done|done|lia]|done]. Qed.
#[export] Hint Resolve safe_upsert_point safe_finish : focal.
Lemma safe_upsert_body cfg : safe (upsert_body cfg).
Proof. unfold upsert_body. solve_safe. Qed.
Lemma safe_delete_body : safe delete_body.
Proof. unfold delete_body. solve_safe. Qed.
Lemma safe_record_header : safe record_header.
Proof. unfold record_header. solve_safe. Qed.

Lemma decoder_new_ok bytes : cursor_ok (decoder_new bytes).
Proof. split; cbn; [lia|apply zlen_nonneg]. Qed.

Lemma prepare_upsert_no_panic `{FloatEnv} c us seq : prepare_upsert c us seq <> Panic.
Proof. unfold prepare_upsert. destruct us; [done|]. apply prepare_points_no_panic. Qed.

Lemma apply_operation_no_panic `{FloatEnv} c op seq s :
  cursor_ok s -> (apply_operation c op seq s).1 <> Panic /\
  (is_ok (apply_operation c op seq s).1 = false -> (apply_operation c op seq s).2 = c).
Proof.
  intros Hs. unfold apply_operation.
  assert (forall m, (Err (A := list string) (CorruptStorage m), c).1 <> Panic /\
    (is_ok (Err (A := list string) (CorruptStorage m), c).1 = false ->
     (Err (A := list string) (CorruptStorage m), c).2 = c)) as Hbad by done.
  destruct op as [|[[?|?|]|[?|?|]|]|?]; try apply Hbad.
  - pose proof (safe_delete_body s Hs) as Hd. by destruct (delete_body s) as [[ids s']| |].
  - pose proof (safe_upsert_body (config c) s Hs) as Hd.
    destruct (upsert_body (config c) s) as [[us s']| |]; [|done|done]. cbn [rbind].
    pose proof (prepare_upsert_no_panic c us seq) as Hp. by destruct (prepare_upsert c us seq).
Qed.

Lemma apply_payload_no_panic `{FloatEnv} c payload : (apply_payload c payload).1 <> Panic.
Proof.
  unfold apply_payload. pose proof (safe_record_header _ (decoder_new_ok payload)) as Hh.
  destruct (record_header (decoder_new payload)) as [[[op seq] s]| |]; [|done|done]. destruct Hh as (Hs & _).
  destruct (_ <=? _); [done|]. destruct (checked_add _ _ _); [|done]. destruct (negb _); [done|].
  by apply apply_operation_no_panic.
Qed.

(** Applying any byte string as a log record never
    panics, and a record that is refused leaves the collection as it was. *)
Theorem apply_payload_total `{FloatEnv} c payload :
  (apply_payload c payload).1 <> Panic /\
  (is_ok (apply_payload c payload).1 = false -> (apply_payload c payload).2 = c).
Proof.
  unfold apply_payload. pose proof (safe_record_header _ (decoder_new_ok payload)) as Hh.
  destruct (record_header (decoder_new payload)) as [[[op seq] s]| |]; [|done|done]. destruct Hh as (Hs & _).
  destruct (_ <=? _); [done|]. destruct (checked_add _ _ _); [|done]. destruct (negb _); [done|].
  by apply apply_operation_no_panic.
Qed.

(** ** Replaying a record *)

(** A decoder that must end at the end of the slice. *)
Definition decodes_end {A : Type} (d : dec A) (bs : list byte) (a : A) : Prop :=
  forall pre, zlen (pre ++ bs) <= USIZE_MAX ->
    d (MkDecoder (pre ++ bs) (zlen pre)) = Ok (a, MkDecoder (pre ++ bs) (zlen (pre ++ bs))).

Lemma decodes_end_bind {A B} (d : dec A) (k : A -> dec B) bs1 bs2 a b :
  decodes d bs1 a -> decodes_end (k a) bs2 b -> decodes_end (dbind d k) (bs1 ++ bs2) b.
Proof.
  intros H1 H2 pre Hl. unfold dbind. rewrite (H1 pre bs2 Hl). cbn [rbind fst snd].
  rewrite !app_assoc in *. by rewrite (H2 (pre ++ bs1) Hl).
Qed.

Lemma decodes_end_finish {A} (a : A) : decodes_end (let! _ := finish in dret a) [] a.
Proof. intros pre _. unfold dbind, finish. cbn. rewrite app_nil_r. by rewrite Z.eqb_refl. Qed.

Lemma decodes_end_finish_after {A B} (d : dec A) (k : A -> dec B) bs a b :
  decodes d bs a -> decodes_end (k a) [] b -> decodes_end (dbind d k) bs b.
Proof. intros H1 H2. rewrite <- (app_nil_r bs). by eapply decodes_end_bind. Qed.

(** The request a stored point is written as. *)
Definition as_upsert (p : StoredPoint) : UpsertPoint :=
  MkUpsert (sp_id p) (as_slice (sp_vector p)) (sp_metadata p).

Definition point_storable (cfg : CollectionConfig) (p : StoredPoint) : Prop :=
  str_wf (sp_id p) /\ vector_storable (as_slice (sp_vector p)) /\
  zlen (as_slice (sp_vector p)) = dimension cfg /\ metadata_storable (sp_metadata p).

#[global] Instance point_storable_dec cfg p : Decision (point_storable cfg p).
Proof. unfold point_storable. apply _. Defined.

Lemma decodes_point cfg p bs :
  point_storable cfg p -> put_point (sp_id p) (as_slice (sp_vector p)) (sp_metadata p) = Ok bs ->
  decodes (upsert_point cfg) bs (as_upsert p).
Proof.
  intros (Hi & Hv & Hd & Hm) H. unfold put_point in H. inv_ok H. inv_ok H. inv_ok H. apply Ok_inj in H as <-.
  apply put_count_ok in Hok0 as ->. unfold upsert_point. eapply decodes_bind; [by apply decodes_string|].
  eapply decodes_bind; [apply decodes_count; pose proof (zlen_nonneg (as_slice (sp_vector p))); destruct Hv; lia|].
  eapply decodes_then; [apply decodes_guard; by rewrite Hd, Z.eqb_refl|].
  eapply decodes_bind; [unfold zlen; rewrite Nat2Z.id; by apply decodes_vector|].
  by eapply decodes_bind_ret; [apply decodes_metadata|].
Qed.

Lemma upsert_body_roundtrip cfg ps n body :
  zlen ps <= MAX_ITEMS -> Forall (point_storable cfg) ps -> put_count (zlen ps) = Ok n ->
  put_each (fun p => put_point (sp_id p) (as_slice (sp_vector p)) (sp_metadata p)) ps = Ok body ->
  decodes_end (upsert_body cfg) (n ++ body) (map as_upsert ps).
Proof.
  intros Hn Hs ->%put_count_ok Hb. unfold upsert_body.
  eapply decodes_end_bind; [apply decodes_count; pose proof (zlen_nonneg ps); lia|].
  eapply decodes_end_finish_after; [|apply decodes_end_finish].
  unfold zlen. rewrite Nat2Z.id. unfold put_each in Hb. inv_ok Hb. apply Ok_inj in Hb as <-.
  apply mapM_result_ok in Hok. clear Hn. induction Hok as [|p b ps bs Hp _ IH]; cbn; [apply decodes_ret|].
  apply Forall_cons in Hs as [Hp' Hs]. eapply decodes_bind; [by apply decodes_point|].
  by eapply decodes_bind_ret; [apply IH|].
Qed.

Lemma delete_body_roundtrip ids n body :
  0 < zlen ids <= MAX_ITEMS -> Forall str_wf ids -> put_count (zlen ids) = Ok n ->
  put_each put_string ids = Ok body -> decodes_end delete_body (n ++ body) ids.
Proof.
  intros Hn Hs ->%put_count_ok Hb. unfold delete_body.
  eapply decodes_end_bind; [apply decodes_count; lia|].
  rewrite <- (app_nil_l body). eapply decodes_end_bind; [apply decodes_guard; lia|].
  eapply decodes_end_finish_after; [|apply decodes_end_finish].
  unfold zlen. rewrite Nat2Z.id. eapply decodes_each; [|exact Hb].
  intros s b Hin. apply decodes_string. by eapply Forall_forall in Hs.
Qed.

Lemma record_header_ok op seq rest :
  in_u 8 op -> in_u 64 seq -> zlen (to_u8 op :: le_bytes 8 seq ++ rest) <= USIZE_MAX ->
  record_header (decoder_new (to_u8 op :: le_bytes 8 seq ++ rest)) =
    Ok ((op, seq), MkDecoder ((to_u8 op :: le_bytes 8 seq) ++ rest) (zlen (to_u8 op :: le_bytes 8 seq))).
Proof.
  intros Ho Hs Hl. assert (decodes record_header (to_u8 op :: le_bytes 8 seq) (op, seq)) as Hd.
  { change (to_u8 op :: ?l) with ([to_u8 op] ++ l). eapply decodes_bind; [by apply decodes_byte|].
    by eapply decodes_bind_ret; [apply decodes_u64|]. }
  specialize (Hd [] rest). apply Hd. exact Hl.
Qed.

Section Replay.
Context `{FloatEnv}.

Lemma apply_payload_upsert c ps ps' bs :
  0 <= sequence c -> sequence c + 1 <= U64_MAX ->
  zlen ps <= MAX_ITEMS -> Forall (point_storable (config c)) ps ->
  encode_upsert (sequence c + 1) ps = Ok bs -> zlen bs <= USIZE_MAX ->
  prepare_upsert c (map as_upsert ps) (sequence c + 1) = Ok ps' ->
  apply_payload c bs = (Ok (map sp_id ps), apply_prepared_upsert c ps' (sequence c + 1)).
Proof.
  intros H0 Hs Hn Hst He Hl Hp. unfold encode_upsert in He. inv_ok He. inv_ok He. apply Ok_inj in He as <-.
  unfold apply_payload. rewrite record_header_ok; [|done|unfold U64_MAX in Hs; split; lia|done].
  unfold latest_sequence. rewrite (proj2 (Z.leb_gt _ _)) by lia. unfold checked_add.
  rewrite (proj2 (Z.leb_le _ _)) by lia. rewrite Z.eqb_refl. cbn [negb]. unfold apply_operation.
  rewrite (upsert_body_roundtrip (config c) ps a a0 Hn Hst Hok Hok0) by done. cbn [rbind].
  rewrite Hp. cbn [rbind]. by rewrite map_map.
Qed.

Lemma apply_payload_delete c ids bs :
  0 <= sequence c -> sequence c + 1 <= U64_MAX -> 0 < zlen ids <= MAX_ITEMS -> Forall str_wf ids ->
  encode_delete (sequence c + 1) ids = Ok bs -> zlen bs <= USIZE_MAX ->
  apply_payload c bs = (Ok ids, apply_delete_at c ids (sequence c + 1)).
Proof.
  intros H0 Hs Hn Hst He Hl. unfold encode_delete in He. inv_ok He. inv_ok He. apply Ok_inj in He as <-.
  unfold apply_payload. rewrite record_header_ok; [|done|unfold U64_MAX in Hs; split; lia|done].
  unfold latest_sequence. rewrite (proj2 (Z.leb_gt _ _)) by lia. unfold checked_add.
  rewrite (proj2 (Z.leb_le _ _)) by lia. rewrite Z.eqb_refl. cbn [negb]. unfold apply_operation.
  by rewrite (delete_body_roundtrip ids a a0 Hn Hst Hok Hok0) by done.
Qed.

(** A record at or below the collection's sequence is skipped. *)
Lemma apply_payload_old c op seq rest :
  in_u 8 op -> in_u 64 seq -> seq <= sequence c -> zlen (to_u8 op :: le_bytes 8 seq ++ rest) <= USIZE_MAX ->
  apply_payload c (to_u8 op :: le_bytes 8 seq ++ rest) = (Ok [], c).
Proof.
  intros Ho Hs Hle Hl. unfold apply_payload. rewrite record_header_ok by done.
  unfold latest_sequence. by rewrite (proj2 (Z.leb_le _ _)).
Qed.
End Replay.

(** ** The metadata file *)

(** The file as its eighteen bytes: magic, version, metric, dimension, CRC. *)
Lemma metadata_bytes (l : list byte) :
  zlen l = 18 -> exists magic v m dim c,
    l = magic ++ v :: m :: dim ++ c /\ length magic = 4%nat /\ length dim = 8%nat /\ length c = 4%nat.
Proof.
  unfold zlen. intros H. do 6 (destruct l as [|? l]; [cbn in H; lia|]).
  exists [b; b0; b1; b2], b3, b4, (firstn 8 l), (skipn 8 l). cbn in H.
  rewrite firstn_skipn, firstn_length, skipn_length. split_and!; [done|done|lia|lia].
Qed.

Lemma decode_metadata_parts magic v m dim c :
  length magic = 4%nat -> length dim = 8%nat -> length c = 4%nat ->
  decode_metadata (magic ++ v :: m :: dim ++ c) =
    if bool_decide (magic = META_MAGIC) && Z.eqb (u8 v) FORMAT_VERSION then
      if negb (Z.eqb (crc32c (magic ++ v :: m :: dim)) (le_value c))
      then Err (CorruptStorage "collection metadata checksum mismatch")
      else let? metric := parse_metric (u8 m) in
           if Z.eqb (le_value dim) 0 then Err (CorruptStorage "collection dimension must be non-zero")
           else Ok (MkConfig (le_value dim) metric)
    else Err (CorruptStorage "invalid collection metadata header").
Proof.
  intros H1 H2 H3.
  do 4 (destruct magic as [|? magic]; [cbn in H1; lia|]). destruct magic; [|cbn in H1; lia].
  do 8 (destruct dim as [|? dim]; [cbn in H2; lia|]). destruct dim; [|cbn in H2; lia].
  do 4 (destruct c as [|? c]; [cbn in H3; lia|]). destruct c; [|cbn in H3; lia]. clear.
  unfold decode_metadata. cbn [app]. change (negb (zlen _ =? 18)) with false. cbn iota.
  repeat match goal with |- context [slice (E := ?E) ?l ?a ?b] =>
    let s := eval vm_compute in (slice (E := E) l a b) in change (slice (E := E) l a b) with s end.
  repeat match goal with |- context [index (E := ?E) ?l ?a] =>
    let s := eval vm_compute in (index (E := E) l a) in change (index (E := E) l a) with s end.
  cbn [rbind fixed length Nat.eqb]. case_bool_decide; cbn [negb andb]; [|done].
  by destruct (_ =? FORMAT_VERSION).
Qed.

Lemma metric_tag_parse m : parse_metric (metric_tag m) = Ok m.
Proof. by destruct m. Qed.

Lemma parse_metric_tag t m : parse_metric t = Ok m -> t = metric_tag m.
Proof.
  unfold parse_metric. destruct t as [|[[?|?|]|[?|?|]|]|?]; intros [= <-]; done.
Qed.

Lemma decode_encode_metadata cfg : 0 < dimension cfg <= U64_MAX -> decode_metadata (encode_metadata cfg) = Ok cfg.
Proof.
  intros [Hd1 Hd2]. destruct cfg as [d m]. unfold encode_metadata. cbn [dimension metric app] in *.
  set (body := META_MAGIC ++ _).
  replace (body ++ le_bytes 4 (crc32c body))
    with (META_MAGIC ++ to_u8 FORMAT_VERSION :: to_u8 (metric_tag m) :: le_bytes 8 d ++ le_bytes 4 (crc32c body))
    by (unfold body; by rewrite <- app_assoc).
  rewrite decode_metadata_parts by (done || apply length_le_bytes). rewrite bool_decide_eq_true_2 by done.
  rewrite (le_value_bytes 4) by apply crc32c_range. rewrite (le_value_bytes 8) by (unfold U64_MAX in *; split; lia).
  change (META_MAGIC ++ to_u8 FORMAT_VERSION :: to_u8 (metric_tag m) :: le_bytes 8 d) with body.
  rewrite (Z.eqb_refl (crc32c body)). change (u8 (to_u8 FORMAT_VERSION) =? FORMAT_VERSION) with true.
  cbn [andb negb]. rewrite (proj2 (Z.eqb_neq d 0)) by lia. by destruct m.
Qed.

(** The collection metadata file has one valid
    encoding per configuration: a configuration with a non-zero 64-bit dimension
    decodes from its encoding, any bytes that decode are that encoding, and no
    bytes make the decoder panic. *)
Theorem metadata_file_canonical cfg bytes :
  (0 < dimension cfg <= U64_MAX -> decode_metadata (encode_metadata cfg) = Ok cfg) /\
  (decode_metadata bytes = Ok cfg -> bytes = encode_metadata cfg) /\
  decode_metadata bytes <> Panic.
Proof.
  split; [|split].
  - apply decode_encode_metadata.
  - intros H. assert (zlen bytes = 18) as Hl.
    { unfold decode_metadata in H. destruct (Z.eqb_spec (zlen bytes) 18); done. }
    destruct (metadata_bytes bytes Hl) as (magic & v & m & dim & c & -> & H1 & H2 & H3).
    rewrite decode_metadata_parts in H by done. case_bool_decide as Em; [|done].
    destruct (Z.eqb_spec (u8 v) FORMAT_VERSION) as [Ev|]; [|done]. cbn [andb] in H.
    destruct (Z.eqb_spec (crc32c (magic ++ v :: m :: dim)) (le_value c)) as [Ec|]; [|done]. cbn [negb] in H.
    inv_ok H. apply parse_metric_tag in Hok. destruct (Z.eqb_spec (le_value dim) 0); [done|].
    apply Ok_inj in H as <-. unfold encode_metadata. cbn [metric dimension].
    rewrite <- H2, !le_bytes_value. rewrite <- Hok, <- Ev, !to_u8_u8, <- Em. cbn [app].
    rewrite Ec, <- H3, le_bytes_value. by rewrite <- app_assoc.
  - intros H. destruct (Z.eqb_spec (zlen bytes) 18) as [Hl|Hl].
    + destruct (metadata_bytes bytes Hl) as (magic & v & m & dim & c & -> & H1 & H2 & H3).
      rewrite decode_metadata_parts in H by done. destruct (_ && _); [|done]. destruct (negb _); [done|].
      apply rbind_panic_inv in H as [H|(mt & _ & H)]; [|by destruct (_ =? _)].
      unfold parse_metric in H. by destruct (u8 m) as [|[[?|?|]|[?|?|]|]|?].
    + unfold decode_metadata in H. by rewrite (proj2 (Z.eqb_neq _ _) Hl) in H.
Qed.

Lemma metadata_file_witness : decode_metadata (encode_metadata (MkConfig 2 Euclidean)) = Ok (MkConfig 2 Euclidean).
Proof. apply (metadata_file_canonical (MkConfig 2 Euclidean) []). vm_compute. split; [reflexivity|discriminate]. Defined.
