(* ===== verification/Wal.v ===== *)
(** * Wal: the write-ahead log file ([recover] of [src/src/persistence.rs])

    The file is its bytes: a sequence of frames, one per record, that [recover]
    scans from the start.  Appending is in [Persistence], with the file system. *)

From stdpp Require Import base gmap sets list strings sorting.
From Stdlib Require Import ZArith Lia.
From S2P Require Import Prelude Errors Floats Ranking Metric Filter MetadataIndex Collection CollectionFacts.
From S2P Require Import Codec Wire WireFacts.

(** ** Frames *)

Definition frame (payload : list byte) : list byte :=
  WAL_MAGIC ++ le_bytes 4 (zlen payload) ++ payload ++ le_bytes 4 (crc32c payload).

(** ** Recovery *)

Inductive ReadState : Type := Complete (buffer : list byte) | Eof | Truncated.

(** [read_exact_or_eof] at the front of the unread bytes. *)
Definition read_exact_or_eof (unread : list byte) (n : nat) : ReadState :=
  match unread with
  | [] => if Nat.eqb n 0 then Complete [] else Eof
  | _ => if Nat.ltb (length unread) n then Truncated else Complete (firstn n unread)
  end.

Section Recover.
Context `{FloatEnv}.

Record Recovery : Type := MkRecovery {
  rec_length : Z;   (** the file's length after the scan *)
  rec_collection : Collection;
  rec_dirty : gset string
}.

(** One turn: [None] stops the scan, keeping the file up to [valid_length]
    or, at a clean end, as it is (the same length). *)
Definition recover_step (unread : list byte) (valid_length : Z) (collection : Collection) (dirty : gset string)
    : Result (option (list byte * Z * Collection * gset string)) :=
  match read_exact_or_eof unread 8 with
  | Eof => Ok None
  | Truncated => Ok None
  | Complete header =>
      let? magic := slice header 0 4 in
      if negb (bool_decide (magic = WAL_MAGIC))
      then Err (CorruptStorage ("invalid WAL magic at byte " +:+ fmt_int valid_length)) else
      let? size := slice header 4 8 in
      let? size := fixed 4 size in
      let length := le_value size in
      if Z.ltb MAX_FRAME_BYTES length
      then Err (CorruptStorage ("WAL frame at byte " +:+ fmt_int valid_length +:+ " exceeds the size limit")) else
      let unread := skipn 8 unread in
      match read_exact_or_eof unread (Z.to_nat (length + 4)) with
      | Complete frame =>
          let? stored := slice frame length (zlen frame) in
          let? stored := fixed 4 stored in
          let? payload := slice frame 0 length in
          if negb (Z.eqb (crc32c payload) (le_value stored))
          then Err (CorruptStorage ("WAL checksum mismatch at byte " +:+ fmt_int valid_length)) else
          match apply_payload collection payload with
          | (Ok ids, collection) =>
              Ok (Some (skipn (Z.to_nat (length + 4)) unread, valid_length + 8 + length + 4, collection,
                        dirty ∪ list_to_set ids))
          | (Err e, _) => Err e
          | (Panic, _) => Panic
          end
      | _ => Ok None
      end
  end.

(** The fuel bounds the number of frames; [recover] gives one more than the
    file has bytes. *)
Fixpoint recover_loop (fuel : nat) (unread : list byte) (valid_length : Z) (collection : Collection)
    (dirty : gset string) : Result Recovery :=
  match fuel with
  | O => Panic
  | S fuel' =>
      let? next := recover_step unread valid_length collection dirty in
      match next with
      | None => Ok (MkRecovery valid_length collection dirty)
      | Some (unread, valid_length, collection, dirty) => recover_loop fuel' unread valid_length collection dirty
      end
  end.

Definition recover (wal : list byte) (collection : Collection) (dirty : gset string) : Result Recovery :=
  recover_loop (S (length wal)) wal 0 collection dirty.

(** The file after recovery. *)
Definition recovered_file (wal : list byte) (r : Recovery) : list byte := firstn (Z.to_nat (rec_length r)) wal.

(** What a sequence of records does, without the file. *)
Fixpoint replay (payloads : list (list byte)) (collection : Collection) (dirty : gset string)
    : Result (Collection * gset string) :=
  match payloads with
  | [] => Ok (collection, dirty)
  | payload :: payloads' =>
      match apply_payload collection payload with
      | (Ok ids, collection) => replay payloads' collection (dirty ∪ list_to_set ids)
      | (Err e, _) => Err e
      | (Panic, _) => Panic
      end
  end.

Definition log (payloads : list (list byte)) : list byte := concat (map frame payloads).

(** ** Scanning well-formed logs *)

Lemma zlen_frame p : zlen (frame p) = zlen p + 12.
Proof. unfold frame. rewrite !zlen_app. unfold zlen. rewrite !length_le_bytes. cbn. lia. Qed.

Lemma slice_middle {E A} (pre mid post : list A) a b :
  a = zlen pre -> b = zlen pre + zlen mid -> slice (E := E) (pre ++ mid ++ post) a b = Ok mid.
Proof. intros -> ->. apply slice_app. Qed.

Lemma index_middle {E A} (pre : list A) x post i : i = zlen pre -> index (E := E) (pre ++ x :: post) i = Ok x.
Proof.
  intros ->. unfold index. rewrite decide_True by apply zlen_nonneg. unfold zlen. rewrite Nat2Z.id.
  rewrite lookup_app_r by lia. by rewrite Nat.sub_diag.
Qed.

Lemma slice_prefix {E A} (mid post : list A) b :
  b = zlen mid -> slice (E := E) (mid ++ post) 0 b = Ok mid.
Proof. intros ->. apply (slice_middle [] mid post); reflexivity. Qed.

Lemma slice_suffix {E A} (pre mid : list A) a b :
  a = zlen pre -> b = zlen (pre ++ mid) -> slice (E := E) (pre ++ mid) a b = Ok mid.
Proof.
  intros -> ->. rewrite <- (app_nil_r (pre ++ mid)) at 1. rewrite <- app_assoc.
  apply slice_middle; [done|apply zlen_app].
Qed.

Lemma read_complete (buf rest : list byte) n :
  length buf = n -> (0 < n)%nat -> read_exact_or_eof (buf ++ rest) n = Complete buf.
Proof.
  intros <- Hn. unfold read_exact_or_eof. destruct (buf ++ rest) as [|b l] eqn:E.
  { apply app_nil in E as [-> _]. cbn in Hn. lia. }
  rewrite <- E. rewrite (proj2 (Nat.ltb_ge _ _)) by (rewrite length_app; lia).
  by rewrite firstn_app, firstn_all, Nat.sub_diag, app_nil_r.
Qed.

Lemma read_short (l : list byte) n : (length l < n)%nat -> forall b, read_exact_or_eof l n <> Complete b.
Proof.
  intros Hl b. unfold read_exact_or_eof. destruct l as [|x l].
  - destruct n; [cbn in Hl; lia|done].
  - by rewrite (proj2 (Nat.ltb_lt _ _) Hl).
Qed.

Definition header (n : Z) : list byte := WAL_MAGIC ++ le_bytes 4 n.

Lemma frame_header p : frame p = header (zlen p) ++ p ++ le_bytes 4 (crc32c p).
Proof. unfold frame, header. by rewrite <- app_assoc. Qed.

(** Past the header of a frame of [n] bytes. *)
Lemma recover_step_header n rest valid c dirty :
  0 <= n <= MAX_FRAME_BYTES ->
  recover_step (header n ++ rest) valid c dirty =
    match read_exact_or_eof rest (Z.to_nat (n + 4)) with
    | Complete frame =>
        let? stored := slice frame n (zlen frame) in
        let? stored := fixed 4 stored in
        let? payload := slice frame 0 n in
        if negb (Z.eqb (crc32c payload) (le_value stored))
        then Err (CorruptStorage ("WAL checksum mismatch at byte " +:+ fmt_int valid)) else
        match apply_payload c payload with
        | (Ok ids, c') => Ok (Some (skipn (Z.to_nat (n + 4)) rest, valid + 8 + n + 4, c', dirty ∪ list_to_set ids))
        | (Err e, _) => Err e
        | (Panic, _) => Panic
        end
    | _ => Ok None
    end.
Proof.
  intros [Hn Hm]. unfold recover_step. assert (length (header n) = 8%nat) as Hl by (unfold header; by rewrite length_app, length_le_bytes).
  rewrite (read_complete (header n)) by (done || lia).
  unfold header at 1. rewrite (slice_prefix WAL_MAGIC) by done. cbn [rbind].
  rewrite bool_decide_eq_true_2 by done. cbn [negb].
  unfold header at 1. rewrite (slice_suffix WAL_MAGIC) by (done || (rewrite zlen_app; unfold zlen; by rewrite length_le_bytes)).
  cbn [rbind]. unfold fixed at 1. rewrite length_le_bytes. cbn [Nat.eqb rbind].
  rewrite (le_value_bytes 4) by (unfold MAX_FRAME_BYTES in Hm; split; [lia|]; change (2 ^ (8 * Z.of_nat 4)) with 4294967296; lia).
  rewrite (proj2 (Z.ltb_ge _ _)) by lia.
  replace (skipn 8 (header n ++ rest)) with rest; [done|].
  by rewrite skipn_app, Hl, Nat.sub_diag, (skipn_all2 (header n)) by lia.
Qed.

Lemma recover_step_frame p rest valid c dirty :
  zlen p <= MAX_FRAME_BYTES ->
  recover_step (frame p ++ rest) valid c dirty =
    match apply_payload c p with
    | (Ok ids, c') => Ok (Some (rest, valid + zlen (frame p), c', dirty ∪ list_to_set ids))
    | (Err e, _) => Err e
    | (Panic, _) => Panic
    end.
Proof.
  intros Hp. pose proof (zlen_nonneg p) as H0. rewrite frame_header, <- app_assoc.
  rewrite recover_step_header by lia.
  assert (length (p ++ le_bytes 4 (crc32c p)) = Z.to_nat (zlen p + 4)) as Hl.
  { rewrite length_app, length_le_bytes. unfold zlen. lia. }
  rewrite (read_complete (p ++ le_bytes 4 (crc32c p))) by lia.
  rewrite slice_suffix by done. cbn [rbind]. unfold fixed. rewrite length_le_bytes. cbn [Nat.eqb rbind].
  rewrite slice_prefix by done. cbn [rbind]. rewrite (le_value_bytes 4) by apply crc32c_range.
  rewrite Z.eqb_refl. cbn [negb].
  replace (skipn (Z.to_nat (zlen p + 4)) ((p ++ le_bytes 4 (crc32c p)) ++ rest)) with rest.
  2: { rewrite <- Hl. by rewrite skipn_app, skipn_all, Nat.sub_diag. }
  assert (zlen (header (zlen p) ++ p ++ le_bytes 4 (crc32c p)) = 8 + zlen p + 4) as ->; [|by rewrite !Z.add_assoc].
  rewrite <- frame_header, zlen_frame. lia.
Qed.

(** What a crash leaves of a frame is not taken for one. *)
Lemma recover_step_torn p n valid c dirty :
  zlen p <= MAX_FRAME_BYTES -> (n < length (frame p))%nat ->
  recover_step (firstn n (frame p)) valid c dirty = Ok None.
Proof.
  intros Hp Hn. pose proof (zlen_nonneg p) as H0.
  assert (length (header (zlen p)) = 8%nat) as Hl by (unfold header; by rewrite length_app, length_le_bytes).
  destruct (decide (n < 8)%nat) as [H8|H8].
  - unfold recover_step.
    pose proof (read_short (firstn n (frame p)) 8 ltac:(rewrite firstn_length; lia)) as Hr.
    destruct (read_exact_or_eof _ 8) as [b| |]; [by destruct (Hr b)|done|done].
  - rewrite frame_header in *. rewrite firstn_app, Hl.
    rewrite (firstn_all2 (header (zlen p))) by lia. rewrite recover_step_header by lia.
    rewrite !length_app, Hl, length_le_bytes in Hn.
    match goal with |- context [read_exact_or_eof ?r ?k] =>
      pose proof (read_short r k) as Hr; destruct (read_exact_or_eof r k) as [b| |]; [|done|done] end.
    exfalso. apply (Hr ltac:(rewrite firstn_length; unfold zlen; lia) b). done.
Qed.

Lemma recover_loop_log fuel ps torn valid c dirty :
  Forall (fun p => zlen p <= MAX_FRAME_BYTES) ps ->
  (forall valid c dirty, recover_step torn valid c dirty = Ok None) ->
  (length ps < fuel)%nat ->
  recover_loop fuel (log ps ++ torn) valid c dirty =
    match replay ps c dirty with
    | Ok (c', dirty') => Ok (MkRecovery (valid + zlen (log ps)) c' dirty')
    | Err e => Err e
    | Panic => Panic
    end.
Proof.
  intros Hps Htorn. revert fuel valid c dirty.
  induction Hps as [|p ps Hp _ IH]; intros fuel valid c dirty Hf; (destruct fuel as [|fuel]; [cbn in Hf; lia|]).
  - cbn [log map concat app recover_loop replay]. rewrite Htorn. cbn. by rewrite Z.add_0_r.
  - unfold log in *. cbn [map concat recover_loop replay]. rewrite <- app_assoc, recover_step_frame by done.
    destruct (apply_payload c p) as [[ids|e|] c']; [|done|done]. cbn [rbind].
    rewrite IH by (cbn in Hf; lia). rewrite zlen_app, Z.add_assoc. done.
Qed.

Lemma length_log ps : (length ps <= length (log ps))%nat.
Proof.
  induction ps as [|p ps IH]; [done|]. unfold log in *. cbn. rewrite length_app.
  pose proof (zlen_frame p) as Hf. pose proof (zlen_nonneg p). unfold zlen in *. lia.
Qed.

Lemma recover_log ps torn c dirty :
  Forall (fun p => zlen p <= MAX_FRAME_BYTES) ps ->
  (forall valid c dirty, recover_step torn valid c dirty = Ok None) ->
  recover (log ps ++ torn) c dirty =
    match replay ps c dirty with
    | Ok (c', dirty') => Ok (MkRecovery (zlen (log ps)) c' dirty')
    | Err e => Err e
    | Panic => Panic
    end.
Proof.
  intros Hps Ht. unfold recover. rewrite recover_loop_log; [done|done|done|].
  pose proof (length_log ps). rewrite length_app. lia.
Qed.

Lemma recovered_log ps torn c dirty :
  recovered_file (log ps ++ torn) (MkRecovery (zlen (log ps)) c dirty) = log ps.
Proof.
  unfold recovered_file, zlen. cbn. by rewrite Nat2Z.id, firstn_app, firstn_all, Nat.sub_diag, app_nil_r.
Qed.

Lemma recover_step_nil valid c dirty : recover_step [] valid c dirty = Ok None.
Proof. done. Qed.

(** ** Totality *)

Lemma slice_Ok_inv {E A} (l m : list A) a b : slice (E := E) l a b = Ok m -> zlen m = b - a.
Proof.
  unfold slice. destruct (decide _) as [H0|]; [|done]. intros [= <-]. unfold zlen in *.
  rewrite length_firstn, length_skipn. lia.
Qed.

Lemma slice_in {E A} (l : list A) a b : 0 <= a <= b -> b <= zlen l -> exists m, slice (E := E) l a b = Ok m /\ zlen m = b - a.
Proof. intros Ha Hb. rewrite slice_ok by done. eexists. split; [done|]. by apply (slice_Ok_inv (E := E) l), slice_ok. Qed.

Lemma fixed_in n l : zlen l = Z.of_nat n -> fixed n l = Ok l.
Proof. intros Hl. unfold fixed. rewrite (proj2 (Nat.eqb_eq _ _)); [done|]. unfold zlen in Hl. lia. Qed.

Lemma read_complete_inv l n b : read_exact_or_eof l n = Complete b -> length b = n /\ (n <= length l)%nat.
Proof.
  unfold read_exact_or_eof. destruct l as [|x l].
  - destruct n; [|done]. by intros [= <-].
  - destruct (Nat.ltb_spec (length (x :: l)) n); [done|]. intros [= <-]. rewrite firstn_length. lia.
Qed.

Lemma recover_step_total unread valid c dirty :
  match recover_step unread valid c dirty with
  | Ok (Some (unread', _, _, _)) => (length unread' < length unread)%nat
  | Ok None | Err _ => True
  | Panic => False
  end.
Proof.
  unfold recover_step. destruct (read_exact_or_eof unread 8) as [hd| |] eqn:Eh; [|done|done].
  apply read_complete_inv in Eh as [Hhd Hlen]. assert (zlen hd = 8) as Hz by (unfold zlen; lia).
  destruct (slice_in (E := Error) hd 0 4) as (m & -> & Hm); [lia|lia|]. cbn [rbind].
  destruct (negb _); [done|].
  destruct (slice_in (E := Error) hd 4 8) as (sz & -> & Hsz); [lia|lia|]. cbn [rbind].
  rewrite (fixed_in 4) by lia. cbn [rbind]. destruct (_ <? _); [done|].
  pose proof (le_value_range sz) as [Hr _]. set (n := le_value sz) in *.
  destruct (read_exact_or_eof (skipn 8 unread) _) as [fr| |] eqn:Ef; [|done|done].
  apply read_complete_inv in Ef as [Hfr _]. assert (zlen fr = n + 4) as Hzf by (unfold zlen; lia).
  destruct (slice_in (E := Error) fr n (zlen fr)) as (st & -> & Hst); [lia|lia|]. cbn [rbind].
  rewrite (fixed_in 4) by lia. cbn [rbind].
  destruct (slice_in (E := Error) fr 0 n) as (pl & -> & Hpl); [lia|lia|]. cbn [rbind].
  destruct (negb _); [done|]. pose proof (apply_payload_no_panic c pl) as Hp.
  destruct (apply_payload c pl) as [[ids|e|] c']; [|done|done].
  rewrite !skipn_length. lia.
Qed.

Lemma recover_loop_total fuel unread valid c dirty :
  (length unread < fuel)%nat -> recover_loop fuel unread valid c dirty <> Panic.
Proof.
  revert unread valid c dirty. induction fuel as [|fuel IH]; intros unread valid c dirty Hf; [lia|].
  cbn [recover_loop]. pose proof (recover_step_total unread valid c dirty) as Ht.
  destruct (recover_step unread valid c dirty) as [[[[[u v] c'] d]|]| |]; cbn [rbind]; [|done|done|done].
  apply IH. lia.
Qed.

(** Recovery of any file contents terminates without
    panicking: the scan has enough fuel for every byte string. *)
Theorem recover_total wal c dirty : recover wal c dirty <> Panic.
Proof. apply recover_loop_total. lia. Qed.

(** A log followed by any proper prefix of the next
    frame (an append the crash cut short, at any byte) recovers to exactly the
    effect of the complete records in order, and the file is cut back to them;
    with no torn suffix the whole log is kept. *)
Theorem wal_crash_atomicity ps p n c dirty :
  Forall (fun p => zlen p <= MAX_FRAME_BYTES) ps -> zlen p <= MAX_FRAME_BYTES ->
  (n < length (frame p))%nat ->
  match recover (log ps ++ firstn n (frame p)) c dirty with
  | Ok r => replay ps c dirty = Ok (rec_collection r, rec_dirty r) /\
            recovered_file (log ps ++ firstn n (frame p)) r = log ps
  | Err e => replay ps c dirty = Err e
  | Panic => False
  end.
Proof.
  intros Hps Hp Hn. pose proof (recover_loop_total (S (length (log ps ++ firstn n (frame p))))
    (log ps ++ firstn n (frame p)) 0 c dirty ltac:(lia)) as Ht. fold (recover (log ps ++ firstn n (frame p)) c dirty) in Ht.
  rewrite recover_log in * by (done || (intros; by apply recover_step_torn)).
  destruct (replay ps c dirty) as [[c' d']| |]; [|done|done]. split; [done|]. apply recovered_log.
Qed.
End Recover.

(** Two records for an empty collection: an upsert, and the deletion that the
    crash cut short after twenty bytes. *)
Definition demo_record : list byte :=
  match encode_upsert 1 [MkStored "a" (Owned [1065353216; 0]) ∅ 1 None] with Ok l => l | _ => [] end.
Definition demo_torn : list byte := match encode_delete 2 ["a"] with Ok l => l | _ => [] end.

Lemma wal_crash_witness :
  match @recover x86_64_env (log [demo_record] ++ firstn 20 (frame demo_torn)) demo_empty ∅ with
  | Ok r => recovered_file (log [demo_record] ++ firstn 20 (frame demo_torn)) r = log [demo_record] /\
            rec_dirty r = {["a"]} /\ sequence (rec_collection r) = 1
  | _ => False
  end.
Proof.
  pose proof (@wal_crash_atomicity x86_64_env [demo_record] demo_torn 20 demo_empty ∅) as H.
  assert (exists r, @recover x86_64_env (log [demo_record] ++ firstn 20 (frame demo_torn)) demo_empty ∅ = Ok r /\
    rec_dirty r = {["a"]} /\ sequence (rec_collection r) = 1) as (r & E & Hd & Hs).
  { eexists. split; [vm_compute; reflexivity|]. split; vm_compute; reflexivity. }
  rewrite E in *. destruct H as [_ H].
  - repeat constructor. vm_compute. discriminate.
  - vm_compute. discriminate.
  - apply (bool_decide_unpack _). vm_compute. exact I.
  - split; [exact H|]. split; assumption.
Defined.
