(* ===== verification/Quantize.v ===== *)
(** * Quantize: scalar int8 vectors and their scores ([src/src/hnsw.rs])

    Quantisation, the portable and AVX2 integer dot products at their machine
    widths, and the score of two vectors in either representation. *)

From stdpp Require Import base list strings.
From Stdlib Require Import ZArith Lia.
From S2P Require Import Prelude Errors Floats FloatFacts Metric.

Inductive HnswVectorStorage : Type := StoreF32 | ScalarInt8.

#[global] Instance HnswVectorStorage_eq_dec : EqDecision HnswVectorStorage.
Proof. solve_decision. Defined.

(** [VectorRef]: components as [f32] bits, or codes as [i8] values. *)
Inductive VectorRef : Type :=
| VF32 (vector : list Z)
| VInt8 (codes : list Z) (scale squared_norm : Z).

(** ** Integer dot products *)

Definition add64 (a b : Z) : Z := wrap_i 64 (a + b).
Definition add32 (a b : Z) : Z := wrap_i 32 (a + b).
Definition sum64 (l : list Z) : Z := fold_left add64 l 0.

Definition lanes64 (sums : Z * Z * Z * Z) (chunk : (Z * Z * Z * Z) * (Z * Z * Z * Z)) : Z * Z * Z * Z :=
  let '(s0, s1, s2, s3) := sums in
  let '((l0, l1, l2, l3), (r0, r1, r2, r3)) := chunk in
  (add64 s0 (l0 * r0), add64 s1 (l1 * r1), add64 s2 (l2 * r2), add64 s3 (l3 * r3)).

Definition quantized_integer_dot_portable (left right : list Z) : Z :=
  let '(left_chunks, left_rem) := chunks4 left in
  let '(right_chunks, right_rem) := chunks4 right in
  let '(s0, s1, s2, s3) := fold_left lanes64 (zip left_chunks right_chunks) (0, 0, 0, 0) in
  let tail := sum64 (zip_with Z.mul left_rem right_rem) in
  add64 (sum64 [s0; s1; s2; s3]) tail.

(** [_mm256_madd_epi16] on sixteen sign-extended words: adjacent products
    added into eight 32-bit lanes. *)
Fixpoint madd (left right : list Z) : list Z :=
  match left, right with
  | l0 :: l1 :: left', r0 :: r1 :: right' => wrap_i 32 (l0 * r0 + l1 * r1) :: madd left' right'
  | _, _ => []
  end.

(** [_mm_loadu_si128] at an offset. *)
Definition load16 (l : list Z) (offset : nat) : list Z := firstn 16 (skipn offset l).

Definition quantized_integer_dot_avx2 (left right : list Z) : Z :=
  let blocks := (length left / 16)%nat in
  let vectorized := (blocks * 16)%nat in
  let lanes := fold_left (fun sums block => zip_with add32 sums
                 (madd (load16 left (block * 16)) (load16 right (block * 16)))) (seq 0 blocks) (repeat 0 8) in
  add64 (sum64 lanes) (quantized_integer_dot_portable (skipn vectorized left) (skipn vectorized right)).

(** [avx2] is the runtime feature test. *)
Definition quantized_integer_dot (avx2 : bool) (left right : list Z) : Z :=
  if Z.leb (zlen left) 65536 && avx2 then quantized_integer_dot_avx2 left right
  else quantized_integer_dot_portable left right.

Section Scores.
Context `{FloatEnv} (avx2 : bool).

Definition quantized_dot (left : list Z) (left_scale : Z) (right : list Z) (right_scale : Z) : Z :=
  fmul fmt32 (fmul fmt32 (of_int fmt32 (quantized_integer_dot avx2 left right)) left_scale) right_scale.

Definition quantized_squared_norm (codes : list Z) (scale : Z) : Z := quantized_dot codes scale codes scale.

(** From the mapped bytes, without the dot product's lanes. *)
Definition quantized_squared_norm_bytes (codes : list byte) (scale : Z) : Z :=
  let sum := fold_left (fun sum code => let code := wrap_i 8 (u8 code) in add64 sum (code * code)) codes 0 in
  fmul fmt32 (fmul fmt32 (of_int fmt32 sum) scale) scale.

Definition max_abs (vector : list Z) : Z := fold_left (fun maximum value => fmax fmt32 maximum (fabs fmt32 value)) vector 0.
Definition quant_scale (vector : list Z) : Z :=
  if fgtb fmt32 (max_abs vector) 0 then fdiv fmt32 (max_abs vector) (of_int fmt32 127) else f32_one.
Definition quant_code (scale value : Z) : Z :=
  to_int fmt32 8 (fclamp fmt32 (of_int fmt32 (-127)) (of_int fmt32 127) (fround fmt32 (fdiv fmt32 value scale))).

(** [QuantizedVector::new]. *)
Definition quantize (vector : list Z) : VectorRef :=
  let scale := quant_scale vector in
  let codes := map (quant_code scale) vector in
  VInt8 codes scale (quantized_squared_norm codes scale).

(** [PreparedVector::new]. *)
Definition prepared_vector (vector : list Z) (storage : HnswVectorStorage) : VectorRef :=
  match storage with StoreF32 => VF32 vector | ScalarInt8 => quantize vector end.

Definition score_vectors (metric : Metric) (left right : VectorRef) : Result Z :=
  match left, right with
  | VF32 l, VF32 r => Ok (Metric.score metric l r)
  | VInt8 l left_scale left_norm, VInt8 r right_scale right_norm =>
      let dot := quantized_dot l left_scale r right_scale in
      match metric with
      | Cosine =>
          let denominator := fsqrt fmt32 (fmul fmt32 left_norm right_norm) in
          Ok (if fgtb fmt32 denominator 0 then fdiv fmt32 dot denominator else 0)
      | DotProduct => Ok dot
      | Euclidean =>
          let distance := fsub fmt32 (fadd fmt32 left_norm right_norm) (fmul fmt32 (of_int fmt32 2) dot) in
          Ok (fneg fmt32 (fmax fmt32 distance 0))
      end
  | _, _ => Panic
  end.
End Scores.

(** ** The dot products agree *)

Definition code_ok (c : Z) : Prop := in_i 8 c.
#[global] Instance code_ok_dec c : Decision (code_ok c).
Proof. unfold code_ok. apply _. Defined.
Definition codes_ok (l : list Z) : Prop := Forall code_ok l.
#[global] Instance codes_ok_dec l : Decision (codes_ok l).
Proof. unfold codes_ok. apply _. Defined.

(** The mathematical dot product. *)
Definition idot (left right : list Z) : Z := foldr Z.add 0 (zip_with Z.mul left right).

Lemma wrap_i_small w z : 0 < w -> in_i w z -> wrap_i w z = z.
Proof.
  intros Hw Hz. rewrite <- (wrap_i_id w z Hw Hz) at 2. unfold wrap_i, wrap_u. by rewrite Z.mod_mod by lia.
Qed.

Lemma add64_small a b : in_i 64 (a + b) -> add64 a b = a + b.
Proof. by apply wrap_i_small. Qed.

Lemma product_bound a b : code_ok a -> code_ok b -> Z.abs (a * b) <= 16384.
Proof.
  unfold code_ok, in_i. change (2 ^ (8 - 1)) with 128. intros Ha Hb. rewrite Z.abs_mul.
  change 16384 with (128 * 128). apply Z.mul_le_mono_nonneg; lia.
Qed.

Lemma idot_nil_r l : idot l [] = 0.
Proof. by destruct l. Qed.

Lemma idot_cons a l b r : idot (a :: l) (b :: r) = a * b + idot l r.
Proof. done. Qed.

Lemma idot_bound l r : codes_ok l -> codes_ok r -> Z.abs (idot l r) <= 16384 * zlen l.
Proof.
  intros Hl. revert r. induction Hl as [|a l Ha Hl IH]; intros r Hr; [unfold zlen; cbn; lia|].
  pose proof (zlen_nonneg l). rewrite zlen_cons.
  destruct Hr as [|b r Hb Hr]; [rewrite idot_nil_r; lia|]. rewrite idot_cons.
  pose proof (product_bound a b Ha Hb). specialize (IH r Hr). lia.
Qed.

Lemma idot_app l1 l2 r1 r2 : length l1 = length r1 -> idot (l1 ++ l2) (r1 ++ r2) = idot l1 r1 + idot l2 r2.
Proof.
  revert r1. induction l1 as [|a l1 IH]; intros [|b r1] H; try done. cbn [app].
  rewrite !idot_cons, IH by (cbn in H; congruence). lia.
Qed.

Lemma idot_comm l r : idot l r = idot r l.
Proof.
  revert r. induction l as [|a l IH]; intros [|b r]; try done. rewrite !idot_cons, IH. lia.
Qed.

Lemma chunks4_spec {A} (l : list A) :
  let '(q, r) := chunks4 l in
  l = concat (map (fun '(a, b, c, d) => [a; b; c; d]) q) ++ r /\ (length r < 4)%nat /\
  length q = (length l / 4)%nat.
Proof.
  assert (forall n, (length l <= n)%nat -> let '(q, r) := chunks4 l in
    l = concat (map (fun '(a, b, c, d) => [a; b; c; d]) q) ++ r /\ (length r < 4)%nat /\
    length q = (length l / 4)%nat) as H; [|by apply (H (length l))].
  intros n. revert l. induction n as [|n IH]; intros l Hl.
  { destruct l; [|cbn in Hl; lia]. cbn. split_and!; [done|lia|done]. }
  destruct l as [|a [|b [|c [|d l]]]]; try (cbn; split_and!; [done|lia|done]).
  cbn [chunks4]. specialize (IH l ltac:(cbn in Hl; lia)). destruct (chunks4 l) as [q r].
  destruct IH as (E & Hr & Hq). split_and!; [by rewrite E at 1|done|]. cbn [length]. rewrite Hq.
  replace (S (S (S (S (length l))))) with (length l + 1 * 4)%nat by lia. rewrite Nat.div_add by lia. lia.
Qed.

Lemma sum64_small l b :
  (forall n, Z.abs (foldr Z.add 0 (firstn n l)) <= b) -> b < 2 ^ 63 -> sum64 l = foldr Z.add 0 l.
Proof.
  unfold sum64. intros Hb H63.
  assert (forall l1 l2, l = l1 ++ l2 -> fold_left add64 l1 0 = foldr Z.add 0 l1) as H; [|exact (H l [] (eq_sym (app_nil_r l)))].
  intros l1. induction l1 as [|x l1 IH] using rev_ind; intros l2 ->; [done|].
  rewrite fold_left_app. cbn [fold_left]. rewrite (IH (x :: l2)) by (by rewrite <- app_assoc).
  assert (foldr Z.add 0 (l1 ++ [x]) = foldr Z.add 0 l1 + x) as E.
  { clear. induction l1 as [|y l1 IH]; cbn in *; lia. }
  rewrite E. apply add64_small. specialize (Hb (length (l1 ++ [x]))).
  rewrite firstn_app, firstn_all, Nat.sub_diag in Hb. cbn in Hb. rewrite app_nil_r, E in Hb.
  unfold in_i. change (64 - 1) with 63. lia.
Qed.

Definition flat4 (q : list (Z * Z * Z * Z)) : list Z := concat (map (fun '(a, b, c, d) => [a; b; c; d]) q).

Lemma length_flat4 q : length (flat4 q) = (4 * length q)%nat.
Proof.
  induction q as [|[[[a b] c] d] q IH]; [done|]. change (flat4 ((a, b, c, d) :: q)) with ([a; b; c; d] ++ flat4 q).
  rewrite length_app, IH. cbn. lia.
Qed.

Lemma codes_ok_app l1 l2 : codes_ok (l1 ++ l2) <-> codes_ok l1 /\ codes_ok l2.
Proof. apply Forall_app. Qed.

Lemma add64_product s a b B :
  code_ok a -> code_ok b -> Z.abs s <= B -> B + 16384 < 2 ^ 63 ->
  add64 s (a * b) = s + a * b /\ Z.abs (s + a * b) <= B + 16384.
Proof.
  intros Ha Hb Hs HB. pose proof (product_bound a b Ha Hb). split; [|lia].
  apply add64_small. unfold in_i. change (64 - 1) with 63. lia.
Qed.

Lemma lanes64_fold ql qr s0 s1 s2 s3 B :
  length ql = length qr -> codes_ok (flat4 ql) -> codes_ok (flat4 qr) ->
  Z.abs s0 <= B -> Z.abs s1 <= B -> Z.abs s2 <= B -> Z.abs s3 <= B ->
  B + 16384 * zlen ql < 2 ^ 63 ->
  exists t0 t1 t2 t3, fold_left lanes64 (zip ql qr) (s0, s1, s2, s3) = (t0, t1, t2, t3) /\
    t0 + t1 + t2 + t3 = s0 + s1 + s2 + s3 + idot (flat4 ql) (flat4 qr) /\
    let C := B + 16384 * zlen ql in Z.abs t0 <= C /\ Z.abs t1 <= C /\ Z.abs t2 <= C /\ Z.abs t3 <= C.
Proof.
  revert qr s0 s1 s2 s3 B. induction ql as [|[[[a0 a1] a2] a3] ql IH]; intros qr s0 s1 s2 s3 B Hlen Hl Hr H0 H1 H2 H3 HB.
  { destruct qr; [|done]. exists s0, s1, s2, s3. unfold zlen. cbn. split_and!; lia || done. }
  destruct qr as [|[[[b0 b1] b2] b3] qr]; [done|].
  change (flat4 ((a0, a1, a2, a3) :: ql)) with ([a0; a1; a2; a3] ++ flat4 ql) in *.
  change (flat4 ((b0, b1, b2, b3) :: qr)) with ([b0; b1; b2; b3] ++ flat4 qr) in *.
  apply codes_ok_app in Hl as [Ha Hl]. apply codes_ok_app in Hr as [Hb Hr].
  repeat (apply Forall_cons in Ha as [? Ha]). repeat (apply Forall_cons in Hb as [? Hb]).
  rewrite zlen_cons in *. pose proof (zlen_nonneg ql).
  change (zip ((a0, a1, a2, a3) :: ql) ((b0, b1, b2, b3) :: qr)) with (((a0, a1, a2, a3), (b0, b1, b2, b3)) :: zip ql qr).
  cbn [fold_left lanes64].
  destruct (add64_product s0 a0 b0 B) as [-> ?]; [done|done|done|lia|].
  destruct (add64_product s1 a1 b1 B) as [-> ?]; [done|done|done|lia|].
  destruct (add64_product s2 a2 b2 B) as [-> ?]; [done|done|done|lia|].
  destruct (add64_product s3 a3 b3 B) as [-> ?]; [done|done|done|lia|].
  destruct (IH qr (s0 + a0 * b0) (s1 + a1 * b1) (s2 + a2 * b2) (s3 + a3 * b3) (B + 16384))
    as (t0 & t1 & t2 & t3 & E & Es & Ht); try done; try lia; [by injection Hlen|].
  exists t0, t1, t2, t3. split; [done|]. rewrite idot_app by done. rewrite !idot_cons. change (idot [] []) with 0.
  cbv zeta in *. split; [lia|]. replace (B + 16384 * (1 + zlen ql)) with (B + 16384 + 16384 * zlen ql) by lia. done.
Qed.

Lemma sum64_4 a b c d B :
  Z.abs a <= B -> Z.abs b <= B -> Z.abs c <= B -> Z.abs d <= B -> 4 * B < 2 ^ 63 -> sum64 [a; b; c; d] = a + b + c + d.
Proof.
  intros. rewrite (sum64_small _ (4 * B)); [cbn; lia| |done].
  intros n. do 4 (destruct n as [|n]; [cbn; lia|]). cbn. rewrite firstn_nil. cbn. lia.
Qed.

Lemma firstn_zip_with {A B C} (f : A -> B -> C) n l r : firstn n (zip_with f l r) = zip_with f (firstn n l) (firstn n r).
Proof. revert l r. induction n as [|n IH]; intros [|a l] [|b r]; cbn; try done. by rewrite IH. Qed.

Lemma codes_ok_firstn n l : codes_ok l -> codes_ok (firstn n l).
Proof. intros H. rewrite <- (firstn_skipn n l) in H. by apply codes_ok_app in H as [? ?]. Qed.

Lemma codes_ok_skipn n l : codes_ok l -> codes_ok (skipn n l).
Proof. intros H. rewrite <- (firstn_skipn n l) in H. by apply codes_ok_app in H as [? ?]. Qed.

Lemma sum64_products l r :
  codes_ok l -> codes_ok r -> 16384 * zlen l < 2 ^ 63 -> sum64 (zip_with Z.mul l r) = idot l r.
Proof.
  intros Hl Hr HB. apply (sum64_small _ (16384 * zlen l)); [|done]. intros n. rewrite firstn_zip_with.
  change (foldr Z.add 0 (zip_with Z.mul ?x ?y)) with (idot x y).
  pose proof (idot_bound (firstn n l) (firstn n r) (codes_ok_firstn n l Hl) (codes_ok_firstn n r Hr)).
  unfold zlen in *. rewrite firstn_length in *. lia.
Qed.

Lemma portable_idot l r :
  length l = length r -> codes_ok l -> codes_ok r -> zlen l <= 2 ^ 40 ->
  quantized_integer_dot_portable l r = idot l r.
Proof.
  intros Hlen Hl Hr HB. change (2 ^ 40) with 1099511627776 in HB.
  unfold quantized_integer_dot_portable. pose proof (chunks4_spec l) as Hcl. pose proof (chunks4_spec r) as Hcr.
  destruct (chunks4 l) as [ql rl]. destruct (chunks4 r) as [qr rr].
  destruct Hcl as (El & Hrl & Hql). destruct Hcr as (Er & Hrr & Hqr). fold (flat4 ql) in El. fold (flat4 qr) in Er.
  rewrite <- Hlen, <- Hql in Hqr. pose proof (zlen_nonneg ql).
  assert (zlen ql <= zlen l) as Hzq.
  { unfold zlen. rewrite Hql. pose proof (Nat.div_le_upper_bound (length l) 4 (length l)). lia. }
  assert (codes_ok (flat4 ql) /\ codes_ok rl) as [Hfl Hrl'] by (by rewrite <- codes_ok_app, <- El).
  assert (codes_ok (flat4 qr) /\ codes_ok rr) as [Hfr Hrr'] by (by rewrite <- codes_ok_app, <- Er).
  destruct (lanes64_fold ql qr 0 0 0 0 0) as (t0 & t1 & t2 & t3 & -> & Es & Ht0 & Ht1 & Ht2 & Ht3); try done; try lia.
  change (2 ^ 63) with 9223372036854775808 in *.
  rewrite (sum64_4 _ _ _ _ _ Ht0 Ht1 Ht2 Ht3) by (change (2 ^ 63) with 9223372036854775808; lia).
  assert (zlen rl < 4) by (unfold zlen; lia).
  rewrite sum64_products; [|done|done|change (2 ^ 63) with 9223372036854775808; lia].
  assert (length (flat4 ql) = length (flat4 qr)) as Hf.
  { rewrite !length_flat4. lia. }
  assert (idot l r = t0 + t1 + t2 + t3 + idot rl rr) as E by (rewrite El, Er, idot_app by done; lia).
  rewrite E. apply add64_small. rewrite <- E. pose proof (idot_bound l r Hl Hr).
  unfold in_i. change (2 ^ (64 - 1)) with 9223372036854775808. lia.
Qed.

(** ** The vector unit's lanes do not overflow *)

Lemma wrap32_small z : Z.abs z < 2 ^ 31 -> wrap_i 32 z = z.
Proof. intros. apply wrap_i_small; [lia|]. unfold in_i. change (32 - 1) with 31. lia. Qed.

Definition total (l : list Z) : Z := foldr Z.add 0 l.
Definition bounded (b : Z) (l : list Z) : Prop := Forall (fun x => Z.abs x <= b) l.

Lemma madd_spec n l r :
  length l = (2 * n)%nat -> length r = (2 * n)%nat -> codes_ok l -> codes_ok r ->
  length (madd l r) = n /\ bounded 32768 (madd l r) /\ total (madd l r) = idot l r.
Proof.
  revert l r. induction n as [|n IH]; intros l r Hl Hr Cl Cr.
  - destruct l; [|done]. split_and!; [done|constructor|done].
  - destruct l as [|l0 [|l1 l]]; [done|cbn in Hl; lia|]. destruct r as [|r0 [|r1 r]]; [done|cbn in Hr; lia|].
    apply Forall_cons in Cl as [C0 Cl]. apply Forall_cons in Cl as [C1 Cl].
    apply Forall_cons in Cr as [D0 Cr]. apply Forall_cons in Cr as [D1 Cr].
    destruct (IH l r) as (IH1 & IH2 & IH3); [cbn in Hl; lia|cbn in Hr; lia|done|done|].
    pose proof (product_bound l0 r0 C0 D0). pose proof (product_bound l1 r1 C1 D1).
    cbn [madd]. rewrite wrap32_small by (change (2 ^ 31) with 2147483648; lia). split_and!.
    + cbn. by rewrite IH1.
    + constructor; [lia|done].
    + rewrite !idot_cons, <- IH3. unfold total. cbn. lia.
Qed.

Lemma add32_lanes b c l r :
  length l = length r -> bounded b l -> bounded c r -> b + c < 2 ^ 31 ->
  length (zip_with add32 l r) = length l /\ bounded (b + c) (zip_with add32 l r) /\
  total (zip_with add32 l r) = total l + total r.
Proof.
  intros Hlen Hl. revert r Hlen. induction Hl as [|x l Hx _ IH]; intros r Hlen Hr Hbc.
  { destruct r; [|done]. split_and!; [done|constructor|done]. }
  destruct r as [|y r]; [done|]. apply Forall_cons in Hr as [Hy Hr].
  destruct (IH r) as (IH1 & IH2 & IH3); [cbn in Hlen; lia|done|done|].
  assert (add32 x y = x + y) as E by (apply wrap32_small; lia). cbn [zip_with]. rewrite E. split_and!.
  - cbn. by rewrite IH1.
  - constructor; [lia|done].
  - unfold total in *. cbn. lia.
Qed.

Lemma load16_spec l i : ((i + 1) * 16 <= length l)%nat -> length (load16 l (i * 16)) = 16%nat.
Proof. intros H. unfold load16. rewrite firstn_length, skipn_length. lia. Qed.

Lemma load16_app l i : firstn ((i + 1) * 16) l = firstn (i * 16) l ++ load16 l (i * 16).
Proof.
  unfold load16. replace ((i + 1) * 16)%nat with (i * 16 + 16)%nat by lia. generalize (i * 16)%nat as n.
  intros n. revert l. induction n as [|n IH]; intros l; [done|]. destruct l as [|x l]; [done|]. cbn. by rewrite IH.
Qed.

Lemma avx2_lanes l r n :
  length l = length r -> codes_ok l -> codes_ok r -> (n * 16 <= length l)%nat -> Z.of_nat n <= 4096 ->
  let lanes := fold_left (fun sums block => zip_with add32 sums
                 (madd (load16 l (block * 16)) (load16 r (block * 16)))) (seq 0 n) (repeat 0 8) in
  length lanes = 8%nat /\ bounded (32768 * Z.of_nat n) lanes /\
  total lanes = idot (firstn (n * 16) l) (firstn (n * 16) r).
Proof.
  intros Hlen Hl Hr. induction n as [|n IH]; intros Hn H4; cbv zeta in *.
  - split_and!; [done|repeat constructor; cbn; lia|done].
  - rewrite seq_S, fold_left_app. cbn [fold_left]. rewrite Nat.add_0_l.
    destruct IH as (IH1 & IH2 & IH3); [lia|lia|].
    assert (length (load16 l (n * 16)) = 16%nat) as Ll by (apply load16_spec; lia).
    assert (length (load16 r (n * 16)) = 16%nat) as Lr by (apply load16_spec; lia).
    destruct (madd_spec 8 (load16 l (n * 16)) (load16 r (n * 16))) as (M1 & M2 & M3);
      [done|done|by apply codes_ok_firstn, codes_ok_skipn|by apply codes_ok_firstn, codes_ok_skipn|].
    destruct (add32_lanes _ _ _ _ (eq_trans IH1 (eq_sym M1)) IH2 M2) as (A1 & A2 & A3).
    { change (2 ^ 31) with 2147483648. lia. }
    split_and!; [by rewrite A1| |].
    + replace (32768 * Z.of_nat (S n)) with (32768 * Z.of_nat n + 32768) by lia. done.
    + rewrite A3, IH3, M3. replace (S n * 16)%nat with ((n + 1) * 16)%nat by lia.
      rewrite !load16_app, idot_app; [done|]. by rewrite !firstn_length, Hlen.
Qed.

Lemma avx2_idot l r :
  length l = length r -> codes_ok l -> codes_ok r -> zlen l <= 65536 ->
  quantized_integer_dot_avx2 l r = idot l r.
Proof.
  intros Hlen Hl Hr HB. unfold quantized_integer_dot_avx2.
  assert (Z.of_nat (length l) <= 65536) as HN by done.
  set (n := (length l / 16)%nat).
  assert (n * 16 <= length l)%nat as Hn by (subst n; clear -HN; pose proof (Nat.div_mod_eq (length l) 16); lia).
  assert (Z.of_nat n <= 4096) as Hk by lia.
  destruct (avx2_lanes l r n Hlen Hl Hr Hn Hk) as (L1 & L2 & L3). cbv zeta in *.
  set (lanes := fold_left _ _ _) in *.
  rewrite portable_idot; [|by rewrite !skipn_length, Hlen|by apply codes_ok_skipn|by apply codes_ok_skipn|].
  2: { unfold zlen in *. rewrite skipn_length. change (2 ^ 40) with 1099511627776. lia. }
  assert (sum64 lanes = total lanes) as ->.
  { apply (sum64_small _ (8 * (32768 * Z.of_nat n))); [|change (2 ^ 63) with 9223372036854775808; lia].
    intros k. assert (forall m, bounded (32768 * Z.of_nat n) m -> (length m <= 8)%nat ->
      Z.abs (foldr Z.add 0 m) <= Z.of_nat (length m) * (32768 * Z.of_nat n)) as Hm.
    { generalize (32768 * Z.of_nat n) as b. clear. intros b. induction m as [|x m IH]; intros Hb Hk; cbn [foldr length] in *; [lia|].
      apply Forall_cons in Hb as [Hx Hb]. specialize (IH Hb ltac:(lia)). rewrite Nat2Z.inj_succ, Z.mul_succ_l. lia. }
    assert (length (firstn k lanes) <= 8)%nat as Hk8 by (rewrite firstn_length; lia).
    etransitivity; [apply Hm; [by apply Forall_take|done]|]. apply Z.mul_le_mono_nonneg_r; lia. }
  assert (idot (firstn (n * 16) l) (firstn (n * 16) r) + idot (skipn (n * 16) l) (skipn (n * 16) r) = idot l r) as E.
  { rewrite <- idot_app by (rewrite !firstn_length; lia). by rewrite !firstn_skipn. }
  rewrite L3. unfold add64. rewrite E. apply wrap_i_small; [lia|]. pose proof (idot_bound l r Hl Hr).
  unfold in_i. change (2 ^ (64 - 1)) with 9223372036854775808. lia.
Qed.

(** C36 (simd_dot_exact). For [i8] vectors of equal length up to 2^40, the
    integer dot product is the mathematical one whether or not the AVX2 path
    runs: neither the 64-bit nor the 32-bit vector lanes overflow. *)
Theorem simd_dot_exact avx2 l r :
  length l = length r -> codes_ok l -> codes_ok r -> zlen l <= 2 ^ 40 ->
  quantized_integer_dot avx2 l r = idot l r.
Proof.
  intros Hlen Hl Hr HB. unfold quantized_integer_dot.
  destruct (Z.leb_spec (zlen l) 65536); [|by apply portable_idot]. cbn [andb].
  destruct avx2; [by apply avx2_idot|by apply portable_idot].
Qed.

Lemma simd_dot_exact_witness :
  quantized_integer_dot true (repeat (-128) 50) (repeat (-128) 50) = 819200.
Proof.
  rewrite simd_dot_exact.
  - vm_compute. reflexivity.
  - reflexivity.
  - apply (bool_decide_unpack _). vm_compute. exact I.
  - apply (bool_decide_unpack _). vm_compute. exact I.
  - vm_compute. intros [=].
Defined.
