(* ===== verification/Hnsw.v ===== *)
(** * Hnsw: the approximate-nearest-neighbour graph ([src/src/hnsw.rs])

    Every index into a vector is explicit and panics out of range, so that
    memory safety is a theorem and not an assumption.  Loops that are not
    structural take fuel and panic without it; HnswFacts shows the fuel given
    here always suffices. *)

From stdpp Require Import base gmap sets list strings.
From Stdlib Require Import ZArith Lia.
From S2P Require Import Prelude Errors Floats Ranking Metric Codec Quantize.

Definition MAX_LEVEL : Z := 32.
Definition PARALLEL_BUILD_SEED : nat := 4096.
Definition PARALLEL_BUILD_BATCH : nat := 512.
Definition MAX_POOLED_SEARCH_WORKSPACES : Z := 8.
Definition GRAPH_MAGIC : list byte := bytes_of_string "FVHG".
Definition GRAPH_VERSION : Z := 2.
Definition LEGACY_GRAPH_VERSION : Z := 1.

Record HnswConfig : Type := MkHnswConfig { m : Z; ef_construction : Z }.
Definition default_config : HnswConfig := MkHnswConfig 16 200.

Record HnswHit : Type := MkHnswHit { hit_id : string; hit_score : Z }.

Record Node : Type := MkNode { level : Z; range_start : Z; layers : list (list Z) }.
Record CompactGraph : Type := MkCompact { ranges : list (Z * Z); links : list Z }.

Record PreparedPoint : Type := MkPrepared { pp_id : string; pp_vector : VectorRef; pp_level : Z }.

Inductive VectorArena : Type :=
| ArenaF32 (components : list Z)
| ArenaInt8 (codes scales squared_norms : list Z)
| ArenaMapped (mapping : list byte) (offsets scales squared_norms : list Z).

Record HnswIndex : Type := MkIndex {
  graph_dimension : Z;
  graph_metric : Metric;
  graph_config : HnswConfig;
  nodes : list Node;
  ids : list string;
  vectors : VectorArena;
  entry_point : option Z;
  max_level : Z;
  compact_graph : option CompactGraph
}.

Record HeapItem : Type := MkItem { item_index : Z; item_score : Z }.
#[global] Instance HeapItem_eq_dec : EqDecision HeapItem.
Proof. solve_decision. Defined.

(** ** The vector arena *)

Definition arena_new (storage : HnswVectorStorage) : VectorArena :=
  match storage with StoreF32 => ArenaF32 [] | ScalarInt8 => ArenaInt8 [] [] [] end.

Definition arena_storage (self : VectorArena) : HnswVectorStorage :=
  match self with ArenaF32 _ => StoreF32 | _ => ScalarInt8 end.

Definition arena_push (self : VectorArena) (vector : VectorRef) : Result VectorArena :=
  match self, vector with
  | ArenaF32 arena, VF32 vector => Ok (ArenaF32 (arena ++ vector))
  | ArenaInt8 codes scales norms, VInt8 c s n => Ok (ArenaInt8 (codes ++ c) (scales ++ [s]) (norms ++ [n]))
  | _, _ => Panic
  end.

Definition push_mapped (self : VectorArena) (offset scale squared_norm : Z) : Result VectorArena :=
  match self with
  | ArenaMapped mapping offsets scales norms =>
      Ok (ArenaMapped mapping (offsets ++ [offset]) (scales ++ [scale]) (norms ++ [squared_norm]))
  | _ => Err (CorruptStorage "mapped vector was decoded into an owned arena")
  end.

Definition arena_get (self : VectorArena) (node dimension : Z) : Result VectorRef :=
  let start := node * dimension in
  match self with
  | ArenaF32 vectors => let? v := slice vectors start (start + dimension) in Ok (VF32 v)
  | ArenaInt8 codes scales norms =>
      let? c := slice codes start (start + dimension) in
      let? s := index scales node in
      let? n := index norms node in
      Ok (VInt8 c s n)
  | ArenaMapped mapping offsets scales norms =>
      let? start := index offsets node in
      let? b := slice mapping start (start + dimension) in
      let? s := index scales node in
      let? n := index norms node in
      Ok (VInt8 (map (fun x => wrap_i 8 (u8 x)) b) s n)
  end.

Definition component_bytes (self : VectorArena) : Z :=
  match self with
  | ArenaF32 vectors => zlen vectors * 4
  | ArenaInt8 codes scales norms => zlen codes + zlen scales * 4 + zlen norms * 4
  | ArenaMapped _ offsets scales norms => zlen offsets * 8 + zlen scales * 4 + zlen norms * 4
  end.

(** ** Levels and limits *)

Definition validate_config (dimension : Z) (config : HnswConfig) : Result unit :=
  if Z.eqb dimension 0 then Err (InvalidConfig "dimension must be greater than zero")
  else if Z.ltb (m config) 2 then Err (InvalidConfig "HNSW m must be at least 2")
  else if Z.ltb (ef_construction config) (m config)
  then Err (InvalidConfig "HNSW ef_construction must be at least m")
  else Ok tt.

Definition max_connections (config : HnswConfig) (layer : Z) : Z :=
  if Z.eqb layer 0 then saturating_mul (m config) 2 else m config.

Definition fnv1a (bytes : list byte) : Z :=
  fold_left (fun hash byte => wrap_u 64 (Z.lxor hash (u8 byte) * 0x100000001b3)) bytes 0xcbf29ce484222325.

(** [u64::rotate_left] *)
Definition rotate_left (x n : Z) : Z := Z.lor (wrap_u 64 (Z.shiftl x n)) (Z.shiftr x (64 - n)).

(** At most [MAX_LEVEL] turns. *)
Fixpoint level_loop (fuel : nat) (threshold hash level : Z) : Z :=
  match fuel with
  | O => level
  | S fuel' =>
      if Z.ltb hash threshold
      then level_loop fuel' threshold (wrap_u 64 (rotate_left hash 17 * 0x9e3779b97f4a7c15)) (level + 1)
      else level
  end.

Definition deterministic_level (id : string) (m : Z) : Z :=
  level_loop (Z.to_nat MAX_LEVEL) (Z.max (U64_MAX / m) 1) (fnv1a (bytes_of_string id)) 0.

(** ** Orders on candidates *)

(** [HeapItem]'s [Ord]: score, then the smaller index is the greater item. *)
Definition item_cmp : HeapItem -> HeapItem -> comparison :=
  then_with (cmp_on item_score (total_cmp fmt32)) (cmp_rev (cmp_on item_index Z.compare)).

(** [compare_scored]: score descending, then identifier. *)
Definition compare_scored : Z * string -> Z * string -> comparison :=
  then_with (cmp_rev (cmp_on fst (total_cmp fmt32))) (cmp_on snd str_cmp).

(** ** Visited marks *)

Record BuildWorkspace : Type := MkWorkspace { visited : list Z; generation : Z }.
Definition workspace_new : BuildWorkspace := MkWorkspace [] 0.

(** [Vec::resize(n, 0)] *)
Definition resize (l : list Z) (n : nat) : list Z := firstn n l ++ repeat 0 (n - length l).

Definition begin_ (self : BuildWorkspace) (node_count : nat) : BuildWorkspace :=
  let visited := resize (visited self) node_count in
  if Z.eqb (generation self) U32_MAX then MkWorkspace (map (fun _ => 0) visited) 1
  else MkWorkspace visited (generation self + 1).

Definition visit (self : BuildWorkspace) (node : Z) : Result (bool * BuildWorkspace) :=
  let? mark := index (visited self) node in
  if Z.eqb mark (generation self) then Ok (false, self)
  else Ok (true, MkWorkspace (<[Z.to_nat node := generation self]> (visited self)) (generation self)).

(** [v[i].f]: apply a function to one element, panicking out of range. *)
Definition modify {A : Type} (l : list A) (i : Z) (f : A -> Result A) : Result (list A) :=
  let? x := index l i in let? y := f x in Ok (<[Z.to_nat i := y]> l).

Section Graph.
Context `{FloatEnv} (avx2 : bool).

Definition vector (self : HnswIndex) (node : Z) : Result VectorRef :=
  arena_get (vectors self) node (graph_dimension self).

Definition score (self : HnswIndex) (query : VectorRef) (node : Z) : Result Z :=
  let? v := vector self node in score_vectors avx2 (graph_metric self) query v.

Definition neighbors (self : HnswIndex) (node layer : Z) : Result (list Z) :=
  let? n := index (nodes self) node in
  if Z.ltb (level n) layer then Ok []
  else match compact_graph self with
  | Some graph =>
      let? range := index (ranges graph) (range_start n + layer) in
      slice (links graph) range.1 range.2
  | None => Ok (default [] (layers n !! Z.to_nat layer))
  end.

Definition node_key (self : HnswIndex) (score node : Z) : Result (Z * string) :=
  let? id := index (ids self) node in Ok (score, id).

(** ** Greedy descent *)

Definition greedy_step (self : HnswIndex) (query : VectorRef) (best : Z * Z) (neighbor : Z) : Result (Z * Z) :=
  let? s := score self query neighbor in
  let? lk := node_key self s neighbor in
  let? rk := node_key self best.2 best.1 in
  match compare_scored lk rk with Lt => Ok (neighbor, s) | _ => Ok best end.

Fixpoint greedy_loop (fuel : nat) (self : HnswIndex) (query : VectorRef) (current layer : Z) : Result Z :=
  match fuel with
  | O => Panic
  | S fuel' =>
      let? s := score self query current in
      let? ns := neighbors self current layer in
      let? best := foldM_result (greedy_step self query) (current, s) ns in
      if Z.eqb best.1 current then Ok current else greedy_loop fuel' self query best.1 layer
  end.

Definition greedy_closest (self : HnswIndex) (query : VectorRef) (start layer : Z) : Result Z :=
  greedy_loop (S (length (nodes self))) self query start layer.

(** ** Best-first search in a layer *)

Definition frontier_push : HeapItem -> list HeapItem -> list HeapItem := heap_push item_cmp.
Definition results_push : HeapItem -> list HeapItem -> list HeapItem := heap_push (cmp_rev item_cmp).

Record SearchState : Type := MkSearch {
  frontier : list HeapItem; results : list HeapItem; workspace : BuildWorkspace
}.

(** [heap.peek().expect("results are non-empty")] *)
Definition expect_peek (heap : list HeapItem) : Result HeapItem :=
  match heap_peek heap with Some x => Ok x | None => Panic end.

(** Keep a candidate when there is room or it beats the worst result. *)
Definition offer (ef : Z) (item : HeapItem) (st : SearchState) (ws : BuildWorkspace) : Result SearchState :=
  let? qualifies :=
    (if Z.ltb (zlen (results st)) ef then Ok true
     else let? worst := expect_peek (results st) in
          Ok (match item_cmp item worst with Gt => true | _ => false end)) in
  if qualifies : bool then
    let rs := results_push item (results st) in
    Ok (MkSearch (frontier_push item (frontier st))
                 (if Z.ltb ef (zlen rs) then heap_pop rs else rs) ws)
  else Ok (MkSearch (frontier st) (results st) ws).

Definition search_neighbor (self : HnswIndex) (query : VectorRef) (ef : Z) (st : SearchState) (neighbor : Z)
    : Result SearchState :=
  let? (fresh, ws) := visit (workspace st) neighbor in
  if negb fresh then Ok (MkSearch (frontier st) (results st) ws)
  else
    let? s := score self query neighbor in
    offer ef (MkItem neighbor s) st ws.

Fixpoint search_loop (fuel : nat) (self : HnswIndex) (query : VectorRef) (ef layer : Z) (st : SearchState)
    : Result SearchState :=
  match fuel with
  | O => Panic
  | S fuel' =>
      match heap_peek (frontier st) with
      | None => Ok st
      | Some candidate =>
          let st := MkSearch (heap_pop (frontier st)) (results st) (workspace st) in
          let? worst := expect_peek (results st) in
          if Z.leb ef (zlen (results st)) && bool_decide (item_cmp candidate worst = Lt) then Ok st
          else
            let? ns := neighbors self (item_index candidate) layer in
            let? st := foldM_result (search_neighbor self query ef) st ns in
            search_loop fuel' self query ef layer st
      end
  end.

(** A comparison sort looks identifiers up only when there is something to
    compare. *)
Definition sort_items (self : HnswIndex) (items : list HeapItem) : Result (list HeapItem) :=
  if Z.leb (zlen items) 1 then Ok items
  else
    let? keyed := mapM_result (fun item => let? key := node_key self (item_score item) (item_index item) in
                                          Ok (key, item)) items in
    Ok (map snd (sort_by (cmp_on fst compare_scored) keyed)).

(** [search_layer], and [search_layer_for_build], whose body is the same. *)
Definition search_layer (self : HnswIndex) (query : VectorRef) (entry ef layer : Z) (ws : BuildWorkspace)
    : Result (list HeapItem * BuildWorkspace) :=
  let ws := begin_ ws (length (nodes self)) in
  let? s := score self query entry in
  let item := MkItem entry s in
  let? (_, ws) := visit ws entry in
  let? st := search_loop (S (length (nodes self))) self query ef layer (MkSearch [item] [item] ws) in
  let? sorted := sort_items self (results st) in
  Ok (sorted, workspace st).

(** ** Neighbour selection *)

Fixpoint is_diverse (self : HnswIndex) (candidate : HeapItem) (selected : list HeapItem) : Result bool :=
  match selected with
  | [] => Ok true
  | other :: selected' =>
      let? a := vector self (item_index candidate) in
      let? b := vector self (item_index other) in
      let? s := score_vectors avx2 (graph_metric self) a b in
      if fltb fmt32 s (item_score candidate) then is_diverse self candidate selected' else Ok false
  end.

Fixpoint select_loop (self : HnswIndex) (limit : Z) (candidates selected rejected : list HeapItem)
    : Result (list HeapItem * list HeapItem) :=
  match candidates with
  | [] => Ok (selected, rejected)
  | candidate :: candidates' =>
      if Z.eqb (zlen selected) limit then Ok (selected, rejected)
      else
        let? diverse := is_diverse self candidate selected in
        if diverse : bool then select_loop self limit candidates' (selected ++ [candidate]) rejected
        else select_loop self limit candidates' selected (rejected ++ [candidate])
  end.

Definition select_neighbors (self : HnswIndex) (candidates : list HeapItem) (limit : Z) : Result (list HeapItem) :=
  let? (selected, rejected) := select_loop self limit candidates [] [] in
  Ok (selected ++ truncate (limit - zlen selected) rejected).

(** ** Insertion *)

Definition with_nodes (self : HnswIndex) (ns : list Node) : HnswIndex :=
  MkIndex (graph_dimension self) (graph_metric self) (graph_config self) ns (ids self) (vectors self)
    (entry_point self) (max_level self) (compact_graph self).
Definition with_entry (self : HnswIndex) (entry : Z) (top : Z) : HnswIndex :=
  MkIndex (graph_dimension self) (graph_metric self) (graph_config self) (nodes self) (ids self) (vectors self)
    (Some entry) top (compact_graph self).

Definition get_layer (self : HnswIndex) (node layer : Z) : Result (list Z) :=
  let? n := index (nodes self) node in index (layers n) layer.

(** [self.nodes[node].neighbors[layer] = f(...)] *)
Definition update_layer (self : HnswIndex) (node layer : Z) (f : list Z -> list Z) : Result HnswIndex :=
  let? ns := modify (nodes self) node (fun n =>
    let? ls := modify (layers n) layer (fun l => Ok (f l)) in
    Ok (MkNode (level n) (range_start n) ls)) in
  Ok (with_nodes self ns).

Definition prune (self : HnswIndex) (node layer : Z) : Result HnswIndex :=
  let limit := max_connections (graph_config self) layer in
  let? l := get_layer self node layer in
  if Z.leb (zlen l) limit then Ok self
  else
    let? candidates := mapM_result (fun i =>
      let? a := vector self node in
      let? b := vector self i in
      let? s := score_vectors avx2 (graph_metric self) a b in
      Ok (MkItem i s)) l in
    let? candidates := sort_items self candidates in
    let? selected := select_neighbors self candidates limit in
    update_layer self node layer (fun _ => map item_index selected).

Definition link_back (new_index layer : Z) (self : HnswIndex) (neighbor : HeapItem) : Result HnswIndex :=
  let? self := update_layer self (item_index neighbor) layer (fun l => l ++ [wrap_u 32 new_index]) in
  let? l := get_layer self (item_index neighbor) layer in
  if Z.leb (saturating_mul (max_connections (graph_config self) layer) 2) (zlen l)
  then prune self (item_index neighbor) layer else Ok self.

Definition connect_layer (new_index : Z) (self : HnswIndex) (plan : Z * list HeapItem) : Result HnswIndex :=
  let '(layer, selected) := plan in
  let? self := update_layer self new_index layer (fun l => l ++ map (fun item => wrap_u 32 (item_index item)) selected) in
  foldM_result (link_back new_index layer) self selected.

(** [iter.enumerate()] *)
Definition enumerate {A : Type} (l : list A) : list (Z * A) := imap (fun i x => (Z.of_nat i, x)) l.

Definition apply_insertion (self : HnswIndex) (point : PreparedPoint) (plan : list (list HeapItem)) : Result HnswIndex :=
  let level := pp_level point in
  let new_index := zlen (nodes self) in
  let? vs := arena_push (vectors self) (pp_vector point) in
  let self := MkIndex (graph_dimension self) (graph_metric self) (graph_config self)
    (nodes self ++ [MkNode (wrap_u 8 level) 0 (repeat [] (Z.to_nat (level + 1)))]) (ids self ++ [pp_id point]) vs
    (entry_point self) (max_level self) (compact_graph self) in
  match entry_point self with
  | None => Ok (with_entry self new_index level)
  | Some _ =>
      let? self := foldM_result (connect_layer new_index) self (enumerate plan) in
      Ok (if Z.ltb (max_level self) level then with_entry self new_index level else self)
  end.

(** Layers [top], [top - 1], ..., [0], each searched from the closest node the
    previous one selected. *)
Fixpoint plan_layers (self : HnswIndex) (query : VectorRef) (layers : list Z) (current : Z) (ws : BuildWorkspace)
    (acc : list (list HeapItem)) : Result (list (list HeapItem) * BuildWorkspace) :=
  match layers with
  | [] => Ok (acc, ws)
  | layer :: layers' =>
      let? (candidates, ws) := search_layer self query current (ef_construction (graph_config self)) layer ws in
      let? selected := select_neighbors self candidates (max_connections (graph_config self) layer) in
      let current := match selected with closest :: _ => item_index closest | [] => current end in
      plan_layers self query layers' current ws (selected :: acc)
  end.

(** [(first..=last).rev()] *)
Definition descending (first last : Z) : list Z := rev (seqZ first (last - first + 1)).

Definition plan_insert (self : HnswIndex) (point : PreparedPoint) (ws : BuildWorkspace)
    : Result (list (list HeapItem) * BuildWorkspace) :=
  match entry_point self with
  | None => Panic
  | Some entry =>
      let level := pp_level point in
      let? current := foldM_result (greedy_closest self (pp_vector point)) entry
        (if Z.ltb level (max_level self) then descending (level + 1) (max_level self) else []) in
      let connected_levels := Z.min level (max_level self) in
      let? (planned, ws) := plan_layers self (pp_vector point) (descending 0 connected_levels) current ws [] in
      Ok (planned ++ repeat [] (Z.to_nat (level - connected_levels)), ws)
  end.

Definition insert_prepared (st : HnswIndex * BuildWorkspace) (point : PreparedPoint)
    : Result (HnswIndex * BuildWorkspace) :=
  let '(self, ws) := st in
  match entry_point self with
  | None =>
      let? self := apply_insertion self point (repeat [] (Z.to_nat (pp_level point + 1))) in Ok (self, ws)
  | Some _ =>
      let? (plan, ws) := plan_insert self point ws in
      let? self := apply_insertion self point plan in
      Ok (self, ws)
  end.

Definition compact_node (self : HnswIndex) (node : Z) : Result HnswIndex :=
  let? n := index (nodes self) node in
  foldM_result (fun self layer => prune self node layer) self (seqZ 0 (zlen (layers n))).

Definition compact_neighbors (self : HnswIndex) : Result HnswIndex :=
  foldM_result compact_node self (seqZ 0 (zlen (nodes self))).

(** ** The compact representation *)

Definition overflow {A : Type} (message : string) (r : option A) : Result A := ok_or r (ResourceExhausted message).

Definition count_ranges (ns : list Node) : option Z :=
  fold_left (fun count n => count ≫= fun c => checked_add USIZE_MAX c (zlen (layers n))) ns (Some 0).
Definition count_links (ns : list Node) : option Z :=
  fold_left (fun count n => fold_left (fun count l => count ≫= fun c => checked_add USIZE_MAX c (zlen l)) (layers n) count)
    ns (Some 0).

Definition compact_layer (g : CompactGraph) (layer : list Z) : CompactGraph :=
  let start := wrap_u 32 (zlen (links g)) in
  let ls := links g ++ layer in
  MkCompact (ranges g ++ [(start, wrap_u 32 (zlen ls))]) ls.

Definition compact_step (st : list Node * CompactGraph) (n : Node) : list Node * CompactGraph :=
  let '(ns, g) := st in
  (ns ++ [MkNode (level n) (wrap_u 32 (zlen (ranges g))) []], fold_left compact_layer (layers n) g).

Definition finalize_compact_graph (self : HnswIndex) : Result HnswIndex :=
  match compact_graph self with
  | Some _ => Ok self
  | None =>
      let? range_count := overflow "HNSW layer count overflows memory" (count_ranges (nodes self)) in
      let? link_count := overflow "HNSW link count overflows memory" (count_links (nodes self)) in
      if Z.ltb U32_MAX range_count || Z.ltb U32_MAX link_count
      then Err (ResourceExhausted "HNSW compact graph exceeds u32 address space")
      else
        let '(ns, g) := fold_left compact_step (nodes self) ([], MkCompact [] []) in
        Ok (MkIndex (graph_dimension self) (graph_metric self) (graph_config self) ns (ids self) (vectors self)
              (entry_point self) (max_level self) (Some g))
  end.

(** ** Building *)

Definition index_new (dimension : Z) (metric : Metric) (config : HnswConfig) (storage : HnswVectorStorage) : HnswIndex :=
  MkIndex dimension metric config [] [] (arena_new storage) None 0 None.

(** [par_chunks(size)] *)
Fixpoint chunks {A : Type} (fuel size : nat) (l : list A) : list (list A) :=
  match fuel with
  | O => []
  | S fuel' => match l with [] => [] | _ => firstn size l :: chunks fuel' size (skipn size l) end
  end.

(** One worker plans its chunk in order, with its own workspace. *)
Fixpoint plan_chunk (self : HnswIndex) (points : list PreparedPoint) (ws : BuildWorkspace)
    : Result (list (list (list HeapItem)) * BuildWorkspace) :=
  match points with
  | [] => Ok ([], ws)
  | point :: points' =>
      let? (plan, ws) := plan_insert self point ws in
      let? (plans, ws) := plan_chunk self points' ws in
      Ok (plan :: plans, ws)
  end.

(** [batch.len().div_ceil(worker_count)]-sized chunks zipped with the workers. *)
Definition plan_batch (self : HnswIndex) (batch : list PreparedPoint) (workspaces : list BuildWorkspace)
    : Result (list (list (list HeapItem)) * list BuildWorkspace) :=
  let workers := length workspaces in
  let size := ((length batch + workers - 1) / workers)%nat in
  let? done := mapM_result (fun cw => plan_chunk self cw.1 cw.2) (zip (chunks (length batch) size batch) workspaces) in
  Ok (concat (map fst done), map snd done ++ skipn (length done) workspaces).

Definition apply_planned (self : HnswIndex) (pp : PreparedPoint * list (list HeapItem)) : Result HnswIndex :=
  apply_insertion self pp.1 pp.2.

Fixpoint build_batches (fuel : nat) (self : HnswIndex) (prepared : list PreparedPoint)
    (workspaces : list BuildWorkspace) : Result HnswIndex :=
  match fuel with
  | O => Panic
  | S fuel' =>
      match firstn PARALLEL_BUILD_BATCH prepared with
      | [] => Ok self
      | batch =>
          let? (plans, workspaces) := plan_batch self batch workspaces in
          if Nat.ltb (length plans) (length batch) then Panic (* "every insertion was planned" *)
          else
            let? self := foldM_result apply_planned self (zip batch plans) in
            build_batches fuel' self (skipn PARALLEL_BUILD_BATCH prepared) workspaces
      end
  end.

Definition build_prepared_points (workers : nat) (dimension : Z) (metric : Metric) (config : HnswConfig)
    (storage : HnswVectorStorage) (prepared : list PreparedPoint) : Result HnswIndex :=
  let? (self, _) := foldM_result insert_prepared (index_new dimension metric config storage, workspace_new)
                      (firstn PARALLEL_BUILD_SEED prepared) in
  let? self := build_batches (S (length prepared)) self (skipn PARALLEL_BUILD_SEED prepared)
                 (repeat workspace_new workers) in
  let? self := compact_neighbors self in
  finalize_compact_graph self.

(** The checks of [build_with_storage] before anything is prepared. *)
Definition check_id (seen : gset string) (id : string) : Result (gset string) :=
  if decide (id = "") then Err (InvalidQuery "point ID must not be empty")
  else if decide (id ∈ seen) then Err (InvalidQuery "HNSW point IDs must be unique")
  else Ok ({[id]} ∪ seen).

Definition build_with_storage (workers : nat) (dimension : Z) (metric : Metric) (config : HnswConfig)
    (storage : HnswVectorStorage) (points : list (string * list Z)) : Result HnswIndex :=
  let? _ := validate_config dimension config in
  let? _ := foldM_result (fun seen p => check_id seen p.1) ∅ points in
  let? prepared := mapM_result (fun p =>
    if negb (Z.eqb (zlen p.2) dimension) then Err (InvalidDimension dimension (zlen p.2))
    else let? v := prepare metric p.2 in
         Ok (MkPrepared p.1 (prepared_vector avx2 v storage) (deterministic_level p.1 (m config)))) points in
  build_prepared_points workers dimension metric config storage prepared.

Definition build (workers : nat) (dimension : Z) (metric : Metric) (config : HnswConfig)
    (points : list (string * list Z)) : Result HnswIndex :=
  build_with_storage workers dimension metric config StoreF32 points.
Definition build_quantized (workers : nat) (dimension : Z) (metric : Metric) (config : HnswConfig)
    (points : list (string * list Z)) : Result HnswIndex :=
  build_with_storage workers dimension metric config ScalarInt8 points.

Definition check_prepared (dimension : Z) (seen : gset string) (p : string * list Z) : Result (gset string) :=
  let? seen := check_id seen p.1 in
  if negb (Z.eqb (zlen p.2) dimension) then Err (InvalidDimension dimension (zlen p.2))
  else if existsb (fun value => negb (is_finite fmt32 value)) p.2
  then Err (InvalidVector "components must be finite")
  else Ok seen.

Definition build_quantized_prepared (workers : nat) (dimension : Z) (metric : Metric) (config : HnswConfig)
    (points : list (string * list Z)) : Result HnswIndex :=
  let? _ := validate_config dimension config in
  let? _ := foldM_result (check_prepared dimension) ∅ points in
  build_prepared_points workers dimension metric config ScalarInt8
    (map (fun p => MkPrepared p.1 (quantize avx2 p.2) (deterministic_level p.1 (m config))) points).

(** ** Statistics *)

Record HnswStats : Type := MkStats {
  stat_nodes : Z; stat_layers : Z; stat_links : Z; id_bytes : Z; vector_heap_bytes : Z; vectors_memory_mapped : bool
}.

Definition len (self : HnswIndex) : Z := zlen (nodes self).
Definition vectors_are_memory_mapped (self : HnswIndex) : bool :=
  match vectors self with ArenaMapped _ _ _ _ => true | _ => false end.

Definition stats (self : HnswIndex) : HnswStats :=
  let '(layers, links) := match compact_graph self with
                          | Some graph => (zlen (ranges graph), zlen (links graph)) | None => (0, 0) end in
  MkStats (zlen (nodes self)) layers links (foldr Z.add 0 (map str_len (ids self)))
    (component_bytes (vectors self)) (vectors_are_memory_mapped self).

(** ** Searching *)

Definition hnsw_hit (self : HnswIndex) (item : HeapItem) : Result HnswHit :=
  let? id := index (ids self) (item_index item) in Ok (MkHnswHit id (item_score item)).

(** [pool] is the shared list of idle workspaces. *)
Definition take_search_workspace (pool : list BuildWorkspace) : BuildWorkspace * list BuildWorkspace :=
  match last pool with Some ws => (ws, removelast pool) | None => (workspace_new, pool) end.
Definition return_search_workspace (pool : list BuildWorkspace) (ws : BuildWorkspace) : list BuildWorkspace :=
  if Z.ltb (zlen pool) MAX_POOLED_SEARCH_WORKSPACES then pool ++ [ws] else pool.

Definition search (self : HnswIndex) (query : list Z) (k ef_search : Z) (pool : list BuildWorkspace)
    : Result (list HnswHit * list BuildWorkspace) :=
  if Z.eqb k 0 then Err (InvalidQuery "k must be greater than zero")
  else if Z.ltb ef_search k then Err (InvalidQuery "ef_search must be at least k")
  else if negb (Z.eqb (zlen query) (graph_dimension self))
  then Err (InvalidDimension (graph_dimension self) (zlen query))
  else
    let? query := prepare (graph_metric self) query in
    let query := prepared_vector avx2 query (arena_storage (vectors self)) in
    match entry_point self with
    | None => Ok ([], pool)
    | Some entry =>
        let? current := foldM_result (greedy_closest self query) entry (descending 1 (max_level self)) in
        let '(ws, pool) := take_search_workspace pool in
        let? (candidates, ws) := search_layer self query current ef_search 0 ws in
        let pool := return_search_workspace pool ws in
        let? hits := mapM_result (hnsw_hit self) (truncate k candidates) in
        Ok (hits, pool)
    end.
End Graph.
