(* ===== verification/HnswCodec.v ===== *)
(** * HnswCodec: the graph's storage format ([encode_into] and [decode_inner]
    of [src/src/hnsw.rs]) *)

From stdpp Require Import base gmap sets list strings.
From Stdlib Require Import ZArith Lia.
From S2P Require Import Prelude Errors Floats Ranking Metric Codec Quantize Hnsw.

(** ** Encoding *)

Definition metric_tag (metric : Metric) : Z :=
  match metric with Cosine => 1 | DotProduct => 2 | Euclidean => 3 end.
Definition parse_metric (tag : Z) : Result Metric :=
  match tag with
  | 1 => Ok Cosine
  | 2 => Ok DotProduct
  | 3 => Ok Euclidean
  | _ => Err (CorruptStorage ("unknown HNSW metric tag " +:+ fmt_int tag))
  end.

Definition storage_tag (storage : HnswVectorStorage) : Z :=
  match storage with StoreF32 => 1 | ScalarInt8 => 2 end.
Definition parse_storage (tag : Z) : Result HnswVectorStorage :=
  match tag with
  | 1 => Ok StoreF32
  | 2 => Ok ScalarInt8
  | _ => Err (CorruptStorage ("unknown HNSW vector storage tag " +:+ fmt_int tag))
  end.

Definition put_u32_writer (value : Z) : Result (list byte) :=
  if Z.leb value U32_MAX then Ok (le_bytes 4 value)
  else Err (InvalidQuery "HNSW graph value exceeds format limit").
Definition put_bytes_writer (value : list byte) : Result (list byte) :=
  let? n := put_u32_writer (zlen value) in Ok (n ++ value).

Definition put_all {A : Type} (put : A -> Result (list byte)) (l : list A) : Result (list byte) :=
  let? parts := mapM_result put l in Ok (concat parts).

Definition encode_vector (v : VectorRef) : list byte :=
  match v with
  | VF32 vector => concat (map (le_bytes 4) vector)
  | VInt8 codes scale _ => le_bytes 4 scale ++ map to_u8 codes
  end.

Definition put_layer (l : list Z) : Result (list byte) :=
  let? n := put_u32_writer (zlen l) in let? body := put_all put_u32_writer l in Ok (n ++ body).

Definition encode_node (self : HnswIndex) (entry : Z * Node) : Result (list byte) :=
  let '(node_index, node) := entry in
  let? id := index (ids self) node_index in
  let? id := put_bytes_writer (bytes_of_string id) in
  let? v := vector self node_index in
  let? n := put_u32_writer (level node + 1) in
  let? body := put_all (fun layer => let? l := neighbors self node_index layer in put_layer l)
                 (seqZ 0 (level node + 1)) in
  Ok (id ++ encode_vector v ++ n ++ body).

Definition encode_into (self : HnswIndex) : Result (list byte) :=
  let? m_ := put_u32_writer (m (graph_config self)) in
  let? ef := put_u32_writer (ef_construction (graph_config self)) in
  let? n := put_u32_writer (zlen (nodes self)) in
  let? top := put_u32_writer (max_level self) in
  let? body := put_all (encode_node self) (enumerate (nodes self)) in
  Ok (GRAPH_MAGIC ++ [to_u8 GRAPH_VERSION] ++ le_bytes 8 (graph_dimension self)
      ++ [to_u8 (metric_tag (graph_metric self))] ++ [to_u8 (storage_tag (arena_storage (vectors self)))]
      ++ m_ ++ ef ++ n ++ le_bytes 8 (default U64_MAX (entry_point self)) ++ top ++ body).

Definition size_error {A : Type} (r : option A) : Result A :=
  ok_or r (ResourceExhausted "HNSW encoded size overflows").
Definition plus (a : option Z) (b : Z) : option Z := a ≫= fun x => checked_add USIZE_MAX x b.

Definition add_layer_len (self : HnswIndex) (node : Z) (length layer : Z) : Result Z :=
  let? l := neighbors self node layer in
  size_error (checked_add USIZE_MAX length 4 ≫= fun x =>
    checked_mul USIZE_MAX (zlen l) 4 ≫= fun y => checked_add USIZE_MAX x y).

Definition add_node_len (self : HnswIndex) (vector_bytes : Z) (length : Z) (entry : Z * string) : Result Z :=
  let '(node_index, id) := entry in
  let? length := size_error (plus (plus (plus (plus (Some length) 4) (str_len id)) vector_bytes) 4) in
  let? node := index (nodes self) node_index in
  foldM_result (add_layer_len self node_index) length (seqZ 0 (level node + 1)).

Definition encoded_len (self : HnswIndex) : Result Z :=
  let? vector_bytes := size_error (match arena_storage (vectors self) with
    | StoreF32 => checked_mul USIZE_MAX (graph_dimension self) 4
    | ScalarInt8 => checked_add USIZE_MAX (graph_dimension self) 4
    end) in
  foldM_result (add_node_len self vector_bytes) 39 (enumerate (ids self)).

(** ** Decoding *)

Definition take : Z -> dec (list byte) :=
  take_with (CorruptStorage "HNSW graph length overflow") (CorruptStorage "truncated HNSW graph").
Definition take_fixed (n : nat) : dec (list byte) :=
  let! l := take (Z.of_nat n) in let! l := dlift (fixed n l) in dret l.

Definition byte_ : dec Z :=
  let! l := take (Z.of_nat 1) in let! l := dlift (fixed 1 l) in dret (le_value l).
Definition u64 : dec Z := let! l := take_fixed 8 in dret (le_value l).
Definition usize : dec Z := let! l := take_fixed 4 in dret (le_value l).
Definition f32 : dec Z := let! l := take_fixed 4 in dret (le_value l).
Definition string_ : dec string :=
  let! length := usize in
  let! bytes := take length in
  let! _ := dguard (negb (utf8_valid bytes)) (CorruptStorage "HNSW graph contains invalid UTF-8") in
  dret (string_of_bytes bytes).
Definition finish : dec unit := fun s =>
  if Z.eqb (position s) (zlen (input s)) then Ok (tt, s)
  else Err (CorruptStorage "trailing bytes in HNSW graph").

Record GraphHeader : Type := MkHeader {
  gh_dimension : Z; gh_metric : Metric; gh_storage : HnswVectorStorage; gh_config : HnswConfig;
  gh_count : Z; gh_entry : option Z; gh_top : Z
}.

Definition graph_header : dec GraphHeader :=
  let! magic := take 4 in
  let! _ := dguard (negb (bool_decide (magic = GRAPH_MAGIC))) (CorruptStorage "invalid HNSW graph header") in
  let! version := byte_ in
  let! _ := dguard (negb (Z.eqb version LEGACY_GRAPH_VERSION) && negb (Z.eqb version GRAPH_VERSION))
              (CorruptStorage "invalid HNSW graph header") in
  let! dimension := u64 in
  let! tag := byte_ in
  let! metric := dlift (parse_metric tag) in
  let! storage := (if Z.eqb version LEGACY_GRAPH_VERSION then dret StoreF32
                   else let! tag := byte_ in dlift (parse_storage tag)) in
  let! m_ := usize in
  let! ef := usize in
  let config := MkHnswConfig m_ ef in
  let! _ := dlift (map_err (fun e => CorruptStorage (to_string e)) (validate_config dimension config)) in
  let! node_count := usize in
  let! _ := dguard (Z.ltb 100000000 node_count) (CorruptStorage "HNSW node count exceeds limit") in
  let! entry_raw := u64 in
  let entry := if Z.eqb entry_raw U64_MAX then None else Some entry_raw in
  let! top := usize in
  let! _ := dguard (Z.ltb MAX_LEVEL top) (CorruptStorage "HNSW level exceeds limit") in
  let! _ := dlift (ok_or (checked_mul USIZE_MAX node_count dimension)
              (CorruptStorage "HNSW vector storage size overflows address space")) in
  dret (MkHeader dimension metric storage config node_count entry top).

Section Decode.
Context `{FloatEnv} (avx2 : bool).

Definition finite_component : dec Z :=
  let! value := f32 in
  let! _ := dguard (negb (is_finite fmt32 value)) (CorruptStorage "HNSW graph contains a non-finite vector") in
  dret value.

(** One vector, appended to the arena: copied, or left in the mapping. *)
Definition decode_vector (h : GraphHeader) (mapping : option (list byte * Z)) (arena : VectorArena) : dec VectorArena :=
  match gh_storage h with
  | StoreF32 =>
      let! v := dec_list (Z.to_nat (gh_dimension h)) finite_component in
      dlift (arena_push arena (VF32 v))
  | ScalarInt8 =>
      let! scale := f32 in
      let! _ := dguard (negb (is_finite fmt32 scale) || fleb fmt32 scale 0)
                  (CorruptStorage "HNSW graph contains invalid quantization parameters") in
      let! code_position := dposition in
      let! code_bytes := take (gh_dimension h) in
      match mapping with
      | Some (_, mapping_offset) =>
          dlift (push_mapped arena (mapping_offset + code_position) scale (quantized_squared_norm_bytes code_bytes scale))
      | None =>
          let codes := map (fun b => wrap_i 8 (u8 b)) code_bytes in
          dlift (arena_push arena (VInt8 codes scale (quantized_squared_norm avx2 codes scale)))
      end
  end.

Definition decode_layer (config : HnswConfig) (layer : Z) : dec (list Z) :=
  let! count := usize in
  let! _ := dguard (Z.ltb (max_connections config layer) count)
              (CorruptStorage "HNSW neighbor list exceeds its configured layer limit") in
  dec_list (Z.to_nat count) usize.

Definition decode_layers (config : HnswConfig) (count : nat) : dec (list (list Z)) :=
  dec_for (seqZ 0 (Z.of_nat count)) (fun acc layer => let! l := decode_layer config layer in dret (acc ++ [l])) [].

Record Decoded : Type := MkDecoded {
  d_nodes : list Node; d_ids : list string; d_seen : gset string; d_vectors : VectorArena
}.

Definition decode_node (h : GraphHeader) (mapping : option (list byte * Z)) (d : Decoded) (_ : nat) : dec Decoded :=
  let! id := string_ in
  let! _ := dguard (bool_decide (id = "") || bool_decide (id ∈ d_seen d))
              (CorruptStorage "HNSW graph contains an empty or duplicate ID") in
  let! arena := decode_vector h mapping (d_vectors d) in
  let! layer_count := usize in
  let! _ := dguard (Z.eqb layer_count 0 || Z.ltb (MAX_LEVEL + 1) layer_count)
              (CorruptStorage "HNSW node has an invalid layer count") in
  let! ls := decode_layers (gh_config h) (Z.to_nat layer_count) in
  dret (MkDecoded (d_nodes d ++ [MkNode (wrap_u 8 (layer_count - 1)) 0 ls]) (d_ids d ++ [id]) ({[id]} ∪ d_seen d) arena).

Definition initial_arena (h : GraphHeader) (mapping : option (list byte * Z)) : VectorArena :=
  match mapping, gh_storage h with
  | Some (bytes, _), ScalarInt8 => ArenaMapped bytes [] [] []
  | _, storage => arena_new storage
  end.

Definition decode_graph (mapping : option (list byte * Z)) : dec (GraphHeader * Decoded) :=
  let! h := graph_header in
  let! d := dec_for (seq 0 (Z.to_nat (gh_count h))) (decode_node h mapping)
              (MkDecoded [] [] ∅ (initial_arena h mapping)) in
  let! _ := finish in
  dret (h, d).

Definition check_entry (h : GraphHeader) (ns : list Node) : Result unit :=
  if Z.eqb (gh_count h) 0 then
    if bool_decide (is_Some (gh_entry h)) || negb (Z.eqb (gh_top h) 0)
    then Err (CorruptStorage "empty HNSW graph has an entry point") else Ok tt
  else
    let? entry := ok_or (gh_entry h) (CorruptStorage "non-empty HNSW graph has no entry point") in
    if Z.leb (gh_count h) entry then Err (CorruptStorage "invalid HNSW entry point")
    else
      let? node := index ns entry in
      if Z.ltb (level node) (gh_top h) then Err (CorruptStorage "invalid HNSW entry point") else Ok tt.

Definition valid_neighbor (node_count node_index neighbor : Z) : bool :=
  Z.ltb neighbor node_count && negb (Z.eqb neighbor node_index).

Definition check_neighbors (node_count : Z) (ns : list Node) : Result unit :=
  if forallb (fun '(i, n) => forallb (forallb (valid_neighbor node_count i)) (layers n)) (enumerate ns)
  then Ok tt else Err (CorruptStorage "HNSW graph contains an invalid neighbor").

Definition decode_inner (bytes : list byte) (mapping : option (list byte * Z)) : Result HnswIndex :=
  let? (h, d) := run_dec (decode_graph mapping) bytes in
  let? _ := check_entry h (d_nodes d) in
  let? _ := check_neighbors (gh_count h) (d_nodes d) in
  map_err (fun error => CorruptStorage ("could not compact decoded HNSW graph: " +:+ to_string error))
    (finalize_compact_graph
       (MkIndex (gh_dimension h) (gh_metric h) (gh_config h) (d_nodes d) (d_ids d) (d_vectors d)
          (gh_entry h) (gh_top h) None)).

Definition decode (bytes : list byte) : Result HnswIndex := decode_inner bytes None.
Definition decode_mapped (bytes : list byte) (mapping : list byte) (mapping_offset : Z) : Result HnswIndex :=
  decode_inner bytes (Some (mapping, mapping_offset)).
End Decode.
