(* ===== verification/HnswFacts.v ===== *)
(** * HnswFacts: what a search of a well-formed graph returns

    [graph_wf] is the interface between the producers of graphs (building,
    decoding) and their users: every access a search makes is in range.  From
    it, searches terminate, never panic, and return distinct nodes in result
    order with their true scores, whatever workspace they are given. *)

From stdpp Require Import base gmap sets list strings sorting.
From Stdlib Require Import ZArith Lia.
From S2P Require Import Prelude Errors Floats Ranking Metric Collection CollectionFacts Codec Quantize Hnsw.

(** ** Indexing *)

Lemma index_in {E A} (l : list A) i : 0 <= i < zlen l -> exists x, index (E := E) l i = Ok x /\ l !! Z.to_nat i = Some x.
Proof.
  intros Hi. unfold index. rewrite decide_True by lia.
  destruct (l !! Z.to_nat i) as [x|] eqn:E0; [by exists x|]. apply lookup_ge_None in E0. unfold zlen in Hi. lia.
Qed.

Lemma index_lookup {E A} (l : list A) (i : nat) x : l !! i = Some x -> index (E := E) l (Z.of_nat i) = Ok x.
Proof. intros Hx. unfold index. rewrite decide_True by lia. by rewrite Nat2Z.id, Hx. Qed.

Lemma index_Ok {E A} (l : list A) i x : index (E := E) l i = Ok x -> 0 <= i < zlen l /\ l !! Z.to_nat i = Some x.
Proof.
  unfold index. case_decide; [|done]. destruct (l !! Z.to_nat i) as [y|] eqn:E0; [|done]. intros [= <-].
  pose proof (lookup_lt_Some _ _ _ E0). unfold zlen. split; [lia|done].
Qed.

(** ** Orders *)

#[global] Instance item_cmp_total : TotalCmp item_cmp.
Proof. unfold item_cmp. apply _. Qed.
#[global] Instance compare_scored_total : TotalCmp compare_scored.
Proof. unfold compare_scored. apply _. Qed.

Lemma compare_scored_eq a b : compare_scored a b = Eq -> a.2 = b.2.
Proof. intros [_ E]%then_with_eq. by apply str_cmp_eq in E. Qed.

(** ** Well-formed graphs *)

Definition same_kind (a b : VectorRef) : Prop :=
  match a, b with VF32 _, VF32 _ | VInt8 _ _ _, VInt8 _ _ _ => True | _, _ => False end.
Definition kind_of (s : HnswVectorStorage) (v : VectorRef) : Prop :=
  match s, v with StoreF32, VF32 _ | ScalarInt8, VInt8 _ _ _ => True | _, _ => False end.

Section Wf.
Context `{FloatEnv} (avx2 : bool).

Definition node_count (g : HnswIndex) : Z := zlen (nodes g).
Definition in_graph (g : HnswIndex) (i : Z) : Prop := 0 <= i < node_count g.

Record graph_wf (g : HnswIndex) : Prop := {
  wf_ids : length (ids g) = length (nodes g);
  wf_distinct : NoDup (ids g);
  wf_vectors : forall i, in_graph g i ->
    returns (vector g i) (kind_of (arena_storage (vectors g)));
  wf_neighbors : forall i layer, in_graph g i -> 0 <= layer ->
    returns (neighbors g i layer) (Forall (fun j => in_graph g j /\ j <> i));
  wf_entry : match entry_point g with Some e => in_graph g e | None => True end
}.

(** The score and ranking key of a node, as values. *)
Definition score_of (g : HnswIndex) (q : VectorRef) (i : Z) : Z :=
  match score avx2 g q i with Ok s => s | _ => 0 end.
Definition id_of (g : HnswIndex) (i : Z) : string := default "" (ids g !! Z.to_nat i).
Definition key_of (g : HnswIndex) (q : VectorRef) (i : Z) : Z * string := (score_of g q i, id_of g i).
Definition item_of (g : HnswIndex) (q : VectorRef) (i : Z) : HeapItem := MkItem i (score_of g q i).

Lemma score_ok g q i :
  graph_wf g -> kind_of (arena_storage (vectors g)) q -> in_graph g i -> score avx2 g q i = Ok (score_of g q i).
Proof.
  intros Hg Hq Hi. unfold score_of. destruct (wf_vectors g Hg i Hi) as (v & Ev & Hv).
  unfold score. rewrite Ev. cbn [rbind].
  destruct (arena_storage (vectors g)), q, v; try done. unfold score_vectors. by destruct (graph_metric g).
Qed.

Lemma id_ok g i : graph_wf g -> in_graph g i -> index (E := Error) (ids g) i = Ok (id_of g i).
Proof.
  intros Hg Hi. unfold in_graph, node_count, zlen in Hi. rewrite <- (wf_ids g Hg) in Hi.
  destruct (index_in (E := Error) (ids g) i Hi) as (x & -> & Ex). unfold id_of. by rewrite Ex.
Qed.

Lemma node_key_ok g s i : graph_wf g -> in_graph g i -> node_key g s i = Ok (s, id_of g i).
Proof. intros Hg Hi. unfold node_key. by rewrite (id_ok g i Hg Hi). Qed.

Lemma id_of_inj g i j : graph_wf g -> in_graph g i -> in_graph g j -> id_of g i = id_of g j -> i = j.
Proof.
  intros Hg Hi Hj E. pose proof (id_ok g i Hg Hi) as Ei. pose proof (id_ok g j Hg Hj) as Ej.
  apply index_Ok in Ei as [_ Ei]. apply index_Ok in Ej as [_ Ej]. rewrite E in Ei.
  pose proof (NoDup_lookup _ _ _ _ (wf_distinct g Hg) Ei Ej). unfold in_graph in *. lia.
Qed.

(** ** Greedy descent *)

Section Query.
Context (g : HnswIndex) (q : VectorRef) (Hg : graph_wf g) (Hq : kind_of (arena_storage (vectors g)) q).

Abbreviation key := (key_of g q).
Definition better (i j : Z) : Prop := compare_scored (key i) (key j) = Lt.

Lemma better_irrefl i : ~ better i i.
Proof. unfold better. by rewrite (cmp_refl compare_scored). Qed.

Lemma better_trans i j k : better i j -> better j k -> better i k.
Proof. unfold better. intros H1 H2. eapply (cmp_lt_trans compare_scored); [exact H1|]. by rewrite H2. Qed.

#[local] Instance better_dec i j : Decision (better i j).
Proof. unfold better. apply _. Defined.

(** How many nodes rank before [i]. *)
Definition rank (i : Z) : nat :=
  length (List.filter (fun j => bool_decide (better j i)) (seqZ 0 (node_count g))).

Lemma filter_length_lt {A} (f h : A -> bool) (l : list A) x :
  (forall y, f y = true -> h y = true) -> x ∈ l -> f x = false -> h x = true ->
  (length (List.filter f l) < length (List.filter h l))%nat.
Proof.
  intros Himp Hx Hfx Hhx. assert (forall l, (length (List.filter f l) <= length (List.filter h l))%nat) as Hle.
  { clear -Himp. induction l as [|y l IH]; cbn; [done|]. destruct (f y) eqn:Ef; [rewrite (Himp y Ef); cbn; lia|].
    destruct (h y); cbn; lia. }
  induction l as [|y l IH]; [by apply not_elem_of_nil in Hx|]. cbn. apply elem_of_cons in Hx as [<-|Hx].
  - rewrite Hfx, Hhx. cbn. pose proof (Hle l). lia.
  - specialize (IH Hx). destruct (f y) eqn:Ef; [rewrite (Himp y Ef); cbn; lia|]. destruct (h y); cbn; lia.
Qed.

Lemma better_rank i j : in_graph g i -> better i j -> (rank i < rank j)%nat.
Proof.
  intros Hi Hb. apply (filter_length_lt _ _ _ i).
  - intros k. rewrite !bool_decide_eq_true. intros Hk. by eapply better_trans.
  - apply elem_of_seqZ. unfold in_graph in Hi. lia.
  - apply bool_decide_eq_false, better_irrefl.
  - by apply bool_decide_eq_true.
Qed.

Lemma rank_bound i : (rank i <= length (nodes g))%nat.
Proof.
  unfold rank. etransitivity; [apply List.filter_length_le|]. rewrite length_seqZ. unfold node_count, zlen. lia.
Qed.

(** The scan of one adjacency list keeps the best node seen. *)
Lemma greedy_scan ns current :
  in_graph g current -> Forall (fun j => in_graph g j /\ j <> current) ns ->
  returns (foldM_result (greedy_step avx2 g q) (current, score_of g q current) ns)
    (fun b => b.2 = score_of g q b.1 /\ in_graph g b.1 /\ (b.1 = current \/ better b.1 current) /\
              Forall (fun j => ~ better j b.1) ns).
Proof.
  intros Hc Hns. assert (forall pre post best, ns = pre ++ post -> in_graph g best ->
    (best = current \/ better best current) -> Forall (fun j => ~ better j best) pre ->
    returns (foldM_result (greedy_step avx2 g q) (best, score_of g q best) post)
      (fun b => b.2 = score_of g q b.1 /\ in_graph g b.1 /\ (b.1 = current \/ better b.1 current) /\
                Forall (fun j => ~ better j b.1) ns)) as Hloop; [|by apply (Hloop [] ns current); auto].
  intros pre post. revert pre. induction post as [|j post IH]; intros pre best -> Hb Hcb Hpre; cbn [foldM_result].
  { rewrite app_nil_r in *. apply returns_ok. by split_and!. }
  assert (in_graph g j) as Hj.
  { apply Forall_app in Hns as [_ Hns]. apply Forall_cons in Hns as [[? _] _]. done. }
  unfold greedy_step at 1. rewrite (score_ok g q j) by done. cbn [rbind fst snd].
  rewrite !node_key_ok by done. cbn [rbind].
  assert (pre ++ j :: post = (pre ++ [j]) ++ post) as E by (by rewrite <- app_assoc).
  destruct (compare_scored _ _) eqn:Ec; cbn [rbind]; apply (IH (pre ++ [j])); try done.
  - apply Forall_app. split; [done|]. constructor; [|done]. unfold better, key_of. by rewrite Ec.
  - destruct Hcb as [->|Hcb]; [by right|]. right. by eapply better_trans.
  - apply Forall_app. split.
    + eapply Forall_impl; [exact Hpre|]. intros k Hk Hkj. apply Hk. by eapply better_trans.
    + constructor; [apply better_irrefl|done].
  - apply Forall_app. split; [done|]. constructor; [|done]. unfold better, key_of. by rewrite Ec.
Qed.

Lemma greedy_loop_ok fuel current layer :
  in_graph g current -> 0 <= layer -> (rank current < fuel)%nat ->
  returns (greedy_loop avx2 fuel g q current layer)
    (fun c => in_graph g c /\ (c = current \/ better c current) /\
              exists ns, neighbors g c layer = Ok ns /\ Forall (fun j => ~ better j c) ns).
Proof.
  revert current. induction fuel as [|fuel IH]; intros current Hc Hl Hf; [lia|]. cbn [greedy_loop].
  rewrite (score_ok g q current) by done. cbn [rbind].
  destruct (wf_neighbors g Hg current layer Hc Hl) as (ns & Ens & Hns). rewrite Ens. cbn [rbind].
  destruct (greedy_scan ns current Hc Hns) as ([b sb] & -> & Hsb & Hb & Hbc & Hall). cbn [rbind fst snd] in *.
  destruct (Z.eqb_spec b current) as [->|Hne].
  - apply returns_ok. split_and!; [done|by left|]. by exists ns.
  - destruct Hbc as [|Hbc]; [done|]. eapply returns_mono.
    + apply IH; [done|done|]. pose proof (better_rank b current Hb Hbc). lia.
    + intros c (Hc' & Hcb & Hns'). split_and!; [done| |done].
      right. destruct Hcb as [->|Hcb]; [done|by eapply better_trans].
Qed.

Lemma greedy_closest_ok start layer :
  in_graph g start -> 0 <= layer ->
  returns (greedy_closest avx2 g q start layer)
    (fun c => in_graph g c /\ (c = start \/ better c start) /\
              exists ns, neighbors g c layer = Ok ns /\ Forall (fun j => ~ better j c) ns).
Proof. intros Hs Hl. apply greedy_loop_ok; [done|done|]. pose proof (rank_bound start). lia. Qed.
End Query.
End Wf.
