(* ===== verification/HnswSearch.v ===== *)
(** * HnswSearch: best-first search against a set-based specification

    [spec_loop] is the layer search with a set of visited nodes in place of
    the generation marks.  [search_layer_refines] shows the code computes it in
    any workspace; its properties are then proved on the specification. *)

From stdpp Require Import base gmap sets list strings sorting.
From Stdlib Require Import ZArith Lia.
From S2P Require Import Prelude Errors Floats Ranking Metric Collection CollectionFacts Codec Quantize Hnsw HnswFacts.

(** ** Workspaces represent sets *)

Definition ws_valid (ws : BuildWorkspace) : Prop :=
  0 <= generation ws <= U32_MAX /\ Forall (fun x => 0 <= x <= generation ws) (visited ws).

Record ws_rep (ws : BuildWorkspace) (n : nat) (V : gset Z) : Prop := {
  rep_valid : ws_valid ws;
  rep_positive : 0 < generation ws;
  rep_length : length (visited ws) = n;
  rep_marks : forall i : nat, (i < n)%nat -> visited ws !! i = Some (generation ws) <-> Z.of_nat i ∈ V
}.

Lemma workspace_new_valid : ws_valid workspace_new.
Proof. split; [vm_compute; split; congruence|constructor]. Qed.

Lemma Forall_resize (P : Z -> Prop) l n : P 0 -> Forall P l -> Forall P (resize l n).
Proof.
  intros H0 Hl. unfold resize. apply Forall_app. split; [by apply Forall_take|].
  induction (n - length l)%nat; cbn; [constructor|by constructor].
Qed.

Lemma length_resize l n : length (resize l n) = n.
Proof. unfold resize. rewrite length_app, firstn_length, repeat_length. lia. Qed.

(** A fresh generation marks nothing, wrap-around included. *)
Lemma begin_rep ws n : ws_valid ws -> ws_rep (begin_ ws n) n ∅.
Proof.
  intros [Hg Hv]. pose proof (Forall_resize _ (visited ws) n (conj (Z.le_refl 0) (proj1 Hg)) Hv) as Hr.
  unfold begin_. destruct (Z.eqb_spec (generation ws) U32_MAX) as [E|E].
  - constructor; cbn [generation visited].
    + split; [vm_compute; split; congruence|]. apply Forall_fmap, Forall_forall. intros x _. change (0 <= 0 <= 1). lia.
    + lia.
    + by rewrite length_map, length_resize.
    + intros i Hi. split; [|by intros ?%not_elem_of_empty]. intros Hx.
      change (map ?f ?l) with (f <$> l) in Hx. by apply list_lookup_fmap_Some in Hx as (? & ? & _).
  - constructor; cbn [generation visited].
    + split; cbn [generation visited]; [lia|]. eapply Forall_impl; [exact Hr|]. cbn beta. intros x Hx. lia.
    + lia.
    + apply length_resize.
    + intros i Hi. split; [|by intros ?%not_elem_of_empty]. intros Hx.
      apply list_elem_of_lookup_2 in Hx. eapply Forall_forall in Hr; [|exact Hx]. cbn beta in Hr. lia.
Qed.

Lemma visit_rep ws n V i :
  ws_rep ws n V -> 0 <= i < Z.of_nat n ->
  returns (visit ws i) (fun r => r.1 = negb (bool_decide (i ∈ V)) /\ ws_rep r.2 n ({[i]} ∪ V)).
Proof.
  intros [[Hg Hv] Hp Hl Hm] Hi. unfold visit.
  destruct (index_in (E := Error) (visited ws) i) as (x & -> & Hx); [unfold zlen; lia|]. cbn [rbind].
  pose proof (Hm (Z.to_nat i) ltac:(lia)) as Hmi. rewrite Z2Nat.id in Hmi by lia.
  destruct (Z.eqb_spec x (generation ws)) as [->|Hne].
  - apply returns_ok. assert (i ∈ V) as Hin by (by apply Hmi). cbn. rewrite bool_decide_eq_true_2 by done.
    split; [done|]. assert ({[i]} ∪ V = V) as -> by set_solver. by constructor.
  - apply returns_ok. assert (i ∉ V) as Hn by (intros Hin; apply Hmi in Hin; congruence).
    cbn. rewrite bool_decide_eq_false_2 by done. split; [done|]. constructor; cbn [generation visited].
    + split; [done|]. cbn [generation visited]. apply Forall_insert; [done|lia].
    + done.
    + by rewrite length_insert.
    + intros j Hj. destruct (decide (j = Z.to_nat i)) as [->|Hji].
      * rewrite list_lookup_insert_eq by lia. rewrite Z2Nat.id by lia. set_solver.
      * rewrite list_lookup_insert_ne by done. rewrite Hm by done. rewrite elem_of_union, elem_of_singleton.
        split; [by right|]. intros [?|?]; [lia|done].
Qed.

(** ** The specification *)

Section Spec.
Context `{FloatEnv} (avx2 : bool) (g : HnswIndex) (q : VectorRef).

Record SpecState : Type := MkSpec { s_frontier : list HeapItem; s_results : list HeapItem; s_visited : gset Z }.

Definition keeps (ef : Z) (item : HeapItem) (rs : list HeapItem) : bool :=
  Z.ltb (zlen rs) ef ||
  match heap_peek rs with
  | Some worst => match item_cmp item worst with Gt => true | _ => false end
  | None => false
  end.

Definition keep (ef : Z) (item : HeapItem) (rs : list HeapItem) : list HeapItem :=
  let rs := results_push item rs in if Z.ltb ef (zlen rs) then heap_pop rs else rs.

Definition spec_neighbor (ef : Z) (st : SpecState) (j : Z) : SpecState :=
  if decide (j ∈ s_visited st) then st
  else let item := item_of avx2 g q j in
       let V := {[j]} ∪ s_visited st in
       if keeps ef item (s_results st)
       then MkSpec (frontier_push item (s_frontier st)) (keep ef item (s_results st)) V
       else MkSpec (s_frontier st) (s_results st) V.

Definition adjacent (i layer : Z) : list Z := match neighbors g i layer with Ok ns => ns | _ => [] end.

Definition stops (ef : Z) (candidate : HeapItem) (rs : list HeapItem) : bool :=
  match heap_peek rs with
  | Some worst => Z.leb ef (zlen rs) && bool_decide (item_cmp candidate worst = Lt)
  | None => false
  end.

Fixpoint spec_loop (fuel : nat) (ef layer : Z) (st : SpecState) : SpecState :=
  match fuel with
  | O => st
  | S fuel' =>
      match heap_peek (s_frontier st) with
      | None => st
      | Some candidate =>
          let st := MkSpec (heap_pop (s_frontier st)) (s_results st) (s_visited st) in
          if stops ef candidate (s_results st) then st
          else spec_loop fuel' ef layer (fold_left (spec_neighbor ef) (adjacent (item_index candidate) layer) st)
      end
  end.

Definition item_key (item : HeapItem) : Z * string := (item_score item, id_of g (item_index item)).

Definition spec_search (entry ef layer : Z) : list HeapItem :=
  let item := item_of avx2 g q entry in
  sort_by (cmp_on item_key compare_scored)
    (s_results (spec_loop (S (length (nodes g))) ef layer (MkSpec [item] [item] {[entry]}))).

(** ** Heaps *)

Lemma heap_peek_Some {A} (h : list A) x : heap_peek h = Some x -> h = heap_pop h ++ [x].
Proof.
  unfold heap_peek, heap_pop. intros Hx%last_Some. destruct Hx as [l' ->]. by rewrite removelast_last.
Qed.

Lemma heap_push_perm {A} (cmp : A -> A -> comparison) x h : heap_push cmp x h ≡ₚ x :: h.
Proof. apply insert_by_perm. Qed.

Lemma keep_subset ef item rs : keep ef item rs ⊆ item :: rs.
Proof.
  unfold keep. destruct (_ <? _).
  - intros x Hx. assert (x ∈ results_push item rs) as Hin.
    { unfold heap_pop in Hx. destruct (results_push item rs) as [|a l] using rev_ind; [done|].
      rewrite removelast_last in Hx. apply elem_of_app. by left. }
    unfold results_push in Hin. by rewrite heap_push_perm in Hin.
  - intros x Hx. unfold results_push in Hx. by rewrite heap_push_perm in Hx.
Qed.

Lemma keep_length ef item rs : 1 <= ef -> zlen rs <= ef -> 1 <= zlen (keep ef item rs) <= ef.
Proof.
  intros He Hr. unfold keep. pose proof (zlen_nonneg rs).
  assert (zlen (results_push item rs) = 1 + zlen rs) as El.
  { unfold zlen, results_push. rewrite heap_push_perm. cbn. lia. }
  destruct (Z.ltb_spec ef (zlen (results_push item rs))); [|lia].
  assert (zlen (heap_pop (results_push item rs)) = zlen (results_push item rs) - 1) as ->; [|lia].
  unfold heap_pop. destruct (results_push item rs) as [|a l] using rev_ind; [unfold zlen in *; cbn in *; lia|].
  rewrite removelast_last, zlen_app. unfold zlen. cbn. lia.
Qed.

Lemma sublist_removelast {A} (l : list A) : removelast l `sublist_of` l.
Proof. destruct l as [|x l _] using rev_ind; [done|]. rewrite removelast_last. by apply sublist_inserts_r. Qed.

Lemma NoDup_keep ef item rs :
  NoDup (map item_index rs) -> item_index item ∉ map item_index rs -> NoDup (map item_index (keep ef item rs)).
Proof.
  intros Hn Hi. assert (NoDup (map item_index (results_push item rs))) as Hp.
  { unfold results_push. change (NoDup (item_index <$> heap_push (cmp_rev item_cmp) item rs)).
    rewrite heap_push_perm. by constructor. }
  unfold keep. destruct (_ <? _); [|done]. eapply sublist_NoDup; [exact Hp|]. apply fmap_sublist, sublist_removelast.
Qed.

(** ** The invariant of the loop *)

Record spec_ok (ef : Z) (st : SpecState) : Prop := {
  so_results : 1 <= zlen (s_results st) <= ef;
  so_items : forall x, x ∈ s_frontier st \/ x ∈ s_results st ->
    x = item_of avx2 g q (item_index x) /\ item_index x ∈ s_visited st /\ in_graph g (item_index x);
  so_visited : forall i, i ∈ s_visited st -> in_graph g i;
  so_distinct : NoDup (map item_index (s_results st));
  so_frontier : NoDup (map item_index (s_frontier st))
}.

Lemma spec_neighbor_ok ef st j : 1 <= ef -> in_graph g j -> spec_ok ef st -> spec_ok ef (spec_neighbor ef st j).
Proof.
  intros He Hj [Hr Hi Hv Hd Hf]. unfold spec_neighbor. destruct (decide _) as [Hin|Hin]; [by constructor|].
  assert (forall x, x ∈ s_frontier st \/ x ∈ s_results st -> item_index x <> j) as Hfresh.
  { intros x Hx <-. apply Hin. by apply (Hi x Hx). }
  assert (forall i, i ∈ {[j]} ∪ s_visited st -> in_graph g i) as Hv'.
  { intros i [->%elem_of_singleton|?]%elem_of_union; auto. }
  assert (forall x, x ∈ s_frontier st \/ x ∈ s_results st ->
    x = item_of avx2 g q (item_index x) /\ item_index x ∈ {[j]} ∪ s_visited st /\ in_graph g (item_index x)) as Hold.
  { intros x Hx. destruct (Hi x Hx) as (? & ? & ?). split_and!; [done|set_solver|done]. }
  destruct (keeps ef _ _); [|by constructor]. set (item := item_of avx2 g q j).
  assert (item = item_of avx2 g q (item_index item) /\ item_index item ∈ {[j]} ∪ s_visited st /\ in_graph g (item_index item))
    as Hnew by (cbn; split_and!; [done|set_solver|done]).
  assert (forall l, (forall x, x ∈ l -> x ∈ s_frontier st \/ x ∈ s_results st) -> item_index item ∉ map item_index l) as Hni.
  { intros l Hl (x & E & Hx)%list_elem_of_fmap. by apply (Hfresh x (Hl x Hx)). }
  constructor; cbn [s_frontier s_results s_visited].
  - apply keep_length; lia.
  - intros x [Hx|Hx].
    + unfold frontier_push in Hx. rewrite heap_push_perm in Hx. apply elem_of_cons in Hx as [->|Hx]; auto.
    + apply keep_subset, elem_of_cons in Hx as [->|Hx]; auto.
  - done.
  - apply NoDup_keep; [done|]. apply Hni. auto.
  - unfold frontier_push. change (NoDup (item_index <$> heap_push item_cmp item (s_frontier st))).
    rewrite heap_push_perm. constructor; [|done]. apply Hni. auto.
Qed.

Lemma spec_fold_ok ef ns st :
  1 <= ef -> Forall (in_graph g) ns -> spec_ok ef st -> spec_ok ef (fold_left (spec_neighbor ef) ns st).
Proof.
  intros He Hns. revert st. induction Hns as [|j ns Hj _ IH]; intros st Hst; cbn; [done|].
  by apply IH, spec_neighbor_ok.
Qed.

Lemma spec_pop_ok ef st c :
  heap_peek (s_frontier st) = Some c -> spec_ok ef st ->
  spec_ok ef (MkSpec (heap_pop (s_frontier st)) (s_results st) (s_visited st)).
Proof.
  intros Hc [Hr Hi Hv Hd Hf]. apply heap_peek_Some in Hc. constructor; cbn; try done.
  - intros x Hx. apply Hi. destruct Hx as [Hx|Hx]; [left|by right]. rewrite Hc. apply elem_of_app. by left.
  - eapply sublist_NoDup; [exact Hf|]. apply fmap_sublist, sublist_removelast.
Qed.

(** Pops left: the frontier plus the nodes not yet visited. *)
Definition work (st : SpecState) : Z := zlen (s_frontier st) + (node_count g - Z.of_nat (size (s_visited st))).

Lemma spec_neighbor_work ef st j : work (spec_neighbor ef st j) <= work st.
Proof.
  unfold spec_neighbor. destruct (decide _) as [Hin|Hin]; [lia|].
  assert (size ({[j]} ∪ s_visited st) = S (size (s_visited st))) as Hs by (rewrite size_union, size_singleton by set_solver; lia).
  destruct (keeps _ _ _); unfold work; cbn [s_frontier s_visited]; rewrite Hs; [|lia].
  assert (zlen (frontier_push (item_of avx2 g q j) (s_frontier st)) = 1 + zlen (s_frontier st)) as ->; [|lia].
  unfold zlen, frontier_push. rewrite heap_push_perm. cbn. lia.
Qed.

Lemma spec_fold_work ef ns st : work (fold_left (spec_neighbor ef) ns st) <= work st.
Proof.
  revert st. induction ns as [|j ns IH]; intros st; cbn; [lia|]. pose proof (IH (spec_neighbor ef st j)).
  pose proof (spec_neighbor_work ef st j). lia.
Qed.

Lemma spec_pop_work st c :
  heap_peek (s_frontier st) = Some c ->
  work (MkSpec (heap_pop (s_frontier st)) (s_results st) (s_visited st)) = work st - 1.
Proof.
  intros Hc%heap_peek_Some. unfold work. cbn. rewrite Hc at 2. rewrite zlen_app. unfold zlen. cbn. lia.
Qed.

Lemma work_nonneg ef st : spec_ok ef st -> 0 <= work st.
Proof.
  intros [_ _ Hv _ _]. unfold work. pose proof (zlen_nonneg (s_frontier st)).
  assert (size (s_visited st) <= length (nodes g))%nat; [|unfold node_count, zlen; lia].
  assert (s_visited st ⊆ list_to_set (seqZ 0 (node_count g))) as Hsub.
  { intros i Hi%Hv. apply elem_of_list_to_set, elem_of_seqZ. unfold in_graph in Hi. lia. }
  apply subseteq_size in Hsub. rewrite size_list_to_set in Hsub by apply NoDup_seqZ.
  rewrite length_seqZ in Hsub. unfold node_count, zlen in Hsub. lia.
Qed.
End Spec.

(** ** The code computes the specification *)

Section Refinement.
Context `{FloatEnv} (avx2 : bool) (g : HnswIndex) (q : VectorRef).
Context (Hg : graph_wf g) (Hq : kind_of (arena_storage (vectors g)) q).

Record represents (st : SearchState) (a : SpecState) : Prop := {
  r_frontier : frontier st = s_frontier a;
  r_results : results st = s_results a;
  r_workspace : ws_rep (workspace st) (length (nodes g)) (s_visited a)
}.

Lemma peek_some (l : list HeapItem) : 1 <= zlen l -> exists x, heap_peek l = Some x.
Proof.
  intros Hl. unfold heap_peek. destruct (last l) as [x|] eqn:E; [by exists x|]. apply last_None in E as ->. done.
Qed.

Lemma search_neighbor_refines ef st a j :
  1 <= ef -> in_graph g j -> represents st a -> spec_ok avx2 g q ef a ->
  returns (search_neighbor avx2 g q ef st j) (fun st' => represents st' (spec_neighbor avx2 g q ef a j)).
Proof.
  intros He Hj [Hf Hr Hw] Hok. unfold search_neighbor, spec_neighbor.
  destruct (visit_rep _ _ _ j Hw) as ([fresh ws] & -> & Hfr & Hws); [exact Hj|]. cbn [rbind fst snd] in *. subst fresh.
  destruct (decide (j ∈ s_visited a)) as [Hin|Hin].
  { rewrite bool_decide_eq_true_2 by done. cbn [negb]. apply returns_ok.
    assert ({[j]} ∪ s_visited a = s_visited a) as E by set_solver. rewrite E in Hws. by constructor. }
  rewrite bool_decide_eq_false_2 by done. cbn [negb]. rewrite (score_ok avx2 g q j) by done. cbn [rbind].
  unfold offer. rewrite Hf, Hr. change (MkItem j (score_of avx2 g q j)) with (item_of avx2 g q j).
  destruct (peek_some (s_results a)) as [worst Hwst]; [by destruct (so_results _ _ _ _ _ Hok)|].
  unfold keeps, expect_peek. rewrite Hwst.
  destruct (_ <? _); cbn [orb rbind]; [apply returns_ok; by constructor|].
  destruct (item_cmp _ _); apply returns_ok; by constructor.
Qed.

Lemma search_fold_refines ef ns st a :
  1 <= ef -> Forall (in_graph g) ns -> represents st a -> spec_ok avx2 g q ef a ->
  returns (foldM_result (search_neighbor avx2 g q ef) st ns)
    (fun st' => represents st' (fold_left (spec_neighbor avx2 g q ef) ns a)).
Proof.
  intros He Hns. revert st a. induction Hns as [|j ns Hj _ IH]; intros st a Hr Hok; cbn; [by apply returns_ok|].
  destruct (search_neighbor_refines ef st a j He Hj Hr Hok) as (st' & -> & Hr'). cbn.
  apply IH; [done|]. by apply spec_neighbor_ok.
Qed.

Lemma adjacent_ok i layer : in_graph g i -> 0 <= layer ->
  neighbors g i layer = Ok (adjacent g i layer) /\ Forall (fun j => in_graph g j /\ j <> i) (adjacent g i layer).
Proof.
  intros Hi Hl. destruct (wf_neighbors g Hg i layer Hi Hl) as (ns & E & Hns). unfold adjacent. by rewrite E.
Qed.

Lemma search_loop_refines fuel ef layer st a :
  1 <= ef -> 0 <= layer -> represents st a -> spec_ok avx2 g q ef a -> work g a < Z.of_nat fuel ->
  returns (search_loop avx2 fuel g q ef layer st)
    (fun st' => represents st' (spec_loop avx2 g q fuel ef layer a)).
Proof.
  intros He Hl. revert st a. induction fuel as [|fuel IH]; intros st a Hr Hok Hfuel.
  { pose proof (work_nonneg avx2 g q ef a Hok). lia. }
  cbn [search_loop spec_loop]. destruct Hr as [Hf Hrs Hw]. rewrite Hf.
  destruct (heap_peek (s_frontier a)) as [c|] eqn:Ec; [|apply returns_ok; by constructor].
  cbn [results workspace s_results s_visited]. rewrite Hrs.
  destruct (peek_some (s_results a)) as [worst Hwst]; [by destruct (so_results _ _ _ _ _ Hok)|].
  unfold expect_peek, stops. cbn [s_results]. rewrite Hwst. cbn [rbind].
  destruct (_ && _); [apply returns_ok; by constructor|].
  assert (in_graph g (item_index c)) as Hc.
  { apply heap_peek_Some in Ec. apply (so_items _ _ _ _ _ Hok). left. rewrite Ec. apply elem_of_app. right. left. }
  destruct (adjacent_ok (item_index c) layer Hc Hl) as [-> Hadj]. cbn [rbind].
  set (a' := MkSpec (heap_pop (s_frontier a)) (s_results a) (s_visited a)).
  assert (spec_ok avx2 g q ef a') as Hok' by (by eapply spec_pop_ok).
  assert (Forall (in_graph g) (adjacent g (item_index c) layer)) as Hin.
  { eapply Forall_impl; [exact Hadj|]. by intros ? [? _]. }
  destruct (search_fold_refines ef (adjacent g (item_index c) layer)
    (MkSearch (heap_pop (s_frontier a)) (s_results a) (workspace st)) a' He Hin) as (st' & -> & Hr').
  { by constructor. } { done. }
  cbn [rbind]. apply IH; [done|by apply spec_fold_ok|].
  pose proof (spec_fold_work avx2 g q ef (adjacent g (item_index c) layer) a').
  pose proof (spec_pop_work g a c Ec) as Hp. fold a' in Hp. lia.
Qed.

Lemma sort_items_ok items :
  Forall (fun x => in_graph g (item_index x)) items ->
  sort_items g items = Ok (sort_by (cmp_on (item_key g) compare_scored) items).
Proof.
  intros Hi. unfold sort_items. destruct (Z.leb_spec (zlen items) 1) as [Hl|Hl].
  { destruct items as [|x [|y items]]; [done|done|]. rewrite !zlen_cons in Hl. pose proof (zlen_nonneg items). lia. }
  assert (mapM_result (fun item => let? key := node_key g (item_score item) (item_index item) in Ok (key, item)) items
    = Ok (map (fun x => (item_key g x, x)) items)) as ->.
  { apply mapM_result_ok. clear Hl. induction Hi as [|x l Hx _ IH]; cbn; [constructor|]. constructor; [by rewrite node_key_ok|done]. }
  cbn [rbind]. f_equal. rewrite <- map_sort_by, map_map. cbn. apply map_id.
Qed.

Lemma spec_loop_ok fuel ef layer a :
  1 <= ef -> 0 <= layer -> spec_ok avx2 g q ef a -> spec_ok avx2 g q ef (spec_loop avx2 g q fuel ef layer a).
Proof.
  intros He Hl. revert a. induction fuel as [|fuel IH]; intros a Hok; [done|]. cbn [spec_loop].
  destruct (heap_peek (s_frontier a)) as [c|] eqn:Ec; [|done]. pose proof (spec_pop_ok _ _ _ _ _ c Ec Hok) as Hok'.
  destruct (stops _ _ _); [done|]. apply IH, spec_fold_ok; [done| |done].
  assert (in_graph g (item_index c)) as Hc.
  { apply heap_peek_Some in Ec. apply (so_items _ _ _ _ _ Hok). left. rewrite Ec. apply elem_of_app. right. left. }
  destruct (adjacent_ok (item_index c) layer Hc Hl) as [_ Hadj]. eapply Forall_impl; [exact Hadj|]. by intros ? [? _].
Qed.

Definition spec_start (entry : Z) : SpecState :=
  MkSpec [item_of avx2 g q entry] [item_of avx2 g q entry] {[entry]}.

Lemma spec_start_ok entry ef : 1 <= ef -> in_graph g entry -> spec_ok avx2 g q ef (spec_start entry).
Proof.
  intros He Hen. constructor; cbn; try by (constructor; [by intros ?%not_elem_of_nil|constructor]).
  - unfold zlen. cbn. lia.
  - intros x [->%list_elem_of_singleton| ->%list_elem_of_singleton]; cbn; split_and!; (set_solver || done).
  - by intros i ->%elem_of_singleton.
Qed.

(** The state a layer search ends in. *)
Definition spec_end (entry ef layer : Z) : SpecState :=
  spec_loop avx2 g q (S (length (nodes g))) ef layer (spec_start entry).

Lemma spec_end_ok entry ef layer :
  1 <= ef -> 0 <= layer -> in_graph g entry -> spec_ok avx2 g q ef (spec_end entry ef layer).
Proof. intros He Hl Hen. apply spec_loop_ok; [done|done|]. by apply spec_start_ok. Qed.

Lemma search_layer_ok entry ef layer ws :
  1 <= ef -> 0 <= layer -> in_graph g entry -> ws_valid ws ->
  returns (search_layer avx2 g q entry ef layer ws)
    (fun r => r.1 = spec_search avx2 g q entry ef layer /\ ws_valid r.2).
Proof.
  intros He Hl Hen Hws. unfold search_layer. rewrite (score_ok avx2 g q entry) by done. cbn [rbind].
  pose proof (begin_rep ws (length (nodes g)) Hws) as Hb.
  destruct (visit_rep _ _ _ entry Hb) as ([fresh ws1] & -> & _ & Hws1); [exact Hen|]. cbn [rbind fst snd] in *.
  rewrite union_empty_r_L in Hws1. change (MkItem entry (score_of avx2 g q entry)) with (item_of avx2 g q entry).
  assert (work g (spec_start entry) < Z.of_nat (S (length (nodes g)))) as Hwork.
  { unfold work, spec_start. cbn [s_frontier s_visited]. rewrite size_singleton. unfold node_count, zlen. cbn. lia. }
  destruct (search_loop_refines (S (length (nodes g))) ef layer
    (MkSearch [item_of avx2 g q entry] [item_of avx2 g q entry] ws1) (spec_start entry) He Hl)
    as (st' & -> & [Hf Hr Hw]); [by constructor|by apply spec_start_ok|done|].
  cbn [rbind]. rewrite Hr. rewrite sort_items_ok; cbn [rbind]; [apply returns_ok; split; [done|apply Hw]|].
  apply Forall_forall. intros x Hx. by apply (so_items _ _ _ _ _ (spec_end_ok entry ef layer He Hl Hen)); right.
Qed.
End Refinement.

(** ** Exhaustive searches *)

Section Exhaustive.
Context `{FloatEnv} (avx2 : bool) (g : HnswIndex) (q : VectorRef).
Context (Hg : graph_wf g) (Hq : kind_of (arena_storage (vectors g)) q).

Inductive reach (layer : Z) (i : Z) : Z -> Prop :=
| reach_refl : reach layer i i
| reach_step j k : reach layer i j -> k ∈ adjacent g j layer -> reach layer i k.

(** With room for every node nothing visited is dropped, and every node taken
    off the frontier has its neighbours visited. *)
Record complete (layer : Z) (st : SpecState) : Prop := {
  c_results : forall i, i ∈ s_visited st -> i ∈ map item_index (s_results st);
  c_closed : forall i, i ∈ s_visited st ->
    i ∈ map item_index (s_frontier st) \/ forall j, j ∈ adjacent g i layer -> j ∈ s_visited st
}.

Lemma results_room ef st : node_count g <= ef -> spec_ok avx2 g q ef st ->
  forall j, in_graph g j -> j ∉ s_visited st -> zlen (s_results st) < ef.
Proof.
  intros He [Hr Hi Hv Hd Hf] j Hj Hn.
  assert (map item_index (s_results st) ⊆+ filter (fun i => i <> j) (seqZ 0 (node_count g))) as Hsub.
  { apply NoDup_submseteq; [done|]. intros i (x & -> & Hx)%list_elem_of_fmap.
    destruct (Hi x (or_intror Hx)) as (_ & Hxv & Hxg). apply list_elem_of_filter. split; [by intros <-|].
    apply elem_of_seqZ. unfold in_graph in Hxg. lia. }
  apply submseteq_length in Hsub. rewrite length_map in Hsub.
  assert (length (filter (fun i => i <> j) (seqZ 0 (node_count g))) < length (seqZ 0 (node_count g)))%nat as Hlt.
  { apply (length_filter_lt _ _ j); [|by intros ?]. apply elem_of_seqZ. unfold in_graph in Hj. lia. }
  rewrite length_seqZ in Hlt. unfold zlen, node_count in *. lia.
Qed.

Lemma keep_room ef item rs : zlen rs < ef -> keep ef item rs = results_push item rs.
Proof.
  intros Hr. unfold keep. assert (zlen (results_push item rs) = 1 + zlen rs) as ->.
  { unfold zlen, results_push. rewrite heap_push_perm. cbn. lia. }
  by rewrite (proj2 (Z.ltb_ge _ _)) by lia.
Qed.

Lemma in_push_index (cmp : HeapItem -> HeapItem -> comparison) x l i :
  i ∈ map item_index (heap_push cmp x l) <-> i = item_index x \/ i ∈ map item_index l.
Proof.
  change (map item_index ?h) with (item_index <$> h). rewrite heap_push_perm. cbn. by rewrite elem_of_cons.
Qed.

Lemma spec_neighbor_complete ef layer st j (P : Z -> Prop) :
  node_count g <= ef -> in_graph g j -> spec_ok avx2 g q ef st ->
  (forall i, i ∈ s_visited st -> i ∈ map item_index (s_results st)) ->
  (forall i, i ∈ s_visited st -> i ∈ map item_index (s_frontier st) \/ P i \/
             forall k, k ∈ adjacent g i layer -> k ∈ s_visited st) ->
  let st' := spec_neighbor avx2 g q ef st j in
  (forall i, i ∈ s_visited st' -> i ∈ map item_index (s_results st')) /\
  (forall i, i ∈ s_visited st' -> i ∈ map item_index (s_frontier st') \/ P i \/
             forall k, k ∈ adjacent g i layer -> k ∈ s_visited st') /\
  j ∈ s_visited st' /\ s_visited st ⊆ s_visited st'.
Proof.
  intros He Hj Hok H1 H2. unfold spec_neighbor. destruct (decide _) as [Hin|Hin]; [done|].
  pose proof (results_room ef st He Hok j Hj Hin) as Hroom.
  unfold keeps. rewrite (proj2 (Z.ltb_lt _ _) Hroom). cbn [orb s_visited s_results s_frontier]. cbv zeta.
  rewrite keep_room by done. split_and!; [| |set_solver|set_solver].
  - intros i Hi. apply in_push_index. cbn. apply elem_of_union in Hi as [->%elem_of_singleton|Hi]; auto.
  - intros i Hi. unfold frontier_push. rewrite in_push_index. cbn.
    apply elem_of_union in Hi as [->%elem_of_singleton|Hi]; [by left; left|].
    destruct (H2 i Hi) as [?|[?|Hk]]; auto. right. right. intros k Hkk. specialize (Hk k Hkk). set_solver.
Qed.

Lemma spec_fold_complete ef layer ns st (P : Z -> Prop) :
  node_count g <= ef -> 1 <= ef -> Forall (in_graph g) ns -> spec_ok avx2 g q ef st ->
  (forall i, i ∈ s_visited st -> i ∈ map item_index (s_results st)) ->
  (forall i, i ∈ s_visited st -> i ∈ map item_index (s_frontier st) \/ P i \/
             forall k, k ∈ adjacent g i layer -> k ∈ s_visited st) ->
  let st' := fold_left (spec_neighbor avx2 g q ef) ns st in
  (forall i, i ∈ s_visited st' -> i ∈ map item_index (s_results st')) /\
  (forall i, i ∈ s_visited st' -> i ∈ map item_index (s_frontier st') \/ P i \/
             forall k, k ∈ adjacent g i layer -> k ∈ s_visited st') /\
  (forall j, j ∈ ns -> j ∈ s_visited st') /\ s_visited st ⊆ s_visited st'.
Proof.
  intros He H1e Hns. revert st. induction Hns as [|j ns Hj _ IH]; intros st Hok H1 H2; cbn [fold_left].
  { split_and!; [done|done|by intros j ?%not_elem_of_nil|done]. }
  destruct (spec_neighbor_complete ef layer st j P He Hj Hok H1 H2) as (A1 & A2 & A3 & A4).
  destruct (IH _ (spec_neighbor_ok avx2 g q ef st j H1e Hj Hok) A1 A2) as (B1 & B2 & B3 & B4).
  split_and!; [done|done| |set_solver]. intros k [->|Hk]%elem_of_cons; [by apply B4|by apply B3].
Qed.

Lemma spec_loop_complete fuel ef layer st :
  node_count g <= ef -> 1 <= ef -> 0 <= layer -> spec_ok avx2 g q ef st -> complete layer st ->
  work g st < Z.of_nat fuel ->
  let st' := spec_loop avx2 g q fuel ef layer st in
  (forall i, i ∈ s_visited st' -> i ∈ map item_index (s_results st')) /\
  ((forall i j, i ∈ s_visited st' -> j ∈ adjacent g i layer -> j ∈ s_visited st') \/
   forall i, in_graph g i -> i ∈ s_visited st') /\ s_visited st ⊆ s_visited st'.
Proof.
  intros He H1e Hl. revert st. induction fuel as [|fuel IH]; intros st Hok [C1 C2] Hf.
  { pose proof (work_nonneg avx2 g q ef st Hok). lia. }
  cbn [spec_loop]. destruct (heap_peek (s_frontier st)) as [c|] eqn:Ec.
  2: { assert (s_frontier st = []) as E by (unfold heap_peek in Ec; by apply last_None in Ec).
       split_and!; [done| |done]. left. intros i j Hi. destruct (C2 i Hi) as [Hn|Hk]; [|by apply Hk].
       rewrite E in Hn. by apply not_elem_of_nil in Hn. }
  pose proof (spec_pop_ok _ _ _ _ _ c Ec Hok) as Hok'. set (st1 := MkSpec _ _ _) in *.
  destruct (stops ef c (s_results st1)) eqn:Estop.
  { split_and!; [done| |done]. right. intros i Hi. destruct (decide (i ∈ s_visited st)) as [|Hn]; [done|].
    pose proof (results_room ef st He Hok i Hi Hn). unfold stops in Estop. cbn [s_results st1] in Estop.
    destruct (heap_peek (s_results st)); [|done]. apply andb_true_iff in Estop as [Es _]. lia. }
  apply heap_peek_Some in Ec as Efr.
  assert (in_graph g (item_index c)) as Hc.
  { apply (so_items _ _ _ _ _ Hok). left. rewrite Efr. apply elem_of_app. right. left. }
  destruct (adjacent_ok g Hg (item_index c) layer Hc Hl) as [_ Hadj].
  assert (Forall (in_graph g) (adjacent g (item_index c) layer)) as Hin.
  { eapply Forall_impl; [exact Hadj|]. by intros ? [? _]. }
  destruct (spec_fold_complete ef layer (adjacent g (item_index c) layer) st1 (fun i => i = item_index c)
    He H1e Hin Hok' C1) as (A1 & A2 & A3 & A4).
  { intros i Hi. destruct (C2 i Hi) as [Hn|Hk]; [|by right; right]. rewrite Efr, map_app in Hn.
    apply elem_of_app in Hn as [Hn| ->%list_elem_of_singleton]; [by left|by right; left]. }
  edestruct IH as (B1 & B2 & B3); [by apply spec_fold_ok, Hok'| | |split_and!; [exact B1|exact B2|]].
  - constructor; [exact A1|]. intros i Hi. destruct (A2 i Hi) as [?|[-> |?]]; auto.
  - pose proof (spec_fold_work avx2 g q ef (adjacent g (item_index c) layer) st1).
    pose proof (spec_pop_work g st c Ec) as Hp. fold st1 in Hp. lia.
  - etransitivity; [exact A4|exact B3].
Qed.

(** Every node reachable from the entry is in the result. *)
Lemma spec_end_reaches entry ef layer i :
  node_count g <= ef -> 0 <= layer -> in_graph g entry -> reach layer entry i ->
  i ∈ map item_index (s_results (spec_end avx2 g q entry ef layer)).
Proof.
  intros He Hl Hen Hr. assert (1 <= ef) as H1e by (unfold in_graph in Hen; lia).
  destruct (spec_loop_complete (S (length (nodes g))) ef layer (spec_start avx2 g q entry) He H1e Hl)
    as (A1 & A2 & A3).
  - by apply spec_start_ok.
  - constructor; cbn; intros k ->%elem_of_singleton; [by left|by left; left].
  - unfold work, spec_start. cbn [s_frontier s_visited]. rewrite size_singleton. unfold node_count, zlen. cbn. lia.
  - apply A1. fold (spec_end avx2 g q entry ef layer) in *.
    assert (in_graph g i /\ i ∈ s_visited (spec_end avx2 g q entry ef layer)) as [_ ?]; [|done].
    induction Hr as [|j k Hr [IHg IH] Hk].
    + split; [done|]. apply A3. cbn. by apply elem_of_singleton.
    + assert (in_graph g k) as Hkg.
      { destruct (adjacent_ok g Hg j layer IHg Hl) as [_ Hadj]. eapply Forall_forall in Hadj; [|exact Hk]. by destruct Hadj. }
      split; [done|]. destruct A2 as [A2|A2]; [by eapply A2|by apply A2].
Qed.
End Exhaustive.

(** ** The whole search *)

Section Search.
Context `{FloatEnv} (avx2 : bool).

Lemma prepared_kind v s : kind_of s (prepared_vector avx2 v s).
Proof. by destruct s. Qed.

Lemma take_workspace_valid pool :
  Forall ws_valid pool -> ws_valid (take_search_workspace pool).1 /\ Forall ws_valid (take_search_workspace pool).2.
Proof.
  intros Hp. unfold take_search_workspace. destruct (last pool) as [ws|] eqn:E; cbn.
  - apply last_Some in E as [l ->]. rewrite removelast_last. apply Forall_app in Hp as [? Hw].
    split; [by apply Forall_inv in Hw|done].
  - split; [apply workspace_new_valid|done].
Qed.

Lemma return_workspace_valid pool ws :
  Forall ws_valid pool -> ws_valid ws -> Forall ws_valid (return_search_workspace pool ws).
Proof. intros. unfold return_search_workspace. destruct (_ <? _); [|done]. apply Forall_app. split; [done|]. constructor; [done|constructor]. Qed.

Definition to_hit (g : HnswIndex) (x : HeapItem) : HnswHit := MkHnswHit (id_of g (item_index x)) (item_score x).

Lemma search_items_ok g q entry ef layer x :
  graph_wf g -> kind_of (arena_storage (vectors g)) q -> 1 <= ef -> 0 <= layer -> in_graph g entry ->
  x ∈ spec_search avx2 g q entry ef layer -> x = item_of avx2 g q (item_index x) /\ in_graph g (item_index x).
Proof.
  intros Hg Hq He Hl Hen Hx. unfold spec_search in Hx. rewrite elem_of_sort_by in Hx.
  destruct (so_items _ _ _ _ _ (spec_end_ok avx2 g q Hg Hq entry ef layer He Hl Hen) x (or_intror Hx)) as (? & _ & ?). done.
Qed.

Lemma descent_ok g q entry top :
  graph_wf g -> kind_of (arena_storage (vectors g)) q -> in_graph g entry ->
  returns (foldM_result (greedy_closest avx2 g q) entry (descending 1 top)) (in_graph g).
Proof.
  intros Hg Hq Hen. apply returns_fold; [done|]. intros c layer Hlayer Hc.
  eapply returns_mono; [apply greedy_closest_ok; [done|done|done|]|by intros ? [? _]].
  unfold descending in Hlayer. rewrite <- in_rev in Hlayer || rewrite list_elem_of_In, <- in_rev, <- list_elem_of_In in Hlayer.
  apply elem_of_seqZ in Hlayer. lia.
Qed.

(** One search: the answer does not depend on the workspaces. *)
Lemma search_core g query k ef q e :
  graph_wf g -> 0 < k <= ef -> zlen query = graph_dimension g -> prepare (graph_metric g) query = Ok q ->
  entry_point g = Some e ->
  let qv := prepared_vector avx2 q (arena_storage (vectors g)) in
  exists current, in_graph g current /\
    foldM_result (greedy_closest avx2 g qv) e (descending 1 (max_level g)) = Ok current /\
    forall pool, Forall ws_valid pool -> exists pool', Forall ws_valid pool' /\
      search avx2 g query k ef pool =
        Ok (map (to_hit g) (truncate k (spec_search avx2 g qv current ef 0)), pool').
Proof.
  intros Hg Hk Hd Hq He. cbv zeta. set (qv := prepared_vector avx2 q _).
  pose proof (prepared_kind q (arena_storage (vectors g))) as Hkind. fold qv in Hkind.
  pose proof (wf_entry g Hg) as Hen. rewrite He in Hen.
  destruct (descent_ok g qv e (max_level g) Hg Hkind Hen) as (current & Ec & Hc). exists current.
  split_and!; [done|done|]. intros pool Hpool. destruct (take_workspace_valid pool Hpool) as [Hw Hp].
  unfold search. rewrite (proj2 (Z.eqb_neq k 0)) by lia. rewrite (proj2 (Z.ltb_ge ef k)) by lia.
  rewrite Hd, Z.eqb_refl. cbn [negb]. rewrite Hq. cbn [rbind]. rewrite He. fold qv. rewrite Ec. cbn [rbind].
  destruct (take_search_workspace pool) as [ws pool1]. cbn [fst snd] in *.
  destruct (search_layer_ok avx2 g qv Hg Hkind current ef 0 ws) as ([items ws'] & -> & Ei & Hws'); [lia|lia|done|done|].
  cbn [rbind fst snd] in *. subst items. exists (return_search_workspace pool1 ws').
  split; [by apply return_workspace_valid|].
  assert (mapM_result (hnsw_hit g) (truncate k (spec_search avx2 g qv current ef 0)) =
    Ok (map (to_hit g) (truncate k (spec_search avx2 g qv current ef 0)))) as ->; [|done].
  apply mapM_result_ok, Forall2_fmap_r, Forall_Forall2_diag, Forall_forall. intros x Hx%elem_of_truncate.
  destruct (search_items_ok g qv current ef 0 x Hg Hkind) as [_ Hx']; [lia|lia|done|done|].
  unfold hnsw_hit. by rewrite (id_ok g _ Hg Hx').
Qed.

(** The score a node's stored vector has for a query. *)
Definition true_score (g : HnswIndex) (q : list Z) (h : HnswHit) : Prop :=
  exists i v, ids g !! Z.to_nat i = Some (hit_id h) /\ in_graph g i /\ vector g i = Ok v /\
    score_vectors avx2 (graph_metric g) (prepared_vector avx2 q (arena_storage (vectors g))) v = Ok (hit_score h).

Lemma true_score_item g q i :
  graph_wf g -> in_graph g i ->
  true_score g q (to_hit g (item_of avx2 g (prepared_vector avx2 q (arena_storage (vectors g))) i)).
Proof.
  intros Hg Hi. destruct (wf_vectors g Hg i Hi) as (v & Ev & _). exists i, v.
  pose proof (id_ok g i Hg Hi) as Hid. apply index_Ok in Hid as [_ Hid]. split_and!; [done|done|done|].
  pose proof (score_ok avx2 g _ i Hg (prepared_kind q _) Hi) as Hs. unfold score in Hs. by rewrite Ev in Hs.
Qed.

(** Hits in result order: better score first, ties by identifier. *)
Definition hnsw_hit_lt (a b : HnswHit) : Prop :=
  compare_scored (hit_score a, hit_id a) (hit_score b, hit_id b) = Lt.

Lemma NoDup_spec_search g q entry ef layer :
  graph_wf g -> kind_of (arena_storage (vectors g)) q -> 1 <= ef -> 0 <= layer -> in_graph g entry ->
  NoDup (map item_index (spec_search avx2 g q entry ef layer)).
Proof.
  intros Hg Hq He Hl Hen. unfold spec_search. rewrite (fmap_Permutation item_index _ _ (sort_by_perm _ _)).
  apply (so_distinct _ _ _ _ _ (spec_end_ok avx2 g q Hg Hq entry ef layer He Hl Hen)).
Qed.

Lemma hits_sorted g l :
  graph_wf g -> Forall (fun x => in_graph g (item_index x)) l -> NoDup (map item_index l) ->
  StronglySorted (le_by (cmp_on (item_key g) compare_scored)) l -> StronglySorted hnsw_hit_lt (map (to_hit g) l).
Proof.
  intros Hg Hin Hn Hs. induction Hs as [|x l Hs IH Hx]; cbn; [constructor|].
  apply Forall_cons in Hin as [Hix Hin]. apply NoDup_cons in Hn as [Hni Hn]. constructor; [by apply IH|].
  apply Forall_fmap, Forall_forall. intros y Hy. cbn. eapply Forall_forall in Hx; [|exact Hy].
  unfold le_by, cmp_on in Hx. unfold hnsw_hit_lt. cbn. unfold item_key in Hx.
  destruct (compare_scored _ _) eqn:E; try done. apply compare_scored_eq in E. cbn in E.
  eapply Forall_forall in Hin; [|exact Hy]. apply id_of_inj in E; [|done..]. destruct Hni.
  rewrite E. by apply list_elem_of_fmap_2.
Qed.

Lemma hnsw_search_sound g query k ef q :
  graph_wf g -> 0 < k <= ef -> zlen query = graph_dimension g -> prepare (graph_metric g) query = Ok q ->
  exists hits,
    (forall pool, Forall ws_valid pool ->
       exists pool', Forall ws_valid pool' /\ search avx2 g query k ef pool = Ok (hits, pool')) /\
    zlen hits <= k /\ NoDup (map hit_id hits) /\ StronglySorted hnsw_hit_lt hits /\
    Forall (true_score g q) hits.
Proof.
  intros Hg Hk Hd Hq. destruct (entry_point g) as [e|] eqn:He.
  2: { exists []. split; [|split_and!; [unfold zlen; cbn; lia|constructor..]]. intros pool Hp. exists pool. split; [done|].
       unfold search. rewrite (proj2 (Z.eqb_neq k 0)), (proj2 (Z.ltb_ge ef k)) by lia.
       by rewrite Hd, Z.eqb_refl, Hq; cbn; rewrite He. }
  destruct (search_core g query k ef q e Hg Hk Hd Hq He) as (current & Hc & _ & Hpool).
  set (qv := prepared_vector avx2 q _) in *. pose proof (prepared_kind q (arena_storage (vectors g))) as Hkind.
  set (items := truncate k (spec_search avx2 g qv current ef 0)) in *.
  assert (Forall (fun x => x = item_of avx2 g qv (item_index x) /\ in_graph g (item_index x)) items) as Hitems.
  { apply Forall_forall. intros x Hx%elem_of_truncate. apply (search_items_ok g qv current ef 0); (done || lia). }
  assert (NoDup (map item_index items)) as Hn.
  { eapply sublist_NoDup; [apply (NoDup_spec_search g qv current ef 0); (done || lia)|].
    apply fmap_sublist. unfold items, truncate. apply sublist_take. }
  assert (StronglySorted hnsw_hit_lt (map (to_hit g) items)) as Hs.
  { apply hits_sorted; [done| |done|unfold items, truncate, spec_search; apply sorted_take, sort_by_sorted, _].
    eapply Forall_impl; [exact Hitems|]. by intros ? [_ ?]. }
  exists (map (to_hit g) items). split_and!; [done| | |done|].
  - unfold items, truncate, zlen. rewrite length_map, firstn_length. lia.
  - rewrite map_map. change (NoDup (id_of g ∘ item_index <$> items)).
    rewrite list_fmap_compose. apply NoDup_fmap_2_strong; [|done].
    intros i j (x & -> & Hx)%list_elem_of_fmap (y & -> & Hy)%list_elem_of_fmap E.
    eapply Forall_forall in Hx, Hy; try exact Hitems. by apply id_of_inj in E; [|done|destruct Hx|destruct Hy].
  - apply Forall_fmap. eapply Forall_impl; [exact Hitems|]. intros x [-> Hx]. by apply true_score_item.
Qed.

(** C33 (hnsw_search_correct). On a well-formed graph, a valid query of a
    positive [k] at most [ef] returns - terminating, without panic - at most [k]
    distinct nodes, in strict result order, each with the score of its stored
    vector; the hits are the same whatever idle workspaces the pool holds, and
    the pool stays valid. *)
Theorem hnsw_search_correct g query k ef q :
  graph_wf g -> 0 < k <= ef -> zlen query = graph_dimension g -> prepare (graph_metric g) query = Ok q ->
  exists hits,
    (forall pool, Forall ws_valid pool ->
       exists pool', Forall ws_valid pool' /\ search avx2 g query k ef pool = Ok (hits, pool')) /\
    zlen hits <= k /\ NoDup (map hit_id hits) /\ StronglySorted hnsw_hit_lt hits /\
    Forall (true_score g q) hits.
Proof. apply hnsw_search_sound. Qed.

(** Every node, best first. *)
Definition all_hits (g : HnswIndex) (q : list Z) : list HnswHit :=
  map (fun i => to_hit g (item_of avx2 g (prepared_vector avx2 q (arena_storage (vectors g))) i))
    (seqZ 0 (node_count g)).

Lemma spec_search_all g q entry ef :
  graph_wf g -> kind_of (arena_storage (vectors g)) q -> in_graph g entry -> node_count g <= ef ->
  (forall i, in_graph g i -> reach g 0 entry i) ->
  spec_search avx2 g q entry ef 0 =
    sort_by (cmp_on (item_key g) compare_scored) (map (item_of avx2 g q) (seqZ 0 (node_count g))).
Proof.
  intros Hg Hq Hen Hef Hreach. assert (1 <= ef) as H1 by (unfold in_graph in Hen; lia).
  unfold spec_search. fold (spec_start avx2 g q entry). fold (spec_end avx2 g q entry ef 0).
  pose proof (spec_end_ok avx2 g q Hg Hq entry ef 0 H1 ltac:(lia) Hen) as [_ Hi _ Hd _].
  assert (forall x, x ∈ s_results (spec_end avx2 g q entry ef 0) ->
    x ∈ map (item_of avx2 g q) (seqZ 0 (node_count g))) as Hsub.
  { intros x Hx. destruct (Hi x (or_intror Hx)) as (Ex & _ & Hxg). rewrite Ex.
    apply list_elem_of_fmap_2, elem_of_seqZ. unfold in_graph in Hxg. lia. }
  apply sort_by_perm_eq; [apply _| |].
  - intros x y Hx%Hsub Hy%Hsub E. apply list_elem_of_fmap in Hx as (i & -> & Hix), Hy as (j & -> & Hjy).
    apply elem_of_seqZ in Hix, Hjy. apply compare_scored_eq in E. cbn in E.
    apply id_of_inj in E; [by subst|done|unfold in_graph; lia..].
  - apply NoDup_Permutation; [by eapply NoDup_fmap_1| |].
    + apply NoDup_fmap_2_strong; [|apply NoDup_seqZ]. intros i j _ _ E. by injection E.
    + intros x. split; [apply Hsub|]. intros (i & -> & Hix%elem_of_seqZ)%list_elem_of_fmap.
      assert (in_graph g i) as Hig by (unfold in_graph; lia).
      pose proof (spec_end_reaches avx2 g q Hg Hq entry ef 0 i Hef ltac:(lia) Hen (Hreach i Hig)) as Hr.
      apply list_elem_of_fmap in Hr as (x & -> & Hx). destruct (Hi x (or_intror Hx)) as (Ex & _). by rewrite <- Ex.
Qed.

(** When the candidate list has room for every
    node and layer 0 connects all nodes, the graph search is exact: it returns
    the best [k] of all nodes by stored-vector score, ties by identifier. *)
Theorem hnsw_search_exhaustive g query k ef q pool :
  graph_wf g -> 0 < k <= ef -> zlen query = graph_dimension g -> prepare (graph_metric g) query = Ok q ->
  is_Some (entry_point g) -> node_count g <= ef -> Forall ws_valid pool ->
  (forall i j, in_graph g i -> in_graph g j -> reach g 0 i j) ->
  exists hits pool', search avx2 g query k ef pool = Ok (hits, pool') /\
    hits = truncate k (sort_by (cmp_on (fun h => (hit_score h, hit_id h)) compare_scored) (all_hits g q)).
Proof.
  intros Hg Hk Hd Hq [e He] Hef Hpool Hconn.
  destruct (search_core g query k ef q e Hg Hk Hd Hq He) as (current & Hc & _ & Hsearch).
  destruct (Hsearch pool Hpool) as (pool' & _ & Hs). eexists _, pool'. split; [exact Hs|].
  rewrite spec_search_all; [|done|apply prepared_kind|done|done|intros i Hi; by apply Hconn].
  unfold truncate. rewrite <- firstn_map. f_equal. unfold all_hits.
  rewrite <- (map_map (item_of avx2 g _) (to_hit g)). symmetry.
  apply (eq_sym (map_sort_by (to_hit g) (cmp_on (fun h => (hit_score h, hit_id h)) compare_scored) _)).
Qed.

(** C34 (greedy_closest_correct). The greedy descent terminates within one step
    per node, at a node of the graph that ranks at least as high as the start
    and that none of its neighbours in the layer improves on. *)
Theorem greedy_closest_correct g q start layer :
  graph_wf g -> kind_of (arena_storage (vectors g)) q -> in_graph g start -> 0 <= layer ->
  exists c, greedy_closest avx2 g q start layer = Ok c /\ in_graph g c /\
    compare_scored (key_of avx2 g q c) (key_of avx2 g q start) <> Gt /\
    exists ns, neighbors g c layer = Ok ns /\
      Forall (fun j => compare_scored (key_of avx2 g q c) (key_of avx2 g q j) <> Gt) ns.
Proof.
  intros Hg Hq Hs Hl. destruct (greedy_closest_ok avx2 g q Hg Hq start layer Hs Hl) as (c & Ec & Hc & Hb & ns & Ens & Hns).
  exists c. split; [done|]. split; [done|]. split.
  - destruct Hb as [->|Hb]; [by rewrite (cmp_refl compare_scored)|]. unfold better in Hb. by rewrite Hb.
  - exists ns. split; [done|]. eapply Forall_impl; [exact Hns|]. intros j Hj. by apply (cmp_not_lt_ge compare_scored).
Qed.
End Search.
