(* ===== verification/HnswCompact.v ===== *)
(** * HnswCompact: the flattened adjacency lists *)

From stdpp Require Import base gmap sets list strings sorting.
From Stdlib Require Import ZArith Lia.
From S2P Require Import Prelude Errors Floats Ranking Metric Codec Quantize Hnsw HnswFacts.

(** All layers of all nodes, in storage order. *)
Definition all_layers (ns : list Node) : list (list Z) := concat (map layers ns).
Definition layers_before (ns : list Node) (i : nat) : Z := zlen (all_layers (firstn i ns)).

Lemma wrap_u_small w z : 0 <= z < 2 ^ w -> wrap_u w z = z.
Proof. apply Z.mod_small. Qed.

Lemma u32_small z : 0 <= z <= U32_MAX -> wrap_u 32 z = z.
Proof. intros Hz. apply wrap_u_small. unfold U32_MAX in Hz. lia. Qed.

(** ** The counts *)

Lemma count_layers_spec {A} (ls : list (list A)) c0 :
  match fold_left (fun count l => count ≫= fun c => checked_add USIZE_MAX c (zlen l)) ls c0 with
  | Some c => exists c1, c0 = Some c1 /\ c = c1 + zlen (concat ls)
  | None => True
  end.
Proof.
  revert c0. induction ls as [|l ls IH]; intros c0; cbn [fold_left concat].
  { destruct c0 as [c|]; [|done]. exists c. unfold zlen. cbn. split; [done|lia]. }
  specialize (IH (c0 ≫= fun c => checked_add USIZE_MAX c (zlen l))).
  destruct (fold_left _ ls _) as [c|]; [|done]. destruct IH as (c1 & E & ->). destruct c0 as [c0|]; [|done].
  cbn in E. unfold checked_add in E. destruct (_ <=? _); [|done]. injection E as <-. exists c0.
  rewrite zlen_app. split; [done|lia].
Qed.

Lemma count_ranges_spec (ns : list Node) c : count_ranges ns = Some c -> c = zlen (all_layers ns).
Proof.
  unfold count_ranges. intros E.
  assert (fold_left (fun count l => count ≫= fun c => checked_add USIZE_MAX c (zlen l)) (map layers ns) (Some 0) = Some c) as E'.
  { rewrite <- E. generalize (Some 0). clear. induction ns as [|n ns IH]; intros c0; cbn; [done|]. apply IH. }
  pose proof (count_layers_spec (map layers ns) (Some 0)) as Hs. rewrite E' in Hs.
  destruct Hs as (c1 & [= <-] & ->). unfold all_layers. lia.
Qed.

Lemma count_links_spec ns c : count_links ns = Some c -> c = zlen (concat (all_layers ns)).
Proof.
  unfold count_links. intros E.
  assert (fold_left (fun count l => count ≫= fun c => checked_add USIZE_MAX c (zlen l)) (all_layers ns) (Some 0) = Some c) as E'.
  { rewrite <- E. generalize (Some 0). clear. unfold all_layers. induction ns as [|n ns IH]; intros c0; cbn; [done|].
    rewrite fold_left_app. apply IH. }
  pose proof (count_layers_spec (all_layers ns) (Some 0)) as Hs. rewrite E' in Hs.
  destruct Hs as (c1 & [= <-] & ->). lia.
Qed.

(** ** The fold *)

Lemma compact_layers_spec ls g0 :
  zlen (links g0 ++ concat ls) <= U32_MAX ->
  let g := fold_left compact_layer ls g0 in
  links g = links g0 ++ concat ls /\
  exists rs, ranges g = ranges g0 ++ rs /\ length rs = length ls /\
    forall t l, ls !! t = Some l ->
      rs !! t = Some (zlen (links g0 ++ concat (firstn t ls)), zlen (links g0 ++ concat (firstn t ls)) + zlen l).
Proof.
  revert g0. induction ls as [|l ls IH]; intros g0 Hb; cbn [fold_left].
  { cbn. rewrite app_nil_r. split; [done|]. exists []. rewrite app_nil_r. split_and!; [done|done|].
    intros t l. by rewrite lookup_nil. }
  cbn [concat] in Hb. rewrite app_assoc in Hb. pose proof Hb as Hb'. rewrite !zlen_app in Hb'.
  pose proof (zlen_nonneg (links g0)). pose proof (zlen_nonneg l). pose proof (zlen_nonneg (concat ls)).
  destruct (IH (compact_layer g0 l)) as (E1 & rs & E2 & E3 & E4); [exact Hb|]. cbn [compact_layer links ranges] in *.
  split; [rewrite E1; cbn; by rewrite app_assoc|].
  exists ((wrap_u 32 (zlen (links g0)), wrap_u 32 (zlen (links g0 ++ l))) :: rs). rewrite E2, <- app_assoc.
  split_and!; [done|cbn; by rewrite E3|]. intros [|t] l' Hl'; cbn in Hl'.
  - injection Hl' as <-. cbn. rewrite app_nil_r. rewrite !u32_small by (rewrite ?zlen_app; lia). by rewrite zlen_app.
  - change ((?x :: rs) !! S t) with (rs !! t). rewrite (E4 t l' Hl'). cbn [firstn concat].
    by rewrite !app_assoc.
Qed.

(** The nodes after compaction: where each one's ranges start. *)
Definition compacted (start : Z) (n : Node) : Node := MkNode (level n) start [].

Lemma compact_steps_spec l ns0 g0 :
  zlen (ranges g0) + zlen (all_layers l) <= U32_MAX -> zlen (links g0 ++ concat (all_layers l)) <= U32_MAX ->
  let '(ns, g) := fold_left compact_step l (ns0, g0) in
  ns = ns0 ++ imap (fun i n => compacted (zlen (ranges g0) + layers_before l i) n) l /\
  g = fold_left compact_layer (all_layers l) g0.
Proof.
  revert ns0 g0. induction l as [|n l IH]; intros ns0 g0 Hr Hl; [cbn; by rewrite app_nil_r|].
  change (all_layers (n :: l)) with (layers n ++ all_layers l) in *.
  rewrite zlen_app in Hr. rewrite concat_app, app_assoc in Hl. cbn [fold_left].
  pose proof (zlen_nonneg (ranges g0)). pose proof (zlen_nonneg (layers n)). pose proof (zlen_nonneg (all_layers l)).
  assert (zlen (links g0 ++ concat (layers n)) <= U32_MAX) as Hl0.
  { rewrite zlen_app in Hl. pose proof (zlen_nonneg (concat (all_layers l))). lia. }
  destruct (compact_layers_spec (layers n) g0 Hl0) as (E1 & rs & E2 & E3 & _).
  cbn [compact_step]. set (g1 := fold_left compact_layer (layers n) g0) in *.
  assert (zlen (ranges g1) = zlen (ranges g0) + zlen (layers n)) as Ez by (rewrite E2, zlen_app; unfold zlen; lia).
  specialize (IH (ns0 ++ [MkNode (level n) (wrap_u 32 (zlen (ranges g0))) []]) g1).
  rewrite Ez, E1 in IH. specialize (IH ltac:(lia) Hl).
  destruct (fold_left compact_step l _) as [ns g]. destruct IH as [-> ->].
  split; [|by rewrite fold_left_app]. rewrite <- app_assoc. f_equal. cbn [imap app]. f_equal.
  - unfold compacted, layers_before. cbn. rewrite u32_small by lia. f_equal. unfold zlen. cbn. lia.
  - apply imap_ext. intros i x _. cbn. f_equal. unfold layers_before. cbn [firstn].
    change (all_layers (n :: firstn i l)) with (layers n ++ all_layers (firstn i l)). rewrite zlen_app. lia.
Qed.

(** ** Reading the compact graph *)

Definition shape_ok (g : HnswIndex) : Prop :=
  Forall (fun n => 0 <= level n /\ zlen (layers n) = level n + 1) (nodes g).

Lemma finalize_spec g g' :
  compact_graph g = None -> finalize_compact_graph g = Ok g' ->
  zlen (all_layers (nodes g)) <= U32_MAX /\ zlen (concat (all_layers (nodes g))) <= U32_MAX /\
  g' = MkIndex (graph_dimension g) (graph_metric g) (graph_config g)
         (imap (fun i n => compacted (layers_before (nodes g) i) n) (nodes g)) (ids g) (vectors g)
         (entry_point g) (max_level g) (Some (fold_left compact_layer (all_layers (nodes g)) (MkCompact [] []))).
Proof.
  intros Hc E. unfold finalize_compact_graph in E. rewrite Hc in E. unfold overflow, ok_or in E.
  destruct (count_ranges (nodes g)) as [cr|] eqn:Er; [|done]. cbn [rbind] in E.
  destruct (count_links (nodes g)) as [cl|] eqn:El; [|done]. cbn [rbind] in E.
  apply count_ranges_spec in Er as ->. apply count_links_spec in El as ->.
  destruct (Z.ltb_spec U32_MAX (zlen (all_layers (nodes g)))); [done|].
  destruct (Z.ltb_spec U32_MAX (zlen (concat (all_layers (nodes g))))); [done|]. cbn [orb] in E.
  split_and!; [done|done|]. pose proof (compact_steps_spec (nodes g) [] (MkCompact [] [])) as Hs. cbn [ranges links app] in Hs.
  specialize (Hs ltac:(unfold zlen in *; cbn; lia) ltac:(done)).
  destruct (fold_left compact_step _ _) as [ns cg]. destruct Hs as [-> ->]. by injection E as <-.
Qed.

Lemma all_layers_lookup ns i n (t : nat) l :
  ns !! i = Some n -> layers n !! t = Some l -> all_layers ns !! (length (all_layers (firstn i ns)) + t)%nat = Some l.
Proof.
  intros (l1 & l2 & -> & ->)%list_elem_of_split_length Ht. rewrite take_app_length. unfold all_layers.
  rewrite map_app, concat_app. cbn [map concat]. rewrite lookup_app_r by lia.
  replace (length (concat (map layers l1)) + t - length (concat (map layers l1)))%nat with t by lia.
  rewrite lookup_app_l; [done|]. by eapply lookup_lt_Some.
Qed.

Lemma concat_slice (L : list (list Z)) t l :
  L !! t = Some l ->
  slice (E := Error) (concat L) (zlen (concat (firstn t L))) (zlen (concat (firstn t L)) + zlen l) = Ok l.
Proof.
  intros (l1 & l2 & -> & ->)%list_elem_of_split_length. rewrite take_app_length, concat_app.
  cbn [concat]. apply slice_app.
Qed.

Lemma finalize_neighbors g g' i layer :
  compact_graph g = None -> shape_ok g -> finalize_compact_graph g = Ok g' -> in_graph g i -> 0 <= layer ->
  neighbors g' i layer = neighbors g i layer.
Proof.
  intros Hc Hs E Hi Hl. destruct (finalize_spec g g' Hc E) as (Hr & Hk & ->).
  destruct (index_in (E := Error) (nodes g) i Hi) as (n & Ei & Hn).
  assert (index (E := Error) (imap (fun i n => compacted (layers_before (nodes g) i) n) (nodes g)) i =
    Ok (compacted (layers_before (nodes g) (Z.to_nat i)) n)) as Ei'.
  { unfold index. destruct Hi. rewrite decide_True by done. rewrite list_lookup_imap, Hn. done. }
  unfold neighbors. cbn [nodes compact_graph]. rewrite Ei, Ei', Hc. cbn [rbind compacted level range_start].
  destruct (Z.ltb_spec (level n) layer); [done|].
  eapply Forall_forall in Hs as [Hlev Hlen]; [|by eapply list_elem_of_lookup_2].
  destruct (layers n !! Z.to_nat layer) as [l|] eqn:El.
  2: { apply lookup_ge_None in El. unfold zlen in Hlen. lia. }
  destruct (compact_layers_spec (all_layers (nodes g)) (MkCompact [] []) Hk) as (E1 & rs & E2 & E3 & E4).
  cbn [links ranges app] in *. rewrite E1, E2.
  pose proof (all_layers_lookup _ _ _ _ _ Hn El) as Hlook.
  specialize (E4 _ _ Hlook).
  replace (layers_before (nodes g) (Z.to_nat i) + layer)
    with (Z.of_nat (length (all_layers (firstn (Z.to_nat i) (nodes g))) + Z.to_nat layer))
    by (unfold layers_before, zlen; lia).
  rewrite (index_lookup _ _ _ E4). cbn [rbind fst snd default from_option]. by apply concat_slice.
Qed.
