(* ===== verification/HnswCodecFacts.v ===== *)
(** * HnswCodecFacts: decoding produces well-formed graphs, or an error *)

From stdpp Require Import base gmap sets list strings sorting.
From Stdlib Require Import ZArith Lia.
From S2P Require Import Prelude Errors Floats Ranking Metric Codec Quantize Hnsw HnswCodec HnswFacts HnswSearch HnswCompact.

(** ** Reading the arena *)

(** An arena that holds [n] vectors of dimension [dim] of the given kind. *)
Definition arena_ok (storage : HnswVectorStorage) (dim n : Z) (arena : VectorArena) : Prop :=
  match storage, arena with
  | StoreF32, ArenaF32 components => zlen components = n * dim
  | ScalarInt8, ArenaInt8 codes scales norms => zlen codes = n * dim /\ zlen scales = n /\ zlen norms = n
  | ScalarInt8, ArenaMapped mapping offsets scales norms =>
      zlen offsets = n /\ zlen scales = n /\ zlen norms = n /\
      Forall (fun o => 0 <= o /\ o + dim <= zlen mapping) offsets
  | _, _ => False
  end.

Lemma arena_ok_storage storage dim n arena : arena_ok storage dim n arena -> arena_storage arena = storage.
Proof. by destruct storage, arena. Qed.

Lemma slice_within {E A} (l : list A) a b : 0 <= a <= b -> b <= zlen l -> exists m, slice (E := E) l a b = Ok m.
Proof. intros Ha Hb. rewrite slice_ok by done. by eexists. Qed.

Lemma arena_get_ok storage dim n arena i :
  0 <= dim -> arena_ok storage dim n arena -> 0 <= i < n ->
  returns (arena_get arena i dim) (kind_of storage).
Proof.
  intros Hd Ha Hi. assert (0 <= i * dim /\ i * dim + dim <= n * dim) as [H1 H2] by nia.
  destruct storage, arena as [c|c s m|b o s m]; try done; cbn [arena_ok] in Ha; unfold arena_get.
  - destruct (slice_within (E := Error) c (i * dim) (i * dim + dim)) as [v ->]; [lia|lia|]. by apply returns_ok.
  - destruct Ha as (Hc & Hs & Hm).
    destruct (slice_within (E := Error) c (i * dim) (i * dim + dim)) as [v ->]; [lia|lia|].
    destruct (index_in (E := Error) s i) as (x & -> & _); [lia|].
    destruct (index_in (E := Error) m i) as (y & -> & _); [lia|]. by apply returns_ok.
  - destruct Ha as (Ho & Hs & Hm & Hall).
    destruct (index_in (E := Error) o i) as (x & -> & Hx); [lia|]. cbn [rbind].
    eapply Forall_forall in Hall as [Hx1 Hx2]; [|by eapply list_elem_of_lookup_2].
    destruct (slice_within (E := Error) b x (x + dim)) as [v ->]; [lia|lia|].
    destruct (index_in (E := Error) s i) as (z & -> & _); [lia|].
    destruct (index_in (E := Error) m i) as (y & -> & _); [lia|]. by apply returns_ok.
Qed.

Lemma zlen_snoc {A} (l : list A) x : zlen (l ++ [x]) = zlen l + 1.
Proof. rewrite zlen_app. done. Qed.

Lemma arena_push_f32 dim n arena v :
  arena_ok StoreF32 dim n arena -> zlen v = dim ->
  returns (arena_push arena (VF32 v)) (arena_ok StoreF32 dim (n + 1)).
Proof.
  intros Ha Hv. destruct arena; try done. apply returns_ok. cbn in *. rewrite zlen_app. lia.
Qed.

Lemma arena_push_int8 dim n codes scales norms c s m :
  arena_ok ScalarInt8 dim n (ArenaInt8 codes scales norms) -> zlen c = dim ->
  returns (arena_push (ArenaInt8 codes scales norms) (VInt8 c s m)) (arena_ok ScalarInt8 dim (n + 1)).
Proof.
  intros (H1 & H2 & H3) Hc. apply returns_ok. cbn. rewrite zlen_app, !zlen_snoc. lia.
Qed.

Lemma push_mapped_ok dim n mapping offsets scales norms o s m :
  arena_ok ScalarInt8 dim n (ArenaMapped mapping offsets scales norms) -> 0 <= o -> o + dim <= zlen mapping ->
  returns (push_mapped (ArenaMapped mapping offsets scales norms) o s m) (arena_ok ScalarInt8 dim (n + 1)).
Proof.
  intros (H1 & H2 & H3 & H4) Ho Hb. apply returns_ok. cbn. rewrite !zlen_snoc. split_and!; try lia.
  apply Forall_app. split; [done|]. by constructor.
Qed.

(** ** Primitive decoders *)

Lemma ensures_byte : ensures byte_ (fun z => 0 <= z < 256).
Proof.
  apply ensures_take_fixed. intros l Hl. apply ensures_ret. pose proof (le_value_range l) as Hr.
  unfold zlen in Hr. by rewrite Hl in Hr.
Qed.

Lemma ensures_fixed (n : nat) : ensures (take_fixed n) (fun l => length l = n).
Proof. apply ensures_take_fixed. intros l Hl. by apply ensures_ret. Qed.

Lemma le_value_nonneg l : 0 <= le_value l.
Proof. apply le_value_range. Qed.

Lemma ensures_u64 : ensures u64 (fun z => 0 <= z < 2 ^ 64).
Proof.
  eapply ensures_bind; [apply ensures_fixed|]. intros l Hl. apply ensures_ret.
  pose proof (le_value_range l) as Hr. unfold zlen in Hr. by rewrite Hl in Hr.
Qed.
Lemma ensures_usize : ensures usize (fun z => 0 <= z <= U32_MAX).
Proof.
  eapply ensures_bind; [apply ensures_fixed|]. intros l Hl. apply ensures_ret.
  pose proof (le_value_range l) as Hr. unfold zlen, in_u in Hr. rewrite Hl in Hr. unfold U32_MAX.
  change (8 * Z.of_nat 4) with 32 in Hr. lia.
Qed.
Lemma ensures_f32 : ensures f32 (fun _ => True).
Proof. eapply ensures_bind; [apply ensures_fixed|]. intros l Hl. by apply ensures_ret. Qed.
Lemma ensures_take n : ensures (take n) (fun l => zlen l = n).
Proof.
  intros s Hs. pose proof (safe_take (CorruptStorage "HNSW graph length overflow") (CorruptStorage "truncated HNSW graph") n s Hs) as Ht.
  unfold take. destruct (take_with _ _ n s) as [[l s']| |] eqn:E; [|done|done].
  apply take_with_inv in E; [|done]. tauto.
Qed.
Lemma ensures_string : ensures string_ (fun _ => True).
Proof.
  eapply ensures_bind; [apply ensures_usize|]. intros n _. eapply ensures_bind; [apply ensures_take|].
  intros l _. eapply ensures_bind; [by apply (ensures_guard _ _ True)|]. intros _ _. by apply ensures_ret.
Qed.
Lemma ensures_finish : ensures finish (fun _ => True).
Proof. intros s Hs. unfold finish. destruct (_ =? _); [split_and!; [done|done|lia|done]|done]. Qed.

Lemma parse_metric_no_panic t : parse_metric t <> Panic.
Proof. unfold parse_metric. repeat case_match; done. Qed.
Lemma parse_storage_no_panic t : parse_storage t <> Panic.
Proof. unfold parse_storage. repeat case_match; done. Qed.

(** ** The header *)

Definition header_ok (h : GraphHeader) : Prop :=
  0 < gh_dimension h /\ 2 <= m (gh_config h) /\ 0 <= gh_count h <= 100000000 /\ 0 <= gh_top h <= MAX_LEVEL /\
  match gh_entry h with Some e => 0 <= e | None => True end.

Lemma validate_config_inv dim config :
  0 <= dim -> validate_config dim config = Ok tt -> 0 < dim /\ 2 <= m config /\ m config <= ef_construction config.
Proof.
  intros Hd. unfold validate_config. destruct (Z.eqb_spec dim 0); [done|].
  destruct (Z.ltb_spec (m config) 2); [done|]. destruct (Z.ltb_spec (ef_construction config) (m config)); [done|].
  intros _. lia.
Qed.

Lemma map_err_no_panic {E E' A} (f : E -> E') (r : result E A) : r <> Panic -> map_err f r <> Panic.
Proof. by destruct r. Qed.
Lemma map_err_Ok {E E' A} (f : E -> E') (r : result E A) a : map_err f r = Ok a -> r = Ok a.
Proof. destruct r; cbn; congruence. Qed.
Lemma ok_or_no_panic {E A} (r : option A) (e : E) : ok_or r e <> Panic.
Proof. by destruct r. Qed.

Lemma validate_config_no_panic dim config : validate_config dim config <> Panic.
Proof. unfold validate_config. destruct (_ =? _); [done|]. destruct (_ <? _); [done|]. by destruct (_ <? _). Qed.

Ltac ens_bind H := eapply ensures_bind; [apply H|cbv beta].
Ltac ens_guard := eapply ensures_bind; [apply ensures_guard; intros Hguard; exact Hguard|]; cbv beta; intros _ ?.

Lemma ensures_header : ensures graph_header header_ok.
Proof.
  unfold graph_header. ens_bind ensures_take. intros magic _. ens_guard. ens_bind ensures_byte. intros version _.
  ens_guard. ens_bind ensures_u64. intros dim Hdim. ens_bind ensures_byte. intros tag _.
  eapply ensures_bind; [apply (ensures_lift _ (fun _ => True)); [apply parse_metric_no_panic|done]|]. intros mt _.
  eapply (ensures_bind _ _ (fun _ => True)).
  { destruct (_ =? _); [by apply ensures_ret|]. ens_bind ensures_byte. intros t _.
    apply ensures_lift; [apply parse_storage_no_panic|done]. }
  intros st _. ens_bind ensures_usize. intros m_ Hm. ens_bind ensures_usize. intros ef Hef.
  apply (ensures_bind _ _ (fun _ => 0 < dim /\ 2 <= m_)).
  { apply ensures_lift; [apply map_err_no_panic, validate_config_no_panic|].
    intros [] Hv%map_err_Ok. apply validate_config_inv in Hv as (? & ? & _); [done|lia]. }
  intros _ (Hd1 & Hm2). ens_bind ensures_usize. intros count Hcount. ens_guard.
  ens_bind ensures_u64. intros entry Hentry. ens_bind ensures_usize. intros top Htop. ens_guard.
  eapply ensures_bind; [apply (ensures_lift _ (fun _ => True)); [apply ok_or_no_panic|done]|]. intros _ _.
  apply ensures_ret. unfold header_ok. cbn. split_and!; try lia. destruct (Z.eqb_spec entry U64_MAX); cbn; [exact I|lia].
Qed.

(** ** Nodes *)

Definition degrees_ok (config : HnswConfig) (ls : list (list Z)) : Prop :=
  forall (i : nat) l, ls !! i = Some l -> zlen l <= max_connections config (Z.of_nat i).

Definition decoded_node_ok (config : HnswConfig) (n : Node) : Prop :=
  0 <= level n <= MAX_LEVEL /\ zlen (layers n) = level n + 1 /\
  Forall (Forall (fun j => 0 <= j)) (layers n) /\ degrees_ok config (layers n).

Record decoded_ok (h : GraphHeader) (k : nat) (d : Decoded) : Prop := {
  do_nodes : length (d_nodes d) = k;
  do_ids : length (d_ids d) = k;
  do_distinct : NoDup (d_ids d);
  do_seen : d_seen d = list_to_set (d_ids d);
  do_nonempty : "" ∉ d_ids d;
  do_shape : Forall (decoded_node_ok (gh_config h)) (d_nodes d);
  do_arena : arena_ok (gh_storage h) (gh_dimension h) (Z.of_nat k) (d_vectors d)
}.

(** Mapped codes are read where they stand: the graph's bytes are the slice of
    the mapping at the given offset. *)
Definition mapping_ok (mapping : option (list byte * Z)) (s : Decoder) : Prop :=
  match mapping with
  | Some (bytes, offset) => 0 <= offset /\ offset + zlen (input s) <= zlen bytes
  | None => True
  end.

(** The arena is owned or mapped as the decoder was asked to make it. *)
Definition arena_matches (h : GraphHeader) (mapping : option (list byte * Z)) (arena : VectorArena) : Prop :=
  match mapping, gh_storage h with
  | Some (bytes, _), ScalarInt8 => match arena with ArenaMapped b _ _ _ => b = bytes | _ => False end
  | None, ScalarInt8 => match arena with ArenaInt8 _ _ _ => True | _ => False end
  | _, StoreF32 => True
  end.

Section Decode.
Context `{FloatEnv} (avx2 : bool).

Lemma returns_no_panic {E A} (r : result E A) P : returns r P -> r <> Panic.
Proof. intros (a & -> & _). done. Qed.

Lemma returns_Ok {E A} (r : result E A) P a : returns r P -> r = Ok a -> P a.
Proof. intros (b & -> & Hb) [= <-]. done. Qed.

Lemma ensures_lift_returns {A} (r : Result A) (P : A -> Prop) : returns r P -> ensures (dlift r) P.
Proof. intros Hr. apply ensures_lift; [by eapply returns_no_panic|]. intros a Ha. by eapply returns_Ok. Qed.

(** A step that also knows where it reads. *)
Lemma ensures_take_at n (A : Type) (k : Z -> list byte -> dec A) P L :
  (forall pos l, 0 <= pos -> zlen l = n -> pos + n <= L -> ensures (k pos l) P) ->
  forall s, cursor_ok s -> zlen (input s) = L ->
    match (let! pos := dposition in let! l := take n in k pos l) s with
    | Ok (a, s') => cursor_ok s' /\ input s' = input s /\ position s <= position s' /\ P a
    | Err _ => True
    | Panic => False
    end.
Proof.
  intros Hk s Hs HL. unfold dbind, dposition. cbn [rbind fst snd].
  pose proof (ensures_take n s Hs) as Ht. unfold take in *.
  destruct (take_with _ _ n s) as [[l s']| |] eqn:E; [|done|done].
  apply take_with_inv in E as (Hn & Hl & Hs' & Hi & Hp & _); [|done]. cbn [rbind fst snd].
  assert (position s + n <= L) as Hb by (destruct Hs' as [_ Hs']; rewrite Hi, HL, Hp in Hs'; lia).
  specialize (Hk (position s) l (proj1 Hs) Hl Hb s' Hs'). destruct (k (position s) l s') as [[a s'']| |]; [|done|done].
  destruct Hk as (? & ? & ? & ?). split_and!; [done|congruence|lia|done].
Qed.

(** [ensures] on inputs whose mapping covers the slice. *)
Definition ensures_m {A : Type} (mapping : option (list byte * Z)) (d : dec A) (P : A -> Prop) : Prop :=
  forall s, cursor_ok s -> mapping_ok mapping s ->
    match d s with
    | Ok (a, s') => cursor_ok s' /\ input s' = input s /\ position s <= position s' /\ P a
    | Err _ => True
    | Panic => False
    end.

Lemma ensures_m_of {A} mapping (d : dec A) P : ensures d P -> ensures_m mapping d P.
Proof. intros Hd s Hs _. by apply Hd. Qed.

Lemma ensures_m_bind {A B} mapping (d : dec A) (k : A -> dec B) P Q :
  ensures_m mapping d P -> (forall a, P a -> ensures_m mapping (k a) Q) -> ensures_m mapping (dbind d k) Q.
Proof.
  intros H1 H2 s Hs Hm. unfold dbind. specialize (H1 s Hs Hm). destruct (d s) as [[a s']| |]; [|done|done].
  destruct H1 as (Hs' & Hi & Hp & Ha). assert (mapping_ok mapping s') as Hm' by (unfold mapping_ok in *; by rewrite Hi).
  specialize (H2 a Ha s' Hs' Hm'). cbn. destruct (k a s') as [[b s'']| |]; [|done|done].
  destruct H2 as (? & ? & ? & ?). split_and!; [done|congruence|lia|done].
Qed.

Lemma ensures_m_for {A S} mapping (l : list A) (body : S -> A -> dec S) (I : nat -> S -> Prop) k s :
  I k s -> (forall i s a, I i s -> ensures_m mapping (body s a) (I (Datatypes.S i))) ->
  ensures_m mapping (dec_for l body s) (I (k + length l)%nat).
Proof.
  intros Hs Hb. revert k s Hs. induction l as [|a l IH]; intros k s Hs; cbn [dec_for length].
  { rewrite Nat.add_0_r. by apply ensures_m_of, ensures_ret. }
  eapply ensures_m_bind; [by apply Hb|]. intros s' Hs'.
  replace (k + Datatypes.S (length l))%nat with (Datatypes.S k + length l)%nat by lia. by apply IH.
Qed.

Lemma ensures_component : ensures (finite_component) (fun _ => True).
Proof. unfold finite_component. ens_bind ensures_f32. intros v _. ens_guard. by apply ensures_ret. Qed.

Lemma ensures_vector h mapping arena n :
  header_ok h -> arena_ok (gh_storage h) (gh_dimension h) n arena -> arena_matches h mapping arena ->
  ensures_m mapping (decode_vector avx2 h mapping arena)
    (fun a => arena_ok (gh_storage h) (gh_dimension h) (n + 1) a /\ arena_matches h mapping a).
Proof.
  intros Hh Ha Hm. assert (0 < gh_dimension h) as Hd by apply Hh. unfold decode_vector.
  destruct (gh_storage h) eqn:Est.
  { apply ensures_m_of. eapply ensures_bind; [apply ensures_list, ensures_component|]. cbv beta.
    intros v [Hv _]. apply ensures_lift_returns.
    destruct (arena_push_f32 (gh_dimension h) n arena v Ha) as (a & E & Hok); [unfold zlen; lia|].
    exists a. split; [done|]. split; [done|]. unfold arena_matches. rewrite Est. by destruct mapping as [[? ?]|]. }
  eapply ensures_m_bind; [apply ensures_m_of, ensures_f32|]. intros scale _.
  eapply ensures_m_bind; [apply ensures_m_of; by apply (ensures_guard _ _ True)|]. intros _ _.
  unfold arena_matches in Hm. rewrite Est in Hm.
  intros s Hs Hmap. apply (ensures_take_at (gh_dimension h) _ _ _ (zlen (input s))); [|done|done].
  intros pos l Hpos Hl Hb. destruct mapping as [[bytes offset]|].
  - destruct arena as [|? ? ?|b os ss ns]; try done. subst b. destruct Hmap as [Ho Hlen]. apply ensures_lift_returns.
    destruct (push_mapped_ok (gh_dimension h) n bytes os ss ns (offset + pos) scale
      (quantized_squared_norm_bytes l scale) Ha) as (a & E & Hok); [lia|lia|].
    exists a. split; [done|]. split; [done|]. unfold arena_matches. rewrite Est. by injection E as <-.
  - destruct arena as [|cs ss ns|? ? ? ?]; try done. apply ensures_lift_returns.
    destruct (arena_push_int8 (gh_dimension h) n cs ss ns (map (fun b => wrap_i 8 (u8 b)) l) scale
      (quantized_squared_norm avx2 (map (fun b => wrap_i 8 (u8 b)) l) scale) Ha) as (a & E & Hok).
    { unfold zlen in *. by rewrite length_map. }
    exists a. split; [done|]. split; [done|]. unfold arena_matches. rewrite Est. by injection E as <-.
Qed.

Lemma ensures_layer config layer :
  ensures (decode_layer config layer) (fun l => zlen l <= max_connections config layer /\ Forall (fun j => 0 <= j) l).
Proof.
  unfold decode_layer. ens_bind ensures_usize. intros c Hc.
  eapply ensures_bind; [apply ensures_guard; intros Hx; exact Hx|]. cbv beta. intros _ Hg.
  eapply ensures_mono; [apply (ensures_list _ _ (fun j => 0 <= j)); eapply ensures_mono; [apply ensures_usize|cbv beta; lia]|].
  cbv beta. intros l [Hl Hall]. split; [unfold zlen; lia|done].
Qed.

Lemma ensures_layers config count :
  ensures (decode_layers config count)
    (fun ls => length ls = count /\ Forall (Forall (fun j => 0 <= j)) ls /\ degrees_ok config ls).
Proof.
  unfold decode_layers. pose (I := fun (k : nat) (ls : list (list Z)) =>
    length ls = k /\ Forall (Forall (fun j => 0 <= j)) ls /\ degrees_ok config ls).
  eapply ensures_mono.
  - apply (ensures_for _ _ I 0); [split_and!; [done|constructor|by intros i l Hl; rewrite lookup_nil in Hl]|].
    intros i layer acc Hlayer (H1 & H2 & H3). apply lookup_seqZ in Hlayer as [-> Hi]. cbn in H1.
    ens_bind ensures_layer. intros l [Hl Hall]. apply ensures_ret. split_and!.
    + rewrite length_app, H1. cbn. lia.
    + apply Forall_app. split; [done|]. by constructor.
    + intros j l' Hj. apply lookup_app_Some in Hj as [Hj|[Hj1 Hj2]]; [by apply H3|].
      destruct (j - length acc)%nat as [|?] eqn:Ej; [|done]. injection Hj2 as <-.
      replace j with i by lia. by rewrite Z.add_0_l in Hl.
  - cbv beta. intros ls (H1 & H2 & H3). rewrite length_seqZ in H1. split_and!; [lia|done|done].
Qed.

Lemma ensures_node h mapping k d i :
  header_ok h -> decoded_ok h k d /\ arena_matches h mapping (d_vectors d) ->
  ensures_m mapping (decode_node avx2 h mapping d i)
    (fun d => decoded_ok h (S k) d /\ arena_matches h mapping (d_vectors d)).
Proof.
  intros Hh [[D1 D2 D3 D4 D5 D6 D7] Hm]. unfold decode_node.
  eapply ensures_m_bind; [apply ensures_m_of, ensures_string|]. intros id _.
  eapply ensures_m_bind; [apply ensures_m_of, ensures_guard; intros Hx; exact Hx|]. cbv beta. intros _ Hg.
  apply orb_false_iff in Hg as [Hne Hns]. apply bool_decide_eq_false in Hne, Hns.
  eapply ensures_m_bind; [by eapply ensures_vector|]. cbv beta. intros arena [Ha Hm'].
  eapply ensures_m_bind; [apply ensures_m_of, ensures_usize|]. cbv beta. intros lc Hlc.
  eapply ensures_m_bind; [apply ensures_m_of, ensures_guard; intros Hx; exact Hx|]. cbv beta. intros _ Hg.
  apply orb_false_iff in Hg as [Hg1 Hg2]. unfold MAX_LEVEL in *.
  eapply ensures_m_bind; [apply ensures_m_of, ensures_layers|]. cbv beta. intros ls (L1 & L2 & L3).
  apply ensures_m_of, ensures_ret. split; [|done]. constructor; cbn [d_nodes d_ids d_seen d_vectors].
  - rewrite length_app, D1. cbn. lia.
  - rewrite length_app, D2. cbn. lia.
  - apply NoDup_app. split_and!; [done| |by apply NoDup_singleton].
    intros x Hx ->%list_elem_of_singleton. apply Hns. rewrite D4. by apply elem_of_list_to_set.
  - rewrite D4, list_to_set_app_L. cbn. set_solver.
  - intros [?|E%list_elem_of_singleton]%elem_of_app; [done|by destruct Hne].
  - apply Forall_app. split; [done|]. constructor; [|constructor]. unfold decoded_node_ok. cbn [level layers].
    rewrite wrap_u_small by (change (2 ^ 8) with 256; lia). unfold MAX_LEVEL, zlen. split_and!; [lia|lia|lia|done|done].
  - by replace (Z.of_nat (S k)) with (Z.of_nat k + 1) by lia.
Qed.

Lemma initial_arena_ok h mapping :
  arena_ok (gh_storage h) (gh_dimension h) 0 (initial_arena h mapping) /\ arena_matches h mapping (initial_arena h mapping).
Proof.
  unfold initial_arena, arena_matches. destruct mapping as [[b o]|], (gh_storage h); cbn; unfold zlen; cbn;
    split_and!; try lia; try done; constructor.
Qed.

Lemma ensures_graph mapping :
  ensures_m mapping (decode_graph avx2 mapping)
    (fun r => header_ok r.1 /\ decoded_ok r.1 (Z.to_nat (gh_count r.1)) r.2).
Proof.
  unfold decode_graph. eapply ensures_m_bind; [apply ensures_m_of, ensures_header|]. intros h Hh.
  destruct (initial_arena_ok h mapping) as [Ha Hm].
  eapply ensures_m_bind.
  { apply (ensures_m_for mapping _ _ (fun k d => decoded_ok h k d /\ arena_matches h mapping (d_vectors d)) 0).
    - split; [|done]. constructor; cbn; try done; by constructor || apply not_elem_of_nil.
    - intros k d i Hd. by apply ensures_node. }
  rewrite length_seq. cbn [Nat.add]. intros d [Hd _].
  eapply ensures_m_bind; [apply ensures_m_of, ensures_finish|]. intros _ _. by apply ensures_m_of, ensures_ret.
Qed.
End Decode.

(** ** The decoded graph *)

Section Decoded.
Context `{FloatEnv} (avx2 : bool).

Lemma check_entry_spec h d :
  header_ok h -> decoded_ok h (Z.to_nat (gh_count h)) d ->
  check_entry h (d_nodes d) <> Panic /\
  (check_entry h (d_nodes d) = Ok tt ->
     match gh_entry h with
     | Some e => 0 <= e < gh_count h
     | None => gh_count h = 0
     end).
Proof.
  intros (_ & _ & Hc & _ & He) Hd. unfold check_entry. destruct (Z.eqb_spec (gh_count h) 0) as [E|E].
  - destruct (bool_decide (is_Some (gh_entry h)) || _) eqn:Eb; [done|]. split; [done|]. intros _.
    apply orb_false_iff in Eb as [Eb _]. apply bool_decide_eq_false in Eb. by destruct (gh_entry h); [destruct Eb|].
  - destruct (gh_entry h) as [e|]; [|done]. cbn [ok_or rbind]. destruct (Z.leb_spec (gh_count h) e); [done|].
    destruct (index_in (E := Error) (d_nodes d) e) as (n & -> & _).
    { unfold zlen. rewrite (do_nodes _ _ _ Hd). lia. }
    cbn [rbind]. split; [by destruct (_ <? _)|]. intros _. lia.
Qed.

Lemma check_neighbors_spec count ns :
  check_neighbors count ns = Ok tt ->
  forall (i : nat) n l j, ns !! i = Some n -> l ∈ layers n -> j ∈ l -> j < count /\ j <> Z.of_nat i.
Proof.
  unfold check_neighbors. destruct (forallb _ (enumerate ns)) eqn:E; [|done]. intros _ i n l j Hi Hl Hj.
  rewrite forallb_forall in E. specialize (E (Z.of_nat i, n)). cbn in E.
  assert (In (Z.of_nat i, n) (enumerate ns)) as Hin.
  { apply list_elem_of_In, (list_elem_of_lookup_2 _ i). unfold enumerate. by rewrite list_lookup_imap, Hi. }
  specialize (E Hin). rewrite forallb_forall in E. specialize (E l (proj1 (list_elem_of_In _ _) Hl)).
  rewrite forallb_forall in E. specialize (E j (proj1 (list_elem_of_In _ _) Hj)).
  unfold valid_neighbor in E. apply andb_true_iff in E as [E1 E2]. split; [lia|].
  destruct (Z.eqb_spec j (Z.of_nat i)); done.
Qed.

Lemma neighbors_plain g i layer :
  compact_graph g = None -> in_graph g i -> 0 <= layer ->
  returns (neighbors g i layer) (fun l => l = [] \/ exists n, nodes g !! Z.to_nat i = Some n /\ layers n !! Z.to_nat layer = Some l).
Proof.
  intros Hc Hi Hl. unfold neighbors. destruct (index_in (E := Error) (nodes g) i Hi) as (n & -> & Hn). cbn [rbind].
  destruct (_ <? _); [by apply returns_ok; left|]. rewrite Hc. apply returns_ok.
  destruct (layers n !! Z.to_nat layer) as [l|] eqn:E; [right; by exists n|by left].
Qed.

(** What finalising keeps of a graph under construction. *)
Lemma finalize_wf g g' :
  compact_graph g = None -> shape_ok g -> finalize_compact_graph g = Ok g' ->
  length (ids g) = length (nodes g) -> NoDup (ids g) ->
  arena_ok (arena_storage (vectors g)) (graph_dimension g) (node_count g) (vectors g) -> 0 <= graph_dimension g ->
  (forall i n l j, nodes g !! i = Some n -> l ∈ layers n -> j ∈ l -> in_graph g j /\ j <> Z.of_nat i) ->
  match entry_point g with Some e => in_graph g e | None => True end ->
  graph_wf g' /\ ids g' = ids g /\ node_count g' = node_count g.
Proof.
  intros Hc Hs E Hids Hn Ha Hd Hlinks Hen.
  pose proof (fun i layer => finalize_neighbors g g' i layer Hc Hs E) as Hnb.
  destruct (finalize_spec g g' Hc E) as (_ & _ & Eg). subst g'.
  set (g' := MkIndex _ _ _ _ _ _ _ _ _) in *.
  assert (node_count g' = node_count g) as Ecount by (unfold node_count, zlen; cbn; by rewrite length_imap).
  split; [|by split]. constructor.
  - cbn. by rewrite length_imap.
  - done.
  - intros i Hi. unfold in_graph in Hi. rewrite Ecount in Hi. by eapply arena_get_ok.
  - intros i layer Hi Hl. unfold in_graph in Hi. rewrite Ecount in Hi. rewrite (Hnb i layer Hi Hl).
    eapply returns_mono; [by apply neighbors_plain|]. intros l [->|(n & En & El)]; [constructor|].
    apply Forall_forall. intros j Hj. destruct (Hlinks _ n l j En ltac:(by eapply list_elem_of_lookup_2) Hj) as [Hj1 Hj2].
    split; [unfold in_graph; by rewrite Ecount|]. destruct Hi. by rewrite Z2Nat.id in Hj2 by lia.
  - cbn. destruct (entry_point g); [|done]. unfold in_graph. by rewrite Ecount.
Qed.

Lemma decode_inner_ok bytes mapping :
  mapping_ok mapping (decoder_new bytes) ->
  match decode_inner avx2 bytes mapping with
  | Ok g => graph_wf g /\ 0 < graph_dimension g /\ "" ∉ ids g
  | Err _ => True
  | Panic => False
  end.
Proof.
  intros Hm. unfold decode_inner.
  assert (match run_dec (decode_graph avx2 mapping) bytes with
          | Ok r => header_ok r.1 /\ decoded_ok r.1 (Z.to_nat (gh_count r.1)) r.2
          | Err _ => True | Panic => False end) as Hr.
  { unfold run_dec. assert (cursor_ok (decoder_new bytes)) as Hcur by (split; cbn; [lia|apply zlen_nonneg]).
    pose proof (ensures_graph avx2 mapping (decoder_new bytes) Hcur Hm) as He.
    destruct (decode_graph avx2 mapping (decoder_new bytes)) as [[r s]| |]; cbn; tauto. }
  destruct (run_dec _ bytes) as [[h d]| |]; [|done|done]. cbn [rbind fst snd] in *. destruct Hr as [Hh Hd].
  pose proof Hh as (Hdim & _ & Hcount & _).
  destruct (check_entry_spec h d Hh Hd) as [Hce1 Hce2].
  destruct (check_entry h (d_nodes d)) as [[]| |]; [|done|done]. cbn [rbind]. specialize (Hce2 eq_refl).
  pose proof (check_neighbors_spec (gh_count h) (d_nodes d)) as Hcn.
  destruct (check_neighbors _ _) as [[]| |] eqn:Ecn; [|done|unfold check_neighbors in Ecn; by destruct (forallb _ _)].
  specialize (Hcn eq_refl). cbn [rbind].
  set (g0 := MkIndex _ _ _ _ _ _ _ _ _).
  assert (node_count g0 = gh_count h) as Ec.
  { unfold node_count, zlen. cbn. rewrite (do_nodes _ _ _ Hd). lia. }
  destruct (finalize_compact_graph g0) as [g'|e|] eqn:Ef; cbn [map_err]; [|done|].
  2: { unfold finalize_compact_graph, overflow in Ef. cbn [compact_graph g0] in Ef.
       destruct (count_ranges _); [|done]. cbn [ok_or rbind] in Ef. destruct (count_links _); [|done].
       cbn [ok_or rbind] in Ef. destruct (_ || _); [done|]. by destruct (fold_left compact_step _ _). }
  destruct (finalize_wf g0 g') as (Hwf & Hids & Hcount'); try done.
  - unfold shape_ok. cbn. eapply Forall_impl; [exact (do_shape _ _ _ Hd)|]. intros n (Hl & Hlen & _). split; [lia|done].
  - cbn. by rewrite (do_nodes _ _ _ Hd), (do_ids _ _ _ Hd).
  - exact (do_distinct _ _ _ Hd).
  - pose proof (do_arena _ _ _ Hd) as Ha. rewrite Z2Nat.id in Ha by lia. cbn [vectors g0 graph_dimension]. rewrite Ec.
    by rewrite (arena_ok_storage _ _ _ _ Ha).
  - cbn. lia.
  - intros i n l j Hi Hl Hj. cbn in Hi. destruct (Hcn i n l j Hi Hl Hj) as [Hj1 Hj2]. split; [|done].
    unfold in_graph. rewrite Ec. split; [|done].
    pose proof (do_shape _ _ _ Hd) as Hs. eapply Forall_forall in Hs as (_ & _ & Hpos & _); [|by eapply list_elem_of_lookup_2].
    eapply Forall_forall in Hpos; [|exact Hl]. by eapply Forall_forall in Hpos.
  - cbn. unfold in_graph. rewrite Ec. by destruct (gh_entry h).
  - split; [done|]. destruct (finalize_spec g0 g' eq_refl Ef) as (_ & _ & Eg). rewrite Hids. subst g'. split; [done|].
    exact (do_nonempty _ _ _ Hd).
Qed.

End Decoded.

(** ** A three-point graph *)

(** The points are "a" = (1, 0), "b" = (0, 1) and "c" = (1, 1). *)
Definition demo_points : list (string * list Z) :=
  [("a", [1065353216; 0]); ("b", [0; 1065353216]); ("c", [1065353216; 1065353216])].
Definition demo_file : list byte :=
  match (let? g := @build_quantized_prepared x86_64_env true 2 2 Euclidean default_config demo_points in encode_into g) with
  | Ok l => l | _ => [] end.
Definition demo_graph : HnswIndex :=
  match @decode x86_64_env true demo_file with
  | Ok g => g
  | _ => MkIndex 2 Euclidean default_config [] [] (arena_new ScalarInt8) None 0 None
  end.

Lemma demo_graph_wf : @graph_wf demo_graph.
Proof.
  pose proof (@decode_inner_ok x86_64_env true demo_file None I) as H.
  unfold demo_graph, decode. revert H. vm_compute (decode_inner true demo_file None). intros [H _]. exact H.
Qed.


Lemma hnsw_search_witness :
  exists hits pool', @search x86_64_env true demo_graph [1065353216; 0] 2 4 [] = Ok (hits, pool') /\
    map hit_id hits = ["a"; "c"].
Proof.
  destruct (@hnsw_search_correct x86_64_env true demo_graph [1065353216; 0] 2 4 [1065353216; 0])
    as (hits & Hs & _).
  - exact demo_graph_wf.
  - lia.
  - vm_compute; reflexivity.
  - vm_compute; reflexivity.
  - destruct (Hs [] (Forall_nil_2 _)) as (pool' & _ & E). exists hits, pool'. split; [exact E|].
    revert E. vm_compute. intros E. injection E as <- <-. reflexivity.
Defined.

Lemma greedy_closest_witness :
  exists c, @greedy_closest x86_64_env true demo_graph (@prepared_vector x86_64_env true [1065353216; 0] ScalarInt8) 1 0 = Ok c /\
    in_graph demo_graph c.
Proof.
  destruct (@greedy_closest_correct x86_64_env true demo_graph (@prepared_vector x86_64_env true [1065353216; 0] ScalarInt8) 1 0)
    as (c & E & Hc & _).
  - exact demo_graph_wf.
  - apply prepared_kind.
  - split; vm_compute; [discriminate|reflexivity].
  - lia.
  - exists c. split; assumption.
Defined.

Lemma demo_connected i j : in_graph demo_graph i -> in_graph demo_graph j -> reach demo_graph 0 i j.
Proof.
  assert (forall k, in_graph demo_graph k -> k = 0 \/ k = 1 \/ k = 2) as H.
  { intros k. unfold in_graph. change (node_count demo_graph) with 3. lia. }
  intros [->|[->| ->]]%H [->|[->| ->]]%H; try apply reach_refl;
    (eapply reach_step; [apply reach_refl|]; apply (bool_decide_unpack _); vm_compute; exact I).
Qed.

Lemma hnsw_exhaustive_witness :
  exists hits pool', @search x86_64_env true demo_graph [1065353216; 0] 2 4 [] = Ok (hits, pool') /\
    hits = truncate 2 (sort_by (cmp_on (fun h => (hit_score h, hit_id h)) compare_scored)
                         (@all_hits x86_64_env true demo_graph [1065353216; 0])).
Proof.
  apply (@hnsw_search_exhaustive x86_64_env true).
  - exact demo_graph_wf.
  - lia.
  - vm_compute; reflexivity.
  - vm_compute; reflexivity.
  - vm_compute; eauto.
  - vm_compute; discriminate.
  - constructor.
  - exact demo_connected.
Defined.
