(* ===== verification/HnswInsert.v ===== *)
(** * HnswInsert: planning and inserting keep a graph under construction sound

    [building] is the invariant between insertions: links of layer [t] lead to
    other nodes that have a layer [t], and the arena holds the vectors that
    were inserted.  Every operation of an insertion returns and keeps it. *)

From stdpp Require Import base gmap sets list strings sorting.
From Stdlib Require Import ZArith Lia.
From S2P Require Import Prelude Errors Floats Ranking Metric Collection Codec Quantize Hnsw HnswCodec HnswFacts HnswSearch HnswCompact.
From S2P Require Import HnswCodecFacts.

(** ** Owned arenas *)

Definition owned (storage : HnswVectorStorage) (dim : Z) (vs : list VectorRef) (arena : VectorArena) : Prop :=
  match storage, arena with
  | StoreF32, ArenaF32 components =>
      exists xs, vs = map VF32 xs /\ components = concat xs /\ Forall (fun x => zlen x = dim) xs
  | ScalarInt8, ArenaInt8 codes scales norms =>
      exists xs : list (list Z * Z * Z), vs = map (fun x => VInt8 x.1.1 x.1.2 x.2) xs /\
        codes = concat (map (fun x => x.1.1) xs) /\ scales = map (fun x => x.1.2) xs /\ norms = map snd xs /\
        Forall (fun x => zlen x.1.1 = dim) xs
  | _, _ => False
  end.

(** A vector that can be pushed: of the arena's kind and dimension. *)
Definition fits (storage : HnswVectorStorage) (dim : Z) (v : VectorRef) : Prop :=
  match storage, v with
  | StoreF32, VF32 x => zlen x = dim
  | ScalarInt8, VInt8 c _ _ => zlen c = dim
  | _, _ => False
  end.

Lemma fits_kind storage dim v : fits storage dim v -> kind_of storage v.
Proof. by destruct storage, v. Qed.

Lemma zlen_concat {A} (dim : Z) (xs : list (list A)) : Forall (fun x => zlen x = dim) xs -> zlen (concat xs) = zlen xs * dim.
Proof.
  induction 1 as [|x xs Hx _ IH]; [done|]. cbn [concat]. rewrite zlen_app, IH, zlen_cons, Hx. lia.
Qed.

Lemma owned_ok storage dim vs arena : owned storage dim vs arena -> arena_ok storage dim (zlen vs) arena.
Proof.
  destruct storage, arena; try done; cbn.
  - intros (xs & -> & -> & Hx). rewrite (zlen_concat dim) by done. unfold zlen. by rewrite length_map.
  - intros (xs & -> & -> & -> & -> & Hx). unfold zlen at 3 5. rewrite !length_map. unfold zlen. rewrite !length_map. split; [|done].
    pose proof (zlen_concat dim (map (fun x : list Z * Z * Z => x.1.1) xs)) as E. unfold zlen in E. rewrite length_map in E.
    apply E. by apply Forall_map.
Qed.

Lemma owned_push storage dim vs arena v :
  owned storage dim vs arena -> fits storage dim v -> returns (arena_push arena v) (owned storage dim (vs ++ [v])).
Proof.
  destruct storage, arena, v; try done; cbn; intros Ho Hv; apply returns_ok; cbn.
  - destruct Ho as (xs & -> & -> & Hx). exists (xs ++ [vector]). rewrite map_app, concat_app. cbn. rewrite app_nil_r.
    split_and!; [done|done|]. by apply Forall_app; split; [|constructor].
  - destruct Ho as (xs & -> & -> & -> & -> & Hx). exists (xs ++ [(codes0, scale, squared_norm)]). rewrite !map_app, concat_app. cbn.
    rewrite app_nil_r. split_and!; try done. by apply Forall_app; split; [|constructor].
Qed.

Lemma slice_uniform (dim : Z) (xs : list (list Z)) (i : nat) x :
  Forall (fun x => zlen x = dim) xs -> xs !! i = Some x ->
  slice (E := Error) (concat xs) (Z.of_nat i * dim) (Z.of_nat i * dim + dim) = Ok x.
Proof.
  intros Hxs Hx. assert (zlen (concat (firstn i xs)) = Z.of_nat i * dim) as E.
  { rewrite (zlen_concat dim) by (by apply Forall_take). pose proof (lookup_lt_Some _ _ _ Hx). unfold zlen. rewrite length_firstn. lia. }
  rewrite <- E. eapply Forall_forall in Hxs; [|by eapply list_elem_of_lookup_2]. cbv beta in Hxs. rewrite <- Hxs. by apply concat_slice.
Qed.

Lemma owned_get storage dim vs arena (i : nat) v :
  owned storage dim vs arena -> vs !! i = Some v -> arena_get arena (Z.of_nat i) dim = Ok v.
Proof.
  destruct storage, arena; try done; cbn [owned].
  - intros (xs & -> & -> & Hx) Hv. rewrite list_lookup_fmap in Hv. apply fmap_Some in Hv as (x & Ex & ->).
    unfold arena_get. by rewrite (slice_uniform dim xs i x).
  - intros (xs & -> & -> & -> & -> & Hx) Hv. rewrite list_lookup_fmap in Hv. apply fmap_Some in Hv as (x & Ex & ->).
    unfold arena_get. rewrite (slice_uniform dim _ i x.1.1); [|by apply Forall_map|by rewrite list_lookup_fmap, Ex]. cbn [rbind].
    rewrite (index_lookup _ i x.1.2) by (by rewrite list_lookup_fmap, Ex). cbn [rbind].
    by rewrite (index_lookup _ i x.2) by (by rewrite list_lookup_fmap, Ex).
Qed.

(** ** The invariant *)

Definition at_layer (g : HnswIndex) (t j : Z) : Prop := 0 <= j /\ exists n, nodes g !! Z.to_nat j = Some n /\ t <= level n.

Definition link_ok (g : HnswIndex) (i t : Z) (l : list Z) : Prop := Forall (fun j => j <> i /\ at_layer g t j) l.

Record building (s : HnswVectorStorage) (vs : list VectorRef) (g : HnswIndex) : Prop := {
  b_plain : compact_graph g = None;
  b_ids : length (ids g) = length (nodes g);
  b_distinct : NoDup (ids g);
  b_count : length vs = length (nodes g);
  b_arena : owned s (graph_dimension g) vs (vectors g);
  b_dim : 0 <= graph_dimension g;
  b_config : 2 <= m (graph_config g) <= ef_construction (graph_config g);
  b_levels : Forall (fun n => 0 <= level n <= MAX_LEVEL /\ zlen (layers n) = level n + 1) (nodes g);
  b_links : forall i n t l, nodes g !! i = Some n -> layers n !! t = Some l -> link_ok g (Z.of_nat i) (Z.of_nat t) l;
  b_entry : match entry_point g with None => nodes g = [] | Some e => 0 <= max_level g /\ at_layer g (max_level g) e end
}.

Lemma at_layer_in g t j : at_layer g t j -> in_graph g j.
Proof.
  intros (H0 & n & E & _). apply lookup_lt_Some in E. unfold in_graph, node_count, zlen. lia.
Qed.

Lemma at_layer_lower g t t' j : at_layer g t j -> t' <= t -> at_layer g t' j.
Proof. intros (H0 & n & E & Hl) Ht. split; [done|]. exists n. split; [done|lia]. Qed.

Section Insert.
Context `{FloatEnv} (avx2 : bool) (s : HnswVectorStorage).
Implicit Types (g : HnswIndex) (vs : list VectorRef).

Lemma building_storage vs g : building s vs g -> arena_storage (vectors g) = s.
Proof. intros Hb. by eapply arena_ok_storage, owned_ok, b_arena. Qed.

Lemma building_links vs g i t n l :
  building s vs g -> 0 <= i -> 0 <= t -> nodes g !! Z.to_nat i = Some n -> layers n !! Z.to_nat t = Some l -> link_ok g i t l.
Proof. intros Hb Hi Ht En El. pose proof (b_links _ _ _ Hb _ _ _ _ En El) as Hl. by rewrite !Z2Nat.id in Hl by done. Qed.

Lemma building_neighbors vs g i t :
  building s vs g -> in_graph g i -> 0 <= t -> returns (neighbors g i t) (link_ok g i t).
Proof.
  intros Hb Hi Ht. eapply returns_mono; [apply neighbors_plain; [by eapply b_plain|done|done]|].
  intros l [->|(n & En & El)]; [constructor|]. destruct Hi. by eapply building_links.
Qed.

Lemma building_wf vs g : building s vs g -> graph_wf g.
Proof.
  intros Hb. constructor.
  - by eapply b_ids.
  - by eapply b_distinct.
  - intros i Hi. unfold vector. rewrite (building_storage vs g Hb).
    eapply arena_get_ok; [by eapply b_dim|eapply owned_ok; by eapply b_arena|].
    unfold in_graph, node_count, zlen in *. rewrite (b_count _ _ _ Hb). lia.
  - intros i t Hi Ht. eapply returns_mono; [by eapply building_neighbors|]. intros l Hl.
    eapply Forall_impl; [exact Hl|]. intros j [Hj Hat]. split; [by eapply at_layer_in|done].
  - pose proof (b_entry _ _ _ Hb) as He. destruct (entry_point g); [|done]. by eapply at_layer_in, He.
Qed.

(** ** Searches stay in their layer *)

Section Closed.
Context (g : HnswIndex) (q : VectorRef) (P : Z -> Prop) (layer : Z).
Context (Hclosed : forall i, P i -> returns (neighbors g i layer) (Forall P)).

Lemma greedy_fold_in ns b c :
  foldM_result (greedy_step avx2 g q) b ns = Ok c -> c.1 = b.1 \/ c.1 ∈ ns.
Proof.
  revert b. induction ns as [|j ns IH]; intros b; cbn [foldM_result]; [intros [= <-]; by left|].
  intros (b' & Hb & Hc)%rbind_ok_inv. apply IH in Hc as [->|Hc]; [|right; by right].
  unfold greedy_step in Hb. apply rbind_ok_inv in Hb as (sc & _ & Hb). apply rbind_ok_inv in Hb as (lk & _ & Hb).
  apply rbind_ok_inv in Hb as (rk & _ & Hb). destruct (compare_scored lk rk); injection Hb as <-; [by left|right; by left|by left].
Qed.

Lemma greedy_loop_closed fuel current c : P current -> greedy_loop avx2 fuel g q current layer = Ok c -> P c.
Proof.
  revert current. induction fuel as [|fuel IH]; intros current Hp; [done|]. cbn [greedy_loop].
  intros (sc & _ & Hb)%rbind_ok_inv. apply rbind_ok_inv in Hb as (ns & Hns & Hb). apply rbind_ok_inv in Hb as (best & Hbest & Hb).
  destruct (Hclosed current Hp) as (ns' & E & Hall). rewrite E in Hns. injection Hns as <-.
  destruct (Z.eqb best.1 current); [by injection Hb as <-|]. eapply IH; [|exact Hb].
  apply greedy_fold_in in Hbest as [->|Hin]; [done|]. by eapply Forall_forall in Hall.
Qed.

Definition inside (st : SpecState) : Prop := forall x, x ∈ s_frontier st \/ x ∈ s_results st -> P (item_index x).

Lemma spec_neighbor_inside ef st j : inside st -> P j -> inside (spec_neighbor avx2 g q ef st j).
Proof.
  intros Hst Hj. unfold spec_neighbor. destruct (decide _); [done|]. destruct (keeps _ _ _); [|done].
  intros x [Hx|Hx]; cbn [s_frontier s_results] in Hx.
  - unfold frontier_push in Hx. rewrite heap_push_perm in Hx. apply elem_of_cons in Hx as [->|Hx]; [done|]. apply Hst. by left.
  - apply keep_subset, elem_of_cons in Hx as [->|Hx]; [done|]. apply Hst. by right.
Qed.

Lemma spec_loop_inside fuel ef st : inside st -> inside (spec_loop avx2 g q fuel ef layer st).
Proof.
  revert st. induction fuel as [|fuel IH]; intros st Hst; [done|]. cbn [spec_loop].
  destruct (heap_peek (s_frontier st)) as [c|] eqn:Ec; [|done]. apply heap_peek_Some in Ec.
  assert (inside (MkSpec (heap_pop (s_frontier st)) (s_results st) (s_visited st))) as Hpop.
  { intros x [Hx|Hx]; apply Hst; [left|by right]. rewrite Ec. apply elem_of_app. by left. }
  destruct (stops _ _ _); [done|]. apply IH. destruct (Hclosed (item_index c)) as (ns & En & Hns).
  { apply Hst. left. rewrite Ec. apply elem_of_app. right. by left. }
  unfold adjacent. rewrite En. clear -Hpop Hns. revert Hpop. generalize (MkSpec (heap_pop (s_frontier st)) (s_results st) (s_visited st)).
  induction Hns as [|j ns Hj _ IH]; intros st' Hst'; cbn [fold_left]; [done|]. by apply IH, spec_neighbor_inside.
Qed.

Lemma spec_search_inside entry ef : P entry -> Forall (fun x => P (item_index x)) (spec_search avx2 g q entry ef layer).
Proof.
  intros He. apply Forall_forall. intros x Hx. unfold spec_search in Hx. rewrite elem_of_sort_by in Hx.
  eapply spec_loop_inside; [|right; exact Hx]. by intros y [->%list_elem_of_singleton| ->%list_elem_of_singleton].
Qed.
End Closed.

Lemma layer_closed vs g t i : building s vs g -> 0 <= t -> at_layer g t i -> returns (neighbors g i t) (Forall (at_layer g t)).
Proof.
  intros Hb Ht Hi. eapply returns_mono; [eapply building_neighbors; [done|by eapply at_layer_in|done]|].
  intros l Hl. eapply Forall_impl; [exact Hl|]. by intros j [_ Hj].
Qed.

(** The descent from layer [first + n] to [first]. *)
Lemma descent_at vs g q first n c :
  building s vs g -> kind_of s q -> 0 <= first -> at_layer g (first + Z.of_nat n) c ->
  returns (foldM_result (greedy_closest avx2 g q) c (rev (seqZ first (Z.of_nat (S n))))) (at_layer g first).
Proof.
  intros Hb Hq Hf. pose proof (building_wf vs g Hb) as Hg. pose proof (building_storage vs g Hb) as Hs.
  assert (forall t c, 0 <= t -> at_layer g t c -> returns (greedy_closest avx2 g q c t) (at_layer g t)) as Hone.
  { intros t c' Ht Hc'. destruct (greedy_closest_ok avx2 g q Hg ltac:(by rewrite Hs) c' t) as (c2 & E & _); [by eapply at_layer_in|done|].
    exists c2. split; [done|]. eapply (greedy_loop_closed g q (at_layer g t)); [|exact Hc'|exact E]. intros i Hi. by eapply layer_closed. }
  revert c. induction n as [|n IH]; intros c Hc.
  { rewrite Z.add_0_r in Hc. change (rev (seqZ first (Z.of_nat 1))) with [0 + first]. rewrite Z.add_0_l. cbn [foldM_result].
    eapply returns_bind; [by apply Hone|]. intros c' Hc'. by apply returns_ok. }
  replace (Z.of_nat (S (S n))) with (Z.of_nat (S n) + 1) by lia. rewrite seqZ_app by lia. rewrite rev_app_distr.
  change (rev (seqZ (first + Z.of_nat (S n)) 1)) with [0 + (first + Z.of_nat (S n))]. rewrite Z.add_0_l. cbn [app foldM_result].
  eapply returns_bind; [apply Hone; [lia|done]|]. intros c' Hc'. apply IH. eapply at_layer_lower; [exact Hc'|lia].
Qed.

(** ** Selecting *)

Lemma pair_score vs g i j :
  building s vs g -> in_graph g i -> in_graph g j ->
  exists a b sc, vector g i = Ok a /\ vector g j = Ok b /\ score_vectors avx2 (graph_metric g) a b = Ok sc.
Proof.
  intros Hb Hi Hj. pose proof (building_wf vs g Hb) as Hg.
  destruct (wf_vectors g Hg i Hi) as (a & Ea & Ka). destruct (wf_vectors g Hg j Hj) as (b & Eb & Kb). exists a, b.
  rewrite (building_storage vs g Hb) in Ka, Kb. destruct s, a, b; try done; unfold score_vectors; destruct (graph_metric g); by eexists.
Qed.

Lemma is_diverse_ok vs g x selected :
  building s vs g -> in_graph g (item_index x) -> Forall (fun y => in_graph g (item_index y)) selected ->
  exists b, is_diverse avx2 g x selected = Ok b.
Proof.
  intros Hb Hx. induction 1 as [|y selected Hy _ [b IH]]; [by eexists|]. cbn [is_diverse].
  destruct (pair_score vs g _ _ Hb Hx Hy) as (u & v & sc & -> & -> & Es). cbn [rbind]. rewrite Es. cbn [rbind].
  destruct (fltb fmt32 sc (item_score x)); [by exists b|by eexists].
Qed.

Lemma select_loop_ok vs g limit items selected rejected :
  building s vs g -> Forall (fun y => in_graph g (item_index y)) items -> Forall (fun y => in_graph g (item_index y)) selected ->
  returns (select_loop avx2 g limit items selected rejected) (fun r => r.1 ++ r.2 ⊆ selected ++ rejected ++ items).
Proof.
  intros Hb Hi. revert selected rejected. induction Hi as [|x items Hx Hi IH]; intros selected rejected Hs; cbn [select_loop].
  { apply returns_ok. cbn. by rewrite app_nil_r. }
  destruct (Z.eqb _ _); [apply returns_ok; cbn; set_solver|].
  destruct (is_diverse_ok vs g x selected Hb Hx Hs) as (b & ->). cbn [rbind].
  destruct b; (eapply returns_mono; [apply IH|]).
  - apply Forall_app; split; [done|by constructor].
  - intros [a r] Hr. cbn in *. set_solver.
  - done.
  - intros [a r] Hr. cbn in *. set_solver.
Qed.

Lemma select_neighbors_ok vs g items limit :
  building s vs g -> Forall (fun y => in_graph g (item_index y)) items ->
  returns (select_neighbors avx2 g items limit) (fun l => l ⊆ items).
Proof.
  intros Hb Hi. unfold select_neighbors. destruct (select_loop_ok vs g limit items [] [] Hb Hi ltac:(constructor)) as ([a r] & -> & Hr).
  cbn in *. apply returns_ok. intros x [Hx|Hx%elem_of_truncate]%elem_of_app; apply Hr, elem_of_app; [by left|by right].
Qed.

(** ** Changing links *)

(** Only links changed. *)
Definition relinked g g' : Prop := exists ns, g' = with_nodes g ns /\ map level ns = map level (nodes g).

Lemma relinked_refl g : relinked g g.
Proof. exists (nodes g). by destruct g. Qed.

Lemma relinked_trans g1 g2 g3 : relinked g1 g2 -> relinked g2 g3 -> relinked g1 g3.
Proof. intros (n1 & -> & E1) (n2 & -> & E2). exists n2. split; [done|]. cbn in E2. congruence. Qed.

Lemma relinked_at g g' t j : relinked g g' -> at_layer g t j -> at_layer g' t j.
Proof.
  intros (ns & -> & E) (H0 & n & En & Hl). split; [done|]. cbn [nodes with_nodes].
  assert (map level ns !! Z.to_nat j = Some (level n)) as El by (rewrite E; change (map level (nodes g)) with (level <$> nodes g); by rewrite list_lookup_fmap, En).
  change (map level ns) with (level <$> ns) in El. rewrite list_lookup_fmap in El. apply fmap_Some in El as (n' & En' & El). exists n'. split; [done|lia].
Qed.

Lemma get_layer_ok vs g i t :
  building s vs g -> 0 <= t -> at_layer g t i ->
  exists n l, nodes g !! Z.to_nat i = Some n /\ layers n !! Z.to_nat t = Some l /\ get_layer g i t = Ok l /\ link_ok g i t l.
Proof.
  intros Hb Ht Hat. pose proof Hat as (Hi & n & En & Hl). pose proof (b_levels _ _ _ Hb) as Hlev.
  eapply Forall_forall in Hlev as [_ Hlen]; [|by eapply list_elem_of_lookup_2].
  destruct (index_in (E := Error) (layers n) t) as (l & El & Ell); [lia|]. exists n, l. split; [done|]. split; [done|]. split; [|by eapply building_links].
  unfold get_layer. pose proof (index_lookup (E := Error) (nodes g) _ _ En) as Ei. rewrite Z2Nat.id in Ei by done. by rewrite Ei.
Qed.

Lemma update_layer_ok vs g i t f :
  building s vs g -> 0 <= t -> at_layer g t i -> (forall l, link_ok g i t l -> link_ok g i t (f l)) ->
  returns (update_layer g i t f) (fun g' => building s vs g' /\ relinked g g').
Proof.
  intros Hb Ht Hat Hf. destruct (get_layer_ok vs g i t Hb Ht Hat) as (n & l & En & El & _ & Hl). pose proof Hat as (Hi & _).
  unfold update_layer, modify.
  pose proof (index_lookup (E := Error) (nodes g) _ _ En) as Ei. rewrite Z2Nat.id in Ei by done. rewrite Ei. cbn [rbind].
  pose proof (index_lookup (E := Error) (layers n) _ _ El) as Et. rewrite Z2Nat.id in Et by done. rewrite Et. cbn [rbind].
  set (n' := MkNode (level n) (range_start n) (<[Z.to_nat t := f l]> (layers n))). set (ns := <[Z.to_nat i := n']> (nodes g)).
  assert (relinked g (with_nodes g ns)) as Hr.
  { exists ns. split; [done|]. unfold ns. change (map level ?x) with (level <$> x). rewrite list_fmap_insert. apply list_insert_id.
    by rewrite list_lookup_fmap, En. }
  apply returns_ok. split; [|done]. destruct Hb as [B1 B2 B3 B4 B5 B6 B7 B8 B9 B10]. constructor; cbn [with_nodes compact_graph ids nodes graph_dimension vectors graph_config entry_point max_level]; try done.
  - unfold ns. by rewrite length_insert.
  - unfold ns. by rewrite length_insert.
  - apply Forall_insert; [done|]. cbn. unfold zlen. rewrite length_insert. eapply Forall_forall in B8; [|by eapply list_elem_of_lookup_2]. done.
  - intros j nj u lj Ej Ej'. assert (link_ok g (Z.of_nat j) (Z.of_nat u) lj) as Hlj.
    { unfold ns in Ej. destruct (decide (j = Z.to_nat i)) as [->|Hj]; [|rewrite list_lookup_insert_ne in Ej by done; by eapply B9].
      rewrite list_lookup_insert_eq in Ej by (by eapply lookup_lt_Some). injection Ej as <-. cbn in Ej'.
      destruct (decide (u = Z.to_nat t)) as [->|Hu]; [|rewrite list_lookup_insert_ne in Ej' by done; by eapply B9].
      rewrite list_lookup_insert_eq in Ej' by (by eapply lookup_lt_Some). injection Ej' as <-. rewrite !Z2Nat.id by done. by apply Hf. }
    eapply Forall_impl; [exact Hlj|]. intros x [Hx1 Hx2]. split; [done|]. by eapply relinked_at.
  - destruct (entry_point g) as [e|]; [destruct B10; split; [done|by eapply relinked_at]|]. by rewrite B10 in En.
Qed.

Lemma prune_ok vs g i t :
  building s vs g -> 0 <= t -> at_layer g t i -> returns (prune avx2 g i t) (fun g' => building s vs g' /\ relinked g g').
Proof.
  intros Hb Ht Hat. destruct (get_layer_ok vs g i t Hb Ht Hat) as (n & l & En & El & Eg & Hl). unfold prune. rewrite Eg. cbn [rbind].
  destruct (_ <=? _); [apply returns_ok; split; [done|apply relinked_refl]|]. pose proof (at_layer_in _ _ _ Hat) as Hi.
  set (f := fun j => let? a := vector g i in let? b := vector g j in let? sc := score_vectors avx2 (graph_metric g) a b in Ok (MkItem j sc)).
  destruct (returns_mapM f (fun j item => item_index item = j) l) as (items & -> & Hitems).
  { intros j Hj. eapply Forall_forall in Hl as [_ Hj']; [|exact Hj]. apply at_layer_in in Hj'.
    destruct (pair_score vs g i j Hb Hi Hj') as (a & b & sc & Ea & Eb & Es). unfold f. rewrite Ea. cbn [rbind]. rewrite Eb. cbn [rbind].
    rewrite Es. cbn [rbind]. by apply returns_ok. }
  assert (forall x, x ∈ items -> item_index x ∈ l) as Hin.
  { intros x Hx. apply list_elem_of_lookup in Hx as (k & Ek). destruct (Forall2_lookup_r _ _ _ _ _ Hitems Ek) as (j & Ej & <-). by eapply list_elem_of_lookup_2. }
  assert (Forall (fun x => in_graph g (item_index x)) items) as Hig.
  { apply Forall_forall. intros x Hx%Hin. eapply Forall_forall in Hl as [_ Hx']; [|exact Hx]. by eapply at_layer_in. }
  cbn [rbind]. rewrite sort_items_ok by (done || by eapply building_wf). cbn [rbind]. set (sorted := sort_by _ items).
  assert (forall x, x ∈ sorted -> x ∈ items) as Hsub by (intros x Hx; unfold sorted in Hx; by rewrite elem_of_sort_by in Hx).
  destruct (select_neighbors_ok vs g sorted (max_connections (graph_config g) t) Hb) as (sel & -> & Hsel).
  { apply Forall_forall. intros x Hx%Hsub. by eapply Forall_forall in Hig. }
  cbn [rbind]. apply update_layer_ok; [done|done|done|]. intros l' _. apply Forall_forall. intros j (x & -> & Hx)%list_elem_of_fmap.
  eapply Forall_forall in Hl; [exact Hl|]. by apply Hin, Hsub, Hsel.
Qed.

Lemma link_back_ok vs g new t x :
  building s vs g -> 0 <= t -> at_layer g t new -> new <= U32_MAX -> at_layer g t (item_index x) -> item_index x <> new ->
  returns (link_back avx2 new t g x) (fun g' => building s vs g' /\ relinked g g').
Proof.
  intros Hb Ht Hnew Hmax Hx Hne. unfold link_back. pose proof Hnew as (H0 & _). rewrite u32_small by lia.
  destruct (update_layer_ok vs g (item_index x) t (fun l => l ++ [new]) Hb Ht Hx) as (g1 & -> & Hb1 & Hr1).
  { intros l Hl. apply Forall_app. split; [done|]. constructor; [by split|constructor]. }
  cbn [rbind]. assert (at_layer g1 t (item_index x)) as Hx1 by (by eapply relinked_at).
  destruct (get_layer_ok vs g1 (item_index x) t Hb1 Ht Hx1) as (n & l & _ & _ & -> & _). cbn [rbind].
  destruct (_ <=? _); [|by apply returns_ok]. eapply returns_mono; [by apply prune_ok|].
  intros g2 [Hb2 Hr2]. split; [done|by eapply relinked_trans].
Qed.

Lemma connect_layer_ok vs g new t selected :
  building s vs g -> 0 <= t -> at_layer g t new -> new <= U32_MAX ->
  Forall (fun x => at_layer g t (item_index x) /\ item_index x <> new) selected -> node_count g <= U32_MAX + 1 ->
  returns (connect_layer avx2 new g (t, selected)) (fun g' => building s vs g' /\ relinked g g').
Proof.
  intros Hb Ht Hnew Hmax Hsel Hcount. unfold connect_layer.
  destruct (update_layer_ok vs g new t (fun l => l ++ map (fun item => wrap_u 32 (item_index item)) selected) Hb Ht Hnew) as (g1 & -> & Hb1 & Hr1).
  { intros l Hl. apply Forall_app. split; [done|]. apply Forall_map. eapply Forall_impl; [exact Hsel|]. intros x [Hx Hne].
    pose proof (at_layer_in _ _ _ Hx) as Hin. unfold in_graph in Hin. rewrite u32_small by lia. by split. }
  cbn [rbind]. apply (returns_fold _ (fun g' => building s vs g' /\ relinked g g')); [done|].
  intros g2 x Hx [Hb2 Hr2]. eapply Forall_forall in Hsel as [Hsx Hne]; [|exact Hx].
  eapply returns_mono; [apply (link_back_ok vs g2 new t x); try done; by eapply relinked_at|].
  intros g3 [Hb3 Hr3]. split; [done|by eapply relinked_trans].
Qed.

(** ** Planning *)

(** A plan has one list per layer of the new node, of nodes with that layer. *)
Definition plan_from g (first : Z) (plan : list (list HeapItem)) : Prop :=
  forall t l, plan !! t = Some l -> Forall (fun x => at_layer g (first + Z.of_nat t) (item_index x)) l.

Lemma plan_from_cons g first l plan :
  Forall (fun x => at_layer g first (item_index x)) l -> plan_from g (first + 1) plan -> plan_from g first (l :: plan).
Proof.
  intros Hl Hp [|t] l' E; cbn in E; [injection E as <-; by rewrite Z.add_0_r|]. specialize (Hp t l' E).
  eapply Forall_impl; [exact Hp|]. intros x. cbv beta. replace (first + Z.of_nat (S t)) with (first + 1 + Z.of_nat t) by lia. done.
Qed.

(** The layers below [n], from the top; the answer does not depend on the
    workspace. *)
Lemma plan_layers_ok vs g q n current acc :
  building s vs g -> kind_of s q -> at_layer g (Z.of_nat n - 1) current -> plan_from g (Z.of_nat n) acc ->
  exists plan, plan_from g 0 plan /\ length plan = (n + length acc)%nat /\
    forall ws, ws_valid ws -> exists ws', ws_valid ws' /\
      plan_layers avx2 g q (rev (seqZ 0 (Z.of_nat n))) current ws acc = Ok (plan, ws').
Proof.
  intros Hb Hq. pose proof (building_wf vs g Hb) as Hg. pose proof (building_storage vs g Hb) as Hs.
  pose proof (b_config _ _ _ Hb) as Hcfg. revert current acc. induction n as [|n IH]; intros current acc Hc Hacc.
  { exists acc. split; [done|]. split; [done|]. intros ws Hws. by exists ws. }
  replace (Z.of_nat (S n)) with (Z.of_nat n + 1) in * by lia. rewrite seqZ_app by lia. rewrite rev_app_distr.
  change (rev (seqZ (0 + Z.of_nat n) 1)) with [0 + (0 + Z.of_nat n)]. rewrite !Z.add_0_l. cbn [app plan_layers].
  replace (Z.of_nat n + 1 - 1) with (Z.of_nat n) in Hc by lia.
  set (items := spec_search avx2 g q current (ef_construction (graph_config g)) (Z.of_nat n)).
  assert (Forall (fun x => at_layer g (Z.of_nat n) (item_index x)) items) as Hitems.
  { apply spec_search_inside; [|done]. intros i Hi. eapply layer_closed; [done|lia|done]. }
  destruct (select_neighbors_ok vs g items (max_connections (graph_config g) (Z.of_nat n)) Hb) as (sel & Esel & Hsel).
  { eapply Forall_impl; [exact Hitems|]. intros x. apply at_layer_in. }
  assert (Forall (fun x => at_layer g (Z.of_nat n) (item_index x)) sel) as Hsel'.
  { apply Forall_forall. intros x Hx%Hsel. by eapply Forall_forall in Hitems. }
  set (next := match sel with closest :: _ => item_index closest | [] => current end).
  assert (at_layer g (Z.of_nat n - 1) next) as Hnext.
  { unfold next. destruct Hsel' as [|x sel Hx _]; (eapply at_layer_lower; [done|lia]). }
  destruct (IH next (sel :: acc) Hnext) as (plan & Hp & Hlen & Hplan); [by apply plan_from_cons|].
  exists plan. split; [done|]. split; [rewrite Hlen; cbn; lia|]. intros ws Hws.
  destruct (search_layer_ok avx2 g q Hg ltac:(by rewrite Hs) current (ef_construction (graph_config g)) (Z.of_nat n) ws)
    as ([items' ws1] & -> & Ei & Hws1); [lia|lia|by eapply at_layer_in|done|]. cbn [fst snd] in Ei, Hws1. subst items'. cbn [rbind]. fold items. rewrite Esel. cbn [rbind].
  by apply Hplan.
Qed.

(** The plan of an insertion. *)
Definition planned g (point : PreparedPoint) (plan : list (list HeapItem)) : Prop :=
  plan_from g 0 plan /\ length plan = Z.to_nat (pp_level point + 1) /\
  forall ws, ws_valid ws -> exists ws', ws_valid ws' /\ plan_insert avx2 g point ws = Ok (plan, ws').

Lemma planned_unique g point plan plan' : planned g point plan -> planned g point plan' -> plan = plan'.
Proof.
  intros (_ & _ & H1) (_ & _ & H2). destruct (H1 workspace_new workspace_new_valid) as (w1 & _ & E1).
  destruct (H2 workspace_new workspace_new_valid) as (w2 & _ & E2). congruence.
Qed.

Lemma plan_insert_ok vs g point :
  building s vs g -> is_Some (entry_point g) -> kind_of s (pp_vector point) -> 0 <= pp_level point ->
  exists plan, planned g point plan.
Proof.
  intros Hb [entry He] Hq Hlevel. pose proof (b_entry _ _ _ Hb) as Hen. rewrite He in Hen. destruct Hen as [Hmax Hen].
  set (level := pp_level point) in *. set (top := Z.min level (max_level g)).
  assert (exists current, at_layer g top current /\
    foldM_result (greedy_closest avx2 g (pp_vector point)) entry (if Z.ltb level (max_level g) then descending (level + 1) (max_level g) else []) = Ok current) as (current & Hc & Ec).
  { destruct (Z.ltb_spec level (max_level g)) as [Hlt|Hge].
    - unfold descending. replace (max_level g - (level + 1) + 1) with (Z.of_nat (S (Z.to_nat (max_level g - level - 1)))) by lia.
      destruct (descent_at vs g (pp_vector point) (level + 1) (Z.to_nat (max_level g - level - 1)) entry Hb Hq) as (c & E & Hc); [lia|eapply at_layer_lower; [exact Hen|lia]|].
      exists c. split; [eapply at_layer_lower; [exact Hc|unfold top; lia]|done].
    - exists entry. split; [eapply at_layer_lower; [exact Hen|unfold top; lia]|done]. }
  destruct (plan_layers_ok vs g (pp_vector point) (Z.to_nat (top + 1)) current [] Hb Hq) as (plan & Hp & Hlen & Hplan).
  { eapply at_layer_lower; [exact Hc|lia]. }
  { by intros t l. }
  exists (plan ++ repeat [] (Z.to_nat (level - top))). split; [|split].
  - intros t l E. apply lookup_app_Some in E as [E|[_ E]]; [by apply Hp|]. apply list_elem_of_lookup_2 in E.
    apply list_elem_of_In, repeat_spec in E as ->. constructor.
  - rewrite length_app, repeat_length, Hlen. cbn. unfold top. lia.
  - intros ws Hws. destruct (Hplan ws Hws) as (ws' & Hws' & E). exists ws'. split; [done|].
    unfold plan_insert. rewrite He. fold level. rewrite Ec. cbn [rbind]. fold top. unfold descending.
    replace (top - 0 + 1) with (Z.of_nat (Z.to_nat (top + 1))) by lia. by rewrite E.
Qed.

(** ** Inserting *)

(** What an insertion adds. *)
Record grown g g' (new_ids : list string) : Prop := {
  gr_ids : ids g' = ids g ++ new_ids;
  gr_dimension : graph_dimension g' = graph_dimension g;
  gr_metric : graph_metric g' = graph_metric g;
  gr_config : graph_config g' = graph_config g;
  gr_at : forall t j, at_layer g t j -> at_layer g' t j
}.

Lemma grown_refl g : grown g g [].
Proof. constructor; rewrite ?app_nil_r; done. Qed.

Lemma grown_trans g1 g2 g3 l l' : grown g1 g2 l -> grown g2 g3 l' -> grown g1 g3 (l ++ l').
Proof. intros [A1 A2 A3 A4 A5] [B1 B2 B3 B4 B5]. constructor; [by rewrite B1, A1, app_assoc|congruence..|auto]. Qed.

Lemma relinked_grown g g' : relinked g g' -> grown g g' [].
Proof. intros Hr. pose proof Hr as (ns & -> & _). constructor; cbn; rewrite ?app_nil_r; try done. intros t j. by apply relinked_at. Qed.

Lemma planned_grown g g' l plan : plan_from g 0 plan -> grown g g' l -> plan_from g' 0 plan.
Proof. intros Hp Hg t l' E. eapply Forall_impl; [by apply Hp|]. intros x. apply (gr_at _ _ _ Hg). Qed.

(** A point that can be inserted. *)
Definition insertable (dim : Z) (point : PreparedPoint) : Prop := fits s dim (pp_vector point) /\ 0 <= pp_level point <= MAX_LEVEL.

(** The node is added, without links. *)
Lemma push_node_ok vs g point arena entry top :
  building s vs g -> insertable (graph_dimension g) point -> pp_id point ∉ ids g ->
  owned s (graph_dimension g) (vs ++ [pp_vector point]) arena ->
  let g' := MkIndex (graph_dimension g) (graph_metric g) (graph_config g)
    (nodes g ++ [MkNode (wrap_u 8 (pp_level point)) 0 (repeat [] (Z.to_nat (pp_level point + 1)))]) (ids g ++ [pp_id point]) arena
    (Some entry) top (compact_graph g) in
  (0 <= top /\ at_layer g' top entry) -> building s (vs ++ [pp_vector point]) g' /\ grown g g' [pp_id point] /\
  forall t, t <= pp_level point -> at_layer g' t (node_count g).
Proof.
  intros Hb [_ Hlev] Hid Ha g' Hen. pose proof Hb as [B1 B2 B3 B4 B5 B6 B7 B8 B9 B10].
  assert (wrap_u 8 (pp_level point) = pp_level point) as El by (apply wrap_u_small; unfold MAX_LEVEL in Hlev; lia).
  assert (forall t j, at_layer g t j -> at_layer g' t j) as Hat.
  { intros t j (H0 & n & En & Hl). split; [done|]. exists n. split; [|done]. cbn. by apply lookup_app_l_Some. }
  assert (forall t, t <= pp_level point -> at_layer g' t (node_count g)) as Hnew.
  { intros t Ht. split; [apply zlen_nonneg|]. eexists. split; [cbn; unfold node_count, zlen; rewrite Nat2Z.id; by rewrite lookup_app_r, Nat.sub_diag by done|].
    cbn. by rewrite El. }
  split; [|split; [constructor; try done|done]]. constructor; cbn [g' compact_graph ids nodes graph_dimension vectors graph_config entry_point max_level]; try done.
  - rewrite !length_app. cbn. lia.
  - apply NoDup_app. split; [done|]. split; [|apply NoDup_singleton]. intros x Hx ->%list_elem_of_singleton. done.
  - rewrite !length_app. cbn. lia.
  - apply Forall_app. split; [done|]. constructor; [|constructor]. cbn. rewrite El. unfold zlen. rewrite repeat_length. lia.
  - intros i n t l En Et. apply lookup_app_Some in En as [En|[_ En]].
    + eapply Forall_impl; [by eapply B9|]. intros j [Hj1 Hj2]. split; [done|by apply Hat].
    + apply list_lookup_singleton_Some in En as [_ <-]. cbn in Et. apply list_elem_of_lookup_2, list_elem_of_In, repeat_spec in Et as ->. constructor.
Qed.

Lemma with_entry_ok vs g e top :
  building s vs g -> 0 <= top -> at_layer g top e -> building s vs (with_entry g e top).
Proof. intros [B1 B2 B3 B4 B5 B6 B7 B8 B9 B10] Ht He. by constructor. Qed.

Lemma apply_insertion_ok vs g point plan :
  building s vs g -> insertable (graph_dimension g) point -> pp_id point ∉ ids g -> node_count g <= U32_MAX ->
  plan_from g 0 plan -> length plan = Z.to_nat (pp_level point + 1) ->
  returns (apply_insertion avx2 g point plan)
    (fun g' => building s (vs ++ [pp_vector point]) g' /\ grown g g' [pp_id point] /\ is_Some (entry_point g')).
Proof.
  intros Hb Hp Hid Hcount Hplan Hlen. pose proof Hp as [Hfit Hlev]. unfold apply_insertion.
  destruct (owned_push s (graph_dimension g) vs (vectors g) (pp_vector point)) as (arena & -> & Ha); [by eapply b_arena|done|]. cbn [rbind entry_point].
  pose proof (b_entry _ _ _ Hb) as Hen. destruct (entry_point g) as [entry|] eqn:Ee.
  - destruct Hen as [Hmax Hen].
    set (g1 := MkIndex _ _ _ _ _ _ _ _ _). destruct (push_node_ok vs g point arena entry (max_level g) Hb Hp Hid Ha) as (Hb1 & Hg1 & Hnew).
    { split; [done|]. destruct Hen as (H0 & n & En & Hl). split; [done|]. exists n. split; [|done]. cbn. by apply lookup_app_l_Some. }
    assert (returns (foldM_result (connect_layer avx2 (node_count g)) g1 (enumerate plan))
      (fun g2 => building s (vs ++ [pp_vector point]) g2 /\ relinked g1 g2)) as (g2 & Eg2 & Hb2 & Hr2).
    { apply (returns_fold _ (fun g2 => building s (vs ++ [pp_vector point]) g2 /\ relinked g1 g2)); [by split; [|apply relinked_refl]|].
      intros g2 [t selected] Hin [Hb2 Hr2]. unfold enumerate in Hin. apply elem_of_lookup_imap in Hin as (k & l & E & El). injection E as -> ->.
      pose proof (lookup_lt_Some _ _ _ El) as Hk.
      eapply returns_mono; [apply (connect_layer_ok (vs ++ [pp_vector point]) g2 (node_count g) (Z.of_nat k) l); [done|lia| |done| |]|].
      + eapply relinked_at; [exact Hr2|]. apply Hnew. lia.
      + eapply Forall_impl; [exact (Hplan k l El)|]. cbv beta. rewrite Z.add_0_l. intros x Hx. split; [eapply relinked_at; [exact Hr2|by apply (gr_at _ _ _ Hg1)]|].
        intros E. pose proof (at_layer_in _ _ _ Hx) as Hi. unfold in_graph in Hi. lia.
      + destruct Hr2 as (ns & -> & En). assert (length ns = length (nodes g1)) as El2 by (rewrite <- (length_map level ns), En; apply length_map).
        unfold node_count, zlen in *. cbn [nodes with_nodes]. rewrite El2. unfold g1. cbn [nodes]. rewrite length_app. cbn. lia.
      + intros g3 [Hb3 Hr3]. split; [done|by eapply relinked_trans]. }
    change (zlen (nodes g)) with (node_count g). rewrite Eg2. cbn [rbind]. apply returns_ok.
    assert (grown g g2 [pp_id point]) as Hg2 by (rewrite <- (app_nil_r [pp_id point]); eapply grown_trans; [exact Hg1|by apply relinked_grown]).
    assert (entry_point g2 = Some entry) as Ee2 by (by destruct Hr2 as (ns & -> & _)).
    destruct (Z.ltb_spec (max_level g2) (pp_level point)); [|split; [done|]; split; [done|]; by rewrite Ee2].
    split; [apply with_entry_ok; [done|lia|]|split; [by destruct Hg2|by eexists]]. eapply relinked_at; [exact Hr2|by apply Hnew].
  - destruct (push_node_ok vs g point arena (node_count g) (pp_level point) Hb Hp Hid Ha) as (Hb1 & Hg1 & Hnew).
    { split; [lia|]. split; [apply zlen_nonneg|]. eexists. split; [cbn; unfold node_count, zlen; rewrite Nat2Z.id; by rewrite lookup_app_r, Nat.sub_diag by done|].
      cbn. rewrite wrap_u_small; [done|unfold MAX_LEVEL in Hlev; lia]. }
    apply returns_ok. split; [exact Hb1|]. split; [exact Hg1|by eexists].
Qed.
End Insert.
