(* ===== verification/HnswBuild.v ===== *)
(** * HnswBuild: building a graph is total, sound and deterministic

    Whatever the number of workers the build of a list of points gives one
    graph: the plans of a batch depend on the graph before the batch and on the
    point alone.  The graph is well formed and holds the points in order. *)

From stdpp Require Import base gmap sets list strings sorting.
From Stdlib Require Import ZArith Lia.
From S2P Require Import Prelude Errors Floats Ranking Metric Collection Codec Quantize Hnsw HnswCodec HnswFacts HnswSearch HnswCompact.
From S2P Require Import HnswCodecFacts HnswInsert.

(** ** Chunks *)

Lemma chunks_concat {A} fuel size (l : list A) :
  (0 < size)%nat -> (length l <= fuel)%nat -> concat (chunks fuel size l) = l.
Proof.
  intros Hs. revert l. induction fuel as [|fuel IH]; intros [|x l] Hl; cbn [chunks concat]; try done; [cbn in Hl; lia|].
  rewrite IH by (rewrite length_skipn; cbn in *; lia). apply firstn_skipn.
Qed.

Lemma length_chunks {A} fuel size workers (l : list A) :
  (0 < size)%nat -> (length l <= workers * size)%nat -> (length (chunks fuel size l) <= workers)%nat.
Proof.
  intros Hs. revert l workers. induction fuel as [|fuel IH]; intros [|x l] workers Hl; cbn [chunks length]; try lia.
  destruct workers as [|workers]; [cbn in Hl; lia|]. apply le_n_S, IH. rewrite length_skipn. cbn in *. lia.
Qed.

Lemma chunk_size_enough n workers : (0 < workers)%nat -> (n <= workers * ((n + workers - 1) / workers))%nat.
Proof.
  intros Hw. pose proof (Nat.div_mod_eq (n + workers - 1) workers). pose proof (Nat.mod_upper_bound (n + workers - 1) workers ltac:(lia)). lia.
Qed.

Section Build.
Context `{FloatEnv} (avx2 : bool) (s : HnswVectorStorage).
Implicit Types (g : HnswIndex) (vs : list VectorRef) (points batch : list PreparedPoint).

(** The points still to come can all be inserted. *)
Record pending g points : Prop := {
  pe_points : Forall (insertable s (graph_dimension g)) points;
  pe_distinct : NoDup (ids g ++ map pp_id points);
  pe_count : node_count g + zlen points <= U32_MAX
}.

Lemma pending_app g points points' g' :
  pending g (points ++ points') -> grown g g' (map pp_id points) -> node_count g' = node_count g + zlen points -> pending g' points'.
Proof.
  intros [P1 P2 P3] Hg Hc. apply Forall_app in P1 as [_ P1]. rewrite map_app in P2. rewrite zlen_app in P3. constructor.
  - by rewrite (gr_dimension _ _ _ Hg).
  - by rewrite (gr_ids _ _ _ Hg), <- app_assoc.
  - lia.
Qed.

Lemma pending_prefix g points points' : pending g (points ++ points') -> pending g points.
Proof.
  intros [P1 P2 P3]. apply Forall_app in P1 as [P1 _]. rewrite map_app, app_assoc in P2. apply NoDup_app in P2 as [P2 _].
  rewrite zlen_app in P3. pose proof (zlen_nonneg points'). constructor; [done|done|lia].
Qed.

(** A graph after inserting [points] into [g]. *)
Definition built vs g points g' : Prop :=
  building s (vs ++ map pp_vector points) g' /\ grown g g' (map pp_id points) /\ (points <> [] -> is_Some (entry_point g')).

Lemma built_count vs g points g' : building s vs g -> built vs g points g' -> node_count g' = node_count g + zlen points.
Proof.
  intros Hb (Hb' & _). pose proof (b_count _ _ _ Hb). pose proof (b_count _ _ _ Hb') as E. rewrite length_app, length_map in E.
  unfold node_count, zlen. lia.
Qed.

Lemma built_nil vs g : building s vs g -> built vs g [] g.
Proof. intros Hb. split; [by rewrite app_nil_r|]. split; [apply grown_refl|done]. Qed.

Lemma built_cons vs g p points g1 g2 :
  built vs g [p] g1 -> built (vs ++ [pp_vector p]) g1 points g2 -> built vs g (p :: points) g2.
Proof.
  intros (Hb1 & Hg1 & He1) (Hb2 & Hg2 & He2). split; [by rewrite <- app_assoc in Hb2|]. split; [by apply (grown_trans g g1 g2 [pp_id p])|].
  intros _. destruct points as [|q points]; [|by apply He2]. clear He2.
  pose proof (b_entry _ _ _ Hb2) as He. destruct (entry_point g2); [by eexists|]. pose proof (b_ids _ _ _ Hb2) as E. rewrite He in E.
  rewrite (gr_ids _ _ _ Hg2), (gr_ids _ _ _ Hg1), !length_app in E. cbn in E. lia.
Qed.

Lemma built_trans vs g points points' g1 g2 :
  points <> [] -> building s vs g -> built vs g points g1 -> built (vs ++ map pp_vector points) g1 points' g2 -> built vs g (points ++ points') g2.
Proof.
  intros Hne Hb (Hb1 & Hg1 & He1) (Hb2 & Hg2 & He2). split; [by rewrite map_app, app_assoc|]. split; [rewrite map_app; by eapply grown_trans|].
  intros _. pose proof (b_entry _ _ _ Hb2) as He. destruct (entry_point g2); [by eexists|]. pose proof (b_ids _ _ _ Hb2) as E. rewrite He in E.
  rewrite (gr_ids _ _ _ Hg2), (gr_ids _ _ _ Hg1), !length_app, length_map in E. destruct points; [done|]. cbn in E. lia.
Qed.

(** ** One by one *)

Lemma pending_one g p points : pending g (p :: points) -> insertable s (graph_dimension g) p /\ pp_id p ∉ ids g /\ node_count g <= U32_MAX.
Proof.
  intros [P1 P2 P3]. apply Forall_cons in P1 as [P1 _]. rewrite zlen_cons in P3. pose proof (zlen_nonneg points).
  split; [done|]. split; [|lia]. intros Hin. apply NoDup_app in P2 as (_ & P2 & _). apply (P2 (pp_id p) Hin). by left.
Qed.

Lemma insert_prepared_ok vs g ws p points :
  building s vs g -> ws_valid ws -> pending g (p :: points) ->
  exists g' ws', insert_prepared avx2 (g, ws) p = Ok (g', ws') /\ ws_valid ws' /\ built vs g [p] g'.
Proof.
  intros Hb Hws Hp. destruct (pending_one g p points Hp) as (Hin & Hid & Hc). pose proof Hin as [Hfit Hlev]. unfold insert_prepared.
  destruct (entry_point g) as [e|] eqn:Ee.
  - destruct (plan_insert_ok avx2 s vs g p Hb ltac:(by rewrite Ee; eexists) (fits_kind _ _ _ Hfit) (proj1 Hlev)) as (plan & Hpl & Hlen & Hplan).
    destruct (Hplan ws Hws) as (ws' & Hws' & ->). cbn [rbind].
    destruct (apply_insertion_ok avx2 s vs g p plan Hb Hin Hid Hc Hpl Hlen) as (g' & -> & Hb' & Hg' & He'). cbn [rbind].
    exists g', ws'. split; [done|]. by split_and!.
  - destruct (apply_insertion_ok avx2 s vs g p (repeat [] (Z.to_nat (pp_level p + 1))) Hb Hin Hid Hc) as (g' & -> & Hb' & Hg' & He').
    + intros t l E. apply list_elem_of_lookup_2, list_elem_of_In, repeat_spec in E as ->. constructor.
    + apply repeat_length.
    + cbn [rbind]. exists g', ws. split; [done|]. by split_and!.
Qed.

Lemma insert_all_ok vs g ws points rest :
  building s vs g -> ws_valid ws -> pending g (points ++ rest) ->
  exists g' ws', foldM_result (insert_prepared avx2) (g, ws) points = Ok (g', ws') /\ ws_valid ws' /\ built vs g points g'.
Proof.
  revert vs g ws. induction points as [|p points IH]; intros vs g ws Hb Hws Hp; [exists g, ws; split; [done|]; by split; [|apply built_nil]|].
  cbn [foldM_result]. destruct (insert_prepared_ok vs g ws p (points ++ rest) Hb Hws Hp) as (g1 & ws1 & -> & Hws1 & Hg1). cbn [rbind].
  pose proof (built_count vs g [p] g1 Hb Hg1) as Hc1. destruct (IH (vs ++ [pp_vector p]) g1 ws1) as (g2 & ws2 & -> & Hws2 & Hg2).
  - by destruct Hg1.
  - done.
  - eapply (pending_app g [p]); [exact Hp|by destruct Hg1 as (_ & ? & _)|done].
  - exists g2, ws2. split; [done|]. split; [done|]. by eapply built_cons.
Qed.

(** ** In batches *)

Lemma plan_chunk_ok vs g batch ws :
  building s vs g -> is_Some (entry_point g) -> Forall (insertable s (graph_dimension g)) batch -> ws_valid ws ->
  exists plans ws', plan_chunk avx2 g batch ws = Ok (plans, ws') /\ ws_valid ws' /\ Forall2 (planned avx2 g) batch plans.
Proof.
  intros Hb He Hall. revert ws. induction Hall as [|p batch [Hfit Hlev] _ IH]; intros ws Hws; cbn [plan_chunk]; [by exists [], ws|].
  destruct (plan_insert_ok avx2 s vs g p Hb He (fits_kind _ _ _ Hfit) (proj1 Hlev)) as (plan & Hpl). pose proof Hpl as (_ & _ & Hplan).
  destruct (Hplan ws Hws) as (ws1 & Hws1 & ->). cbn [rbind]. destruct (IH ws1 Hws1) as (plans & ws2 & -> & Hws2 & Hplans). cbn [rbind].
  exists (plan :: plans), ws2. split; [done|]. split; [done|]. by constructor.
Qed.

Lemma plan_chunks_ok vs g (work : list (list PreparedPoint * BuildWorkspace)) :
  building s vs g -> is_Some (entry_point g) ->
  Forall (fun cw => Forall (insertable s (graph_dimension g)) cw.1 /\ ws_valid cw.2) work ->
  exists done, mapM_result (fun cw => plan_chunk avx2 g cw.1 cw.2) work = Ok done /\ length done = length work /\
    Forall ws_valid (map snd done) /\ Forall2 (planned avx2 g) (concat (map fst work)) (concat (map fst done)).
Proof.
  intros Hb He. induction 1 as [|[chunk ws] work [Hc Hws] _ IH]; cbn [mapM_result]; [by exists []|]. cbn [fst snd] in *.
  destruct (plan_chunk_ok vs g chunk ws Hb He Hc Hws) as (plans & ws' & -> & Hws' & Hplans). cbn [rbind].
  destruct IH as (done & -> & Hlen & Hval & Hall). cbn [rbind]. exists ((plans, ws') :: done). split; [done|]. cbn.
  split; [by rewrite Hlen|]. split; [by constructor|]. by apply Forall2_app.
Qed.

Lemma planned_unique_all g batch plans plans' :
  Forall2 (planned avx2 g) batch plans -> Forall2 (planned avx2 g) batch plans' -> plans = plans'.
Proof.
  intros H1. revert plans'. induction H1 as [|p plan batch plans Hp _ IH]; intros plans' H2; inversion H2; subst; [done|].
  f_equal; [by eapply planned_unique|by apply IH].
Qed.

(** The plans of a batch are the same for every pool of workers. *)
Lemma plan_batch_ok vs g batch workspaces :
  building s vs g -> is_Some (entry_point g) -> Forall (insertable s (graph_dimension g)) batch -> batch <> [] ->
  Forall ws_valid workspaces -> workspaces <> [] ->
  exists plans workspaces', plan_batch avx2 g batch workspaces = Ok (plans, workspaces') /\ Forall ws_valid workspaces' /\
    length workspaces' = length workspaces /\ Forall2 (planned avx2 g) batch plans.
Proof.
  intros Hb He Hall Hne Hws Hw. unfold plan_batch. set (workers := length workspaces). set (size := ((length batch + workers - 1) / workers)%nat).
  assert (0 < workers)%nat as Hpos by (unfold workers; destruct workspaces; [done|cbn; lia]).
  pose proof (chunk_size_enough (length batch) workers Hpos) as Hsize. fold size in Hsize.
  assert (0 < size)%nat as Hs0 by (destruct batch; [done|cbn [length] in Hsize; nia]).
  pose proof (chunks_concat (length batch) size batch Hs0 ltac:(lia)) as Econcat.
  pose proof (length_chunks (length batch) size workers batch Hs0 Hsize) as Hlen.
  set (cs := chunks (length batch) size batch) in *.
  assert (map fst (zip cs workspaces) = cs) as Efst by (change (map fst ?l) with (fst <$> l); by apply fst_zip).
  destruct (plan_chunks_ok vs g (zip cs workspaces) Hb He) as (don & E & Hdl & Hval & Hplans).
  { apply Forall_forall. intros [c ws] Hin. split.
    - apply elem_of_zip_l in Hin. apply Forall_forall. intros p Hp. eapply Forall_forall in Hall; [exact Hall|].
      rewrite <- Econcat. apply list_elem_of_In, in_concat. exists c. by rewrite <- !list_elem_of_In.
    - apply elem_of_zip_r in Hin. by eapply Forall_forall in Hws. }
  rewrite E. cbn [rbind]. rewrite Efst, Econcat in Hplans. eexists _, _. split; [done|]. split; [|split; [|done]].
  - apply Forall_app. split; [done|]. by apply Forall_drop.
  - rewrite length_app, length_map, length_skipn, Hdl, length_zip_with. fold workers. lia.
Qed.

Lemma apply_plans_ok vs g batch plans rest :
  building s vs g -> pending g (batch ++ rest) -> Forall2 (planned avx2 g) batch plans ->
  exists g', foldM_result (apply_planned avx2) g (zip batch plans) = Ok g' /\ built vs g batch g'.
Proof.
  assert (forall g0 l vs g, grown g0 g l -> building s vs g -> pending g (batch ++ rest) -> Forall2 (planned avx2 g0) batch plans ->
    exists g', foldM_result (apply_planned avx2) g (zip batch plans) = Ok g' /\ built vs g batch g') as Hgen.
  2: { intros Hb Hp. by apply (Hgen g [] vs g (grown_refl g)). }
  intros g0 l vs0 g1 Hg Hb Hp Hpl. revert vs0 g1 l Hg Hb Hp.
  induction Hpl as [|p plan batch plans (Hpl & Hlen & _) _ IH]; intros vs0 g1 l Hg Hb Hp; [exists g1; split; [done|by apply built_nil]|].
  cbn [zip zip_with foldM_result]. unfold apply_planned at 1. cbn [fst snd].
  destruct (pending_one g1 p (batch ++ rest) Hp) as (Hin & Hid & Hc).
  destruct (apply_insertion_ok avx2 s vs0 g1 p plan Hb Hin Hid Hc) as (g2 & -> & Hb2 & Hg2 & He2); [by eapply planned_grown|done|]. cbn [rbind].
  assert (built vs0 g1 [p] g2) as Hbu by by split_and!.
  destruct (IH (vs0 ++ [pp_vector p]) g2 (l ++ [pp_id p])) as (g3 & -> & Hg3).
  - by eapply grown_trans.
  - done.
  - eapply (pending_app g1 [p]); [exact Hp|done|by eapply built_count].
  - exists g3. split; [done|]. by eapply built_cons.
Qed.

Lemma batch_positive : (0 < PARALLEL_BUILD_BATCH)%nat.
Proof. apply Nat.ltb_lt. vm_compute. reflexivity. Qed.

Lemma build_batches_ok fuel vs g points :
  building s vs g -> pending g points -> (points <> [] -> is_Some (entry_point g)) -> (length points < fuel)%nat ->
  exists g', built vs g points g' /\
    forall workspaces, Forall ws_valid workspaces -> workspaces <> [] -> build_batches avx2 fuel g points workspaces = Ok g'.
Proof.
  pose proof batch_positive as Hpos. revert vs g points. induction fuel as [|fuel IH]; intros vs g points Hb Hp He Hf; [lia|].
  destruct (decide (points = [])) as [->|Hne].
  { exists g. split; [by apply built_nil|]. intros workspaces _ _. cbn [build_batches]. by rewrite firstn_nil. }
  set (batch := firstn PARALLEL_BUILD_BATCH points). set (rest := skipn PARALLEL_BUILD_BATCH points).
  assert (points = batch ++ rest) as Esplit by (symmetry; apply firstn_skipn).
  assert (batch <> []) as Hbne.
  { unfold batch. destruct points; [done|]. destruct PARALLEL_BUILD_BATCH; [lia|done]. }
  specialize (He Hne). rewrite Esplit in Hp.
  assert (Forall (insertable s (graph_dimension g)) batch) as Hin by (eapply pe_points, pending_prefix; exact Hp).
  destruct (plan_batch_ok vs g batch [workspace_new] Hb He Hin Hbne) as (plans & _ & _ & _ & _ & Hplans);
    [constructor; [apply workspace_new_valid|constructor]|done|].
  destruct (apply_plans_ok vs g batch plans rest Hb Hp Hplans) as (g1 & E1 & Hg1). pose proof (built_count vs g batch g1 Hb Hg1) as Hc1.
  destruct (IH (vs ++ map pp_vector batch) g1 rest) as (g2 & Hg2 & Hrun).
  - by destruct Hg1.
  - eapply pending_app; [exact Hp|by destruct Hg1 as (_ & ? & _)|done].
  - intros _. by apply Hg1.
  - unfold rest. rewrite length_skipn. destruct points; [done|]. cbn [length] in *. lia.
  - exists g2. split; [rewrite Esplit; by eapply built_trans|]. intros workspaces Hws Hw. cbn [build_batches]. fold batch rest.
    destruct (plan_batch_ok vs g batch workspaces Hb He Hin Hbne Hws Hw) as (plans' & workspaces' & Ep & Hws' & Hlw & Hplans').
    pose proof (planned_unique_all g batch plans plans' Hplans Hplans') as <-. destruct batch as [|p b] eqn:Eb; [done|]. rewrite <- Eb in *.
    rewrite Ep. cbn [rbind]. pose proof (Forall2_length _ _ _ Hplans) as El. rewrite (proj2 (Nat.ltb_ge _ _)) by lia.
    rewrite E1. cbn [rbind]. apply Hrun; [done|]. intros ->. destruct workspaces; [done|]. cbn in Hlw. lia.
Qed.

(** ** The last pruning and the compact form *)

Lemma compact_node_ok vs g i : building s vs g -> in_graph g i -> returns (compact_node avx2 g i) (fun g' => building s vs g' /\ relinked g g').
Proof.
  intros Hb Hi. unfold compact_node. destruct (index_in (E := Error) (nodes g) i Hi) as (n & -> & En). cbn [rbind].
  pose proof (b_levels _ _ _ Hb) as Hlev. eapply Forall_forall in Hlev as [_ Hlen]; [|by eapply list_elem_of_lookup_2].
  apply (returns_fold _ (fun g' => building s vs g' /\ relinked g g')); [split; [done|apply relinked_refl]|].
  intros g1 t Ht%elem_of_seqZ [Hb1 Hr1]. assert (at_layer g t i) as Hat by (split; [by destruct Hi|exists n; split; [done|lia]]).
  eapply returns_mono; [apply (prune_ok avx2 s vs g1 i t Hb1); [lia|by eapply relinked_at]|].
  intros g2 [Hb2 Hr2]. split; [done|by eapply relinked_trans].
Qed.

Lemma compact_neighbors_ok vs g : building s vs g -> returns (compact_neighbors avx2 g) (fun g' => building s vs g' /\ relinked g g').
Proof.
  intros Hb. unfold compact_neighbors. apply (returns_fold _ (fun g' => building s vs g' /\ relinked g g')); [split; [done|apply relinked_refl]|].
  intros g1 i Hi%elem_of_seqZ [Hb1 Hr1]. eapply returns_mono; [apply (compact_node_ok vs g1 i Hb1)|].
  - pose proof (b_count _ _ _ Hb) as E. pose proof (b_count _ _ _ Hb1) as E1. unfold in_graph, node_count, zlen in *. lia.
  - intros g2 [Hb2 Hr2]. split; [done|by eapply relinked_trans].
Qed.

(** A finished index over [points]. *)
Record index_of (dimension : Z) (metric : Metric) (config : HnswConfig) points (g : HnswIndex) : Prop := {
  io_wf : graph_wf g;
  io_ids : ids g = map pp_id points;
  io_dimension : graph_dimension g = dimension;
  io_metric : graph_metric g = metric;
  io_config : graph_config g = config;
  io_storage : arena_storage (vectors g) = s;
  io_vectors : forall (i : nat) p, points !! i = Some p -> vector g (Z.of_nat i) = Ok (pp_vector p)
}.

(** What a build may give: the index, or that it would be too large. *)
Definition build_outcome (dimension : Z) (metric : Metric) (config : HnswConfig) points (r : Result HnswIndex) : Prop :=
  match r with Ok g => index_of dimension metric config points g | Err e => exists message, e = ResourceExhausted message | Panic => False end.

Lemma finalize_refused g :
  compact_graph g = None ->
  (exists g', finalize_compact_graph g = Ok g') \/ exists message, finalize_compact_graph g = Err (ResourceExhausted message).
Proof.
  intros B1. unfold finalize_compact_graph. rewrite B1. destruct (count_ranges (nodes g)); [|right; by eexists]. cbn [overflow ok_or rbind].
  destruct (count_links (nodes g)); [|right; by eexists]. cbn [overflow ok_or rbind]. destruct (_ || _); [right; by eexists|].
  destruct (fold_left _ _ _). left. by eexists.
Qed.

Lemma finalize_ok vs g dimension metric config points :
  building s vs g -> ids g = map pp_id points -> vs = map pp_vector points -> graph_dimension g = dimension -> graph_metric g = metric ->
  graph_config g = config -> build_outcome dimension metric config points (finalize_compact_graph g).
Proof.
  intros Hb Ei -> <- <- <-. pose proof Hb as [B1 B2 B3 B4 B5 B6 B7 B8 B9 B10].
  assert (exists r, finalize_compact_graph g = r) as [[g'|e|] E] by (by eexists); rewrite E; cbn [build_outcome].
  - assert (arena_storage (vectors g) = s) as Es by (by eapply building_storage).
    assert (shape_ok g) as Hshape by (eapply Forall_impl; [exact B8|]; cbv beta; intros n Hn; split; [apply Hn|apply Hn]).
    destruct (finalize_wf g g' B1 Hshape E B2 B3) as (Hwf & Eids & _); [|done| | |].
    + rewrite Es. replace (node_count g) with (zlen (map pp_vector points)) by (unfold node_count, zlen; lia). by eapply owned_ok.
    + intros i n l j En Hl Hj. apply list_elem_of_lookup in Hl as [t Et]. pose proof (B9 i n t l En Et) as Hlk.
      eapply Forall_forall in Hlk as [H1 H2]; [|exact Hj]. split; [by eapply at_layer_in|done].
    + destruct (entry_point g); [by eapply at_layer_in, B10|done].
    + destruct (finalize_spec g g' B1 E) as (_ & _ & ->). constructor; try done. intros i p Ep. unfold vector. cbn [vectors graph_dimension].
      eapply owned_get; [exact B5|]. change (map pp_vector points) with (pp_vector <$> points). by rewrite list_lookup_fmap, Ep.
  - destruct (finalize_refused g B1) as [(g' & E')|(message & E')]; [congruence|]. exists message. congruence.
  - destruct (finalize_refused g B1) as [(g' & E')|(message & E')]; congruence.
Qed.

(** ** The whole build *)

Lemma index_new_building dimension metric config :
  0 <= dimension -> 2 <= m config <= ef_construction config -> building s [] (index_new dimension metric config s).
Proof.
  intros Hd Hc. constructor; cbn; try done; try (by constructor).
  by destruct s; cbn; exists [].
Qed.

Lemma build_prepared_ok dimension metric config points :
  0 <= dimension -> 2 <= m config <= ef_construction config -> Forall (insertable s dimension) points -> NoDup (map pp_id points) ->
  zlen points <= U32_MAX ->
  exists r, (forall workers, (0 < workers)%nat -> build_prepared_points avx2 workers dimension metric config s points = r) /\
    build_outcome dimension metric config points r.
Proof.
  intros Hd Hc Hall Hn Hcount. pose proof (index_new_building dimension metric config Hd Hc) as Hb0. set (g0 := index_new dimension metric config s) in *.
  assert (pending g0 points) as Hp0 by (constructor; [done|done|unfold node_count, zlen at 1; cbn; lia]).
  set (seeds := firstn PARALLEL_BUILD_SEED points). set (rest := skipn PARALLEL_BUILD_SEED points).
  assert (points = seeds ++ rest) as Esplit by (symmetry; apply firstn_skipn). rewrite Esplit in Hp0.
  destruct (insert_all_ok [] g0 workspace_new seeds rest Hb0 workspace_new_valid Hp0) as (g1 & ws & E1 & _ & Hg1).
  pose proof (built_count [] g0 seeds g1 Hb0 Hg1) as Hc1.
  assert (rest <> [] -> is_Some (entry_point g1)) as He1.
  { intros Hne. apply Hg1. intros Es. apply Hne. unfold rest, seeds in *.
    assert (0 < PARALLEL_BUILD_SEED)%nat as Hpos by (apply Nat.ltb_lt; vm_compute; reflexivity).
    destruct points as [|p l]; [by rewrite skipn_nil|]. destruct PARALLEL_BUILD_SEED; [lia|done]. }
  destruct (build_batches_ok (S (length points)) (map pp_vector seeds) g1 rest) as (g2 & Hg2 & Hrun);
    [by destruct Hg1|eapply pending_app; [exact Hp0|by destruct Hg1 as (_ & ? & _)|done]|done|unfold rest; rewrite length_skipn; lia|].
  assert (building s (map pp_vector points) g2) as Hb2 by (destruct Hg2 as (Hb2 & _); by rewrite Esplit, map_app).
  destruct (compact_neighbors_ok _ g2 Hb2) as (g3 & E3 & Hb3 & Hr3). exists (finalize_compact_graph g3). split.
  - intros workers Hw. unfold build_prepared_points. fold g0 seeds rest. rewrite E1. cbn [rbind]. rewrite Hrun; [cbn [rbind]; by rewrite E3| |].
    + apply Forall_forall. intros x Hx. apply list_elem_of_In, repeat_spec in Hx as ->. apply workspace_new_valid.
    + destruct workers; [lia|done].
  - destruct Hg1 as (_ & G1 & _), Hg2 as (_ & G2 & _). pose proof (relinked_grown _ _ Hr3) as G3.
    eapply finalize_ok; [exact Hb3| |done| | |].
    + rewrite (gr_ids _ _ _ G3), (gr_ids _ _ _ G2), (gr_ids _ _ _ G1), app_nil_r, Esplit, map_app. done.
    + by rewrite (gr_dimension _ _ _ G3), (gr_dimension _ _ _ G2), (gr_dimension _ _ _ G1).
    + by rewrite (gr_metric _ _ _ G3), (gr_metric _ _ _ G2), (gr_metric _ _ _ G1).
    + by rewrite (gr_config _ _ _ G3), (gr_config _ _ _ G2), (gr_config _ _ _ G1).
Qed.
End Build.

(** ** The entry points *)

Lemma level_loop_range fuel threshold hash level :
  0 <= level -> level <= level_loop fuel threshold hash level <= level + Z.of_nat fuel.
Proof.
  revert hash level. induction fuel as [|fuel IH]; intros hash level Hl; cbn [level_loop]; [lia|].
  destruct (_ <? _); [|lia]. specialize (IH (wrap_u 64 (rotate_left hash 17 * 0x9e3779b97f4a7c15)) (level + 1) ltac:(lia)). lia.
Qed.

Lemma deterministic_level_range id m : 0 <= deterministic_level id m <= MAX_LEVEL.
Proof.
  unfold deterministic_level. pose proof (level_loop_range (Z.to_nat MAX_LEVEL) (Z.max (U64_MAX / m) 1) (fnv1a (bytes_of_string id)) 0 ltac:(lia)).
  unfold MAX_LEVEL in *. lia.
Qed.

Section Entry.
Context `{FloatEnv} (avx2 : bool).

(** The inputs a build accepts. *)
Definition point_valid (dimension : Z) (p : string * list Z) : Prop :=
  p.1 <> "" /\ zlen p.2 = dimension /\ existsb (fun value => negb (is_finite fmt32 value)) p.2 = false.

Definition build_valid (dimension : Z) (config : HnswConfig) (points : list (string * list Z)) : Prop :=
  dimension <> 0 /\ 2 <= m config <= ef_construction config /\ Forall (point_valid dimension) points /\ NoDup (map fst points).

Lemma check_prepared_spec dimension seen points :
  match foldM_result (check_prepared dimension) seen points with
  | Ok _ => Forall (point_valid dimension) points /\ NoDup (map fst points) /\ Forall (fun p => p.1 ∉ seen) points
  | Err _ => ~ (Forall (point_valid dimension) points /\ NoDup (map fst points) /\ Forall (fun p => p.1 ∉ seen) points)
  | Panic => False
  end.
Proof.
  revert seen. induction points as [|[id v] points IH]; intros seen; cbn [foldM_result]; [by repeat constructor|].
  unfold check_prepared at 1, check_id. cbn [fst snd].
  destruct (decide (id = "")) as [->|Hid]; [cbn [rbind]; by intros ([(? & _) _]%Forall_cons & _)|].
  destruct (decide (id ∈ seen)) as [Hin|Hin]; [cbn [rbind]; by intros (_ & _ & [? _]%Forall_cons)|]. cbn [rbind].
  destruct (Z.eqb_spec (zlen v) dimension) as [Hd|Hd]; cbn [negb rbind]; [|by intros ([(_ & ? & _) _]%Forall_cons & _)].
  destruct (existsb _ v) eqn:Ef; cbn [rbind]; [by intros ([(_ & _ & E) _]%Forall_cons & _); cbn in E; congruence|].
  specialize (IH ({[id]} ∪ seen)). destruct (foldM_result _ _ points).
  - destruct IH as (H1 & H2 & H3). split; [by constructor|]. split.
    + cbn. constructor; [|done]. intros ([id' v'] & -> & Hp)%list_elem_of_fmap. eapply Forall_forall in H3; [|exact Hp]. set_solver.
    + constructor; [done|]. eapply Forall_impl; [exact H3|]. set_solver.
  - intros ([_ H1]%Forall_cons & H2 & [_ H3]%Forall_cons). cbn in H2. apply NoDup_cons in H2 as [H2 H2']. apply IH. split; [done|]. split; [done|].
    apply Forall_forall. intros p Hp. eapply Forall_forall in H3; [|exact Hp]. intros [E%elem_of_singleton|?]%elem_of_union; [|done].
    apply H2. rewrite <- E. by apply list_elem_of_fmap_2.
  - done.
Qed.

Lemma validate_config_spec dimension config :
  0 <= dimension ->
  match validate_config dimension config with
  | Ok _ => dimension <> 0 /\ 2 <= m config <= ef_construction config
  | Err _ => ~ (dimension <> 0 /\ 2 <= m config <= ef_construction config)
  | Panic => False
  end.
Proof.
  intros Hd. unfold validate_config. destruct (Z.eqb_spec dimension 0); [lia|]. destruct (Z.ltb_spec (m config) 2); [lia|].
  destruct (Z.ltb_spec (ef_construction config) (m config)); lia.
Qed.

(** The points as the builder stores them. *)
Definition stored_points (config : HnswConfig) (points : list (string * list Z)) : list PreparedPoint :=
  map (fun p => MkPrepared p.1 (quantize avx2 p.2) (deterministic_level p.1 (m config))) points.

Lemma build_quantized_ok dimension metric config points :
  0 <= dimension -> zlen points <= U32_MAX ->
  exists r, (forall workers, (0 < workers)%nat -> build_quantized_prepared avx2 workers dimension metric config points = r) /\
    match r with
    | Ok g => build_valid dimension config points /\ index_of ScalarInt8 dimension metric config (stored_points config points) g
    | Err e => ~ build_valid dimension config points \/ exists message, e = ResourceExhausted message
    | Panic => False
    end.
Proof.
  intros Hd Hcount. unfold build_quantized_prepared. pose proof (validate_config_spec dimension config Hd) as Hv.
  destruct (validate_config dimension config) as [[]|e|]; [| |done].
  2: { exists (Err e). split; [done|]. left. intros (? & ? & _). by apply Hv. }
  destruct Hv as [Hd0 Hm]. cbn [rbind]. pose proof (check_prepared_spec dimension ∅ points) as Hp.
  destruct (foldM_result (check_prepared dimension) ∅ points) as [seen|e|]; [| |done].
  2: { exists (Err e). split; [done|]. left. intros (_ & _ & H1 & H2). apply Hp. split; [done|]. split; [done|]. apply Forall_forall. set_solver. }
  destruct Hp as (Hall & Hn & _). cbn [rbind].
  destruct (build_prepared_ok avx2 ScalarInt8 dimension metric config (stored_points config points) Hd Hm) as (r & Hr & Hout).
  - unfold stored_points. apply Forall_map. eapply Forall_impl; [exact Hall|]. intros p (_ & Hl & _). split; [|apply deterministic_level_range].
    cbn. unfold zlen in *. by rewrite length_map.
  - unfold stored_points. by rewrite map_map.
  - unfold stored_points, zlen in *. by rewrite length_map.
  - exists r. split; [exact Hr|]. destruct r as [g|e|]; [|by right|done]. done.
Qed.

End Entry.

