(* ===== verification/Disk.v ===== *)
(** * Disk: a collection's directory, and computations that fail or crash

    The directory is a finite map from file names to contents.  Every system
    call that changes it is one [effect], and the [script] of the world decides
    how each one goes: it succeeds, it returns an error to the program, or the
    process dies in it.  A write that does not succeed may have stored any
    prefix of its bytes.  Theorems quantify over the script, so they hold for
    every placement of I/O errors and of a crash. *)

From stdpp Require Import base gmap sets list strings.
From Stdlib Require Import ZArith Lia.
From S2P Require Import Prelude Errors.

Abbreviation Dir := (gmap string (list byte)).

Inductive Fault : Type :=
| Proceed
| Fails (message : string) (done : nat)
| Crashes (done : nat).

(** The disk is one collection's directory here, and a tree of directories for
    a database. *)
Record WorldOf (D : Type) : Type := MkWorld { disk : D; script : list Fault }.
Arguments MkWorld {D} disk script.
Arguments disk {D} w.
Arguments script {D} w.

Inductive OutcomeOf (D A : Type) : Type :=
| Returned (a : A) (w : WorldOf D)
| Crashed (d : D).
Arguments Returned {D A} a w.
Arguments Crashed {D A} d.

Definition io_of (D A : Type) : Type := WorldOf D -> OutcomeOf D A.

Abbreviation World := (WorldOf Dir).
Abbreviation Outcome := (OutcomeOf Dir).
Abbreviation io := (io_of Dir).

Section Monad.
Context {D : Type}.

Definition ioret {A : Type} (a : A) : io_of D A := fun w => Returned a w.
Definition iobind {A B : Type} (m : io_of D A) (k : A -> io_of D B) : io_of D B := fun w =>
  match m w with
  | Returned a w' => k a w'
  | Crashed d => Crashed d
  end.

(** The [?] operator inside a computation. *)
Definition iotry {A B : Type} (m : io_of D (Result A)) (k : A -> io_of D (Result B)) : io_of D (Result B) :=
  iobind m (fun r => match r with
                     | Ok a => k a
                     | Err e => ioret (Err e)
                     | Panic => ioret Panic
                     end).
Definition iolift {A : Type} (r : Result A) : io_of D (Result A) := ioret r.

(** A system call; [partial n] is what it may leave behind when it does not
    succeed. *)
Definition effect {A : Type} (partial : nat -> D -> D) (run : D -> Result A * D) : io_of D (Result A) := fun w =>
  match script w with
  | Fails message done :: rest => Returned (Err (Io message)) (MkWorld (partial done (disk w)) rest)
  | Crashes done :: _ => Crashed (partial done (disk w))
  | Proceed :: rest => let (r, d) := run (disk w) in Returned r (MkWorld d rest)
  | [] => let (r, d) := run (disk w) in Returned r (MkWorld d [])
  end.

Definition unchanged (_ : nat) (d : D) : D := d.

(** [sync_all], [sync_data], [seek], [flush]: no effect on the contents. *)
Definition sync : io_of D (Result unit) := effect unchanged (fun d => (Ok tt, d)).

(** [let _ = ...]: the outcome is ignored. *)
Definition ignore {A : Type} (m : io_of D (Result A)) : io_of D unit := iobind m (fun _ => ioret tt).

Fixpoint for_each {A : Type} (f : A -> io_of D unit) (l : list A) : io_of D unit :=
  match l with
  | [] => ioret tt
  | a :: l' => iobind (f a) (fun _ => for_each f l')
  end.

Fixpoint io_fold {A S : Type} (f : S -> A -> io_of D (Result S)) (s : S) (l : list A) : io_of D (Result S) :=
  match l with
  | [] => ioret (Ok s)
  | a :: l' => iotry (f s a) (fun s' => io_fold f s' l')
  end.
End Monad.

Notation "'let*' p ':=' m 'in' k" := (iobind m (fun p => k))
  (at level 10, p pattern, m at level 200, k at level 200) : focal_scope.
Notation "'let*?' p ':=' m 'in' k" := (iotry m (fun p => k))
  (at level 10, p pattern, m at level 200, k at level 200) : focal_scope.

(** ** System calls *)

Definition missing : Error := Io "No such file or directory (os error 2)".

Definition exists_ (path : string) : io bool := fun w => Returned (bool_decide (is_Some (disk w !! path))) w.

Definition read_file (path : string) : io (Result (list byte)) :=
  effect unchanged (fun d => (ok_or (d !! path) missing, d)).

(** [OpenOptions::create_new] *)
Definition create_new (path : string) : io (Result unit) :=
  effect unchanged (fun d =>
    match d !! path with
    | Some _ => (Err (Io "File exists (os error 17)"), d)
    | None => (Ok tt, <[path := []]> d)
    end).

(** [OpenOptions::create] *)
Definition open_or_create (path : string) : io (Result unit) :=
  effect unchanged (fun d =>
    match d !! path with Some _ => (Ok tt, d) | None => (Ok tt, <[path := []]> d) end).

(** [write_all] at the end of an open file; the handle keeps the file alive. *)
Definition appended (path : string) (bytes : list byte) (d : Dir) : Dir :=
  <[path := default [] (d !! path) ++ bytes]> d.
Definition append (path : string) (bytes : list byte) : io (Result unit) :=
  effect (fun n => appended path (firstn n bytes)) (fun d => (Ok tt, appended path bytes d)).

Definition set_len (path : string) (len : Z) : io (Result unit) :=
  effect unchanged (fun d => (Ok tt, <[path := firstn (Z.to_nat len) (default [] (d !! path))]> d)).

(** [fs::rename] replaces the target. *)
Definition rename (from to : string) : io (Result unit) :=
  effect unchanged (fun d =>
    match d !! from with
    | Some bytes => (Ok tt, <[to := bytes]> (base.delete from d))
    | None => (Err missing, d)
    end).

Definition remove_file (path : string) : io (Result unit) :=
  effect unchanged (fun d =>
    match d !! path with Some _ => (Ok tt, base.delete path d) | None => (Err missing, d) end).

(** [write_new_file]: create, write, sync. *)
Definition write_new_file (path : string) (bytes : list byte) : io (Result unit) :=
  let*? _ := create_new path in
  let*? _ := append path bytes in
  sync.

(** The length of a file, as [seek(SeekFrom::End(0))] returns it. *)
Definition file_len (path : string) : io (Result Z) :=
  effect unchanged (fun d => (Ok (zlen (default [] (d !! path))), d)).

(** [OpenOptions::create().truncate(true)] *)
Definition create_truncated (path : string) : io (Result unit) :=
  effect unchanged (fun d => (Ok tt, <[path := []]> d)).
