(* ===== verification/DiskFacts.v ===== *)
(** * DiskFacts: a program logic for computations that fail or crash

    [specifies m d Q C] says of a computation [m] started on the directory [d],
    for every script of faults: if it returns [a] leaving [d'] then [Q a d'],
    and if the process dies in it leaving [d'] then the crash condition [C d'].
    A crash can strike in any system call, so [C] has to hold of every
    directory on the way. *)

From stdpp Require Import base gmap sets list strings.
From Stdlib Require Import ZArith Lia.
From S2P Require Import Prelude Errors Disk.

Section Logic.
Context {D : Type}.

Definition specifies {A : Type} (m : io_of D A) (d : D) (Q : A -> D -> Prop) (C : D -> Prop) : Prop :=
  forall s, match m (MkWorld d s) with
            | Returned a w => Q a (disk w)
            | Crashed d' => C d'
            end.

Lemma spec_ret {A} (a : A) d (Q : A -> D -> Prop) C : Q a d -> specifies (ioret a) d Q C.
Proof. intros HQ s. exact HQ. Qed.

Lemma spec_bind {A B} (m : io_of D A) (k : A -> io_of D B) d (P : A -> D -> Prop) (Q : B -> D -> Prop) C :
  specifies m d P C -> (forall a d', P a d' -> specifies (k a) d' Q C) -> specifies (iobind m k) d Q C.
Proof.
  intros Hm Hk s. unfold iobind. specialize (Hm s). destruct (m _) as [a w|d']; [|done].
  specialize (Hk a (disk w) Hm (script w)). by destruct w.
Qed.

Lemma spec_mono {A} (m : io_of D A) d (Q Q' : A -> D -> Prop) C C' :
  specifies m d Q C -> (forall a d', Q a d' -> Q' a d') -> (forall d', C d' -> C' d') -> specifies m d Q' C'.
Proof. intros Hm HQ HC s. specialize (Hm s). destruct (m _); auto. Qed.

Lemma spec_any {A} (m : io_of D A) d : specifies m d (fun _ _ => True) (fun _ => True).
Proof. intros s. by destruct (m _). Qed.

(** The [?] operator: an error leaves through [Q]. *)
Lemma spec_try {A B} (m : io_of D (Result A)) (k : A -> io_of D (Result B)) d (P : A -> D -> Prop) (Q : Result B -> D -> Prop) C :
  specifies m d (fun r d' => match r with Ok a => P a d' | Err e => Q (Err e) d' | Panic => Q Panic d' end) C ->
  (forall a d', P a d' -> specifies (k a) d' Q C) -> specifies (iotry m k) d Q C.
Proof.
  intros Hm Hk. unfold iotry. eapply spec_bind; [exact Hm|]. intros [a|e|] d' Hd'; [by apply Hk|by apply spec_ret..].
Qed.

Lemma spec_effect {A} (partial : nat -> D -> D) (run : D -> Result A * D) d (Q : Result A -> D -> Prop) C :
  (forall n, C (partial n d)) -> (forall e n, Q (Err (Io e)) (partial n d)) -> Q (run d).1 (run d).2 ->
  specifies (effect partial run) d Q C.
Proof.
  intros HC He HQ s. unfold effect. cbn [script disk]. destruct s as [|[|message n|n] s]; [| |apply He|apply HC];
    destruct (run d); exact HQ.
Qed.

Lemma spec_try_effect {A B} (partial : nat -> D -> D) (run : D -> Result A * D) (k : A -> io_of D (Result B)) d
    (Q : Result B -> D -> Prop) C :
  (forall n, C (partial n d)) -> (forall e n, Q (Err (Io e)) (partial n d)) ->
  match (run d).1 with
  | Ok a => specifies (k a) (run d).2 Q C
  | Err e => Q (Err e) (run d).2
  | Panic => Q Panic (run d).2
  end -> specifies (iotry (effect partial run) k) d Q C.
Proof.
  intros HC He HQ. eapply (spec_try _ _ _ (fun a d' => run d = (Ok a, d'))).
  - apply spec_effect; [done|intros; apply He|]. destruct (run d) as [[a|e|] d']; [done|exact HQ..].
  - intros a d' E. by rewrite E in HQ.
Qed.

Lemma spec_sync_then {B} (Q : Result B -> D -> Prop) (C : D -> Prop) d k :
  C d -> (forall e, Q (Err (Io e)) d) -> specifies (k tt) d Q C -> specifies (iotry sync k) d Q C.
Proof. intros HC He Hk. by apply spec_try_effect. Qed.
End Logic.

(** ** The system calls *)

Definition io_failed {A : Type} (r : Result A) : Prop := exists e, r = Err (Io e).

Section General.
Context {D : Type} (C : D -> Prop).

Lemma spec_sync d (Q : Result unit -> D -> Prop) :
  C d -> (forall e, Q (Err (Io e)) d) -> Q (Ok tt) d -> specifies sync d Q C.
Proof. intros HC He HQ. by apply spec_effect. Qed.

Lemma spec_ignore {A} (m : io_of D (Result A)) d (Q : unit -> D -> Prop) :
  specifies m d (fun _ d' => Q tt d') C -> specifies (ignore m) d Q C.
Proof. intros Hm. unfold ignore. eapply spec_bind; [exact Hm|]. intros a d' Hd'. by apply spec_ret. Qed.

Lemma spec_lift {A} (r : Result A) d (Q : Result A -> D -> Prop) : Q r d -> specifies (iolift r) d Q C.
Proof. apply spec_ret. Qed.

Lemma spec_for_each {A} (f : A -> io_of D unit) (l : list A) d (I : D -> Prop) :
  I d -> (forall x d', x ∈ l -> I d' -> specifies (f x) d' (fun _ => I) C) -> specifies (for_each f l) d (fun _ => I) C.
Proof.
  revert d. induction l as [|x l IH]; intros d Hd Hf; [by apply spec_ret|]. cbn [for_each].
  eapply spec_bind; [apply Hf; [by left|done]|]. intros [] d' Hd'. apply IH; [done|]. intros y d'' Hy. apply Hf. by right.
Qed.

End General.

Section Calls.
Context (C : Dir -> Prop).

Lemma spec_exists path d (Q : bool -> Dir -> Prop) :
  Q (bool_decide (is_Some (d !! path))) d -> specifies (exists_ path) d Q C.
Proof. intros HQ s. exact HQ. Qed.

Lemma spec_read path d bytes (Q : Result (list byte) -> Dir -> Prop) :
  d !! path = Some bytes -> C d -> (forall e, Q (Err (Io e)) d) -> Q (Ok bytes) d -> specifies (read_file path) d Q C.
Proof. intros E HC He HQ. apply spec_effect; [done|done|]. cbn. by rewrite E. Qed.

Lemma spec_file_len path d (Q : Result Z -> Dir -> Prop) :
  C d -> (forall e, Q (Err (Io e)) d) -> Q (Ok (zlen (default [] (d !! path)))) d -> specifies (file_len path) d Q C.
Proof. intros HC He HQ. by apply spec_effect. Qed.

Lemma spec_create path d (Q : Result unit -> Dir -> Prop) :
  C d -> (forall e, Q (Err (Io e)) d) -> (d !! path = None -> Q (Ok tt) (<[path := []]> d)) ->
  specifies (create_new path) d Q C.
Proof. intros HC He HQ. apply spec_effect; [done|done|]. destruct (d !! path) eqn:E; cbn; [apply He|by apply HQ]. Qed.

Lemma spec_open_or_create path d (Q : Result unit -> Dir -> Prop) :
  C d -> (forall e, Q (Err (Io e)) d) ->
  (forall d', (forall p, p <> path -> d' !! p = d !! p) -> d' !! path = Some (default [] (d !! path)) -> Q (Ok tt) d') ->
  specifies (open_or_create path) d Q C.
Proof.
  intros HC He HQ. apply spec_effect; [done|done|]. destruct (d !! path) eqn:E; cbn [fst snd]; apply HQ.
  - done.
  - by rewrite E.
  - intros p Hp. by apply lookup_insert_ne.
  - by rewrite lookup_insert_eq.
Qed.

Lemma spec_append path bytes d (Q : Result unit -> Dir -> Prop) :
  (forall n, C (appended path (firstn n bytes) d)) ->
  (forall e n, Q (Err (Io e)) (appended path (firstn n bytes) d)) -> Q (Ok tt) (appended path bytes d) ->
  specifies (append path bytes) d Q C.
Proof. intros HC He HQ. by apply spec_effect. Qed.

Lemma spec_set_len path len d (Q : Result unit -> Dir -> Prop) :
  C d -> (forall e, Q (Err (Io e)) d) -> Q (Ok tt) (<[path := firstn (Z.to_nat len) (default [] (d !! path))]> d) ->
  specifies (set_len path len) d Q C.
Proof. intros HC He HQ. by apply spec_effect. Qed.

Lemma spec_rename from to d (Q : Result unit -> Dir -> Prop) :
  C d -> (forall e, Q (Err (Io e)) d) ->
  (forall bytes, d !! from = Some bytes -> Q (Ok tt) (<[to := bytes]> (base.delete from d))) ->
  specifies (rename from to) d Q C.
Proof. intros HC He HQ. apply spec_effect; [done|done|]. destruct (d !! from) eqn:E; cbn; [by apply HQ|apply He]. Qed.

Lemma spec_remove path d (Q : Result unit -> Dir -> Prop) :
  C d -> (forall e, Q (Err (Io e)) d) -> Q (Ok tt) (base.delete path d) -> specifies (remove_file path) d Q C.
Proof. intros HC He HQ. apply spec_effect; [done|done|]. destruct (d !! path) eqn:E; cbn; [done|apply He]. Qed.

End Calls.

(** Files other than [path] are untouched by an append. *)
Lemma lookup_appended_ne path p bytes d : p <> path -> appended path bytes d !! p = d !! p.
Proof. intros Hp. unfold appended. by apply lookup_insert_ne. Qed.

Lemma lookup_appended path bytes d : appended path bytes d !! path = Some (default [] (d !! path) ++ bytes).
Proof. unfold appended. apply lookup_insert_eq. Qed.

Lemma appended_twice path b1 b2 d : appended path b2 (appended path b1 d) = appended path (b1 ++ b2) d.
Proof. unfold appended. by rewrite lookup_insert_eq, insert_insert_eq, app_assoc. Qed.

(** A pure step inside a computation. *)
Lemma iotry_ok {D A B} (a : A) (k : A -> io_of D (Result B)) : iotry (iolift (Ok a)) k = k a.
Proof. done. Qed.

Lemma iotry_err {D A B} e (k : A -> io_of D (Result B)) : iotry (iolift (Err e)) k = ioret (Err e).
Proof. done. Qed.

(** ** The system calls in front of the rest of a computation *)

Section Then.
Context {B : Type} (Q : Result B -> Dir -> Prop) (C : Dir -> Prop).

Lemma spec_append_then path bytes d k :
  (forall n, C (appended path (firstn n bytes) d)) -> (forall e n, Q (Err (Io e)) (appended path (firstn n bytes) d)) ->
  specifies (k tt) (appended path bytes d) Q C -> specifies (iotry (append path bytes) k) d Q C.
Proof. intros HC He Hk. by apply spec_try_effect. Qed.

Lemma spec_create_then path d k :
  C d -> (forall e, Q (Err (Io e)) d) -> (d !! path = None -> specifies (k tt) (<[path := []]> d) Q C) ->
  specifies (iotry (create_new path) k) d Q C.
Proof. intros HC He Hk. apply spec_try_effect; [done..|]. destruct (d !! path) eqn:E; cbn; [apply He|by apply Hk]. Qed.

Lemma spec_open_or_create_then path d k :
  C d -> (forall e, Q (Err (Io e)) d) ->
  (d !! path = None -> specifies (k tt) (<[path := []]> d) Q C) -> (is_Some (d !! path) -> specifies (k tt) d Q C) ->
  specifies (iotry (open_or_create path) k) d Q C.
Proof. intros HC He Hn Hs. apply spec_try_effect; [done..|]. destruct (d !! path) eqn:E; cbn; [by apply Hs|by apply Hn]. Qed.

Lemma spec_set_len_then path len d k :
  C d -> (forall e, Q (Err (Io e)) d) ->
  specifies (k tt) (<[path := firstn (Z.to_nat len) (default [] (d !! path))]> d) Q C ->
  specifies (iotry (set_len path len) k) d Q C.
Proof. intros HC He Hk. by apply spec_try_effect. Qed.

Lemma spec_rename_then from to d k :
  C d -> (forall e, Q (Err (Io e)) d) ->
  (forall bytes, d !! from = Some bytes -> specifies (k tt) (<[to := bytes]> (base.delete from d)) Q C) ->
  specifies (iotry (rename from to) k) d Q C.
Proof. intros HC He Hk. apply spec_try_effect; [done..|]. destruct (d !! from) eqn:E; cbn; [by apply Hk|apply He]. Qed.

Lemma spec_read_then path d k :
  C d -> (forall e, Q (Err (Io e)) d) -> (forall bytes, d !! path = Some bytes -> specifies (k bytes) d Q C) ->
  specifies (iotry (read_file path) k) d Q C.
Proof. intros HC He Hk. apply spec_try_effect; [done..|]. destruct (d !! path) eqn:E; cbn; [by apply Hk|apply He]. Qed.

Lemma spec_file_len_then path d k :
  C d -> (forall e, Q (Err (Io e)) d) -> specifies (k (zlen (default [] (d !! path)))) d Q C ->
  specifies (iotry (file_len path) k) d Q C.
Proof. intros HC He Hk. by apply spec_try_effect. Qed.
End Then.

(** ** Runs without faults *)

Definition runs {D A : Type} (m : io_of D A) (d : D) (a : A) (d' : D) : Prop := m (MkWorld d []) = Returned a (MkWorld d' []).

Lemma runs_try {D A B} (m : io_of D (Result A)) (k : A -> io_of D (Result B)) d a d1 r d2 :
  runs m d (Ok a) d1 -> runs (k a) d1 r d2 -> runs (iotry m k) d r d2.
Proof. unfold runs, iotry, iobind. by intros ->. Qed.

Lemma runs_step {D A B} (m : io_of D (Result A)) (k : A -> io_of D (Result B)) d a d1 :
  runs m d (Ok a) d1 -> iotry m k (MkWorld d []) = k a (MkWorld d1 []).
Proof. unfold runs, iotry, iobind. by intros ->. Qed.

Lemma runs_open_or_create path d :
  runs (open_or_create path) d (Ok tt) (match d !! path with Some _ => d | None => <[path := []]> d end).
Proof. unfold runs, open_or_create, effect. cbn. by destruct (d !! path). Qed.

(** ** Several writes to the end of one file *)

(** [path] held [w]; what a write of [bytes] behind it that was cut short may
    leave: any prefix. *)
Definition wrote (path : string) (w bytes : list byte) (d d' : Dir) : Prop :=
  exists l, l `prefix_of` bytes /\ d' = <[path := w ++ l]> d.

Lemma wrote_full path w bytes d : wrote path w bytes d (<[path := w ++ bytes]> d).
Proof. by exists bytes. Qed.

Lemma wrote_none path w bytes d : d !! path = Some w -> wrote path w bytes d d.
Proof. intros E. exists []. split; [apply prefix_nil|]. rewrite app_nil_r. symmetry. by apply insert_id. Qed.

(** A sequence of [write_all]s and what follows them. *)
Fixpoint append_all (path : string) (chunks : list (list byte)) (k : io (Result unit)) : io (Result unit) :=
  match chunks with
  | [] => k
  | chunk :: chunks' => let*? _ := append path chunk in append_all path chunks' k
  end.

Lemma spec_append_all path w pre chunks (k : io (Result unit)) d bytes (Q : Result unit -> Dir -> Prop) (C : Dir -> Prop) :
  bytes = pre ++ concat chunks -> (forall d', wrote path w bytes d d' -> C d' /\ forall e, Q (Err e) d') ->
  specifies k (<[path := w ++ bytes]> d) Q C -> specifies (append_all path chunks k) (<[path := w ++ pre]> d) Q C.
Proof.
  intros -> Hw Hk. revert pre Hw Hk. induction chunks as [|chunk chunks IH]; intros pre Hw Hk; cbn [append_all concat] in *.
  { by rewrite app_nil_r in Hk. }
  assert (forall bs, appended path bs (<[path := w ++ pre]> d) = <[path := w ++ pre ++ bs]> d) as Ha.
  { intros bs. unfold appended. rewrite lookup_insert_eq, insert_insert_eq. cbn. by rewrite <- app_assoc. }
  assert (forall n, wrote path w (pre ++ chunk ++ concat chunks) d (<[path := w ++ pre ++ firstn n chunk]> d)) as Hpart.
  { intros n. exists (pre ++ firstn n chunk). split; [|done]. exists (skipn n chunk ++ concat chunks).
    by rewrite <- app_assoc, (app_assoc (firstn n chunk)), firstn_skipn. }
  apply spec_append_then.
  - intros n. rewrite Ha. apply Hw, Hpart.
  - intros e n. rewrite Ha. apply Hw, Hpart.
  - rewrite Ha. apply IH; by rewrite <- app_assoc.
Qed.

Lemma spec_create_truncated_then {B} (Q : Result B -> Dir -> Prop) (C : Dir -> Prop) path d k :
  C d -> (forall e, Q (Err (Io e)) d) -> specifies (k tt) (<[path := []]> d) Q C ->
  specifies (iotry (create_truncated path) k) d Q C.
Proof. intros HC He Hk. by apply spec_try_effect. Qed.

(** ** Everything but one file *)

Definition except (path : string) (d d' : Dir) : Prop := forall p, p <> path -> d' !! p = d !! p.

Lemma except_appended path bytes d d' : except path d d' -> except path d (appended path bytes d').
Proof. intros He p Hp. rewrite lookup_appended_ne by done. by apply He. Qed.

Lemma except_insert path bytes d d' : except path d d' -> except path d (<[path := bytes]> d').
Proof. intros He p Hp. rewrite lookup_insert_ne by done. by apply He. Qed.

Lemma except_delete path d d' : except path d d' -> except path d (base.delete path d').
Proof. intros He p Hp. rewrite lookup_delete_ne by done. by apply He. Qed.

Lemma except_trans path d1 d2 d3 : except path d1 d2 -> except path d2 d3 -> except path d1 d3.
Proof. intros H1 H2 p Hp. by rewrite H2, H1. Qed.

Lemma wrote_except path w bytes d d' : wrote path w bytes d d' -> except path d d'.
Proof. intros (l & _ & ->). by apply except_insert. Qed.

(** ** Reading *)

(** A computation that only reads: it gives [r], or an I/O error, and leaves
    the directory alone. *)
Definition reads_as {A : Type} (m : io (Result A)) (d : Dir) (r : Result A) : Prop :=
  specifies m d (fun r' d' => d' = d /\ (r' = r \/ io_failed r')) (fun d' => d' = d) /\
  m (MkWorld d []) = Returned r (MkWorld d []).

Lemma reads_as_ret {A} (r : Result A) d : reads_as (ioret r) d r.
Proof. split; [|done]. apply spec_ret. tauto. Qed.

Lemma reads_as_try {A B} (m : io (Result A)) (k : A -> io (Result B)) d r (f : A -> Result B) :
  reads_as m d r -> (forall a, r = Ok a -> reads_as (k a) d (f a)) -> reads_as (iotry m k) d (rbind r f).
Proof.
  intros [Hm Em] Hk. split.
  - eapply (spec_try _ _ _ (fun a d' => d' = d /\ r = Ok a)).
    + eapply spec_mono; [exact Hm| |done]. cbv beta. intros [a|e|] d' [-> [E|(x & E)]]; try done.
      * split; [done|]. left. by rewrite <- E.
      * split; [done|]. right. exists x. congruence.
      * split; [done|]. left. by rewrite <- E.
    + intros a d' [-> Ha]. rewrite Ha. by apply Hk.
  - unfold iotry, iobind. rewrite Em. destruct r as [a|e|]; [|done..]. cbn [rbind]. by apply Hk.
Qed.

Lemma reads_as_file path d : reads_as (read_file path) d (ok_or (d !! path) missing).
Proof.
  split; [|done]. apply spec_effect; [done| |].
  - intros e n. split; [done|]. right. by exists e.
  - tauto.
Qed.

Lemma reads_as_fold {A S} (f : S -> A -> io (Result S)) (g : S -> A -> Result S) d l s :
  (forall s a, reads_as (f s a) d (g s a)) -> reads_as (io_fold f s l) d (foldM_result g s l).
Proof.
  intros Hf. revert s. induction l as [|a l IH]; intros s; [apply reads_as_ret|]. cbn [io_fold foldM_result].
  apply reads_as_try; [apply Hf|]. intros s' _. apply IH.
Qed.

(** A read step: what it gives, or an error, on the same directory. *)
Lemma spec_reads {A B} (m : io (Result A)) (k : A -> io (Result B)) d r (Q : Result B -> Dir -> Prop) C :
  reads_as m d r -> C d -> (forall e, Q (Err (Io e)) d) ->
  match r with Ok a => specifies (k a) d Q C | Err e => Q (Err e) d | Panic => Q Panic d end ->
  specifies (iotry m k) d Q C.
Proof.
  intros [Hm _] HC He Hk. eapply (spec_try _ _ _ (fun a d' => d' = d /\ r = Ok a)).
  - eapply spec_mono; [exact Hm| |by intros ? ->]. cbv beta. intros [a|e|] d' [-> [E|(x & E)]]; subst; try done.
    by injection E as ->.
  - intros a d' [-> ->]. exact Hk.
Qed.

Lemma reads_as_exists path d {A} (k : bool -> io (Result A)) r :
  reads_as (k (bool_decide (is_Some (d !! path)))) d r -> reads_as (iobind (exists_ path) k) d r.
Proof.
  intros [H1 H2]. split; [|exact H2].
  eapply spec_bind; [by apply (spec_exists _ path d (fun b d' => d' = d /\ b = bool_decide (is_Some (d !! path))))|].
  by intros b d' [-> ->].
Qed.

(** Writing a file under a temporary name and renaming it over [target]. *)
Lemma spec_replace_file temporary target chunks (k : io (Result unit)) d (Q : Result unit -> Dir -> Prop) (C : Dir -> Prop) :
  (forall d', except temporary d d' -> C d' /\ forall e, Q (Err e) d') ->
  specifies k (<[target := concat chunks]> (base.delete temporary d)) Q C ->
  specifies (let*? _ := create_truncated temporary in
             append_all temporary chunks (let*? _ := sync in let*? _ := rename temporary target in k)) d Q C.
Proof.
  intros He Hk. assert (forall bytes, except temporary d (<[temporary := bytes]> d)) as Hin by (intros; by apply except_insert).
  apply spec_create_truncated_then; [by apply He|intros e; by apply He|].
  apply (spec_append_all temporary [] [] chunks _ d (concat chunks)); [done| |].
  - intros d' Hd'. apply He. by eapply wrote_except.
  - cbn [app]. apply spec_sync_then; [by apply He|intros e; by apply He|].
    apply spec_rename_then; [by apply He|intros e; by apply He|]. intros bytes E.
    rewrite lookup_insert_eq in E. injection E as <-. by rewrite delete_insert_eq.
Qed.
