(* ===== verification/Segment.v ===== *)
(** * Segment: the immutable segment file ([write_segment_file] and
    [decode_segment_inner] of [src/src/persistence.rs])

    A segment holds points, tombstones and the HNSW graph of its points behind
    one checksum.  The writer streams through [Crc32cWriter], whose position
    decides the padding that aligns each vector; the decoder maps the vectors
    in place. *)

From stdpp Require Import base gmap sets list strings sorting.
From Stdlib Require Import ZArith Lia.
From S2P Require Import Prelude Errors Floats Ranking Metric Filter MetadataIndex Collection.
From S2P Require Hnsw HnswCodec.
From S2P Require Import Codec Wire.

Definition SEGMENT_MAGIC : list byte := bytes_of_string "FVSG".
Definition SEGMENT_VERSION : Z := 3.
Definition LEGACY_SEGMENT_VERSION : Z := 2.

Record DecodedSegment : Type := MkSegment {
  seg_config : CollectionConfig; seg_sequence : Z; seg_points : list StoredPoint;
  seg_tombstones : list string; seg_index : Hnsw.HnswIndex; seg_full : bool
}.

(** ** Writing *)

Definition put_count_writer (output : Crc32cWriter) (count : Z) : Result Crc32cWriter :=
  if Z.leb count U32_MAX then Ok (write output (le_bytes 4 count)) else Err (InvalidQuery "batch is too large").

Definition put_string_writer (output : Crc32cWriter) (value : string) : Result Crc32cWriter :=
  let? output := put_count_writer output (str_len value) in
  Ok (write output (bytes_of_string value)).

Definition encode_value_writer (output : Crc32cWriter) (value : Value) : Result Crc32cWriter :=
  match value with
  | Keyword value => put_string_writer (write output [to_u8 1]) value
  | Integer value => Ok (write (write output [to_u8 2]) (le_bytes 8 (wrap_u 64 value)))
  | Float value => if is_finite fmt64 value then Ok (write (write output [to_u8 3]) (le_bytes 8 value))
                   else Err (InvalidQuery "metadata floats must be finite")
  | Boolean value => Ok (write output [to_u8 4; to_u8 (if value then 1 else 0)])
  end.

(** The zero bytes in front of a vector: with the padding's own length byte
    they end at a multiple of four. *)
Definition padding_at (position : Z) : Z := (4 - (position + 1) mod 4) mod 4.

Definition write_entry (output : Crc32cWriter) (entry : string * Value) : Result Crc32cWriter :=
  let? output := put_string_writer output entry.1 in
  encode_value_writer output entry.2.

Definition write_point (output : Crc32cWriter) (point : StoredPoint) : Result Crc32cWriter :=
  let? output := put_string_writer output (sp_id point) in
  let output := write output (le_bytes 8 (sp_sequence point)) in
  let padding := padding_at (written output) in
  let output := write output [to_u8 padding] in
  let output := write output (firstn (Z.to_nat padding) [x00; x00; x00]) in
  let output := fold_left (fun output value => write output (le_bytes 4 value)) (as_slice (sp_vector point)) output in
  let? output := put_count_writer output (Z.of_nat (size (sp_metadata point))) in
  foldM_result write_entry output (btree_iter (sp_metadata point)).

(** The bytes of the segment; [output.finish()] leaves the checksum unhashed. *)
Definition segment_bytes (config : CollectionConfig) (sequence : Z) (points : list StoredPoint)
    (tombstones : list string) (full : bool) (index : Hnsw.HnswIndex) : Result (list byte) :=
  let output := write writer_new SEGMENT_MAGIC in
  let output := write output [to_u8 SEGMENT_VERSION] in
  let output := write output [to_u8 (metric_tag (metric config))] in
  let output := write output (le_bytes 8 (dimension config)) in
  let output := write output (le_bytes 8 sequence) in
  let output := write output [to_u8 (if full then 0 else 1)] in
  let? output := put_count_writer output (zlen points) in
  let? output := foldM_result write_point output points in
  let? output := put_count_writer output (zlen tombstones) in
  let? output := foldM_result put_string_writer output tombstones in
  let? graph_length := HnswCodec.encoded_len index in
  let? output := put_count_writer output graph_length in
  let? graph := HnswCodec.encode_into index in
  let output := write output graph in
  let (file, checksum) := writer_finish output in
  Ok (file ++ le_bytes 4 checksum).

(** ** Reading *)

Definition bad_vector : Error := CorruptStorage "segment contains a non-finite vector".

(** The vector of a current segment: aligned, and mapped in place when the
    segment is. *)
Definition aligned_vector (dim : Z) (mapping : option (list byte)) : dec PointVector :=
  let! padding := byte_ in
  let! _ := (if Z.ltb 3 padding then dfail (CorruptStorage "invalid vector alignment padding")
             else let! pad := take padding in
                  dguard (existsb (fun b => negb (Z.eqb (u8 b) 0)) pad) (CorruptStorage "invalid vector alignment padding")) in
  let! position := dposition in
  let! vector_offset := dlift (ok_or (checked_add USIZE_MAX 14 position) (CorruptStorage "vector offset overflow")) in
  let! length := dlift (ok_or (checked_mul USIZE_MAX dim 4) (CorruptStorage "vector byte length overflows")) in
  let! vector_bytes := take length in
  match mapping with
  | Some mapping =>
      let! vector := dlift (mapped mapping vector_offset dim) in
      let! _ := dguard (negb (forallb (is_finite fmt32) (as_slice vector))) bad_vector in
      dret vector
  | None =>
      let values := f32s_of_bytes vector_bytes in
      let! _ := dguard (negb (forallb (is_finite fmt32) values)) bad_vector in
      dret (Owned values)
  end.

Definition segment_vector (version dim : Z) (mapping : option (list byte)) : dec PointVector :=
  if Z.eqb version SEGMENT_VERSION then aligned_vector dim mapping
  else let! values := dec_list (Z.to_nat dim) f32 in dret (Owned values).

Definition segment_point (version dim : Z) (mapping : option (list byte)) : dec StoredPoint :=
  let! id := string_ in
  let! point_sequence := u64 in
  let! vector := segment_vector version dim mapping in
  let! m := metadata in
  dret (MkStored id vector m point_sequence None).

Definition tombstone (st : list string * gset string) (_ : nat) : dec (list string * gset string) :=
  let '(tombstones, seen) := st in
  let! id := string_ in
  let! _ := dguard (bool_decide (id = "") || bool_decide (id ∈ seen))
              (CorruptStorage "segment contains an empty or duplicate tombstone") in
  dret (tombstones ++ [id], {[id]} ∪ seen).

Definition segment_tombstones (version : Z) : dec (list string) :=
  if Z.eqb version SEGMENT_VERSION then
    let! n := count in
    let! st := dec_for (seq 0 (Z.to_nat n)) tombstone ([], ∅) in
    dret st.1
  else dret [].

Definition segment_kind (version : Z) : dec bool :=
  if Z.eqb version SEGMENT_VERSION then
    let! kind := byte_ in
    match kind with
    | 0 => dret true
    | 1 => dret false
    | _ => dfail (CorruptStorage "invalid segment kind")
    end
  else dret true.

Section Decode.
Context `{FloatEnv} (avx2 : bool).

Definition segment_graph (mapping : option (list byte)) : dec Hnsw.HnswIndex :=
  let! graph_length := u32 in
  let! position := dposition in
  let! graph_offset := dlift (ok_or (checked_add USIZE_MAX 14 position) (CorruptStorage "segment graph offset overflow")) in
  let! graph_bytes := take graph_length in
  dlift (match mapping with
         | Some mapping => HnswCodec.decode_mapped avx2 graph_bytes mapping graph_offset
         | None => HnswCodec.decode avx2 graph_bytes
         end).

(** Everything behind the fixed header. *)
Definition segment_body (version : Z) (config : CollectionConfig) (mapping : option (list byte)) : dec DecodedSegment :=
  let! sequence := u64 in
  let! full := segment_kind version in
  let! n := count in
  let! points := dec_list (Z.to_nat n) (segment_point version (dimension config) mapping) in
  let! tombstones := segment_tombstones version in
  let! _ := dguard (full && negb (bool_decide (tombstones = []))) (CorruptStorage "full segment contains tombstones") in
  let! index := segment_graph mapping in
  let! _ := finish in
  dret (MkSegment config sequence points tombstones index full).

Definition check_graph (segment : DecodedSegment) : Result DecodedSegment :=
  let index := seg_index segment in
  if negb (Z.eqb (Hnsw.graph_dimension index) (dimension (seg_config segment)))
     || negb (bool_decide (Hnsw.graph_metric index = metric (seg_config segment)))
     || Z.ltb (zlen (seg_points segment)) (zlen (Hnsw.nodes index))
  then Err (CorruptStorage "HNSW graph does not match its segment")
  else if bool_decide (list_to_set (Hnsw.ids index) = (list_to_set (map sp_id (seg_points segment)) : gset string))
  then Ok segment
  else Err (CorruptStorage "HNSW graph IDs do not match its segment").

Definition decode_segment_inner (bytes : list byte) (mapping : option (list byte)) : Result DecodedSegment :=
  let bad_header := Err (CorruptStorage "invalid segment header") in
  if Z.ltb (zlen bytes) 30 then bad_header else
  let? magic := slice bytes 0 4 in
  if negb (bool_decide (magic = SEGMENT_MAGIC)) then bad_header else
  let? version := index bytes 4 in
  let version := u8 version in
  if negb (Z.eqb version LEGACY_SEGMENT_VERSION || Z.eqb version SEGMENT_VERSION) then bad_header else
  let payload_length := zlen bytes - 4 in
  let? stored := slice bytes payload_length (zlen bytes) in
  let? stored := fixed 4 stored in
  let? payload := slice bytes 0 payload_length in
  if negb (Z.eqb (crc32c payload) (le_value stored)) then Err (CorruptStorage "segment checksum mismatch") else
  let? tag := index bytes 5 in
  let? metric := parse_metric (u8 tag) in
  let? dim := slice bytes 6 14 in
  let? dim := fixed 8 dim in
  let dim := le_value dim in
  if Z.eqb dim 0 || Z.ltb MAX_ITEMS dim then Err (CorruptStorage "invalid segment dimension") else
  let? body := slice bytes 14 payload_length in
  let? segment := run_dec (segment_body version (MkConfig dim metric) mapping) body in
  check_graph segment.

Definition decode_segment (bytes : list byte) : Result DecodedSegment := decode_segment_inner bytes None.
Definition decode_segment_mapped (mapping : list byte) : Result DecodedSegment :=
  decode_segment_inner mapping (Some mapping).
End Decode.
