(* ===== verification/HnswLength.v ===== *)
(** * HnswLength: [encoded_len] is the length of what [encode_into] writes

    The segment stores the graph's length before the graph itself, so the two
    must agree byte for byte. *)

From stdpp Require Import base gmap sets list strings sorting.
From Stdlib Require Import ZArith Lia.
From S2P Require Import Prelude Errors Floats Ranking Metric Codec Quantize Hnsw HnswCodec HnswFacts HnswCodecFacts.

Lemma checked_add_Some m a b c : checked_add m a b = Some c -> c = a + b.
Proof. unfold checked_add. destruct (_ <=? _); congruence. Qed.
Lemma checked_mul_Some m a b c : checked_mul m a b = Some c -> c = a * b.
Proof. unfold checked_mul. destruct (_ <=? _); congruence. Qed.
Lemma size_error_Ok {A} (r : option A) a : size_error r = Ok a -> r = Some a.
Proof. unfold size_error. destruct r; cbn; congruence. Qed.
Lemma plus_Some a b c : plus a b = Some c -> exists x, a = Some x /\ c = x + b.
Proof. destruct a as [x|]; cbn; [|done]. intros H%checked_add_Some. eauto. Qed.

Lemma put_u32_len n l : put_u32_writer n = Ok l -> zlen l = 4.
Proof. unfold put_u32_writer. destruct (_ <=? _); [|done]. intros <-%Ok_inj. unfold zlen. by rewrite length_le_bytes. Qed.

Lemma put_bytes_len l b : put_bytes_writer l = Ok b -> zlen b = 4 + zlen l.
Proof. unfold put_bytes_writer. intros H. inv_ok H. apply Ok_inj in H as <-. apply put_u32_len in Hok. rewrite zlen_app. lia. Qed.

Lemma put_all_len {A} (put : A -> Result (list byte)) (size : A -> Z) l b :
  (forall x b, x ∈ l -> put x = Ok b -> zlen b = size x) -> put_all put l = Ok b -> zlen b = foldr Z.add 0 (map size l).
Proof.
  intros Hput H. unfold put_all in H. inv_ok H. apply Ok_inj in H as <-. apply mapM_result_ok in Hok.
  induction Hok as [|x y l bs Hx _ IH]; cbn; [done|]. rewrite zlen_app, (Hput x y), IH; [done| |by left|done].
  intros z b Hz. apply Hput. by right.
Qed.

Lemma put_layer_len l b : put_layer l = Ok b -> zlen b = 4 + 4 * zlen l.
Proof.
  unfold put_layer. intros H. inv_ok H. inv_ok H. apply Ok_inj in H as <-. apply put_u32_len in Hok.
  apply (put_all_len _ (fun _ => 4)) in Hok0; [|intros; by eapply put_u32_len].
  rewrite zlen_app, Hok, Hok0. f_equal. clear. induction l as [|x l IH]; [done|]. rewrite zlen_cons. cbn [map foldr]. lia.
Qed.

Section Length.
Context (g : HnswIndex).

Definition vector_bytes : Z :=
  match arena_storage (vectors g) with StoreF32 => graph_dimension g * 4 | ScalarInt8 => graph_dimension g + 4 end.

Lemma vector_len i v : vector g i = Ok v -> zlen (encode_vector v) = vector_bytes.
Proof.
  unfold vector, vector_bytes, arena_get. destruct (vectors g) as [comps|codes scales norms|mp offs scales norms]; intros Hv.
  - inv_ok Hv. apply Ok_inj in Hv as <-. cbn [encode_vector arena_storage].
    assert (zlen a = graph_dimension g) as <-.
    { unfold slice in Hok. destruct (decide _) as [Hd|]; [|done]. apply Ok_inj in Hok as <-.
      unfold zlen in *. rewrite length_take, length_drop. lia. }
    clear. induction a as [|x a IH]; [done|]. cbn [map concat]. rewrite zlen_app, zlen_cons, IH.
    unfold zlen at 1. rewrite length_le_bytes. lia.
  - inv_ok Hv. inv_ok Hv. inv_ok Hv. apply Ok_inj in Hv as <-. cbn [encode_vector arena_storage].
    unfold slice in Hok. destruct (decide _) as [Hd|]; [|done]. apply Ok_inj in Hok as <-.
    rewrite zlen_app. unfold zlen in *. rewrite length_le_bytes, length_map, length_take, length_drop. lia.
  - inv_ok Hv. inv_ok Hv. inv_ok Hv. inv_ok Hv. apply Ok_inj in Hv as <-. cbn [encode_vector arena_storage].
    unfold slice in Hok0. destruct (decide _) as [Hd|]; [|done]. apply Ok_inj in Hok0 as <-.
    rewrite zlen_app. unfold zlen in *. rewrite length_le_bytes, !length_map, length_take, length_drop. lia.
Qed.

Definition layer_size (i layer : Z) : Z :=
  match neighbors g i layer with Ok l => 4 + 4 * zlen l | _ => 0 end.

Lemma add_layers_len i ls n n' :
  foldM_result (add_layer_len g i) n ls = Ok n' -> n' = n + foldr Z.add 0 (map (layer_size i) ls).
Proof.
  revert n. induction ls as [|l ls IH]; intros n H; cbn [foldM_result map foldr] in *; [apply Ok_inj in H; lia|].
  inv_ok H. apply IH in H as ->. unfold add_layer_len in Hok. inv_ok Hok. unfold layer_size at 2. rewrite Hok0.
  apply size_error_Ok in Hok. apply bind_Some in Hok as (x & Hx & Hok). apply bind_Some in Hok as (y & Hy & Hok).
  apply checked_add_Some in Hx as ->. apply checked_mul_Some in Hy as ->. apply checked_add_Some in Hok as ->. lia.
Qed.

Lemma node_len i id node n n' b :
  index (E := Error) (ids g) i = Ok id -> index (E := Error) (nodes g) i = Ok node ->
  add_node_len g vector_bytes n (i, id) = Ok n' -> encode_node g (i, node) = Ok b -> n' = n + zlen b.
Proof.
  intros Hid Hnode Ha He. unfold add_node_len in Ha. inv_ok Ha. apply size_error_Ok in Hok.
  repeat match goal with Hp : plus _ _ = Some _ |- _ => apply plus_Some in Hp as (? & Hp & ->) end.
  injection Hok as <-. rewrite Hnode in Ha. cbn [rbind] in Ha. apply add_layers_len in Ha as ->.
  unfold encode_node in He. rewrite Hid in He. cbn [rbind] in He. inv_ok He. inv_ok He. inv_ok He. inv_ok He.
  apply Ok_inj in He as <-. rewrite !zlen_app. apply put_bytes_len in Hok. rewrite length_bytes_of_string in Hok.
  apply vector_len in Hok0. apply put_u32_len in Hok1.
  apply (put_all_len _ (layer_size i)) in Hok2; [lia|].
  intros l b0 _ Hb. inv_ok Hb. apply put_layer_len in Hb. unfold layer_size. by rewrite Hok3.
Qed.

Lemma index_imap_length {A B} (f : A -> Result B) (l : list A) bs (P : Z -> Prop) (o : nat) :
  mapM_result f l = Ok bs -> (forall i x b, l !! i = Some x -> f x = Ok b -> P (Z.of_nat (o + i))) ->
  forall i, (i < length l)%nat -> P (Z.of_nat (o + i)).
Proof.
  intros H HP i Hi. apply mapM_result_ok in H. destruct (lookup_lt_is_Some_2 l i Hi) as [x Hx].
  destruct (Forall2_lookup_l _ _ _ _ _ H Hx) as (b & _ & Hb). by eapply HP.
Qed.

(** The two loops run over the same nodes. *)
Lemma loops_len (ls : list string) (ns : list Node) (f : nat -> Z) n n' bs :
  length ls = length ns ->
  (forall i id node n n' b, ls !! i = Some id -> ns !! i = Some node ->
     add_node_len g vector_bytes n (f i, id) = Ok n' -> encode_node g (f i, node) = Ok b -> n' = n + zlen b) ->
  foldM_result (add_node_len g vector_bytes) n (imap (fun i x => (f i, x)) ls) = Ok n' ->
  mapM_result (encode_node g) (imap (fun i x => (f i, x)) ns) = Ok bs -> n' = n + zlen (concat bs).
Proof.
  revert ns f n bs. induction ls as [|id ls IH]; intros [|node ns] f n bs Hl Hstep Hn Hb; try done.
  - cbn in *. apply Ok_inj in Hn, Hb. subst. unfold zlen. cbn. lia.
  - rewrite imap_cons in Hn. rewrite imap_cons in Hb. cbn [foldM_result mapM_result] in Hn, Hb. inv_ok Hn. inv_ok Hb. inv_ok Hb. apply Ok_inj in Hb as <-.
    cbn [concat]. rewrite zlen_app. apply (IH ns (f ∘ S) a a1) in Hn; [|cbn in Hl; lia| |done].
    + rewrite (Hstep 0%nat id node n a a0) in Hn; [lia|done..].
    + intros i id' node'. apply (Hstep (S i)).
Qed.

Lemma foldM_index {A B S} (f : S -> Z * A -> Result S) (l : list A) (ns : list B) (o : nat -> Z) s s' :
  (forall s i x s', f s (i, x) = Ok s' -> exists y, index (E := Error) ns i = Ok y) ->
  foldM_result f s (imap (fun i x => (o i, x)) l) = Ok s' ->
  forall i, (i < length l)%nat -> exists y, index (E := Error) ns (o i) = Ok y.
Proof.
  intros Hf. revert o s. induction l as [|x l IH]; intros o s H i Hi; [cbn in Hi; lia|].
  rewrite imap_cons in H. cbn [foldM_result] in H. inv_ok H. destruct i as [|i]; [by eapply Hf|].
  apply (IH (o ∘ Datatypes.S) a H i). cbn in Hi. lia.
Qed.

Lemma encoded_len_ok n b : encoded_len g = Ok n -> encode_into g = Ok b -> n = zlen b.
Proof.
  intros Hn Hb. unfold encoded_len in Hn. inv_ok Hn. apply size_error_Ok in Hok.
  assert (a = vector_bytes) as ->.
  { unfold vector_bytes. destruct (arena_storage _); [by apply checked_mul_Some in Hok|by apply checked_add_Some in Hok]. }
  unfold encode_into in Hb. do 5 inv_ok Hb. apply Ok_inj in Hb as <-. unfold put_all in Hok4. inv_ok Hok4. apply Ok_inj in Hok4 as <-.
  rewrite !zlen_app. apply put_u32_len in Hok0, Hok1, Hok2, Hok3. rewrite Hok0, Hok1, Hok2, Hok3.
  unfold enumerate in *.
  assert (length (ids g) = length (nodes g)) as Hl.
  { apply Nat.le_antisymm.
    - destruct (decide (length (ids g) <= length (nodes g))%nat) as [|Hgt]; [done|exfalso].
      destruct (foldM_index (add_node_len g vector_bytes) (ids g) (nodes g) Z.of_nat 39 n) with (i := length (nodes g)) as (y & Hy); [|done|lia|].
      + intros s i x s' Ha. unfold add_node_len in Ha. inv_ok Ha. inv_ok Ha. eauto.
      + apply index_Ok in Hy as [Hy _]. unfold zlen in Hy. lia.
    - destruct (decide (length (nodes g) <= length (ids g))%nat) as [|Hgt]; [done|exfalso].
      apply mapM_result_ok in Hok5.
      assert (is_Some (nodes g !! length (ids g))) as [nd Hnd] by (apply lookup_lt_is_Some_2; lia).
      assert (imap (fun i x => (Z.of_nat i, x)) (nodes g) !! length (ids g) = Some (Z.of_nat (length (ids g)), nd)) as Hi.
      { by rewrite list_lookup_imap, Hnd. }
      destruct (Forall2_lookup_l _ _ _ _ _ Hok5 Hi) as (b & _ & Hb). unfold encode_node in Hb. inv_ok Hb.
      apply index_Ok in Hok4 as [Hy _]. unfold zlen in Hy. lia. }
  apply (loops_len (ids g) (nodes g) Z.of_nat 39 n a4) in Hn; [|done| |done].
  - assert (zlen GRAPH_MAGIC = 4) as -> by done. unfold zlen at 1 2 3 4 5. rewrite !length_le_bytes. cbn [length]. lia.
  - intros i id node n0 n1 b Hid Hnd. apply node_len; by apply index_lookup.
Qed.

(** When both succeed, the length announced by
    [encoded_len] is the number of bytes [encode_into] writes, for every graph
    and vector storage. *)
Theorem encoded_len_exact :
  match encoded_len g, encode_into g with Ok n, Ok b => n = zlen b | _, _ => True end.
Proof.
  destruct (encoded_len g) as [n| |] eqn:En; [|done|done]. destruct (encode_into g) as [b| |] eqn:Eb; [|done|done].
  by apply encoded_len_ok.
Qed.
End Length.
