(* ===== verification/SegmentFacts.v ===== *)
(** * SegmentFacts: the segment decoder is total, and what it accepts *)

From stdpp Require Import base gmap sets list strings sorting.
From Stdlib Require Import ZArith Lia.
From S2P Require Import Prelude Errors Floats Ranking Metric Filter MetadataIndex.
From S2P Require Hnsw HnswCodec.
From S2P Require Import HnswFacts HnswCodecFacts.
From S2P Require Import Collection CollectionFacts Codec Wire WireFacts Wal Segment.

(** ** Decoders over a mapped segment *)

(** The decoder's input is the part of the mapping behind the 14-byte header. *)
Definition based (mapping : option (list byte)) : option (list byte * Z) := (fun m => (m, 14)) <$> mapping.

Lemma ens_m_safe {A} mapping (d : dec A) : safe d -> ensures_m mapping d (fun _ => True).
Proof. intros Hd. by apply ensures_m_of, safe_ensures. Qed.

Lemma ensures_m_ret {A} mapping (a : A) (P : A -> Prop) : P a -> ensures_m mapping (dret a) P.
Proof. intros Ha. by apply ensures_m_of, ensures_ret. Qed.

Lemma ensures_m_guard mapping b e (Q : Prop) : (b = false -> Q) -> ensures_m mapping (dguard b e) (fun _ => Q).
Proof. intros HQ. by apply ensures_m_of, ensures_guard. Qed.

Lemma ensures_m_list {A} mapping n (d : dec A) P :
  ensures_m mapping d P -> ensures_m mapping (dec_list n d) (fun l => length l = n /\ Forall P l).
Proof.
  intros Hd. induction n as [|n IH]; cbn [dec_list]; [by apply ensures_m_ret; split; [|constructor]|].
  eapply ensures_m_bind; [exact Hd|]. intros x Hx. eapply ensures_m_bind; [exact IH|]. intros l [Hl HP].
  apply ensures_m_ret. split; [cbn; by rewrite Hl|by constructor].
Qed.

(** Reading the position, then [n] bytes from there. *)
Lemma ensures_m_at {A} mapping n (k : Z -> list byte -> dec A) P :
  (forall pos l, 0 <= pos -> zlen l = n ->
     (forall m o, mapping = Some (m, o) -> 0 <= o /\ o + pos + n <= zlen m) -> ensures_m mapping (k pos l) P) ->
  forall e1 e2, ensures_m mapping (let! pos := dposition in let! l := take_with e1 e2 n in k pos l) P.
Proof.
  intros Hk e1 e2 s Hs Hm. unfold dbind, dposition. cbn [rbind fst snd].
  pose proof (safe_take e1 e2 n s Hs) as Ht.
  destruct (take_with e1 e2 n s) as [[l s']| |] eqn:E; [|done|done].
  apply take_with_inv in E as (Hn & Hl & Hs' & Hi & Hp & _); [|done]. cbn [rbind fst snd].
  assert (mapping_ok mapping s') as Hm' by (unfold mapping_ok in *; by rewrite Hi).
  assert (forall m o, mapping = Some (m, o) -> 0 <= o /\ o + position s + n <= zlen m) as Hb.
  { intros m o ->. destruct Hm as [Ho Hm]. destruct Hs' as [_ Hs']. rewrite Hi, Hp in Hs'. lia. }
  specialize (Hk (position s) l (proj1 Hs) Hl Hb s' Hs' Hm').
  destruct (k (position s) l s') as [[a s'']| |]; [|done|done].
  destruct Hk as (? & ? & ? & ?). split_and!; [done|congruence|lia|done].
Qed.

Definition vector_ok (dim : Z) (v : PointVector) : Prop :=
  zlen (as_slice v) = dim /\ Forall (fun x => is_finite fmt32 x = true) (as_slice v).

Lemma forallb_Forall_finite l : forallb (is_finite fmt32) l = true -> Forall (fun x => is_finite fmt32 x = true) l.
Proof. intros Hf. apply Forall_forall. intros x Hx. eapply forallb_forall in Hf; [exact Hf|by apply list_elem_of_In]. Qed.

Lemma mapped_no_panic m o n : mapped m o n <> Panic.
Proof.
  unfold mapped. destruct (checked_mul _ _ _); [|done]. cbn. destruct (checked_add _ _ _); [|done]. cbn.
  by destruct (_ || _).
Qed.

(** ** Points *)

(** The checked offset and length between reading the position and the bytes
    do not move the cursor. *)
Lemma ensures_aligned dim mapping :
  0 < dim -> ensures_m (based mapping) (aligned_vector dim mapping) (vector_ok dim).
Proof.
  intros Hdim. unfold aligned_vector. eapply ensures_m_bind; [apply ens_m_safe, safe_byte|]. intros padding _.
  eapply ensures_m_bind; [apply ens_m_safe; destruct (3 <? padding); [apply safe_fail|apply safe_bind; [apply safe_take|intros; apply safe_guard]]|].
  intros _ _ s Hs Hm. unfold dbind at 1, dposition. cbn [rbind fst snd].
  unfold checked_add. destruct (Z.leb_spec (14 + position s) USIZE_MAX); [|done]. cbn [ok_or]. unfold dbind at 1, dlift at 1. cbn [rbind fst snd].
  unfold checked_mul. destruct (Z.leb_spec (dim * 4) USIZE_MAX); [|done]. cbn [ok_or]. unfold dbind at 1, dlift at 1. cbn [rbind fst snd].
  revert s Hs Hm H. set (k := fun pos (l : list byte) =>
    match mapping with
    | Some m => let! vector := dlift (mapped m (14 + pos) dim) in
                let! _ := dguard (negb (forallb (is_finite fmt32) (as_slice vector))) bad_vector in dret vector
    | None => let! _ := dguard (negb (forallb (is_finite fmt32) (f32s_of_bytes l))) bad_vector in dret (Owned (f32s_of_bytes l))
    end : dec PointVector).
  assert (forall e1 e2, ensures_m (based mapping) (let! pos := dposition in let! l := take_with e1 e2 (dim * 4) in k pos l) (vector_ok dim)) as Hk.
  { apply ensures_m_at. intros pos l Hpos Hl Hb. subst k. cbv beta. destruct mapping as [m|].
    - eapply ensures_m_bind; [apply ensures_m_of, (ensures_lift _ (fun v => zlen (as_slice v) = dim)); [apply mapped_no_panic|]|].
      + intros v Hv. apply mapped_as_slice in Hv; [tauto|lia|lia].
      + intros v Hv. eapply ensures_m_bind; [apply ensures_m_guard; intros Hg; exact Hg|]. cbv beta. intros _ Hg.
        apply ensures_m_ret. split; [done|]. apply forallb_Forall_finite. by apply negb_false_iff.
    - eapply ensures_m_bind; [apply ensures_m_guard; intros Hg; exact Hg|]. cbv beta. intros _ Hg.
      apply ensures_m_ret. split; [|apply forallb_Forall_finite; by apply negb_false_iff].
      cbn [as_slice]. unfold zlen in *. rewrite (f32s_of_bytes_length (Z.to_nat dim)); lia. }
  intros s Hs Hm _. specialize (Hk (CorruptStorage "WAL length overflow") (CorruptStorage "truncated WAL payload") s Hs Hm).
  unfold dbind, dposition in *. cbn [rbind fst snd] in Hk. unfold take.
  destruct (take_with _ _ (dim * 4) s) as [[l s']| |]; [|done|done]. exact Hk.
Qed.

Lemma ensures_f32_finite : ensures f32 (fun x => is_finite fmt32 x = true).
Proof.
  eapply ensures_bind; [apply safe_ensures, safe_fixed|]. intros l _.
  eapply ensures_bind; [apply ensures_guard; intros Hg; exact Hg|]. cbv beta. intros _ Hg. apply negb_false_iff in Hg. by apply ensures_ret.
Qed.

Lemma ensures_u64' : ensures u64 (fun z => 0 <= z <= U64_MAX).
Proof.
  eapply ensures_bind; [apply (ensures_take_fixed _ _ 8 _ (fun l => length l = 8%nat)); intros l Hl; by apply ensures_ret|].
  intros l Hl. apply ensures_ret. pose proof (le_value_range l) as Hr. unfold zlen, in_u in Hr. rewrite Hl in Hr.
  unfold U64_MAX. change (8 * Z.of_nat 8) with 64 in Hr. lia.
Qed.

Lemma ensures_segment_vector version dim mapping :
  0 < dim -> ensures_m (based mapping) (segment_vector version dim mapping) (vector_ok dim).
Proof.
  intros Hdim. unfold segment_vector. destruct (_ =? _); [by apply ensures_aligned|].
  eapply ensures_m_bind; [apply ensures_m_of, ensures_list, ensures_f32_finite|]. intros v [Hl Hf].
  apply ensures_m_ret. split; [|done]. cbn. unfold zlen. lia.
Qed.

Lemma ensures_segment_point version dim mapping :
  0 < dim -> ensures_m (based mapping) (segment_point version dim mapping)
    (fun p => vector_ok dim (sp_vector p) /\ 0 <= sp_sequence p <= U64_MAX /\ sp_public_view p = None).
Proof.
  intros Hdim. unfold segment_point. eapply ensures_m_bind; [apply ens_m_safe, safe_string|]. intros id _.
  eapply ensures_m_bind; [apply ensures_m_of, ensures_u64'|]. intros seq Hseq.
  eapply ensures_m_bind; [by apply ensures_segment_vector|]. intros v Hv.
  eapply ensures_m_bind; [apply ens_m_safe, safe_metadata|]. intros m _. by apply ensures_m_ret.
Qed.

(** ** Tombstones, kind, graph *)

Definition tombstones_ok (l : list string) : Prop := NoDup l /\ "" ∉ l.

Lemma ensures_tombstones version : ensures (segment_tombstones version) tombstones_ok.
Proof.
  unfold segment_tombstones. destruct (_ =? _); [|apply ensures_ret; split; [constructor|set_solver]].
  eapply ensures_bind; [apply safe_ensures, safe_count|]. intros n _.
  eapply ensures_bind with (P := fun st : list string * gset string => tombstones_ok st.1 /\ forall x, x ∈ st.2 <-> x ∈ st.1).
  2: { intros st [Hst _]. by apply ensures_ret. }
  eapply (ensures_for _ tombstone (fun _ (st : list string * gset string) => tombstones_ok st.1 /\ forall x, x ∈ st.2 <-> x ∈ st.1) 0).
  - split; [split; [constructor|set_solver]|set_solver].
  - intros i a [l seen] _ [[Hn He] Hs]. cbn [fst snd] in *. unfold tombstone.
    eapply ensures_bind; [apply safe_ensures, safe_string|]. intros id _.
    eapply ensures_bind; [apply ensures_guard; intros Hg; exact Hg|]. cbv beta. intros _ Hg.
    apply orb_false_iff in Hg as [Hg1%bool_decide_eq_false Hg2%bool_decide_eq_false]. rewrite Hs in Hg2.
    apply ensures_ret. cbn [fst snd]. split_and!.
    + split; [|set_solver]. apply NoDup_app. split_and!; [done|set_solver|apply NoDup_singleton].
    + intros x. set_solver.
Qed.

Lemma safe_segment_kind version : safe (segment_kind version).
Proof.
  unfold segment_kind. destruct (_ =? _); [|apply safe_ret]. apply safe_bind; [apply safe_byte|].
  intros kind. destruct kind as [|[|?|]|]; (apply safe_ret || apply safe_fail).
Qed.

Section Decode.
Context `{FloatEnv} (avx2 : bool).

Lemma ensures_segment_graph mapping : ensures_m (based mapping) (segment_graph avx2 mapping)
  (fun g => graph_wf g /\ 0 < Hnsw.graph_dimension g /\ "" ∉ Hnsw.ids g).
Proof.
  unfold segment_graph. eapply ensures_m_bind; [apply ens_m_safe, safe_u32|]. intros n _.
  intros s Hs Hm. unfold dbind at 1, dposition. cbn [rbind fst snd].
  unfold checked_add. destruct (Z.leb_spec (14 + position s) USIZE_MAX); [|done]. cbn [ok_or]. unfold dbind at 1, dlift at 1. cbn [rbind fst snd].
  set (P := fun g => graph_wf g /\ 0 < Hnsw.graph_dimension g /\ "" ∉ Hnsw.ids g).
  pose proof (ensures_m_at (based mapping) n (fun pos l => dlift (match mapping with
         | Some mapping => HnswCodec.decode_mapped avx2 l mapping (14 + pos)
         | None => HnswCodec.decode avx2 l
         end)) P) as Hk.
  assert (forall pos l, 0 <= pos -> zlen l = n -> (forall m o, based mapping = Some (m, o) -> 0 <= o /\ o + pos + n <= zlen m) ->
    ensures_m (based mapping) (dlift (match mapping with
         | Some mapping => HnswCodec.decode_mapped avx2 l mapping (14 + pos)
         | None => HnswCodec.decode avx2 l
         end)) P) as Hok.
  { intros pos l Hpos Hl Hb. apply ensures_m_of, ensures_lift.
    - destruct mapping as [m|]; cbn in Hb; [specialize (Hb m 14 eq_refl)|]; intros E.
      + pose proof (decode_inner_ok avx2 l (Some (m, 14 + pos))) as Hd. unfold HnswCodec.decode_mapped in E. rewrite E in Hd.
        apply Hd. split; cbn; lia.
      + pose proof (decode_inner_ok avx2 l None I) as Hd. unfold HnswCodec.decode in E. by rewrite E in Hd.
    - destruct mapping as [m|]; cbn in Hb; [specialize (Hb m 14 eq_refl)|]; intros g E.
      + pose proof (decode_inner_ok avx2 l (Some (m, 14 + pos))) as Hd. unfold HnswCodec.decode_mapped in E. rewrite E in Hd.
        apply Hd. split; cbn; lia.
      + pose proof (decode_inner_ok avx2 l None I) as Hd. unfold HnswCodec.decode in E. by rewrite E in Hd. }
  specialize (Hk Hok (CorruptStorage "WAL length overflow") (CorruptStorage "truncated WAL payload") s Hs Hm).
  unfold dbind, dposition in *. cbn [rbind fst snd] in Hk. unfold take.
  destruct (take_with _ _ n s) as [[l s']| |]; [|done|done]. exact Hk.
Qed.

(** A segment the decoder accepts. *)
Record segment_ok (d : DecodedSegment) : Prop := {
  so_dimension : 0 < dimension (seg_config d);
  so_points : Forall (fun p => vector_ok (dimension (seg_config d)) (sp_vector p) /\
                               0 <= sp_sequence p <= U64_MAX /\ sp_public_view p = None) (seg_points d);
  so_sequence : 0 <= seg_sequence d <= U64_MAX;
  so_tombstones : tombstones_ok (seg_tombstones d);
  so_full : seg_full d = true -> seg_tombstones d = [];
  so_graph : graph_wf (seg_index d);
  so_nonempty : "" ∉ Hnsw.ids (seg_index d)
}.

Definition graph_matches (d : DecodedSegment) : Prop :=
  Hnsw.graph_dimension (seg_index d) = dimension (seg_config d) /\
  Hnsw.graph_metric (seg_index d) = metric (seg_config d) /\
  zlen (Hnsw.nodes (seg_index d)) <= zlen (seg_points d) /\
  forall id, id ∈ Hnsw.ids (seg_index d) <-> id ∈ map sp_id (seg_points d).

Lemma ensures_segment_body version config mapping :
  0 < dimension config ->
  ensures_m (based mapping) (segment_body avx2 version config mapping) (fun d => segment_ok d /\ seg_config d = config).
Proof.
  intros Hdim. unfold segment_body. eapply ensures_m_bind; [apply ensures_m_of, ensures_u64'|]. intros seq Hseq.
  eapply ensures_m_bind; [apply ens_m_safe, safe_segment_kind|]. intros full _.
  eapply ensures_m_bind; [apply ens_m_safe, safe_count|]. intros n _.
  eapply ensures_m_bind; [by apply ensures_m_list, ensures_segment_point|]. intros ps [_ Hps].
  eapply ensures_m_bind; [apply ensures_m_of, ensures_tombstones|]. intros ts Hts.
  eapply ensures_m_bind; [apply ensures_m_guard; intros Hg; exact Hg|]. cbv beta. intros _ Hg.
  eapply ensures_m_bind; [apply ensures_segment_graph|]. intros g (Hg1 & Hg2 & Hg3).
  eapply ensures_m_bind; [apply ens_m_safe, safe_finish|]. intros _ _. apply ensures_m_ret. split; [|done].
  constructor; cbn; try done. intros ->. destruct (bool_decide_reflect (ts = [])); [done|]. done.
Qed.

Lemma check_graph_spec d :
  match check_graph d with
  | Ok d' => d' = d /\ graph_matches d
  | Err _ => True
  | Panic => False
  end.
Proof.
  unfold check_graph. destruct (_ || _) eqn:E; [done|].
  apply orb_false_iff in E as [[E1 E2]%orb_false_iff E3].
  apply negb_false_iff, Z.eqb_eq in E1. apply negb_false_iff, bool_decide_eq_true in E2. apply Z.ltb_ge in E3.
  case_bool_decide as Hids; [|done]. split; [done|].
  split_and!; try done. intros id. rewrite <- (elem_of_list_to_set (C := gset string)), Hids. apply elem_of_list_to_set.
Qed.

Lemma parse_metric_no_panic' t : parse_metric t <> Panic.
Proof. unfold parse_metric. by destruct t as [|[[?|?|]|[?|?|]|]|?]. Qed.

Lemma run_dec_ensures_m {A} mapping (d : dec A) bytes P :
  ensures_m mapping d P -> mapping_ok mapping (decoder_new bytes) ->
  match run_dec d bytes with Ok a => P a | Err _ => True | Panic => False end.
Proof.
  intros Hd Hm. unfold run_dec. specialize (Hd (decoder_new bytes) (decoder_new_ok bytes) Hm).
  destruct (d (decoder_new bytes)) as [[a s]| |]; [|done|done].
  cbn. tauto.
Qed.

Lemma decode_segment_ok bytes mapped :
  match decode_segment_inner avx2 bytes (if mapped : bool then Some bytes else None) with
  | Ok d => segment_ok d /\ graph_matches d
  | Err _ => True
  | Panic => False
  end.
Proof.
  unfold decode_segment_inner. destruct (Z.ltb_spec (zlen bytes) 30); [done|].
  destruct (slice_in (E := Error) bytes 0 4) as (mg & -> & _); [lia|lia|]. cbn [rbind]. destruct (negb _); [done|].
  destruct (index_in (E := Error) bytes 4) as (v & -> & _); [lia|]. cbn [rbind]. destruct (negb _); [done|].
  destruct (slice_in (E := Error) bytes (zlen bytes - 4) (zlen bytes)) as (st & -> & Hst); [lia|lia|]. cbn [rbind].
  rewrite (fixed_in 4) by lia. cbn [rbind].
  destruct (slice_in (E := Error) bytes 0 (zlen bytes - 4)) as (pl & -> & _); [lia|lia|]. cbn [rbind]. destruct (negb _); [done|].
  destruct (index_in (E := Error) bytes 5) as (tg & -> & _); [lia|]. cbn [rbind].
  pose proof (parse_metric_no_panic' (u8 tg)) as Hpm. destruct (parse_metric (u8 tg)) as [mt|e|]; [|done|done]. cbn [rbind].
  destruct (slice_in (E := Error) bytes 6 14) as (dm & -> & Hdm); [lia|lia|]. cbn [rbind].
  rewrite (fixed_in 8) by lia. cbn [rbind].
  destruct (_ || _) eqn:Ed; [done|]. apply orb_false_iff in Ed as [Ed%Z.eqb_neq _].
  destruct (slice_in (E := Error) bytes 14 (zlen bytes - 4)) as (bd & -> & Hbd); [lia|lia|]. cbn [rbind].
  set (M := if mapped then Some bytes else None).
  assert (0 < le_value dm) as Hd0 by (pose proof (le_value_nonneg dm); lia).
  pose proof (run_dec_ensures_m (based M) _ bd _ (ensures_segment_body (u8 v) (MkConfig (le_value dm) mt) M Hd0)) as Hr.
  assert (mapping_ok (based M) (decoder_new bd)) as Hm by (subst M; destruct mapped; cbn; [lia|done]).
  specialize (Hr Hm). destruct (run_dec _ bd) as [d| |]; [|done|done]. cbn [rbind]. destruct Hr as [Hd _].
  pose proof (check_graph_spec d) as Hc. destruct (check_graph d) as [d'| |]; [|done|done]. by destruct Hc as [-> Hc].
Qed.

(** No bytes make the segment decoder panic, whether
    the file is mapped or copied, and a segment it accepts is consistent:
    finite vectors of the segment's dimension, a well-formed graph over exactly
    the points' identifiers with the segment's dimension and metric, distinct
    non-empty tombstones, and none in a full segment. *)
Theorem segment_decode_total bytes mapped :
  match decode_segment_inner avx2 bytes (if mapped : bool then Some bytes else None) with
  | Ok d => segment_ok d /\ graph_matches d
  | Err _ => True
  | Panic => False
  end.
Proof. apply decode_segment_ok. Qed.
End Decode.
