(* ===== verification/SegmentRoundtrip.v ===== *)
(** * SegmentRoundtrip: what is written is what is read

    The decoder has limits the writer has not (item counts, UTF-8, finite
    components), so a written segment may be refused when it is read back; but
    when it is accepted it holds exactly what was written.  [reads] is that
    judgement: on these bytes the decoder either returns the right value, just
    behind them, or an error. *)

From stdpp Require Import base gmap sets list strings sorting.
From Stdlib Require Import ZArith Lia.
From S2P Require Import Prelude Errors Floats Ranking Metric Filter MetadataIndex.
From S2P Require Hnsw HnswCodec.
From S2P Require Import HnswFacts HnswCodecFacts HnswLength.
From S2P Require Import Collection CollectionFacts Codec Wire WireFacts Wal Segment SegmentFacts.

(** ** The judgement *)

(** The input is what the mapping holds behind its 14-byte header. *)
Definition placed (mapping : option (list byte)) (bytes : list byte) : Prop :=
  forall m, mapping = Some m -> exists h c, m = h ++ bytes ++ c /\ zlen h = 14.

Definition reads {A : Type} (mapping : option (list byte)) (d : dec A) (bs : list byte) (P : A -> Prop) : Prop :=
  forall pre post, placed mapping (pre ++ bs ++ post) ->
    match d (MkDecoder (pre ++ bs ++ post) (zlen pre)) with
    | Ok (a, s) => P a /\ s = MkDecoder (pre ++ bs ++ post) (zlen (pre ++ bs))
    | Err _ => True
    | Panic => False
    end.

Section Judgement.
Context (M : option (list byte)).
Abbreviation reads := (reads M).

Lemma reads_ret {A} (a : A) (P : A -> Prop) : P a -> reads (dret a) [] P.
Proof. intros Ha pre post _. cbn. by rewrite app_nil_r. Qed.

Lemma reads_fail {A} e bs (P : A -> Prop) : reads (dfail e) bs P.
Proof. by intros pre post _. Qed.

Lemma reads_bind {A B} (d : dec A) (k : A -> dec B) bs1 bs2 P Q :
  reads d bs1 P -> (forall a, P a -> reads (k a) bs2 Q) -> reads (dbind d k) (bs1 ++ bs2) Q.
Proof.
  intros H1 H2 pre post Hp. rewrite <- app_assoc in *. unfold dbind.
  specialize (H1 pre (bs2 ++ post) Hp). destruct (d _) as [[a s]| |]; [|done|done]. destruct H1 as [Ha ->]. cbn [rbind fst snd].
  specialize (H2 a Ha (pre ++ bs1) post). rewrite <- !app_assoc in H2. specialize (H2 Hp).
  destruct (k a _) as [[b s]| |]; [|done|done]. destruct H2 as [Hb ->]. done.
Qed.

Lemma reads_last {A B} (d : dec A) (k : A -> dec B) bs P Q :
  reads d bs P -> (forall a, P a -> reads (k a) [] Q) -> reads (dbind d k) bs Q.
Proof. intros H1 H2. rewrite <- (app_nil_r bs). by eapply reads_bind. Qed.

Lemma reads_then {A B} (d : dec A) (k : A -> dec B) bs P Q :
  reads d [] P -> (forall a, P a -> reads (k a) bs Q) -> reads (dbind d k) bs Q.
Proof. intros H1 H2. exact (reads_bind d k [] bs P Q H1 H2). Qed.

Lemma reads_mono {A} (d : dec A) bs (P Q : A -> Prop) : reads d bs P -> (forall a, P a -> Q a) -> reads d bs Q.
Proof.
  intros Hd HPQ pre post Hp. specialize (Hd pre post Hp). destruct (d _) as [[a s]| |]; [|done|done].
  destruct Hd. auto.
Qed.

Lemma reads_lift {A} (r : Result A) (P : A -> Prop) :
  r <> Panic -> (forall a, r = Ok a -> P a) -> reads (dlift r) [] P.
Proof. intros Hr HP pre post _. unfold dlift. destruct r; [|done|done]. cbn. rewrite app_nil_r. auto. Qed.

Lemma reads_guard b e (P : Prop) : (b = false -> P) -> reads (dguard b e) [] (fun _ => P).
Proof. intros HP. destruct b; [by apply reads_fail|]. apply reads_ret. auto. Qed.

Lemma reads_take e1 e2 bs n : zlen bs = n -> reads (take_with e1 e2 n) bs (fun l => l = bs).
Proof.
  intros <- pre post _. unfold take_with. cbn [position input]. destruct (checked_add _ _ _) as [e|] eqn:Ec; [|done].
  unfold checked_add in Ec. destruct (_ <=? _); [|done]. injection Ec as <-. cbn [ok_or rbind].
  pose proof (slice_app (E := Error) pre bs post) as Hs. unfold slice in Hs. unfold get_range.
  destruct (decide _) as [_|Hn]; [|done]. injection Hs as ->. cbn [ok_or rbind]. split; [done|].
  by rewrite zlen_app.
Qed.

Lemma reads_list {A} (d : dec A) (bss : list (list byte)) (Ps : list (A -> Prop)) :
  Forall2 (fun bs P => reads d bs P) bss Ps ->
  reads (dec_list (length bss) d) (concat bss) (fun l => Forall2 (fun P x => P x) Ps l).
Proof.
  induction 1 as [|bs P bss Ps Hx _ IH]; cbn [dec_list length concat]; [by apply reads_ret|].
  eapply reads_bind; [exact Hx|]. intros a Ha. eapply reads_last; [exact IH|]. intros l Hl.
  apply reads_ret. by constructor.
Qed.

(** ** Primitives *)

Lemma reads_fixed n l : length l = n -> reads (take_fixed n) l (fun l' => l' = l).
Proof.
  intros Hl. unfold take_fixed. eapply reads_last; [apply reads_take; unfold zlen; lia|]. intros ? ->.
  unfold fixed. rewrite (proj2 (Nat.eqb_eq _ _) Hl). eapply reads_then; [by apply (reads_lift _ (fun l' => l' = l)); [|intros ? [= <-]]|].
  intros ? ->. by apply reads_ret.
Qed.

Lemma reads_byte z : in_u 8 z -> reads byte_ [to_u8 z] (fun x => x = z).
Proof.
  intros Hz. unfold byte_. eapply reads_last; [by apply reads_take|]. intros ? ->.
  eapply reads_then; [by apply (reads_lift _ (fun l => l = [to_u8 z])); [|intros ? [= <-]]|]. intros ? ->.
  apply reads_ret. exact (le_value_bytes 1 z Hz).
Qed.

Lemma reads_u32 z : in_u 32 z -> reads u32 (le_bytes 4 z) (fun x => x = z).
Proof.
  intros Hz. eapply reads_last; [apply reads_fixed, length_le_bytes|]. intros ? ->. apply reads_ret. by apply le_value_bytes.
Qed.

Lemma reads_u64 z : in_u 64 z -> reads u64 (le_bytes 8 z) (fun x => x = z).
Proof.
  intros Hz. eapply reads_last; [apply reads_fixed, length_le_bytes|]. intros ? ->. apply reads_ret. by apply le_value_bytes.
Qed.

Lemma reads_count z : 0 <= z <= U32_MAX -> reads count (le_bytes 4 z) (fun x => x = z /\ z <= MAX_ITEMS).
Proof.
  intros Hz. eapply reads_last; [apply reads_u32; unfold U32_MAX in Hz; split; lia|]. intros ? ->.
  eapply reads_then; [apply reads_guard; intros Hg; exact Hg|]. cbv beta. intros _ Hg%Z.ltb_ge. by apply reads_ret.
Qed.

Lemma reads_string s : str_len s <= U32_MAX ->
  reads string_ (le_bytes 4 (str_len s) ++ bytes_of_string s) (fun x => x = s).
Proof.
  intros Hs. eapply reads_bind; [apply reads_count; split; [unfold str_len; lia|done]|]. intros ? [-> _].
  eapply reads_last; [apply reads_take, length_bytes_of_string|]. intros ? ->.
  eapply reads_then; [by apply (reads_guard _ _ True)|]. intros _ _. apply reads_ret. apply string_of_bytes_of_string.
Qed.
End Judgement.

(** ** The writer *)

(** [out'] is [out] after writing [bs], with the checksum kept up. *)
Definition extends (out out' : Crc32cWriter) (bs : list byte) : Prop :=
  inner out' = inner out ++ bs /\ crc out' = crc32c_update (crc out) bs.

Lemma extends_refl out : extends out out [].
Proof. split; [by rewrite app_nil_r|done]. Qed.
Lemma extends_write out bs : extends out (write out bs) bs.
Proof. done. Qed.
Lemma extends_trans out1 out2 out3 b1 b2 : extends out1 out2 b1 -> extends out2 out3 b2 -> extends out1 out3 (b1 ++ b2).
Proof. intros [H1 H2] [H3 H4]. split; [by rewrite H3, H1, app_assoc|]. by rewrite H4, H2, crc32c_update_app. Qed.

Lemma put_count_writer_ok out n out' : put_count_writer out n = Ok out' -> extends out out' (le_bytes 4 n) /\ n <= U32_MAX.
Proof. unfold put_count_writer. destruct (Z.leb_spec n U32_MAX); [|done]. intros [= <-]. done. Qed.

Lemma put_string_writer_ok out s out' :
  put_string_writer out s = Ok out' -> extends out out' (le_bytes 4 (str_len s) ++ bytes_of_string s) /\ str_len s <= U32_MAX.
Proof.
  unfold put_string_writer. intros Hw. inv_ok Hw. apply put_count_writer_ok in Hok as [He Hn]. apply Ok_inj in Hw as <-.
  split; [|done]. eapply extends_trans; [exact He|apply extends_write].
Qed.

Lemma reads_string_writer M out s out' :
  put_string_writer out s = Ok out' -> exists bs, extends out out' bs /\ reads M string_ bs (fun x => x = s).
Proof. intros [He Hn]%put_string_writer_ok. eexists. split; [exact He|by apply reads_string]. Qed.

(** Writing a list item by item. *)
Lemma reads_each {A B} M (put : Crc32cWriter -> A -> Result Crc32cWriter) (d : dec B) (P : A -> B -> Prop) l out out' :
  (forall x out out', x ∈ l -> put out x = Ok out' -> exists bs, extends out out' bs /\ reads M d bs (P x)) ->
  foldM_result put out l = Ok out' ->
  exists bs, extends out out' bs /\ reads M (dec_list (length l) d) bs (fun ys => Forall2 P l ys).
Proof.
  revert out. induction l as [|x l IH]; intros out Hput H; cbn [foldM_result] in H.
  { apply Ok_inj in H as <-. exists []. split; [apply extends_refl|]. by apply reads_ret. }
  inv_ok H. apply Hput in Hok as (b1 & He1 & Hr1); [|by left].
  apply IH in H as (b2 & He2 & Hr2); [|intros y o o' Hy; apply Hput; by right].
  exists (b1 ++ b2). split; [by eapply extends_trans|]. cbn [dec_list length].
  eapply reads_bind; [exact Hr1|]. intros y Hy. eapply reads_last; [exact Hr2|]. intros ys Hys.
  apply reads_ret. by constructor.
Qed.

(** ** Metadata *)

Definition metadata_typed (m : Metadata) : Prop := map_Forall (fun _ v => value_wf v) m.

Lemma reads_value_writer M out v out' :
  value_wf v -> encode_value_writer out v = Ok out' ->
  exists bs, extends out out' bs /\ reads M value bs (fun x => x = v).
Proof.
  intros Hv Hw. unfold value. destruct v as [s|z|b|b]; cbn [encode_value_writer value_wf] in Hv, Hw.
  - apply (reads_string_writer M) in Hw as (bs & He & Hr). exists ([to_u8 1] ++ bs).
    split; [by eapply extends_trans; [apply extends_write|]|]. eapply reads_bind; [by apply reads_byte|]. intros ? ->.
    eapply reads_last; [exact Hr|]. intros ? ->. by apply reads_ret.
  - apply Ok_inj in Hw as <-. eexists. split; [eapply extends_trans; apply extends_write|].
    eapply reads_bind; [by apply reads_byte|]. intros ? ->. eapply reads_last; [apply reads_fixed, length_le_bytes|].
    intros ? ->. apply reads_ret. f_equal. rewrite (le_value_bytes 8) by (apply Z.mod_pos_bound; lia).
    by apply (wrap_i_id 64).
  - destruct (is_finite fmt64 b) eqn:Hf; [|done]. apply Ok_inj in Hw as <-.
    eexists. split; [eapply extends_trans; apply extends_write|].
    eapply reads_bind; [by apply reads_byte|]. intros ? ->. eapply reads_last; [apply reads_fixed, length_le_bytes|].
    intros ? ->. rewrite (le_value_bytes 8) by done. rewrite Hf.
    eapply reads_then; [by apply (reads_guard _ _ _ True)|]. intros _ _. by apply reads_ret.
  - apply Ok_inj in Hw as <-. eexists. split; [apply extends_write|]. change [?x; ?y] with ([x] ++ [y]).
    eapply reads_bind; [by apply reads_byte|]. intros ? ->. eapply reads_last; [apply reads_byte; by destruct b|].
    intros ? ->. destruct b; by apply reads_ret.
Qed.

Lemma reads_entry_writer M out kv out' :
  value_wf kv.2 -> write_entry out kv = Ok out' -> exists bs, extends out out' bs /\ reads M entry bs (fun x => x = kv).
Proof.
  intros Hv Hw. unfold write_entry in Hw. inv_ok Hw. apply (reads_string_writer M) in Hok as (b1 & He1 & Hr1).
  apply (reads_value_writer M) in Hw as (b2 & He2 & Hr2); [|done]. exists (b1 ++ b2).
  split; [by eapply extends_trans|]. eapply reads_bind; [exact Hr1|]. intros ? ->.
  eapply reads_last; [exact Hr2|]. intros ? ->. apply reads_ret. by destruct kv.
Qed.

Lemma reads_metadata_writer M out m out' :
  metadata_typed m ->
  (let? out := put_count_writer out (Z.of_nat (size m)) in foldM_result write_entry out (btree_iter m)) = Ok out' ->
  exists bs, extends out out' bs /\ reads M metadata bs (fun x => x = m).
Proof.
  intros Hm Hw. inv_ok Hw. apply put_count_writer_ok in Hok as [He1 Hn].
  apply (reads_each M write_entry entry (fun kv x => x = kv)) in Hw as (b2 & He2 & Hr2).
  2: { intros [k v] o o' Hin Hw'. apply (reads_entry_writer M) in Hw'; [done|]. apply elem_of_btree_iter in Hin. by apply (Hm k). }
  eexists. split; [by eapply extends_trans|]. eapply reads_bind; [apply reads_count; split; [lia|done]|]. intros ? [-> _].
  rewrite Nat2Z.id. replace (size m) with (length (btree_iter m)) by (by rewrite btree_iter_perm, length_map_to_list).
  eapply reads_last; [exact Hr2|]. intros l Hl. apply reads_ret.
  assert (l = btree_iter m) as -> by (clear -Hl; induction Hl as [|? ? ? ? ->]; congruence).
  unfold metadata_of_entries. apply fold_insert_btree_iter.
Qed.

#[global] Instance value_wf_dec v : Decision (value_wf v).
Proof. destruct v; cbn; apply _. Defined.

(** ** Points *)

Definition point_typed (dim : Z) (p : StoredPoint) : Prop :=
  zlen (as_slice (sp_vector p)) = dim /\ Forall (in_u 32) (as_slice (sp_vector p)) /\
  metadata_typed (sp_metadata p) /\ in_u 64 (sp_sequence p).

#[global] Instance point_typed_dec dim p : Decision (point_typed dim p).
Proof. unfold point_typed, metadata_typed. apply _. Defined.

Lemma extends_vector out (v : list Z) :
  extends out (fold_left (fun output value => write output (le_bytes 4 value)) v out) (bytes_of_f32s v).
Proof.
  revert out. induction v as [|x v IH]; intros out; [apply extends_refl|]. cbn [fold_left].
  unfold bytes_of_f32s. cbn [map concat]. eapply extends_trans; [apply extends_write|apply IH].
Qed.

Lemma length_bytes_of_f32s v : zlen (bytes_of_f32s v) = zlen v * 4.
Proof.
  induction v as [|x v IH]; [done|]. unfold bytes_of_f32s in *. cbn [map concat]. rewrite zlen_app, zlen_cons, IH.
  unfold zlen at 1. rewrite length_le_bytes. lia.
Qed.

Lemma padding_range p : 0 <= padding_at p <= 3.
Proof. unfold padding_at. pose proof (Z.mod_pos_bound (4 - (p + 1) mod 4) 4). lia. Qed.

Lemma padding_bytes p : 0 <= p <= 3 -> zlen (firstn (Z.to_nat p) [x00; x00; x00]) = p /\
  existsb (fun b => negb (Z.eqb (u8 b) 0)) (firstn (Z.to_nat p) [x00; x00; x00]) = false.
Proof. intros Hp. assert (p = 0 \/ p = 1 \/ p = 2 \/ p = 3) as [->|[->|[-> | ->]]] by lia; done. Qed.

(** A mapped vector reads the bytes behind the cursor. *)
Lemma mapped_at h pre bs post c v n x :
  zlen h = 14 -> bs = bytes_of_f32s v -> Forall (in_u 32) v -> zlen v = n ->
  mapped (h ++ (pre ++ bs ++ post) ++ c) (14 + zlen pre) n = Ok x -> as_slice x = v.
Proof.
  intros Hh -> Hv Hn. unfold mapped. destruct (checked_mul _ _ _); [|done]. cbn. destruct (checked_add _ _ _); [|done]. cbn.
  destruct (_ || _); [done|]. intros [= <-]. cbn [as_slice].
  replace (drop _ _) with (bytes_of_f32s v ++ post ++ c).
  - rewrite take_app_le by (pose proof (length_bytes_of_f32s v); unfold zlen in *; lia).
    rewrite take_ge by (pose proof (length_bytes_of_f32s v); unfold zlen in *; lia).
    by apply f32s_of_bytes_of_f32s.
  - rewrite <- !app_assoc, (app_assoc h pre). symmetry. apply drop_app_length'. rewrite length_app. unfold zlen in *. lia.
Qed.

Lemma reads_aligned M padding dim v :
  0 <= padding <= 3 -> Forall (in_u 32) v -> zlen v = dim ->
  reads M (aligned_vector dim M) ([to_u8 padding] ++ firstn (Z.to_nat padding) [x00; x00; x00] ++ bytes_of_f32s v)
    (fun x => as_slice x = v).
Proof.
  intros Hp Hv Hd. unfold aligned_vector. eapply reads_bind; [apply reads_byte; split; lia|]. intros ? ->.
  destruct (padding_bytes padding Hp) as [Hl Hz]. rewrite (proj2 (Z.ltb_ge _ _)) by lia.
  eapply reads_bind with (P := fun _ => True).
  { eapply reads_last; [by apply reads_take|]. intros ? ->. rewrite Hz. by apply (reads_guard _ _ _ True). }
  intros _ _ pre post Hpl. unfold dbind at 1, dposition. cbn [rbind fst snd position].
  unfold dlift at 1, dbind at 1. destruct (checked_add _ _ _) as [o|] eqn:Eo; [|done]. cbn [ok_or rbind fst snd].
  unfold checked_add in Eo. destruct (_ <=? _); [|done]. injection Eo as <-.
  unfold dlift at 1, dbind at 1. destruct (checked_mul _ _ _) as [n|] eqn:En; [|done]. cbn [ok_or rbind fst snd].
  unfold checked_mul in En. destruct (_ <=? _); [|done]. injection En as <-.
  assert (forall l, l = bytes_of_f32s v -> forall Q : PointVector -> Prop,
    (forall x, as_slice x = v -> Q x) ->
    match (match M with
           | Some m => let! vector := dlift (mapped m (14 + zlen pre) dim) in
                       let! _ := dguard (negb (forallb (is_finite fmt32) (as_slice vector))) bad_vector in dret vector
           | None => let! _ := dguard (negb (forallb (is_finite fmt32) (f32s_of_bytes l))) bad_vector in
                     dret (Owned (f32s_of_bytes l))
           end : dec PointVector) (MkDecoder (pre ++ bytes_of_f32s v ++ post) (zlen (pre ++ bytes_of_f32s v))) with
    | Ok (a, s) => Q a /\ s = MkDecoder (pre ++ bytes_of_f32s v ++ post) (zlen (pre ++ bytes_of_f32s v))
    | Err _ => True
    | Panic => False
    end) as Hk.
  { intros l -> Q HQ. destruct M as [m|].
    - destruct (Hpl m eq_refl) as (h & c & -> & Hh). unfold dbind, dlift.
      pose proof (mapped_no_panic (h ++ (pre ++ bytes_of_f32s v ++ post) ++ c) (14 + zlen pre) dim) as Hnp.
      destruct (mapped _ _ dim) as [x|e|] eqn:Em; [|done|done]. cbn [rbind fst snd].
      unfold dguard. destruct (negb _); cbn; [done|]. split; [|done]. apply HQ. by eapply mapped_at.
    - unfold dbind, dguard. destruct (negb _); cbn; [done|]. split; [|done]. apply HQ. cbn.
      by apply f32s_of_bytes_of_f32s. }
  pose proof (reads_take M (CorruptStorage "WAL length overflow") (CorruptStorage "truncated WAL payload")
    (bytes_of_f32s v) (dim * 4) ltac:(rewrite length_bytes_of_f32s; lia) pre post Hpl) as Ht.
  unfold dbind at 1, take. destruct (take_with _ _ _ _) as [[l s]| |]; [|done|done]. destruct Ht as [-> ->].
  cbn [rbind fst snd]. by apply Hk.
Qed.

Lemma reads_point_writer M dim out p out' :
  point_typed dim p -> write_point out p = Ok out' ->
  exists bs, extends out out' bs /\
    reads M (segment_point SEGMENT_VERSION dim M) bs (fun x => to_owned_point x = to_owned_point p).
Proof.
  intros (Hd & Hv & Hm & Hs) Hw. unfold write_point in Hw. inv_ok Hw.
  apply (reads_string_writer M) in Hok as (b1 & He1 & Hr1).
  set (o1 := write a _) in Hw. set (pad := padding_at _) in Hw. cbv zeta in Hw.
  apply (reads_metadata_writer M) in Hw as (b5 & He5 & Hr5); [|done].
  pose proof (padding_range (written o1)) as Hp. fold pad in Hp.
  eexists (b1 ++ le_bytes 8 (sp_sequence p) ++ ([to_u8 pad] ++ firstn (Z.to_nat pad) [x00; x00; x00] ++ bytes_of_f32s (as_slice (sp_vector p))) ++ b5).
  split.
  - eapply extends_trans; [exact He1|]. eapply extends_trans; [apply extends_write|]. fold o1.
    eapply extends_trans; [|exact He5]. eapply extends_trans; [apply extends_write|].
    eapply extends_trans; [apply extends_write|apply extends_vector].
  - unfold segment_point. eapply reads_bind; [exact Hr1|]. intros ? ->.
    eapply reads_bind; [by apply reads_u64|]. intros ? ->. unfold segment_vector. rewrite Z.eqb_refl.
    eapply reads_bind; [by apply reads_aligned|]. intros v Ev. eapply reads_last; [exact Hr5|]. intros ? ->.
    apply reads_ret. unfold to_owned_point. cbn. by rewrite Ev.
Qed.

(** ** Tombstones, kind and graph *)

Lemma reads_tombstones_loop M l acc out out' (ns : list nat) :
  length ns = length l -> foldM_result put_string_writer out l = Ok out' ->
  exists bs, extends out out' bs /\ reads M (dec_for ns tombstone acc) bs (fun st => st.1 = acc.1 ++ l).
Proof.
  revert ns acc out. induction l as [|id l IH]; intros [|x ns] acc out Hl H; try done.
  - apply Ok_inj in H as <-. exists []. split; [apply extends_refl|]. apply reads_ret. by rewrite app_nil_r.
  - cbn [foldM_result] in H. inv_ok H. apply (reads_string_writer M) in Hok as (b1 & He1 & Hr1). destruct acc as [acc seen].
    apply (IH ns (acc ++ [id], {[id]} ∪ seen)) in H as (b2 & He2 & Hr2); [|cbn in Hl; lia].
    exists (b1 ++ b2). split; [by eapply extends_trans|]. cbn [dec_for].
    eapply reads_bind with (P := fun st => st = (acc ++ [id], {[id]} ∪ seen)).
    + unfold tombstone. eapply reads_last; [exact Hr1|]. intros ? ->.
      eapply reads_then; [by apply (reads_guard _ _ _ True)|]. intros _ _. by apply reads_ret.
    + intros ? ->. eapply reads_mono; [exact Hr2|]. intros st ->. cbn. by rewrite <- app_assoc.
Qed.

Lemma reads_tombstones_writer M l out out' :
  (let? out := put_count_writer out (zlen l) in foldM_result put_string_writer out l) = Ok out' ->
  exists bs, extends out out' bs /\ reads M (segment_tombstones SEGMENT_VERSION) bs (fun x => x = l).
Proof.
  intros H. inv_ok H. apply put_count_writer_ok in Hok as [He1 Hn].
  apply (reads_tombstones_loop M l ([], ∅) _ _ (seq 0 (Z.to_nat (zlen l)))) in H as (bs & He & Hr).
  2: { unfold zlen. rewrite length_seq. lia. }
  eexists. split; [by eapply extends_trans|]. unfold segment_tombstones. rewrite Z.eqb_refl.
  eapply reads_bind; [apply reads_count; split; [apply zlen_nonneg|done]|]. intros ? [-> _].
  eapply reads_last; [exact Hr|]. intros st Est. apply reads_ret. exact Est.
Qed.

Lemma reads_kind M (full : bool) :
  reads M (segment_kind SEGMENT_VERSION) [to_u8 (if full then 0 else 1)] (fun x => x = full).
Proof.
  unfold segment_kind. rewrite Z.eqb_refl. eapply reads_last; [apply reads_byte; by destruct full|].
  intros ? ->. destruct full; by apply reads_ret.
Qed.

Section Whole.
Context `{FloatEnv} (avx2 : bool).

Lemma decode_no_panic mapping h pre bs post c :
  (forall m, mapping = Some m -> m = h ++ (pre ++ bs ++ post) ++ c /\ zlen h = 14) ->
  (match mapping with
   | Some m => HnswCodec.decode_mapped avx2 bs m (14 + zlen pre)
   | None => HnswCodec.decode avx2 bs
   end) <> Panic.
Proof.
  intros Hm. destruct mapping as [m|].
  - destruct (Hm m eq_refl) as [-> Hh]. pose proof (decode_inner_ok avx2 bs (Some (h ++ (pre ++ bs ++ post) ++ c, 14 + zlen pre))) as Hd.
    intros E. unfold HnswCodec.decode_mapped in E. rewrite E in Hd. apply Hd. cbn. rewrite !zlen_app.
    pose proof (zlen_nonneg pre). pose proof (zlen_nonneg post). pose proof (zlen_nonneg c). lia.
  - pose proof (decode_inner_ok avx2 bs None I) as Hd. intros E. unfold HnswCodec.decode in E. by rewrite E in Hd.
Qed.

Lemma reads_graph M g n bs :
  HnswCodec.encoded_len g = Ok n -> n <= U32_MAX -> HnswCodec.encode_into g = Ok bs ->
  reads M (segment_graph avx2 M) (le_bytes 4 n ++ bs) (fun _ => True).
Proof.
  intros Hn Hm Hb. rewrite (encoded_len_ok g n bs Hn Hb) in *. unfold segment_graph.
  eapply reads_bind; [apply reads_u32; unfold U32_MAX in Hm; split; [apply zlen_nonneg|lia]|]. intros ? ->.
  intros pre post Hp. unfold dbind at 1, dposition. cbn [rbind fst snd position].
  unfold dlift at 1, dbind at 1. destruct (checked_add _ _ _) as [o|] eqn:Eo; [|done]. cbn [ok_or rbind fst snd].
  unfold checked_add in Eo. destruct (_ <=? _); [|done]. injection Eo as <-.
  pose proof (reads_take M (CorruptStorage "WAL length overflow") (CorruptStorage "truncated WAL payload")
    bs (zlen bs) eq_refl pre post Hp) as Ht.
  unfold dbind at 1, take. destruct (take_with _ _ _ _) as [[l s]| |]; [|done|done]. destruct Ht as [-> ->]. cbn [rbind fst snd].
  assert (exists h c, forall m, M = Some m -> m = h ++ (pre ++ bs ++ post) ++ c /\ zlen h = 14) as (h & c & Hm').
  { destruct M as [m|]; [|by exists [], []]. destruct (Hp m eq_refl) as (h & c & Em & Hh). exists h, c. by intros ? [= <-]. }
  pose proof (decode_no_panic M h pre bs post c Hm') as Hnp. unfold dlift. destruct M as [m|].
  - destruct (HnswCodec.decode_mapped _ _ _ _); [|done|done]. cbn. done.
  - destruct (HnswCodec.decode _ _); [|done|done]. cbn. done.
Qed.

(** What a segment was written from. *)
Definition written_as (config : CollectionConfig) (sequence : Z) (ps : list StoredPoint) (tombstones : list string)
    (full : bool) (d : DecodedSegment) : Prop :=
  seg_config d = config /\ seg_sequence d = sequence /\ map to_owned_point (seg_points d) = map to_owned_point ps /\
  seg_tombstones d = tombstones /\ seg_full d = full.

Lemma body_reads M config sequence ps ts full g out out' :
  in_u 64 sequence -> Forall (point_typed (dimension config)) ps ->
  (let out := write out (le_bytes 8 sequence) in
   let out := write out [to_u8 (if full : bool then 0 else 1)] in
   let? out := put_count_writer out (zlen ps) in
   let? out := foldM_result write_point out ps in
   let? out := put_count_writer out (zlen ts) in
   let? out := foldM_result put_string_writer out ts in
   let? graph_length := HnswCodec.encoded_len g in
   let? out := put_count_writer out graph_length in
   let? graph := HnswCodec.encode_into g in
   Ok (write out graph)) = Ok out' ->
  exists bs, extends out out' bs /\
    (placed M bs -> match run_dec (segment_body avx2 SEGMENT_VERSION config M) bs with
                    | Ok d => written_as config sequence ps ts full d
                    | Err _ => True | Panic => False end).
Proof.
  intros Hs Hps Hw. cbv zeta in Hw. inv_ok Hw. inv_ok Hw. apply put_count_writer_ok in Hok as [He2 Hn].
  apply (reads_each M write_point (segment_point SEGMENT_VERSION (dimension config) M) (fun p x => to_owned_point x = to_owned_point p)) in Hok0 as (b3 & He3 & Hr3).
  2: { intros p o o' Hp. apply reads_point_writer. by eapply Forall_forall in Hp. }
  assert (exists o4, (let? out := put_count_writer a0 (zlen ts) in foldM_result put_string_writer out ts) = Ok o4 /\
    (let? graph_length := HnswCodec.encoded_len g in
     let? out := put_count_writer o4 graph_length in
     let? graph := HnswCodec.encode_into g in Ok (write out graph)) = Ok out') as (o4 & Ht & Hg).
  { inv_ok Hw. inv_ok Hw. exists a2. rewrite Hok. cbn [rbind]. rewrite Hok0. done. }
  clear Hw. apply (reads_tombstones_writer M) in Ht as (b4 & He4 & Hr4).
  inv_ok Hg. inv_ok Hg. inv_ok Hg. apply Ok_inj in Hg as <-. apply put_count_writer_ok in Hok0 as [He5 Hl].
  pose proof (reads_graph M g a1 a3 Hok Hl Hok1) as Hr5.
  eexists (le_bytes 8 sequence ++ [to_u8 (if full then 0 else 1)] ++ le_bytes 4 (zlen ps) ++ b3 ++ b4 ++ (le_bytes 4 a1 ++ a3)).
  split.
  { eapply extends_trans; [apply extends_write|]. eapply extends_trans; [apply extends_write|].
    eapply extends_trans; [exact He2|]. eapply extends_trans; [exact He3|]. eapply extends_trans; [exact He4|].
    eapply extends_trans; [exact He5|apply extends_write]. }
  set (bs := le_bytes 8 sequence ++ _). intros Hp.
  assert (reads M (let! sequence := u64 in
      let! full := segment_kind SEGMENT_VERSION in
      let! n := count in
      let! points := dec_list (Z.to_nat n) (segment_point SEGMENT_VERSION (dimension config) M) in
      let! tombstones := segment_tombstones SEGMENT_VERSION in
      let! _ := dguard (full && negb (bool_decide (tombstones = []))) (CorruptStorage "full segment contains tombstones") in
      let! index := segment_graph avx2 M in
      dret (MkSegment config sequence points tombstones index full)) bs (written_as config sequence ps ts full)) as Hr.
  { eapply reads_bind; [by apply reads_u64|]. intros ? ->. eapply reads_bind; [apply reads_kind|]. intros ? ->.
    eapply reads_bind; [apply reads_count; split; [apply zlen_nonneg|done]|]. intros ? [-> _].
    assert (Z.to_nat (zlen ps) = length ps) as -> by (unfold zlen; lia).
    eapply reads_bind; [exact Hr3|]. intros ys Hys. eapply reads_bind; [exact Hr4|]. intros ? ->.
    eapply reads_then; [by apply (reads_guard _ _ _ True)|]. intros _ _.
    eapply reads_last; [exact Hr5|]. intros idx _. apply reads_ret. split_and!; try done. cbn.
    clear -Hys. induction Hys as [|? ? ? ? E]; cbn; congruence. }
  specialize (Hr [] []). rewrite app_nil_r in Hr. cbn [app] in Hr. specialize (Hr Hp).
  unfold run_dec, decoder_new, segment_body. change (zlen (@nil byte)) with 0 in Hr.
  match type of Hr with context [match ?D ?S0 with _ => _ end] => set (d0 := D) in *; set (s0 := S0) in * end.
  match goal with |- match (let? p := ?D s0 in _) with _ => _ end => assert (D s0 = (let! x := d0 in let! _ := finish in dret x) s0) as -> end.
  { subst d0. unfold dbind, dret. destruct (u64 s0) as [[x1 s1]| |]; cbn [rbind fst snd]; [|done|done].
    destruct (segment_kind SEGMENT_VERSION s1) as [[x2 s2]| |]; cbn [rbind fst snd]; [|done|done].
    destruct (count s2) as [[x3 s3]| |]; cbn [rbind fst snd]; [|done|done].
    destruct (dec_list _ _ s3) as [[x4 s4]| |]; cbn [rbind fst snd]; [|done|done].
    destruct (segment_tombstones SEGMENT_VERSION s4) as [[x5 s5]| |]; cbn [rbind fst snd]; [|done|done].
    destruct (dguard _ _ s5) as [[x6 s6]| |]; cbn [rbind fst snd]; [|done|done].
    destruct (segment_graph avx2 M s6) as [[x7 s7]| |]; cbn [rbind fst snd]; [|done|done].
    done. }
  unfold dbind at 1. destruct (d0 s0) as [[d s]| |]; [|done|done]. destruct Hr as [Hd ->]. cbn [rbind fst snd].
  unfold dbind, finish. destruct (_ =? _); cbn; done.
Qed.

Definition segment_header (config : CollectionConfig) : list byte :=
  SEGMENT_MAGIC ++ [to_u8 SEGMENT_VERSION] ++ [to_u8 (metric_tag (metric config))] ++ le_bytes 8 (dimension config).

Lemma zlen_segment_header config : zlen (segment_header config) = 14.
Proof. unfold segment_header, zlen. by rewrite !length_app, length_le_bytes. Qed.

(** Behind the header and checksum, decoding is decoding the body. *)
Lemma decode_parts config bs mapping :
  in_u 64 (dimension config) ->
  let file := segment_header config ++ bs in
  decode_segment_inner avx2 (file ++ le_bytes 4 (crc32c file)) mapping =
    if Z.ltb (zlen (file ++ le_bytes 4 (crc32c file))) 30 then Err (CorruptStorage "invalid segment header")
    else if Z.eqb (dimension config) 0 || Z.ltb MAX_ITEMS (dimension config)
    then Err (CorruptStorage "invalid segment dimension")
    else let? d := run_dec (segment_body avx2 SEGMENT_VERSION config mapping) bs in check_graph d.
Proof.
  intros Hd file. unfold decode_segment_inner. set (c := le_bytes 4 (crc32c file)).
  assert (zlen c = 4) as Hc by (unfold c, zlen; by rewrite length_le_bytes).
  destruct (_ <? 30); [done|].
  assert (file ++ c = SEGMENT_MAGIC ++ (to_u8 SEGMENT_VERSION :: to_u8 (metric_tag (metric config)) :: le_bytes 8 (dimension config) ++ bs ++ c)) as E.
  { unfold file, segment_header. by rewrite <- !app_assoc. }
  replace (zlen (file ++ c) - 4) with (zlen file) by (rewrite zlen_app; lia).
  assert (forall E', slice (E := E') (file ++ c) 0 4 = Ok SEGMENT_MAGIC) as -> by (intros; rewrite E; by apply slice_prefix).
  cbn [rbind]. rewrite bool_decide_eq_true_2 by done. cbn [negb].
  assert (index (E := Error) (file ++ c) 4 = Ok (to_u8 SEGMENT_VERSION)) as -> by (rewrite E; by apply index_middle).
  cbn [rbind]. change (u8 (to_u8 SEGMENT_VERSION)) with SEGMENT_VERSION. change (SEGMENT_VERSION =? LEGACY_SEGMENT_VERSION) with false.
  rewrite Z.eqb_refl. cbn [orb negb].
  rewrite slice_suffix by done. cbn [rbind]. unfold fixed at 1. unfold c at 1. rewrite length_le_bytes. cbn [Nat.eqb rbind].
  rewrite slice_prefix by done. cbn [rbind]. unfold c at 1. rewrite (le_value_bytes 4) by apply crc32c_range.
  rewrite Z.eqb_refl. cbn [negb].
  assert (index (E := Error) (file ++ c) 5 = Ok (to_u8 (metric_tag (metric config)))) as ->.
  { rewrite E. change (SEGMENT_MAGIC ++ ?x :: ?l) with ((SEGMENT_MAGIC ++ [x]) ++ l). by apply index_middle. }
  cbn [rbind]. assert (u8 (to_u8 (metric_tag (metric config))) = metric_tag (metric config)) as -> by (by destruct (metric config)).
  rewrite metric_tag_parse. cbn [rbind].
  assert (slice (E := Error) (file ++ c) 6 14 = Ok (le_bytes 8 (dimension config))) as ->.
  { rewrite E. change (SEGMENT_MAGIC ++ ?x :: ?y :: ?l) with ((SEGMENT_MAGIC ++ [x; y]) ++ l). apply slice_middle; [done|].
    unfold zlen. by rewrite length_le_bytes. }
  cbn [rbind]. unfold fixed. rewrite length_le_bytes. cbn [Nat.eqb rbind]. rewrite (le_value_bytes 8) by done.
  destruct (_ || _); [done|].
  unfold file at 1. rewrite <- app_assoc. rewrite slice_middle.
  2: { by rewrite zlen_segment_header. }
  2: { unfold file. rewrite zlen_app. done. }
  cbn [rbind]. by destruct config.
Qed.

Lemma decode_written mapped config sequence ps ts full g bytes :
  in_u 64 (dimension config) -> in_u 64 sequence -> Forall (point_typed (dimension config)) ps ->
  segment_bytes config sequence ps ts full g = Ok bytes ->
  match decode_segment_inner avx2 bytes (if mapped : bool then Some bytes else None) with
  | Ok d => written_as config sequence ps ts full d
  | Err _ => True
  | Panic => False
  end.
Proof.
  intros Hd Hs Hps Hw. unfold segment_bytes in Hw. cbv zeta in Hw.
  set (o0 := write (write (write (write writer_new SEGMENT_MAGIC) _) _) (le_bytes 8 (dimension config))) in Hw.
  assert (exists o', (let out := write o0 (le_bytes 8 sequence) in
   let out := write out [to_u8 (if full : bool then 0 else 1)] in
   let? out := put_count_writer out (zlen ps) in
   let? out := foldM_result write_point out ps in
   let? out := put_count_writer out (zlen ts) in
   let? out := foldM_result put_string_writer out ts in
   let? graph_length := HnswCodec.encoded_len g in
   let? out := put_count_writer out graph_length in
   let? graph := HnswCodec.encode_into g in
   Ok (write out graph)) = Ok o' /\ bytes = inner o' ++ le_bytes 4 (not32 (crc o'))) as (o' & Ho & ->).
  { cbv zeta. do 7 (let E := fresh in apply rbind_ok_inv in Hw as (? & E & Hw); rewrite E; cbn [rbind]).
    apply Ok_inj in Hw as <-. by eexists. }
  assert (extends writer_new o0 (segment_header config)) as H0.
  { unfold segment_header, o0, extends. cbn [inner crc write writer_new].
    split; [cbn [app]; by rewrite <- !app_assoc|]. do 3 rewrite crc32c_update_app. reflexivity. }
  set (M := if mapped then Some (inner o' ++ le_bytes 4 (not32 (crc o'))) else None).
  apply (body_reads M config) in Ho as (bs & Hb & Hr); [|done|done].
  destruct (extends_trans _ _ _ _ _ H0 Hb) as [Hi Hc]. cbn [inner crc writer_new app] in Hi, Hc.
  rewrite Hi, Hc in *. fold (crc32c (segment_header config ++ bs)) in *. rewrite decode_parts by done.
  destruct (_ <? 30); [done|]. destruct (_ || _); [done|].
  assert (placed M bs) as Hp.
  { intros m Hm. subst M. destruct mapped; [|done]. apply (inj Some) in Hm as <-.
    exists (segment_header config), (le_bytes 4 (crc32c (segment_header config ++ bs))).
    split; [by rewrite Hi, Hc, <- app_assoc|apply zlen_segment_header]. }
  specialize (Hr Hp). destruct (run_dec _ bs) as [d| |]; [|done|done]. cbn [rbind].
  pose proof (check_graph_spec d) as Hcg. destruct (check_graph d) as [d'| |]; [|done|done]. by destruct Hcg as [-> _].
Qed.

End Whole.

(** The segment of a two-point collection. *)
Definition demo_segment_points : list StoredPoint := snapshot_stored_points demo.
Definition demo_segment_file : list byte :=
  match (let? g := @Hnsw.build_quantized_prepared x86_64_env true 1 2 Euclidean Hnsw.default_config
                     (map (fun p => (sp_id p, as_slice (sp_vector p))) demo_segment_points) in
         segment_bytes demo_config 1 demo_segment_points [] true g) with Ok l => l | _ => [] end.

