(* ===== verification/Manifest.v ===== *)
(** * Manifest: the list of live segments ([publish_manifest], [read_manifest]
    of [src/src/persistence.rs])

    A new manifest is written to a temporary name and renamed over the old
    one, so a reader sees one or the other. *)

From stdpp Require Import base gmap sets list strings pretty.
From Stdlib Require Import ZArith Lia.
From S2P Require Import Prelude Errors Filter Codec Wire Disk.

Definition MANIFEST_MAGIC : list byte := bytes_of_string "FVMF".
Definition MANIFEST_LIST_VERSION : Z := 2.
Definition MAX_INDEX_SEGMENTS : Z := 8.

Record Manifest : Type := MkManifest { man_sequence : Z; man_segments : list string }.

(** [format!("{sequence:020}")] *)
Definition pad20 (s : string) : string := String.concat "" (repeat "0" (20 - String.length s)) +:+ s.
Definition segment_name (sequence : Z) : string := "segment-" +:+ pad20 (fmt_int sequence) +:+ ".fvs".

(** ** Writing *)

Definition encode_manifest (sequence : Z) (segment_names : list string) : Result (list byte) :=
  let? n := put_count (zlen segment_names) in
  let? names := put_each put_string segment_names in
  let bytes := MANIFEST_MAGIC ++ [to_u8 MANIFEST_LIST_VERSION] ++ le_bytes 8 sequence ++ n ++ names in
  Ok (bytes ++ le_bytes 4 (crc32c bytes)).

Definition manifest_temporary (pid : Z) : string := ".MANIFEST.tmp-" +:+ fmt_int pid.

Definition publish_manifest (pid sequence : Z) (segment_names : list string) : io (Result unit) :=
  let*? bytes := iolift (encode_manifest sequence segment_names) in
  let temporary := manifest_temporary pid in
  let*? _ := write_new_file temporary bytes in
  let*? _ := rename temporary "MANIFEST" in
  sync.

(** ** Reading *)

Definition manifest_body (version : Z) : dec Manifest :=
  let! sequence := u64 in
  let! names := (if Z.eqb version FORMAT_VERSION then let! name := string_ in dret [name]
                 else
                   let! n := count in
                   let! _ := dguard (Z.eqb n 0 || Z.ltb (MAX_INDEX_SEGMENTS + 1) n)
                               (CorruptStorage "invalid segment count in manifest") in
                   dec_list (Z.to_nat n) string_) in
  let! _ := finish in
  dret (MkManifest sequence names).

Definition valid_segment_name (name : string) : bool :=
  negb (existsb (fun b => Z.eqb (u8 b) 47) (bytes_of_string name)) && String.prefix "segment-" name.

Definition decode_manifest (bytes : list byte) : Result Manifest :=
  let bad_header := Err (CorruptStorage "invalid manifest header") in
  if Z.ltb (zlen bytes) 21 then bad_header else
  let? magic := slice bytes 0 4 in
  if negb (bool_decide (magic = MANIFEST_MAGIC)) then bad_header else
  let? version := index bytes 4 in
  let version := u8 version in
  if negb (Z.eqb version FORMAT_VERSION || Z.eqb version MANIFEST_LIST_VERSION) then bad_header else
  let payload_length := zlen bytes - 4 in
  let? stored := slice bytes payload_length (zlen bytes) in
  let? stored := fixed 4 stored in
  let? payload := slice bytes 0 payload_length in
  if negb (Z.eqb (crc32c payload) (le_value stored)) then Err (CorruptStorage "manifest checksum mismatch") else
  let? body := slice bytes 5 payload_length in
  let? manifest := run_dec (manifest_body version) body in
  if forallb valid_segment_name (man_segments manifest) && bool_decide (NoDup (man_segments manifest))
  then Ok manifest
  else Err (CorruptStorage "invalid segment name in manifest").

Definition read_manifest : io (Result (option Manifest)) :=
  let* present := exists_ "MANIFEST" in
  if negb present then ioret (Ok None)
  else
    let*? bytes := read_file "MANIFEST" in
    let*? manifest := iolift (decode_manifest bytes) in
    ioret (Ok (Some manifest)).
