(* ===== verification/ManifestFacts.v ===== *)
(** * ManifestFacts: segment names, and the manifest's round trip *)

From Stdlib Require Import Ascii.
From stdpp Require Import base gmap sets list strings sorting pretty.
From Stdlib Require Import ZArith Lia.
From S2P Require Import Prelude Errors Filter Codec Wire WireFacts Wal Disk Manifest.

(** ** Names are ASCII, and name their sequence *)

Definition plain_char (a : ascii) : bool := (N.leb 45 (N_of_ascii a) && N.leb (N_of_ascii a) 122 && negb (N.eqb (N_of_ascii a) 47))%N.
Fixpoint plain (s : string) : bool :=
  match s with EmptyString => true | String a s' => plain_char a && plain s' end.

Lemma plain_app s t : plain (s +:+ t) = plain s && plain t.
Proof.
  induction s as [|a s IH]; [done|]. change (plain_char a && plain (s +:+ t) = (plain_char a && plain s) && plain t).
  by rewrite IH, andb_assoc.
Qed.

(** Reading a decimal numeral, whatever follows it. *)
Fixpoint dec_value (acc : N) (s : string) : N :=
  match s with EmptyString => acc | String a s' => dec_value (10 * acc + (N_of_ascii a - 48))%N s' end.

Lemma dec_value_app acc s t : dec_value acc (s +:+ t) = dec_value (dec_value acc s) t.
Proof. revert acc. induction s as [|a s IH]; intros acc; [done|]. exact (IH (10 * acc + (N_of_ascii a - 48))%N). Qed.

Lemma dec_value_inj s a b : dec_value a s = dec_value b s -> a = b.
Proof. revert a b. induction s as [|c s IH]; intros a b; [done|]. cbn [dec_value]. intros E%IH. lia. Qed.

Lemma pretty_N_char_ok x : (x < 10)%N -> plain_char (pretty_N_char x) = true /\ (N_of_ascii (pretty_N_char x) - 48 = x)%N.
Proof.
  intros Hx.
  assert (x = 0 \/ x = 1 \/ x = 2 \/ x = 3 \/ x = 4 \/ x = 5 \/ x = 6 \/ x = 7 \/ x = 8 \/ x = 9)%N as Hc by lia.
  by repeat destruct Hc as [->|Hc]; subst.
Qed.

Lemma pretty_N_go_ok x s : plain s = true -> plain (pretty_N_go x s) = true /\ dec_value 0 (pretty_N_go x s) = dec_value x s.
Proof.
  revert s. induction (N.lt_wf_0 x) as [x _ IH]. intros s Hs.
  destruct (decide (x = 0%N)) as [->|Hx]; [by rewrite pretty_N_go_0|].
  rewrite pretty_N_go_step by lia.
  destruct (pretty_N_char_ok (x mod 10)) as [Hp Hv]; [by apply N.mod_lt|].
  destruct (IH (x `div` 10)%N) with (s := String (pretty_N_char (x mod 10)) s) as [H1 H2].
  - apply N.div_lt; lia.
  - cbn. by rewrite Hp, Hs.
  - split; [done|]. rewrite H2. cbn [dec_value]. rewrite Hv. f_equal. pose proof (N.div_mod x 10). lia.
Qed.

Lemma fmt_int_ok z : 0 <= z -> plain (fmt_int z) = true /\ dec_value 0 (fmt_int z) = Z.to_N z.
Proof.
  intros Hz. unfold fmt_int. destruct z as [|p|p]; [done| |lia].
  change (pretty (Z.pos p)) with (pretty (N.pos p)). unfold pretty, pretty_N.
  rewrite decide_False by done. by apply pretty_N_go_ok.
Qed.

Lemma zeros_ok n : plain (String.concat "" (repeat "0" n)) = true /\ dec_value 0 (String.concat "" (repeat "0" n)) = 0%N.
Proof. induction n as [|[|n] IH]; [done..|]. exact IH. Qed.

Lemma pad20_ok z : 0 <= z -> plain (pad20 (fmt_int z)) = true /\ dec_value 0 (pad20 (fmt_int z)) = Z.to_N z.
Proof.
  intros Hz. unfold pad20. destruct (zeros_ok (20 - String.length (fmt_int z))) as [H1 H2], (fmt_int_ok z Hz) as [H3 H4].
  by rewrite plain_app, dec_value_app, H1, H2, H3, H4.
Qed.

Lemma segment_name_inj a b : 0 <= a -> 0 <= b -> segment_name a = segment_name b -> a = b.
Proof.
  intros Ha Hb E. unfold segment_name in E. assert (dec_value 0 (pad20 (fmt_int a) +:+ ".fvs") = dec_value 0 (pad20 (fmt_int b) +:+ ".fvs")) as Ed.
  { f_equal. by apply (inj (String.append "segment-")). }
  rewrite !dec_value_app in Ed. apply dec_value_inj in Ed.
  destruct (pad20_ok a Ha) as [_ Ea], (pad20_ok b Hb) as [_ Eb]. rewrite Ea, Eb in Ed. lia.
Qed.

Lemma bytes_of_string_cons a s : bytes_of_string (String a s) = byte_of_ascii a :: bytes_of_string s.
Proof. done. Qed.

Lemma u8_byte_of_ascii a : u8 (byte_of_ascii a) = Z.of_N (N_of_ascii a).
Proof. by destruct a as [[] [] [] [] [] [] [] []]. Qed.

Lemma plain_bytes s : plain s = true ->
  utf8_valid (bytes_of_string s) = true /\ existsb (fun b => Z.eqb (u8 b) 47) (bytes_of_string s) = false.
Proof.
  induction s as [|a s IH]; [done|]. cbn [plain]. intros [Ha Hs]%andb_true_iff. destruct (IH Hs) as [H1 H2].
  unfold plain_char in Ha. apply andb_true_iff in Ha as [[Hl Hu]%andb_true_iff Hn].
  apply N.leb_le in Hl, Hu. apply negb_true_iff, N.eqb_neq in Hn.
  rewrite bytes_of_string_cons. cbn [utf8_valid existsb]. rewrite u8_byte_of_ascii.
  unfold in_range8 at 1. rewrite u8_byte_of_ascii. rewrite (proj2 (Z.leb_le _ _)), (proj2 (Z.leb_le _ _)) by lia.
  cbn [andb]. rewrite (proj2 (Z.eqb_neq _ _)) by lia. by rewrite H1, H2.
Qed.

Lemma plain_segment_name z : 0 <= z -> plain (segment_name z) = true.
Proof. intros Hz. unfold segment_name. rewrite !plain_app. by destruct (pad20_ok z Hz) as [-> _]. Qed.

Lemma segment_name_valid z : 0 <= z -> valid_segment_name (segment_name z) = true.
Proof.
  intros Hz. unfold valid_segment_name. destruct (plain_bytes _ (plain_segment_name z Hz)) as [_ ->].
  cbn [negb andb]. unfold segment_name. cbn. by destruct (pad20 (fmt_int z)).
Qed.

Lemma length_pretty_N_go (n : nat) x s :
  (x < 10 ^ N.of_nat n)%N -> (String.length (pretty_N_go x s) <= n + String.length s)%nat.
Proof.
  revert x s. induction n as [|n IH]; intros x s Hx.
  - assert (x = 0%N) as -> by (cbn in Hx; lia). by rewrite pretty_N_go_0.
  - destruct (decide (x = 0%N)) as [->|Hx0]; [rewrite pretty_N_go_0; lia|]. rewrite pretty_N_go_step by lia.
    specialize (IH (x `div` 10)%N (String (pretty_N_char (x mod 10)) s)). cbn [String.length] in IH.
    assert (x `div` 10 < 10 ^ N.of_nat n)%N; [|specialize (IH H); lia].
    apply N.Div0.div_lt_upper_bound. by rewrite <- N.pow_succ_r', <- Nat2N.inj_succ.
Qed.

Lemma length_append s t : String.length (s +:+ t) = (String.length s + String.length t)%nat.
Proof. induction s as [|a s IH]; [done|]. change (S (String.length (s +:+ t)) = S (String.length s + String.length t)). by rewrite IH. Qed.

Lemma length_zeros n : String.length (String.concat "" (repeat "0" n)) = n.
Proof. induction n as [|[|n] IH]; [done..|]. change (S (String.length (String.concat "" (repeat "0" (S n)))) = S (S n)). by rewrite IH. Qed.

(** [segment-], twenty digits, [.fvs]. *)
Lemma segment_name_length z : in_u 64 z -> str_len (segment_name z) = 32.
Proof.
  intros [Hz Hz2]. unfold str_len, segment_name, pad20. rewrite !length_append, length_zeros.
  assert (String.length (fmt_int z) <= 20)%nat; [|cbn; lia].
  unfold fmt_int. destruct z as [|p|p]; [cbn; lia| |lia].
  change (pretty (Z.pos p)) with (pretty (N.pos p)). unfold pretty, pretty_N. rewrite decide_False by done.
  etrans; [apply (length_pretty_N_go 20)|cbn; lia].
  change (10 ^ N.of_nat 20)%N with 100000000000000000000%N. change (2 ^ 64) with 18446744073709551616 in Hz2. lia.
Qed.

(** ** The round trip *)

Definition name_ok (s : string) : Prop := str_wf s /\ valid_segment_name s = true.

Lemma segment_name_ok z : in_u 64 z -> name_ok (segment_name z).
Proof.
  intros Hz. split; [split|].
  - apply plain_bytes, plain_segment_name, Hz.
  - by rewrite segment_name_length.
  - apply segment_name_valid, Hz.
Qed.

(** What the decoder guarantees of a manifest. *)
Record manifest_ok (m : Manifest) : Prop := {
  mo_sequence : in_u 64 (man_sequence m);
  mo_count : 0 < zlen (man_segments m) <= MAX_INDEX_SEGMENTS + 1;
  mo_names : Forall name_ok (man_segments m);
  mo_distinct : NoDup (man_segments m)
}.

Definition manifest_payload (sequence : Z) (names : list string) : list byte :=
  le_bytes 8 sequence ++ le_bytes 4 (zlen names) ++ concat (map (fun s => le_bytes 4 (str_len s) ++ bytes_of_string s) names).

Lemma put_string_wf s : str_wf s -> put_string s = Ok (le_bytes 4 (str_len s) ++ bytes_of_string s).
Proof. intros [_ Hs]. unfold put_string. by rewrite put_count_small. Qed.

Lemma put_names names : Forall name_ok names ->
  put_each put_string names = Ok (concat (map (fun s => le_bytes 4 (str_len s) ++ bytes_of_string s) names)).
Proof.
  intros Hn. unfold put_each. assert (mapM_result put_string names = Ok (map (fun s => le_bytes 4 (str_len s) ++ bytes_of_string s) names)) as ->; [|done].
  apply mapM_result_ok, Forall2_fmap_r, Forall_Forall2_diag. eapply Forall_impl; [exact Hn|].
  intros s [Hs _]. by apply put_string_wf.
Qed.

Definition manifest_file (sequence : Z) (names : list string) : list byte :=
  let bytes := MANIFEST_MAGIC ++ to_u8 MANIFEST_LIST_VERSION :: manifest_payload sequence names in
  bytes ++ le_bytes 4 (crc32c bytes).

Lemma encode_manifest_ok m : manifest_ok m -> encode_manifest (man_sequence m) (man_segments m) = Ok (manifest_file (man_sequence m) (man_segments m)).
Proof.
  intros Hm. unfold encode_manifest. rewrite put_count_small by (pose proof (mo_count m Hm); unfold MAX_INDEX_SEGMENTS, MAX_ITEMS in *; lia).
  cbn [rbind]. by rewrite put_names by apply Hm.
Qed.

Lemma zlen_names names : Forall name_ok names ->
  zlen (concat (map (fun s => le_bytes 4 (str_len s) ++ bytes_of_string s) names)) <= zlen names * (MAX_ITEMS + 4) /\
  4 * zlen names <= zlen (concat (map (fun s => le_bytes 4 (str_len s) ++ bytes_of_string s) names)).
Proof.
  induction 1 as [|s names [[_ Hs] _] _ IH]; [cbn; unfold zlen; cbn; lia|]. cbn [map concat].
  assert (zlen (le_bytes 4 (str_len s)) = 4) as Hl by (unfold zlen; by rewrite length_le_bytes).
  rewrite !zlen_app, zlen_cons, length_bytes_of_string, Hl.
  assert (0 <= str_len s) by (unfold str_len; lia). lia.
Qed.

Lemma decodes_manifest_body m : manifest_ok m ->
  run_dec (manifest_body MANIFEST_LIST_VERSION) (manifest_payload (man_sequence m) (man_segments m)) = Ok m.
Proof.
  intros Hm. pose proof (mo_count m Hm) as Hc. set (bs := manifest_payload _ _).
  assert (decodes_end (manifest_body MANIFEST_LIST_VERSION) bs m) as Hd.
  { unfold manifest_body. eapply decodes_end_bind; [apply decodes_u64, Hm|].
    change (MANIFEST_LIST_VERSION =? FORMAT_VERSION) with false. cbv iota.
    eapply decodes_end_finish_after.
    - eapply decodes_bind; [apply decodes_count; unfold MAX_INDEX_SEGMENTS, MAX_ITEMS in *; lia|].
      eapply decodes_then; [apply decodes_guard, orb_false_iff; split; [apply Z.eqb_neq|apply Z.ltb_ge]; lia|].
      assert (Z.to_nat (zlen (man_segments m)) = length (man_segments m)) as -> by (unfold zlen; lia).
      apply decodes_list. eapply Forall_impl; [apply Hm|]. intros s [Hs _]. by apply decodes_string; [|apply put_string_wf].
    - destruct m. apply decodes_end_finish. }
  specialize (Hd []). cbn [app] in Hd. unfold run_dec, decoder_new. change (zlen (@nil byte)) with 0 in Hd.
  rewrite Hd; [done|]. subst bs. unfold manifest_payload. rewrite !zlen_app.
  destruct (zlen_names _ (mo_names m Hm)) as [Hl _].
  assert (forall n x, zlen (le_bytes n x) = Z.of_nat n) as Hb by (intros; unfold zlen; by rewrite length_le_bytes).
  rewrite !Hb. unfold MAX_INDEX_SEGMENTS, MAX_ITEMS, USIZE_MAX, U64_MAX in *. lia.
Qed.

Lemma decode_manifest_file m : manifest_ok m -> decode_manifest (manifest_file (man_sequence m) (man_segments m)) = Ok m.
Proof.
  intros Hm. unfold manifest_file. set (payload := manifest_payload _ _).
  set (bytes := MANIFEST_MAGIC ++ to_u8 MANIFEST_LIST_VERSION :: payload). set (c := le_bytes 4 (crc32c bytes)).
  assert (zlen c = 4) as Hc by (unfold c, zlen; by rewrite length_le_bytes).
  assert (12 <= zlen payload) as Hp.
  { unfold payload, manifest_payload. rewrite !zlen_app.
    assert (forall n x, zlen (le_bytes n x) = Z.of_nat n) as -> by (intros; unfold zlen; by rewrite length_le_bytes).
    assert (forall n x, zlen (le_bytes n x) = Z.of_nat n) as -> by (intros; unfold zlen; by rewrite length_le_bytes).
    pose proof (zlen_nonneg (concat (map (fun s => le_bytes 4 (str_len s) ++ bytes_of_string s) (man_segments m)))). lia. }
  assert (zlen bytes = 5 + zlen payload) as Hb by (unfold bytes; rewrite zlen_app, zlen_cons; change (zlen MANIFEST_MAGIC) with 4; lia).
  unfold decode_manifest. rewrite (zlen_app bytes c), (proj2 (Z.ltb_ge _ _)) by lia.
  assert (bytes ++ c = MANIFEST_MAGIC ++ (to_u8 MANIFEST_LIST_VERSION :: payload ++ c)) as E by (unfold bytes; by rewrite <- app_assoc).
  assert (forall E', slice (E := E') (bytes ++ c) 0 4 = Ok MANIFEST_MAGIC) as -> by (intros; rewrite E; by apply slice_prefix).
  cbn [rbind]. rewrite bool_decide_eq_true_2 by done. cbn [negb].
  assert (index (E := Error) (bytes ++ c) 4 = Ok (to_u8 MANIFEST_LIST_VERSION)) as -> by (rewrite E; by apply index_middle).
  cbn [rbind]. change (u8 (to_u8 MANIFEST_LIST_VERSION)) with MANIFEST_LIST_VERSION.
  change (MANIFEST_LIST_VERSION =? FORMAT_VERSION) with false. rewrite Z.eqb_refl. cbn [orb negb].
  replace (zlen bytes + zlen c - 4) with (zlen bytes) by lia.
  rewrite slice_suffix by (done || by rewrite zlen_app). cbn [rbind]. unfold fixed at 1. unfold c at 1. rewrite length_le_bytes. cbn [Nat.eqb rbind].
  rewrite slice_prefix by done. cbn [rbind]. unfold c at 1. rewrite (le_value_bytes 4) by apply crc32c_range.
  rewrite Z.eqb_refl. cbn [negb].
  assert (slice (E := Error) (bytes ++ c) 5 (zlen bytes) = Ok payload) as ->.
  { rewrite E. change (MANIFEST_MAGIC ++ ?x :: ?l) with ((MANIFEST_MAGIC ++ [x]) ++ l). apply slice_middle; [done|]. exact Hb. }
  cbn [rbind]. unfold payload. rewrite decodes_manifest_body by done. cbn [rbind].
  rewrite (proj2 (forallb_forall _ _)).
  - rewrite bool_decide_eq_true_2 by apply Hm. done.
  - intros s Hs%list_elem_of_In. pose proof (mo_names m Hm) as Hn. eapply Forall_forall in Hn as [_ Hn]; [exact Hn|done].
Qed.

Lemma ensures_take_fixed_u64 : ensures u64 (in_u 64).
Proof.
  unfold u64. eapply ensures_bind; [apply (ensures_take_fixed _ _ 8 _ (fun l => length l = 8%nat)); intros l Hl; by apply ensures_ret|].
  intros l Hl. apply ensures_ret. pose proof (le_value_range l) as Hr. unfold zlen in Hr. by rewrite Hl in Hr.
Qed.

(** ** What is decoded *)

Lemma ensures_count : ensures count (fun n => 0 <= n <= MAX_ITEMS).
Proof.
  unfold count. eapply ensures_bind with (P := fun n => 0 <= n).
  { unfold u32. eapply ensures_bind; [apply safe_ensures, safe_fixed|]. intros l _. apply ensures_ret. apply le_value_range. }
  intros n Hn. eapply ensures_bind; [apply ensures_guard; intros Hg; exact Hg|]. cbv beta. intros _ Hg%Z.ltb_ge.
  by apply ensures_ret.
Qed.

Lemma ensures_string_wf : ensures string_ str_wf.
Proof.
  unfold string_. eapply ensures_bind; [apply ensures_count|].
  intros n [_ Hn]. eapply ensures_bind with (P := fun l => zlen l = n).
  { intros s Hs. pose proof (safe_take (CorruptStorage "WAL length overflow") (CorruptStorage "truncated WAL payload") n s Hs) as Ht.
    unfold take. destruct (take_with _ _ n s) as [[l s']| |] eqn:E; [|done|done]. apply take_with_inv in E; [tauto|done]. }
  intros l Hl. eapply ensures_bind; [apply ensures_guard; intros Hg; exact Hg|]. cbv beta. intros _ Hg.
  apply ensures_ret. apply negb_false_iff in Hg. split; [by rewrite bytes_of_string_of_bytes|].
  by rewrite <- length_bytes_of_string, bytes_of_string_of_bytes, Hl.
Qed.

Lemma ensures_manifest_body version : ensures (manifest_body version)
  (fun m => in_u 64 (man_sequence m) /\ 0 < zlen (man_segments m) <= MAX_INDEX_SEGMENTS + 1 /\ Forall str_wf (man_segments m)).
Proof.
  unfold manifest_body. eapply ensures_bind with (P := in_u 64).
  { eapply ensures_take_fixed_u64. }
  intros seq Hseq. eapply ensures_bind with (P := fun l => 0 < zlen l <= MAX_INDEX_SEGMENTS + 1 /\ Forall str_wf l).
  { destruct (_ =? _).
    - eapply ensures_bind; [apply ensures_string_wf|]. intros s Hs. apply ensures_ret. split; [done|by constructor].
    - eapply ensures_bind; [apply ensures_count|]. cbv beta. intros n Hn.
      eapply ensures_bind; [apply ensures_guard; intros Hg; exact Hg|]. cbv beta. intros _ Hg.
      apply orb_false_iff in Hg as [H1%Z.eqb_neq H2%Z.ltb_ge].
      eapply ensures_mono; [apply ensures_list, ensures_string_wf|]. intros l [Hl Hf]. split; [|done].
      unfold zlen. rewrite Hl. lia. }
  intros l [Hl Hf]. eapply ensures_bind; [apply safe_ensures, safe_finish|]. intros _ _. by apply ensures_ret.
Qed.

(** Whatever decodes is a manifest in good order; nothing panics. *)
Lemma decode_manifest_spec bytes :
  match decode_manifest bytes with Ok m => manifest_ok m | Err _ => True | Panic => False end.
Proof.
  unfold decode_manifest. destruct (Z.ltb_spec (zlen bytes) 21); [done|].
  destruct (slice_in (E := Error) bytes 0 4) as (mg & -> & _); [lia|lia|]. cbn [rbind]. destruct (negb _); [done|].
  assert (exists v, index (E := Error) bytes 4 = Ok v) as (v & ->).
  { unfold index. rewrite decide_True by lia. destruct (lookup_lt_is_Some_2 bytes (Z.to_nat 4)) as [v ->]; [unfold zlen in *; lia|]. by exists v. }
  cbn [rbind]. destruct (negb _); [done|].
  destruct (slice_in (E := Error) bytes (zlen bytes - 4) (zlen bytes)) as (st & -> & Hst); [lia|lia|]. cbn [rbind].
  rewrite (fixed_in 4) by lia. cbn [rbind].
  destruct (slice_in (E := Error) bytes 0 (zlen bytes - 4)) as (pl & -> & _); [lia|lia|]. cbn [rbind]. destruct (negb _); [done|].
  destruct (slice_in (E := Error) bytes 5 (zlen bytes - 4)) as (bd & -> & _); [lia|lia|]. cbn [rbind].
  pose proof (run_dec_ensures _ bd _ (ensures_manifest_body (u8 v))) as Hr.
  destruct (run_dec _ bd) as [m| |]; [|done|done]. cbn [rbind].
  destruct (forallb _ _ && _) eqn:E; [|done]. apply andb_true_iff in E as [Hf Hn%bool_decide_eq_true].
  destruct Hr as (H1 & H2 & H3). constructor; [done|done| |done].
  apply Forall_forall. intros s Hs. split; [by eapply Forall_forall in H3|].
  eapply forallb_forall in Hf; [exact Hf|]. by apply list_elem_of_In.
Qed.

(** A manifest of one to nine distinct well-formed
    segment names is written and read back unchanged; and whatever bytes read
    as a manifest hold such a one - reading never panics. *)
Theorem manifest_roundtrip m bytes :
  (manifest_ok m -> exists file, encode_manifest (man_sequence m) (man_segments m) = Ok file /\ decode_manifest file = Ok m) /\
  match decode_manifest bytes with Ok m' => manifest_ok m' | Err _ => True | Panic => False end.
Proof.
  split; [|apply decode_manifest_spec]. intros Hm. eexists. split; [by apply encode_manifest_ok|by apply decode_manifest_file].
Qed.

Definition demo_manifest : Manifest := MkManifest 7 [segment_name 3; segment_name 7].

Lemma manifest_roundtrip_witness :
  exists file, encode_manifest 7 [segment_name 3; segment_name 7] = Ok file /\ decode_manifest file = Ok demo_manifest.
Proof.
  apply (manifest_roundtrip demo_manifest []).
  assert (in_u 64 3 /\ in_u 64 7) as [H3 H7] by (split; split; (lia || reflexivity)).
  constructor; cbn [demo_manifest man_sequence man_segments].
  - exact H7.
  - split; vm_compute; [reflexivity|discriminate].
  - repeat constructor; by apply segment_name_ok.
  - apply (bool_decide_unpack _). vm_compute. exact I.
Defined.
