(* ===== verification/Persistence.v ===== *)
(** * Persistence: the durable collection ([PersistentCollection] of
    [src/src/persistence.rs])

    An in-memory collection, its write-ahead log, and immutable segments named
    by a manifest.  The build without the [cuda] feature; with it: [Cuda].  A
    [&mut self] method returns its result with the state it leaves; what it
    does to the directory goes through [Disk]. *)

From stdpp Require Import base gmap sets list strings sorting.
From Stdlib Require Import ZArith Lia.
From S2P Require Import Prelude Errors Floats Ranking Metric Filter MetadataIndex Quantize.
From S2P Require Hnsw.
From S2P Require Import Collection Codec Wire Wal Disk Segment Manifest.

Inductive Durability : Type := Sync | Flush.
Inductive CudaSearchMode : Type := Disabled | Preferred | Required.

#[global] Instance CudaSearchMode_eq_dec : EqDecision CudaSearchMode.
Proof. solve_decision. Defined.

(** [idle] is the pool of search workspaces inside the index. *)
Record IndexSegment : Type := MkIndexSegment {
  is_sequence : Z; is_index : Hnsw.HnswIndex; idle : list Hnsw.BuildWorkspace
}.

Record PersistentCollection : Type := MkPersistent {
  inner : Collection;
  durability : Durability;
  indexes : list IndexSegment;
  metadata_index : option (MetadataIndex);
  dirty_ids : gset string;
  cuda_mode : CudaSearchMode
}.

Record FlushSnapshot : Type := MkSnapshot {
  snap_config : CollectionConfig; snap_sequence : Z; snap_points : list StoredPoint;
  graph_points : list StoredPoint; snap_tombstones : list string; snap_compact : bool
}.

Record PreparedFlush : Type := MkPreparedFlush {
  prep_sequence : Z; temporary_segment : string; prep_metadata_index : option MetadataIndex; prep_compact : bool
}.

Record PersistentIndexStats : Type := MkIndexStats {
  segments : Z; total_nodes : Z; total_links : Z; total_vector_heap_bytes : Z; mapped_segments : Z; pending_ids : Z;
  mapped_points : Z; owned_points : Z; owned_vector_bytes : Z; cuda_vectors : Z
}.

Definition WAL : string := "write.wal".
Definition META : string := "collection.meta".

(** ** Appending to the log *)

Definition append_frame (durability : Durability) (payload : list byte) : io (Result unit) :=
  if Z.ltb U32_MAX (zlen payload) then ioret (Err (InvalidQuery "WAL record is too large"))
  else
    let*? frame_start := file_len WAL in
    let* result := (
      let*? _ := append WAL WAL_MAGIC in
      let*? _ := append WAL (le_bytes 4 (zlen payload)) in
      let*? _ := append WAL payload in
      let*? _ := append WAL (le_bytes 4 (crc32c payload)) in
      match durability with Sync => sync | Flush => ioret (Ok tt) end) in
    match result with
    | Ok _ => ioret (Ok tt)
    | _ =>
        let* _ := ignore (set_len WAL frame_start) in
        let* _ := ignore sync in
        ioret result
    end.

(** ** Opening *)

Definition ensure_metadata (config : CollectionConfig) : io (Result unit) :=
  let* present := exists_ META in
  if present then
    let*? bytes := read_file META in
    let*? actual := iolift (decode_metadata bytes) in
    if bool_decide (actual = config) then ioret (Ok tt)
    else ioret (Err (InvalidConfig "requested configuration differs from persisted collection"))
  else
    let temporary := "collection.meta.tmp" in
    let*? _ := create_new temporary in
    let*? _ := append temporary (encode_metadata config) in
    let*? _ := sync in
    let*? _ := rename temporary META in
    sync.

Definition persisted_config : io (Result CollectionConfig) :=
  let*? bytes := read_file META in iolift (decode_metadata bytes).

Record Loading : Type := MkLoading { l_collection : Collection; l_indexes : list IndexSegment; l_previous : Z }.

(** [indexes.push] unless the graph is empty. *)
Definition push_index (indexes : list IndexSegment) (segment : DecodedSegment) : list IndexSegment :=
  if Z.eqb (Hnsw.len (seg_index segment)) 0 then indexes
  else indexes ++ [MkIndexSegment (seg_sequence segment) (seg_index segment) []].

(** The checks of one segment against its place in the manifest. *)
Definition check_segment (manifest : Manifest) (config : CollectionConfig) (previous_sequence position : Z)
    (decoded : DecodedSegment) : Result unit :=
  if negb (bool_decide (seg_config decoded = config))
  then Err (CorruptStorage "segment configuration differs from collection metadata")
  else if Z.eqb position 0 && negb (seg_full decoded)
  then Err (CorruptStorage "manifest does not begin with a full segment")
  else if Z.ltb 0 position && (seg_full decoded || Z.leb (seg_sequence decoded) previous_sequence)
  then Err (CorruptStorage "manifest segments are not ordered deltas")
  else if Z.eqb (position + 1) (zlen (man_segments manifest))
          && negb (Z.eqb (seg_sequence decoded) (man_sequence manifest))
  then Err (CorruptStorage "manifest and latest segment sequences differ")
  else Ok tt.

(** What one segment does to the collection. *)
Definition apply_segment (collection : Collection) (decoded : DecodedSegment) : Result Collection :=
  if seg_full decoded then
    match restore_stored_snapshot collection (seg_points decoded) (seg_sequence decoded) with
    | (Ok _, collection) => Ok collection
    | (Err e, _) => Err e
    | (Panic, _) => Panic
    end
  else
    let collection := if bool_decide (seg_points decoded = []) then collection
                      else apply_prepared_upsert collection (seg_points decoded) (seg_sequence decoded) in
    Ok (apply_delete_at collection (seg_tombstones decoded) (seg_sequence decoded)).

Definition load_decoded (manifest : Manifest) (st : Loading) (position : Z) (decoded : DecodedSegment) : Result Loading :=
  let? _ := check_segment manifest (config (l_collection st)) (l_previous st) position decoded in
  let? collection := apply_segment (l_collection st) decoded in
  Ok (MkLoading collection (push_index (l_indexes st) decoded) (seg_sequence decoded)).

Section Collection.
Context `{FloatEnv} (avx2 : bool).

Definition load_segment (manifest : Manifest) (st : Loading) (entry : Z * string) : io (Result Loading) :=
  let '(position, name) := entry in
  let*? bytes := read_file name in
  if Z.eqb (zlen bytes) 0 then ioret (Err (CorruptStorage "segment file is empty"))
  else
    let*? decoded := iolift (decode_segment_mapped avx2 bytes) in
    iolift (load_decoded manifest st position decoded).

Definition load_current_segments (collection : Collection)
    : io (Result (Collection * option (list IndexSegment * MetadataIndex))) :=
  let*? manifest := read_manifest in
  match manifest with
  | None => ioret (Ok (collection, None))
  | Some manifest =>
      let*? st := io_fold (load_segment manifest) (MkLoading collection [] 0) (Hnsw.enumerate (man_segments manifest)) in
      let collection := l_collection st in
      ioret (Ok (collection, Some (l_indexes st, MetadataIndex.build (snapshot_stored_points collection))))
  end.

(** Replaying the log, and cutting off a torn tail. *)
Definition recover_wal (collection : Collection) : io (Result Recovery) :=
  let*? bytes := read_file WAL in
  let*? r := iolift (recover bytes collection ∅) in
  if Z.eqb (rec_length r) (zlen bytes) then ioret (Ok r)
  else let*? _ := set_len WAL (rec_length r) in ioret (Ok r).

(** How [try_lock] on the directory's lock file goes. *)
Inductive LockOutcome : Type := Locked | WouldBlock | LockError (message : string).

Definition open_with_cuda (config : CollectionConfig) (durability : Durability) (cuda : CudaSearchMode)
    (lock : LockOutcome) : io (Result PersistentCollection) :=
  let*? _ := sync in
  let*? _ := open_or_create "collection.lock" in
  let*? _ := iolift (match lock with
    | Locked => Ok tt
    | WouldBlock => Err (Concurrency "collection directory is already open by another process or handle")
    | LockError message => Err (Io message)
    end) in
  let*? _ := ensure_metadata config in
  let*? _ := open_or_create WAL in
  let*? inner := iolift (new config) in
  let*? (inner, loaded) := load_current_segments inner in
  let '(indexes, metadata_index) :=
    match loaded with Some (indexes, metadata) => (indexes, Some metadata) | None => ([], None) end in
  let*? r := recover_wal inner in
  let*? _ := sync in
  if bool_decide (cuda = Required)
  then ioret (Err (InvalidConfiguration "CUDA search was requested, but focal-vector was built without --features cuda"))
  else ioret (Ok (MkPersistent (rec_collection r) durability indexes metadata_index (rec_dirty r) cuda)).
End Collection.

(** ** Writes: logged, then applied *)

Definition with_inner (self : PersistentCollection) (inner : Collection) (changed : list string) : PersistentCollection :=
  MkPersistent inner (durability self) (indexes self) (metadata_index self)
    (dirty_ids self ∪ list_to_set changed) (cuda_mode self).

(** Appending [payload], and [commit] once it is in the log. *)
Definition logged (self : PersistentCollection) (sequence : Z) (payload : list byte) (commit : PersistentCollection)
    : io (Result Z * PersistentCollection) :=
  let* result := append_frame (durability self) payload in
  ioret (match result with
         | Ok _ => (Ok sequence, commit)
         | Err e => (Err e, self)
         | Panic => (Panic, self)
         end).

Section Writes.
Context `{FloatEnv}.

Definition upsert (self : PersistentCollection) (points : list UpsertPoint) : io (Result Z * PersistentCollection) :=
  match (let? sequence := next_sequence (inner self) in
         let? prepared := prepare_upsert (inner self) points sequence in
         let? payload := encode_upsert sequence prepared in
         Ok (sequence, prepared, payload)) with
  | Ok (sequence, prepared, payload) =>
      logged self sequence payload
        (with_inner self (apply_prepared_upsert (inner self) prepared sequence) (map sp_id prepared))
  | Err e => ioret (Err e, self)
  | Panic => ioret (Panic, self)
  end.
End Writes.

Definition delete (self : PersistentCollection) (ids : list string) : io (Result Z * PersistentCollection) :=
  match (if bool_decide (ids = []) then Err (InvalidQuery "delete batch must not be empty")
         else if existsb (fun id => bool_decide (id = "")) ids then Err (InvalidQuery "point ID must not be empty")
         else
           let? sequence := next_sequence (inner self) in
           let? payload := encode_delete sequence ids in
           Ok (sequence, payload)) with
  | Ok (sequence, payload) =>
      logged self sequence payload (with_inner self (apply_delete_at (inner self) ids sequence) ids)
  | Err e => ioret (Err e, self)
  | Panic => ioret (Panic, self)
  end.

(** ** Searching *)

(** [dedup_by]: equal neighbours collapse to the first. *)
Fixpoint dedup_ids (last : option string) (hits : list SearchHit) : list SearchHit :=
  match hits with
  | [] => []
  | hit :: hits' =>
      if bool_decide (last = Some (hit_id hit)) then dedup_ids last hits'
      else hit :: dedup_ids (Some (hit_id hit)) hits'
  end.

Definition merge_hits (hits : list SearchHit) (k : Z) : list SearchHit :=
  truncate k (dedup_ids None (sort_by hit_cmp hits)).

Section Search.
Context `{FloatEnv} (avx2 : bool).

(** The live point behind a graph hit, scored exactly; stale hits are dropped. *)
Definition rescore (self : PersistentCollection) (segment : IndexSegment) (query : list Z) (hit : Hnsw.HnswHit)
    : option SearchHit :=
  match get_stored (inner self) (Hnsw.hit_id hit) with
  | None => None
  | Some point =>
      if bool_decide (Hnsw.hit_id hit ∈ dirty_ids self) || Z.ltb (is_sequence segment) (sp_sequence point) then None
      else Some (MkHit (Hnsw.hit_id hit) (score (metric (config (inner self))) query (as_slice (sp_vector point)))
                   (sp_metadata point) (sp_sequence point))
  end.

Definition search_segment (self : PersistentCollection) (query prepared_query : list Z) (k ef_search : Z)
    (st : list SearchHit * list IndexSegment) (segment : IndexSegment)
    : Result (list SearchHit * list IndexSegment) :=
  let '(hits, searched) := st in
  let rerank_k := if bool_decide (Hnsw.arena_storage (Hnsw.vectors (is_index segment)) = ScalarInt8)
                  then saturating_mul k 4 else k in
  let graph_k := Z.min rerank_k (Hnsw.len (is_index segment)) in
  if Z.eqb graph_k 0 then Ok (hits, searched ++ [segment])
  else
    let? (found, pool) := Hnsw.search avx2 (is_index segment) query graph_k (Z.max ef_search graph_k) (idle segment) in
    Ok (hits ++ omap (rescore self segment prepared_query) found,
        searched ++ [MkIndexSegment (is_sequence segment) (is_index segment) pool]).

Definition with_indexes (self : PersistentCollection) (indexes : list IndexSegment) : PersistentCollection :=
  MkPersistent (inner self) (durability self) indexes (metadata_index self) (dirty_ids self) (cuda_mode self).

Definition filtered_search (self : PersistentCollection) (query : list Z) (k : Z) (filter : Filter)
    : Result (list SearchHit) :=
  match metadata_index self with
  | None => search (inner self) query k (Some filter)
  | Some metadata_index =>
      let? candidates := candidates metadata_index filter in
      let? hits := search_ids (inner self) query k (candidates ∖ dirty_ids self) (Some filter) in
      let? pending := search_ids (inner self) query k (dirty_ids self) (Some filter) in
      Ok (merge_hits (hits ++ pending) k)
  end.

(** The hits, and the collection with its indexes' idle workspaces. *)
Definition search_with_ef (self : PersistentCollection) (query : list Z) (k : Z) (filter : option Filter) (ef_search : Z)
    : Result (list SearchHit * PersistentCollection) :=
  if Z.ltb ef_search k then Err (InvalidQuery "ef_search must be at least k")
  else if Z.eqb k 0 then Err (InvalidQuery "k must be greater than zero")
  else if negb (Z.eqb (zlen query) (dimension (config (inner self))))
  then Err (InvalidDimension (dimension (config (inner self))) (zlen query))
  else match filter with
  | Some filter => let? hits := filtered_search self query k filter in Ok (hits, self)
  | None =>
      if bool_decide (indexes self = []) then
        let? hits := search (inner self) query k None in Ok (hits, self)
      else
        let? prepared_query := prepare (metric (config (inner self))) query in
        let? (hits, searched) := foldM_result (search_segment self query prepared_query k ef_search) ([], []) (indexes self) in
        let? pending := search_ids (inner self) query k (dirty_ids self) None in
        Ok (merge_hits (hits ++ pending) k, with_indexes self searched)
  end.

Definition search (self : PersistentCollection) (query : list Z) (k : Z) (filter : option Filter)
    : Result (list SearchHit * PersistentCollection) :=
  search_with_ef self query k filter (Z.max (saturating_mul k 4) 96).
End Search.

(** ** Statistics *)

Definition latest_sequence (self : PersistentCollection) : Z := Collection.latest_sequence (inner self).
Definition len (self : PersistentCollection) : Z := Collection.len (inner self).
Definition has_approximate_index (self : PersistentCollection) : bool := negb (bool_decide (indexes self = [])).
Definition pending_point_count (self : PersistentCollection) : Z := Z.of_nat (size (dirty_ids self)).

Definition add_stats (total : PersistentIndexStats) (segment : IndexSegment) : PersistentIndexStats :=
  let stats := Hnsw.stats (is_index segment) in
  MkIndexStats (segments total) (total_nodes total + Hnsw.stat_nodes stats) (total_links total + Hnsw.stat_links stats)
    (total_vector_heap_bytes total + Hnsw.vector_heap_bytes stats)
    (mapped_segments total + (if Hnsw.vectors_memory_mapped stats then 1 else 0)) (pending_ids total)
    (mapped_points total) (owned_points total) (owned_vector_bytes total) (cuda_vectors total).

Definition index_stats (self : PersistentCollection) : PersistentIndexStats :=
  let '(mapped_points, owned_points, owned_vector_bytes) := vector_storage_stats (inner self) in
  fold_left add_stats (indexes self)
    (MkIndexStats (zlen (indexes self)) 0 0 0 0 (pending_point_count self) mapped_points owned_points owned_vector_bytes 0).

(** ** Flushing *)

Definition flush_snapshot (self : PersistentCollection) : FlushSnapshot :=
  let points := snapshot_stored_points (inner self) in
  let compact := bool_decide (indexes self = []) || Z.leb MAX_INDEX_SEGMENTS (zlen (indexes self)) in
  let graph_points := if compact then points
                      else List.filter (fun point => bool_decide (sp_id point ∈ dirty_ids self)) points in
  let tombstones := if compact then []
                    else List.filter (fun id => negb (bool_decide (is_Some (get_stored (inner self) id))))
                           (elements (dirty_ids self)) in
  MkSnapshot (config (inner self)) (Collection.latest_sequence (inner self)) points graph_points tombstones compact.

Definition write_segment_file (path : string) (config : CollectionConfig) (sequence : Z) (points : list StoredPoint)
    (tombstones : list string) (full : bool) (index : Hnsw.HnswIndex) : io (Result unit) :=
  let* result := (
    let*? _ := create_new path in
    let*? bytes := iolift (segment_bytes config sequence points tombstones full index) in
    let*? _ := append path bytes in
    sync) in
  match result with
  | Ok _ => ioret (Ok tt)
  | _ => let* _ := ignore (remove_file path) in ioret result
  end.

Section Flush.
Context `{FloatEnv} (avx2 : bool).

(** [workers] is the size of the thread pool, [temporary] the unique name that
    [temporary_segment_path] makes of the process, the time and a counter. *)
Definition build_flush (workers : nat) (temporary : string) (snapshot : FlushSnapshot) : io (Result PreparedFlush) :=
  let metadata_index := MetadataIndex.build (snap_points snapshot) in
  let*? index := iolift (Hnsw.build_quantized_prepared avx2 workers (dimension (snap_config snapshot))
    (metric (snap_config snapshot)) Hnsw.default_config
    (map (fun point => (sp_id point, as_slice (sp_vector point))) (graph_points snapshot))) in
  let segment_points := if snap_compact snapshot then snap_points snapshot else graph_points snapshot in
  let*? _ := write_segment_file temporary (snap_config snapshot) (snap_sequence snapshot) segment_points
               (snap_tombstones snapshot) (snap_compact snapshot) index in
  ioret (Ok (MkPreparedFlush (snap_sequence snapshot) temporary (Some metadata_index) (snap_compact snapshot))).

(** From the rename of the prepared segment to the durable manifest that lists
    it; [previous] is the manifest it replaces. *)
Definition publish_segment (pid : Z) (config : CollectionConfig) (prepared : PreparedFlush) (previous : option Manifest)
    : io (Result DecodedSegment) :=
  let sequence := prep_sequence prepared in
  let name := segment_name sequence in
  let*? _ := rename (temporary_segment prepared) name in
  let*? _ := sync in
  let*? mapping := read_file name in
  let*? decoded := iolift (decode_segment_mapped avx2 mapping) in
  if negb (bool_decide (seg_config decoded = config)) || negb (Z.eqb (seg_sequence decoded) sequence)
     || negb (Bool.eqb (seg_full decoded) (prep_compact prepared))
  then ioret (Err (CorruptStorage "prepared segment changed before publication"))
  else
    let segment_names := (if prep_compact prepared then []
                          else match previous with Some manifest => man_segments manifest | None => [] end) ++ [name] in
    let*? _ := publish_manifest pid sequence segment_names in
    ioret (Ok decoded).

(** The log is emptied when nothing was written since the snapshot. *)
Definition checkpoint (self : PersistentCollection) (sequence : Z) : io (Result (gset string)) :=
  if Z.eqb (latest_sequence self) sequence then
    let*? _ := set_len WAL 0 in
    let*? _ := sync in
    let*? _ := sync in
    ioret (Ok ∅)
  else ioret (Ok (dirty_ids self)).

Definition retire (name : string) (previous : option Manifest) : io unit :=
  match previous with
  | None => ioret tt
  | Some manifest =>
      for_each (fun previous_name => if bool_decide (previous_name = name) then ioret tt
                                     else ignore (remove_file previous_name)) (man_segments manifest)
  end.

Definition install (self : PersistentCollection) (prepared : PreparedFlush) (decoded : DecodedSegment)
    (dirty : gset string) : PersistentCollection :=
  MkPersistent (inner self) (durability self)
    (push_index (if prep_compact prepared then [] else indexes self) decoded)
    (prep_metadata_index prepared) dirty (cuda_mode self).

Definition publish_prepared (pid : Z) (self : PersistentCollection) (prepared : PreparedFlush) (previous : option Manifest)
    : io (Result Z * PersistentCollection) :=
  let* published := publish_segment pid (config (inner self)) prepared previous in
  match published with
  | Err e => ioret (Err e, self)
  | Panic => ioret (Panic, self)
  | Ok decoded =>
      let self := with_inner self (replace_persisted_points (inner self) (seg_points decoded)) [] in
      let* checkpointed := checkpoint self (prep_sequence prepared) in
      match checkpointed with
      | Err e => ioret (Err e, self)
      | Panic => ioret (Panic, self)
      | Ok dirty =>
          let* _ := (if prep_compact prepared then retire (segment_name (prep_sequence prepared)) previous else ioret tt) in
          ioret (Ok (prep_sequence prepared), install self prepared decoded dirty)
      end
  end.

(** The prepared flush is dropped at the end, whatever happened, which removes
    its temporary file if it is still there. *)
Definition publish_flush (pid : Z) (self : PersistentCollection) (prepared : PreparedFlush)
    : io (Result Z * PersistentCollection) :=
  let* result := (
    let* previous := read_manifest in
    match previous with
    | Err e => ioret (Err e, self)
    | Panic => ioret (Panic, self)
    | Ok previous =>
        match previous with
        | Some manifest =>
            if Z.ltb (prep_sequence prepared) (man_sequence manifest) then ioret (Ok (man_sequence manifest), self)
            else publish_prepared pid self prepared previous
        | None => publish_prepared pid self prepared previous
        end
    end) in
  let* _ := ignore (remove_file (temporary_segment prepared)) in
  ioret result.

Definition flush (workers : nat) (pid : Z) (temporary : string) (self : PersistentCollection)
    : io (Result Z * PersistentCollection) :=
  if bool_decide (dirty_ids self = ∅) && negb (bool_decide (indexes self = []))
  then ioret (Ok (latest_sequence self), self)
  else
    let snapshot := flush_snapshot self in
    let* prepared := build_flush workers temporary snapshot in
    match prepared with
    | Err e => ioret (Err e, self)
    | Panic => ioret (Panic, self)
    | Ok prepared => publish_flush pid self prepared
    end.
End Flush.
