(* ===== verification/Recovery.v ===== *)
(** * Recovery: what a directory holds

    [load_dir] is the loading of the segments as a function of the directory;
    [restores] relates a live collection to what opening its directory gives
    back; [recoverable] and [store_ok] say that a directory holds a collection,
    at rest and under an open handle. *)

From stdpp Require Import base gmap sets list strings sorting.
From Stdlib Require Import ZArith Lia.
From S2P Require Import Prelude Errors Floats Ranking Metric Filter MetadataIndex Quantize.
From S2P Require Hnsw.
From S2P Require Import Collection CollectionFacts Codec Wire WireFacts Wal Disk DiskFacts Segment SegmentFacts.
From S2P Require Import Manifest ManifestFacts Persistence.

(** ** Loading without the file system *)

Section Load.
Context `{FloatEnv} (avx2 : bool).

Definition load_segment_dir (d : Dir) (manifest : Manifest) (st : Loading) (entry : Z * string) : Result Loading :=
  let '(position, name) := entry in
  let? bytes := ok_or (d !! name) missing in
  if Z.eqb (zlen bytes) 0 then Err (CorruptStorage "segment file is empty")
  else
    let? decoded := decode_segment_mapped avx2 bytes in
    load_decoded manifest st position decoded.

Definition manifest_dir (d : Dir) : Result (option Manifest) :=
  match d !! "MANIFEST" with
  | None => Ok None
  | Some bytes => let? manifest := decode_manifest bytes in Ok (Some manifest)
  end.

Definition load_names (d : Dir) (manifest : Manifest) (st : Loading) : Result Loading :=
  foldM_result (load_segment_dir d manifest) st (Hnsw.enumerate (man_segments manifest)).

Definition load_dir (d : Dir) (collection : Collection) : Result (Collection * option (list IndexSegment * MetadataIndex)) :=
  let? manifest := manifest_dir d in
  match manifest with
  | None => Ok (collection, None)
  | Some manifest =>
      let? st := load_names d manifest (MkLoading collection [] 0) in
      Ok (l_collection st, Some (l_indexes st, MetadataIndex.build (snapshot_stored_points (l_collection st))))
  end.

Lemma read_manifest_dir d : reads_as read_manifest d (manifest_dir d).
Proof.
  unfold read_manifest, manifest_dir. apply reads_as_exists. destruct (d !! "MANIFEST") as [bytes|] eqn:E.
  - rewrite bool_decide_eq_true_2 by done. cbn [negb].
    pose proof (reads_as_try (read_file "MANIFEST") (fun bytes => let*? manifest := iolift (decode_manifest bytes) in ioret (Ok (Some manifest)))
      d (ok_or (d !! "MANIFEST") missing) (fun bytes => let? manifest := decode_manifest bytes in Ok (Some manifest))) as Ht.
    rewrite E in Ht. cbn [ok_or rbind] in Ht. apply Ht; [pose proof (reads_as_file "MANIFEST" d) as Hr; by rewrite E in Hr|].
    intros b _. apply reads_as_try; [apply reads_as_ret|]. intros m _. apply reads_as_ret.
  - rewrite bool_decide_eq_false_2 by (by intros [? ?]). apply reads_as_ret.
Qed.

Lemma load_current_dir c d : reads_as (load_current_segments avx2 c) d (load_dir d c).
Proof.
  unfold load_current_segments, load_dir. apply reads_as_try; [apply read_manifest_dir|].
  intros [m|] _; [|apply reads_as_ret]. apply reads_as_try.
  - unfold load_names. apply reads_as_fold. intros s [position name]. unfold load_segment, load_segment_dir.
    apply reads_as_try; [apply reads_as_file|]. intros bytes _. destruct (_ =? _); [apply reads_as_ret|].
    apply reads_as_try; [apply reads_as_ret|]. intros decoded _. apply reads_as_ret.
  - intros s _. apply reads_as_ret.
Qed.

(** Loading depends on the manifest and the files it names. *)
Lemma load_names_agree d d' m st :
  (forall n, n ∈ man_segments m -> d' !! n = d !! n) -> load_names d' m st = load_names d m st.
Proof.
  intros Hn. unfold load_names. assert (forall e, e ∈ Hnsw.enumerate (man_segments m) -> e.2 ∈ man_segments m) as He.
  { intros [i n] Hin. unfold Hnsw.enumerate in Hin. apply elem_of_lookup_imap in Hin as (j & x & E & Hx).
    apply (f_equal snd) in E. cbn in E. cbn. subst n. by eapply list_elem_of_lookup_2. }
  revert st He. generalize (Hnsw.enumerate (man_segments m)) as l. induction l as [|[i n] l IH]; intros st He; [done|].
  cbn [foldM_result]. unfold load_segment_dir at 1 3. rewrite (Hn n) by (apply (He (i, n)); left).
  match goal with |- rbind ?r _ = _ => destruct r; [|done..] end. cbn [rbind]. apply IH. intros e Hin. apply He. by right.
Qed.

Lemma load_dir_agree d d' c :
  d' !! "MANIFEST" = d !! "MANIFEST" ->
  (forall m, manifest_dir d = Ok (Some m) -> forall n, n ∈ man_segments m -> d' !! n = d !! n) ->
  load_dir d' c = load_dir d c.
Proof.
  intros Hm Hn. unfold load_dir. assert (manifest_dir d' = manifest_dir d) as -> by (unfold manifest_dir; by rewrite Hm).
  destruct (manifest_dir d) as [[m|]| |] eqn:E; [|done..]. cbn [rbind]. by rewrite (load_names_agree d d') by (by apply Hn).
Qed.
End Load.

(** ** A live collection and its recovered copy

    A recovered vector is the live one, or - when it was read from the log -
    what preparing it once more gives. *)

Section Restores.
Context `{FloatEnv}.

Record restored_point (m : Metric) (p r : StoredPoint) : Prop := {
  rp_id : sp_id r = sp_id p;
  rp_metadata : sp_metadata r = sp_metadata p;
  rp_sequence : sp_sequence r = sp_sequence p;
  rp_vector : as_slice (sp_vector r) = as_slice (sp_vector p) \/
              prepare m (as_slice (sp_vector p)) = Ok (as_slice (sp_vector r));
  rp_view : view_ok r
}.

Record restores (c r : Collection) : Prop := {
  rs_config : config r = config c;
  rs_sequence : sequence r = sequence c;
  rs_points : forall id, option_Forall2 (restored_point (metric (config c))) (points c !! id) (points r !! id)
}.

Lemma restored_length m p r : restored_point m p r -> zlen (as_slice (sp_vector r)) = zlen (as_slice (sp_vector p)).
Proof. intros [_ _ _ [->|Hp%prepare_length] _]; [done|]. unfold zlen. by rewrite Hp. Qed.

Lemma restores_coll_ok c r : coll_ok c -> restores c r -> coll_ok r.
Proof.
  intros (Hd & Hs & Hp) [Ec Es Hr]. unfold coll_ok. rewrite Ec, Es. split_and!; [done|lia|lia|].
  intros id q Hq. specialize (Hr id). rewrite Hq in Hr. inversion Hr as [p ? Hpr E|]; subst.
  destruct (Hp id p (eq_sym E)) as (H1 & H2 & H3 & H4 & H5).
  split_and!; [by rewrite (rp_id _ _ _ Hpr)|done|by rewrite (restored_length _ _ _ Hpr)|by rewrite (rp_sequence _ _ _ Hpr)|].
  apply Hpr.
Qed.

(** Collections with the same contents restore each other. *)
Lemma restores_contents c r :
  coll_ok r -> config r = config c -> sequence r = sequence c -> contents r = contents c -> restores c r.
Proof.
  intros (_ & _ & Hr) Ec Es E. split; [done|done|]. intros id.
  assert (contents r !! id = contents c !! id) as Ei by (by rewrite E). rewrite !lookup_contents in Ei.
  destruct (points c !! id) as [p|], (points r !! id) as [q|] eqn:Eq; cbn in Ei; try done; constructor.
  apply (inj Some) in Ei. unfold to_owned_point in Ei. injection Ei as H1 H2 H3 H4.
  constructor; [done..|by left|]. by destruct (Hr id q Eq) as (_ & _ & _ & _ & ?).
Qed.

Lemma restores_refl c : coll_ok c -> restores c c.
Proof. intros Hc. by apply restores_contents. Qed.

(** Without normalisation the recovered contents are the live ones. *)
Lemma restores_exact c r : metric (config c) <> Cosine -> restores c r -> contents r = contents c.
Proof.
  intros Hm [_ _ Hr]. apply map_eq. intros id. rewrite !lookup_contents. specialize (Hr id).
  destruct Hr as [p q Hpq|]; [|done]. cbn. f_equal. unfold to_owned_point.
  rewrite (rp_id _ _ _ Hpq), (rp_metadata _ _ _ Hpq), (rp_sequence _ _ _ Hpq). f_equal.
  destruct (rp_vector _ _ _ Hpq) as [|Hp]; [done|]. by apply prepare_identity_inv in Hp.
Qed.

(** ** Replaying records *)

Lemma last_with_Forall2 (R : StoredPoint -> StoredPoint -> Prop) l l' id :
  (forall p q, R p q -> sp_id q = sp_id p) -> Forall2 R l l' -> option_Forall2 R (last_with id l) (last_with id l').
Proof.
  intros Hid Hl. unfold last_with.
  assert (Forall2 R (List.filter (fun p => bool_decide (sp_id p = id)) l) (List.filter (fun p => bool_decide (sp_id p = id)) l')) as Hf.
  { induction Hl as [|p q l l' Hpq _ IH]; cbn [List.filter]; [constructor|]. rewrite (Hid _ _ Hpq).
    case_bool_decide; [by constructor|done]. }
  revert Hf. generalize (List.filter (fun p => bool_decide (sp_id p = id)) l) as l1.
  generalize (List.filter (fun p => bool_decide (sp_id p = id)) l') as l2. clear. intros l2 l1 Hl.
  induction Hl as [|x y l1 l2 Hxy Hl IH]; [constructor|]. destruct Hl as [|x' y' l1 l2 Hxy' Hl]; [by constructor|exact IH].
Qed.

(** The record of an upsert, replayed on the restored copy. *)
Lemma restores_upsert c r ps ps' seq :
  restores c r -> Forall2 (prepared_as (config c) seq) (map as_upsert ps) ps' -> Forall (fun p => sp_sequence p = seq) ps ->
  restores (apply_prepared_upsert c ps seq) (apply_prepared_upsert r ps' seq).
Proof.
  intros [Ec Es Hr] Hps Hseq. split; [done|done|]. intros id. cbn [apply_prepared_upsert points config]. rewrite !fold_insert_lookup.
  assert (Forall2 (restored_point (metric (config c))) ps ps') as Hf.
  { revert ps' Hps. induction Hseq as [|p ps Hp _ IH]; intros ps' Hps; inversion Hps as [|u q us qs (v & Hv & -> & _ & _) Hrest]; subst;
      constructor; [|by apply IH]. by constructor; cbn; [| | |right|]. }
  pose proof (last_with_Forall2 _ ps ps' id (fun p q => rp_id _ p q) Hf) as Hl.
  destruct Hl as [p q Hpq|]; [by constructor|apply Hr].
Qed.

Lemma restores_delete c r ids seq : restores c r -> restores (apply_delete_at c ids seq) (apply_delete_at r ids seq).
Proof.
  intros [Ec Es Hr]. split; [done|done|]. intros id. cbn [apply_delete_at points config]. rewrite !fold_delete_lookup.
  case_decide; [constructor|apply Hr].
Qed.

(** What one record may change. *)
Lemma apply_payload_step c p ids c' :
  apply_payload c p = (Ok ids, c') ->
  exists seq, sequence c <= sequence c' /\ seq <= sequence c' /\ config c' = config c /\
    (forall id, id ∉ ids -> points c' !! id = points c !! id) /\
    (forall c0, seq <= sequence c0 -> apply_payload c0 p = (Ok [], c0)).
Proof.
  unfold apply_payload. destruct (record_header (decoder_new p)) as [[[op seq] s]| |]; [|done..]. unfold Collection.latest_sequence, checked_add.
  assert (forall c0, seq <= sequence c0 -> forall X, (if Z.leb seq (sequence c0) then (Ok [] : Result (list string), c0) else X) = (Ok [], c0)) as Hold.
  { intros c0 Hc0 X. by rewrite (proj2 (Z.leb_le _ _)). }
  destruct (Z.leb_spec seq (sequence c)) as [Hle|Hgt].
  { intros E. assert (c' = c) as -> by congruence. exists seq. split_and!; [lia|done|done|done|]. intros c0 Hc0. by apply Hold. }
  destruct (Z.leb_spec (sequence c + 1) U64_MAX); [|done]. destruct (Z.eqb_spec seq (sequence c + 1)) as [->|]; [|done]. cbn [negb].
  intros E. exists (sequence c + 1). assert (sequence c' = sequence c + 1 /\ config c' = config c /\ forall id, id ∉ ids -> points c' !! id = points c !! id) as (E1 & E2 & E3).
  { revert E. unfold apply_operation. destruct op as [|[[]|[]|]|]; try done.
    - destruct (delete_body s) as [[l s']| |]; [|done..]. intros [= -> <-]. split_and!; [done..|].
      intros id Hid. cbn. by rewrite fold_delete_lookup, decide_False.
    - destruct (upsert_body _ s) as [[us s']| |]; cbn [rbind]; [|done..].
      destruct (prepare_upsert c us (sequence c + 1)) as [ps| |] eqn:Ep; cbn [rbind]; [|done..].
      intros [= <- <-]. split_and!; [done..|]. intros id Hid. cbn. rewrite fold_insert_lookup.
      apply prepare_upsert_ok in Ep as [_ Hps]. rewrite (proj2 (last_with_None id ps)); [done|].
      intros (q & -> & Hq)%list_elem_of_fmap. apply Hid. apply list_elem_of_lookup in Hq as [i Hi].
      destruct (Forall2_lookup_r _ _ _ _ _ Hps Hi) as (u & Hu & (v & _ & -> & _)). cbn.
      apply list_elem_of_fmap. exists u. split; [done|]. by eapply list_elem_of_lookup_2. }
  split_and!; [lia|lia|done|done|]. intros c0 Hc0. by apply Hold.
Qed.

Lemma replay_app ps qs c D :
  replay (ps ++ qs) c D = match replay ps c D with Ok (c', D') => replay qs c' D' | Err e => Err e | Panic => Panic end.
Proof.
  revert c D. induction ps as [|p ps IH]; intros c D; [done|]. cbn [app replay].
  destruct (apply_payload c p) as [[ids| |] c']; [apply IH|done..].
Qed.

(** Replaying moves forward, and touches only what it reports. *)
Lemma replay_step ps c D c' D' :
  replay ps c D = Ok (c', D') ->
  sequence c <= sequence c' /\ config c' = config c /\ (forall id, id ∉ D' -> points c' !! id = points c !! id) /\ D ⊆ D'.
Proof.
  revert c D. induction ps as [|p ps IH]; intros c D; cbn [replay]; [intros [= -> ->]; split_and!; done|].
  destruct (apply_payload c p) as [[ids| |] c1] eqn:E; [|done..]. intros Hr.
  apply apply_payload_step in E as (s & H1 & _ & H2 & H3 & _). destruct (IH _ _ Hr) as (H4 & H5 & H6 & H7).
  split_and!; [lia|congruence| |set_solver]. intros id Hid. rewrite H6 by done. apply H3. set_solver.
Qed.

(** Records that an already newer collection has seen are skipped. *)
Lemma replay_seen ps c D c' D' c0 D0 :
  replay ps c D = Ok (c', D') -> sequence c' <= sequence c0 -> replay ps c0 D0 = Ok (c0, D0).
Proof.
  revert c D D0. induction ps as [|p ps IH]; intros c D D0; cbn [replay]; [done|].
  destruct (apply_payload c p) as [[ids| |] c1] eqn:E; [|done..]. intros Hr Hs.
  apply apply_payload_step in E as (s & H1 & Hs1 & _ & _ & Hold). pose proof (replay_step _ _ _ _ _ Hr) as (H4 & _).
  rewrite Hold by lia. cbn [list_to_set]. rewrite (right_id_L ∅ (∪)). by eapply IH.
Qed.
End Restores.
