(* ===== verification/Durability.v ===== *)
(** * Durability: acknowledged writes survive, whatever the disk does

    [holds d cfg base ps torn]: the directory [d] is a collection's directory;
    its segments load as [base] and its log is the records [ps] and a torn
    tail.  [recoverable d c]: opening [d] gives back the collection [c].
    [store_ok st d]: the open handle [st] and its directory agree. *)

From stdpp Require Import base gmap sets list strings sorting.
From Stdlib Require Import ZArith Lia.
From S2P Require Import Prelude Errors Floats Ranking Metric Filter MetadataIndex Quantize.
From S2P Require Hnsw HnswFacts HnswSearch.
From S2P Require Import Collection CollectionFacts Codec Wire WireFacts Wal Disk DiskFacts Segment SegmentFacts.
From S2P Require Import SegmentRoundtrip Manifest ManifestFacts Persistence Recovery.

(** The values of the Rust types: 32-bit floats, 64-bit integers. *)
Definition typed (c : Collection) : Prop :=
  in_u 64 (dimension (config c)) /\ map_Forall (fun _ p => point_typed (dimension (config c)) p) (points c).

Lemma typed_contents c c' : config c' = config c -> contents c' = contents c -> typed c -> typed c'.
Proof.
  intros Ec E [Hd Hp]. unfold typed. rewrite Ec. split; [done|]. intros id q Hq.
  assert (contents c !! id = Some (to_owned_point q)) as Ei by (rewrite <- E, lookup_contents, Hq; done).
  rewrite lookup_contents in Ei. apply fmap_Some in Ei as (p & Hpq & Epq). specialize (Hp id p Hpq).
  unfold point_typed in *. by injection Epq as _ -> -> ->.
Qed.

Section Durability.
Context `{FloatEnv} (avx2 : bool).

Record holds (d : Dir) (cfg : CollectionConfig) (base : Collection) (ps : list (list byte)) (torn : list byte) : Prop := {
  h_dimension : 0 < dimension cfg <= U64_MAX;
  h_meta : d !! META = Some (encode_metadata cfg);
  h_load : exists loaded, load_dir avx2 d (MkCollection cfg ∅ 0) = Ok (base, loaded) /\
             (loaded = None <-> d !! "MANIFEST" = None);
  h_base : coll_ok base /\ typed base;
  h_tidy : forall m, manifest_dir d = Ok (Some m) -> man_sequence m = sequence base /\
             Forall (fun n => exists s, 0 <= s <= man_sequence m /\ n = segment_name s) (man_segments m);
  h_wal : d !! WAL = Some (log ps ++ torn);
  h_records : Forall (fun p => zlen p <= MAX_FRAME_BYTES) ps;
  h_torn : forall valid c dirty, recover_step torn valid c dirty = Ok None
}.

Definition recoverable (d : Dir) (c : Collection) : Prop :=
  coll_ok c /\ exists base ps torn rec dirty,
    holds d (config c) base ps torn /\ replay ps base ∅ = Ok (rec, dirty) /\ restores c rec.

(** A segment's graph, and the search workspaces it keeps. *)
Definition index_ok (cfg : CollectionConfig) (segment : IndexSegment) : Prop :=
  HnswFacts.graph_wf (is_index segment) /\ Hnsw.graph_dimension (is_index segment) = dimension cfg /\
  Hnsw.graph_metric (is_index segment) = metric cfg /\ Forall HnswSearch.ws_valid (idle segment).

(** The in-memory indexes: the metadata index describes every point outside
    the dirty set, and the graphs are well formed. *)
Record index_current (st : PersistentCollection) : Prop := {
  ic_metadata : forall mi, metadata_index st = Some mi -> exists c0, coll_ok c0 /\ typed c0 /\
    mi = MetadataIndex.build (snapshot_stored_points c0) /\
    forall id, id ∉ dirty_ids st -> contents c0 !! id = contents (inner st) !! id;
  ic_graphs : Forall (index_ok (config (inner st))) (indexes st)
}.

Definition store_ok (st : PersistentCollection) (d : Dir) : Prop :=
  coll_ok (inner st) /\ index_current st /\
  exists base ps rec dirty,
    holds d (config (inner st)) base ps [] /\ replay ps base ∅ = Ok (rec, dirty) /\ restores (inner st) rec /\
    (forall id, id ∉ dirty_ids st -> contents base !! id = contents (inner st) !! id) /\
    (indexes st <> [] -> d !! "MANIFEST" <> None).

Lemma store_ok_recoverable st d : store_ok st d -> recoverable d (inner st).
Proof. intros (Hc & _ & base & ps & rec & dirty & Hh & Hr & Hs & _). split; [done|]. by exists base, ps, [], rec, dirty. Qed.

(** ** Files that matter *)

Lemma holds_agree d d' cfg base ps torn :
  d' !! META = d !! META -> d' !! WAL = d !! WAL -> d' !! "MANIFEST" = d !! "MANIFEST" ->
  (forall m n, manifest_dir d = Ok (Some m) -> n ∈ man_segments m -> d' !! n = d !! n) ->
  holds d cfg base ps torn -> holds d' cfg base ps torn.
Proof.
  intros E1 E2 E3 Hn [H1 H2 (loaded & Hl & Hm) H4 H5 H6 H7 H8]. constructor; [done|congruence| |done| |congruence|done|done].
  - exists loaded. rewrite E3. split; [|done]. rewrite <- Hl. apply load_dir_agree; [done|].
    intros m Em n Hin. by eapply Hn.
  - assert (manifest_dir d' = manifest_dir d) as -> by (unfold manifest_dir; by rewrite E3). done.
Qed.

(** The names of the files that make up a collection. *)
Definition live_file (p : string) : Prop := p = META \/ p = WAL \/ p = "MANIFEST" \/ exists s, 0 <= s /\ p = segment_name s.

Lemma holds_live d d' cfg base ps torn :
  (forall p, live_file p -> d' !! p = d !! p) -> holds d cfg base ps torn -> holds d' cfg base ps torn.
Proof.
  intros Hp. unfold live_file in Hp. intros Hh. eapply holds_agree; [apply Hp; tauto..| |exact Hh]. intros m n Em Hin.
  apply Hp. do 3 right. destruct (h_tidy _ _ _ _ _ Hh m Em) as [_ Hs]. eapply Forall_forall in Hs as (s & Hs & ->); [|exact Hin].
  exists s. split; [lia|done].
Qed.

Lemma segment_name_not s p : String.prefix "segment-" p = false -> segment_name s <> p.
Proof. intros Hp <-. unfold segment_name in Hp. cbn in Hp. by destruct (pad20 (fmt_int s)). Qed.

Lemma apply_segment_config c decoded c' : apply_segment c decoded = Ok c' -> config c' = config c.
Proof.
  unfold apply_segment. destruct (seg_full _).
  - unfold restore_stored_snapshot. destruct (existsb _ _); [done|]. destruct (insert_distinct _ _) as [? []]; [|done].
    by intros [= <-].
  - intros [= <-]. cbn. by case_bool_decide.
Qed.

Lemma load_segment_config d m st e st' : load_segment_dir avx2 d m st e = Ok st' -> config (l_collection st') = config (l_collection st).
Proof.
  destruct e as [i n]. unfold load_segment_dir. intros Hl. inv_ok Hl. destruct (_ =? 0) in Hl; [done|]. inv_ok Hl.
  unfold load_decoded in Hl. inv_ok Hl. inv_ok Hl. injection Hl as <-. by eapply apply_segment_config.
Qed.

Lemma load_dir_config d c base loaded : load_dir avx2 d c = Ok (base, loaded) -> config base = config c.
Proof.
  unfold load_dir. intros Hl. inv_ok Hl. destruct a as [m|]; [|by injection Hl as <- _]. inv_ok Hl. injection Hl as <- _.
  unfold load_names in Hok0. revert Hok0. change (config c) with (config (l_collection (MkLoading c [] 0))).
  generalize (MkLoading c [] 0) as st. induction (Hnsw.enumerate (man_segments m)) as [|e l IH]; intros st; cbn [foldM_result]; [by intros [= <-]|].
  intros Hf. inv_ok Hf. rewrite (IH _ Hf). by eapply load_segment_config.
Qed.

(** The graphs of loaded segments. *)
Lemma push_index_ok cfg ixs decoded :
  segment_ok decoded -> graph_matches decoded -> seg_config decoded = cfg ->
  Forall (index_ok cfg) ixs -> Forall (index_ok cfg) (push_index ixs decoded).
Proof.
  intros Hok (Hd & Hm & _) <- Hixs. unfold push_index. destruct (_ =? 0); [done|]. apply Forall_app. split; [done|].
  constructor; [|constructor]. split_and!; [apply Hok|done|done|constructor].
Qed.

Lemma load_segment_indexes d m st e st' :
  Forall (index_ok (config (l_collection st))) (l_indexes st) -> load_segment_dir avx2 d m st e = Ok st' ->
  Forall (index_ok (config (l_collection st'))) (l_indexes st').
Proof.
  intros Hst Hl. rewrite (load_segment_config _ _ _ _ _ Hl). destruct e as [i n]. unfold load_segment_dir in Hl.
  inv_ok Hl. destruct (_ =? 0) in Hl; [done|]. inv_ok Hl. pose proof (decode_segment_ok avx2 a true) as Hok'. cbv iota in Hok'.
  unfold decode_segment_mapped in Hok0. rewrite Hok0 in Hok'. destruct Hok' as [H1 H2].
  unfold load_decoded in Hl. inv_ok Hl. inv_ok Hl. injection Hl as <-. cbn [l_indexes]. apply push_index_ok; [done|done| |done].
  unfold check_segment in Hok1. case_bool_decide; [done|]. done.
Qed.

Lemma load_dir_indexes d c base ixs mi :
  load_dir avx2 d c = Ok (base, Some (ixs, mi)) -> Forall (index_ok (config c)) ixs.
Proof.
  intros Hl. rewrite <- (load_dir_config _ _ _ _ Hl). unfold load_dir in Hl. inv_ok Hl. destruct a as [m|]; [|done].
  inv_ok Hl. injection Hl as <- <- _. unfold load_names in Hok0. revert Hok0.
  assert (Forall (index_ok (config (l_collection (MkLoading c [] 0)))) (l_indexes (MkLoading c [] 0))) as H0 by constructor.
  revert H0. generalize (MkLoading c [] 0) as st. induction (Hnsw.enumerate (man_segments m)) as [|e l IH]; intros st Hst; cbn [foldM_result];
    [by intros [= <-]|]. intros Hf. inv_ok Hf. eapply IH; [|exact Hf]. by eapply load_segment_indexes.
Qed.

Lemma holds_config d cfg base ps torn : holds d cfg base ps torn -> config base = cfg.
Proof. intros Hh. destruct (h_load _ _ _ _ _ Hh) as (l & Hl & _). by apply load_dir_config in Hl. Qed.

Lemma holds_wal d cfg base ps torn ps' torn' :
  holds d cfg base ps torn -> Forall (fun p => zlen p <= MAX_FRAME_BYTES) ps' ->
  (forall valid c dirty, recover_step torn' valid c dirty = Ok None) ->
  holds (<[WAL := log ps' ++ torn']> d) cfg base ps' torn'.
Proof.
  intros [H1 H2 (loaded & Hl & Hm) H4 H5 H6 H7 H8] Hps Ht.
  assert (manifest_dir (<[WAL := log ps' ++ torn']> d) = manifest_dir d) as Em by (unfold manifest_dir; by rewrite lookup_insert_ne).
  constructor; [done|by rewrite lookup_insert_ne| |done|by rewrite Em|by rewrite lookup_insert_eq|done|done].
  exists loaded. rewrite lookup_insert_ne by done. split; [|done]. rewrite <- Hl. apply load_dir_agree; [by rewrite lookup_insert_ne|].
  intros m E n Hin. destruct (H5 m E) as [_ Hs]. eapply Forall_forall in Hs as (s & _ & ->); [|exact Hin].
  apply lookup_insert_ne. intros Ew. symmetry in Ew. revert Ew. by apply segment_name_not.
Qed.

Lemma recoverable_live d d' c : (forall p, live_file p -> d' !! p = d !! p) -> recoverable d c -> recoverable d' c.
Proof.
  intros Hp (Hc & base & ps & torn & rec & dirty & Hh & Hr). split; [done|]. exists base, ps, torn, rec, dirty. split; [|done].
  by eapply holds_live.
Qed.

(** ** Opening *)

Lemma ensure_metadata_present d cfg :
  d !! META = Some (encode_metadata cfg) -> 0 < dimension cfg <= U64_MAX -> reads_as (ensure_metadata cfg) d (Ok tt).
Proof.
  intros Em Hd. unfold ensure_metadata.
  assert (reads_as (let*? bytes := read_file META in
     let*? actual := iolift (decode_metadata bytes) in
     if bool_decide (actual = cfg) then ioret (Ok tt)
     else ioret (Err (InvalidConfig "requested configuration differs from persisted collection"))) d (Ok tt)) as [H1 H2].
  { change (@Ok Error unit tt) with (let? _ := (Ok (encode_metadata cfg) : Result (list byte)) in (Ok tt : Result unit)).
    apply reads_as_try; [pose proof (reads_as_file META d) as Hr; by rewrite Em in Hr|]. intros b [= <-].
    rewrite decode_encode_metadata by done.
    change (@Ok Error unit tt) with (let? _ := (Ok cfg : Result CollectionConfig) in (Ok tt : Result unit)).
    apply reads_as_try; [apply reads_as_ret|]. intros a [= <-]. rewrite bool_decide_eq_true_2 by done. apply reads_as_ret. }
  split.
  - eapply spec_bind; [by apply (spec_exists _ _ _ (fun b d' => b = true /\ d' = d)); rewrite bool_decide_eq_true_2 by (by rewrite Em)|].
    intros b d' [-> ->]. exact H1.
  - unfold iobind, exists_. cbn [disk]. rewrite bool_decide_eq_true_2 by (by rewrite Em). exact H2.
Qed.

Lemma recover_wal_spec d cfg base ps torn rec dirty :
  holds d cfg base ps torn -> replay ps base ∅ = Ok (rec, dirty) ->
  specifies (recover_wal base) d
    (fun r d' => match r with
                 | Ok r => rec_collection r = rec /\ rec_dirty r = dirty /\ holds d' cfg base ps [] /\
                           (forall p, p <> WAL -> d' !! p = d !! p)
                 | Err _ => d' = d
                 | Panic => False
                 end) (fun d' => d' = d).
Proof.
  intros Hh Hr. pose proof (h_wal _ _ _ _ _ Hh) as Ew. unfold recover_wal. eapply spec_try.
  { by eapply (spec_read _ WAL d (log ps ++ torn) (fun r d' => match r with Ok a => a = log ps ++ torn /\ d' = d | Err _ => d' = d | Panic => False end)). }
  intros a d' [-> ->]. rewrite recover_log by apply Hh. rewrite Hr.
  rewrite iotry_ok. cbn [rec_length]. destruct (Z.eqb_spec (zlen (log ps)) (zlen (log ps ++ torn))) as [E|E].
  - apply spec_ret. cbn. split_and!; [done|done| |done]. assert (torn = []) as ->; [|done].
    rewrite zlen_app in E. destruct torn; [done|]. unfold zlen in E. cbn in E. lia.
  - eapply spec_try; [apply (spec_set_len _ WAL _ _ (fun r d' => match r with Ok _ => d' = <[WAL := log ps ++ []]> d | Err _ => d' = d | Panic => False end)); [done|done|]|].
      + cbn. rewrite Ew. cbn. unfold zlen. by rewrite Nat2Z.id, firstn_app, firstn_all, Nat.sub_diag, !app_nil_r.
      + intros _ d' ->. apply spec_ret. cbn. split_and!; [done|done| |intros p Hp; by rewrite lookup_insert_ne].
        eapply holds_wal; [exact Hh|apply Hh|done].
Qed.

(** What opening guarantees: a handle that agrees with the directory, or an
    error that changed nothing that matters. *)
Definition opened (c : Collection) (r : Result PersistentCollection) (d : Dir) : Prop :=
  match r with
  | Ok st => store_ok st d /\ restores c (inner st) /\ recoverable d c
  | Err _ => recoverable d c
  | Panic => False
  end.

Lemma insert_lock (d : Dir) p bytes : live_file p -> <["collection.lock" := bytes]> d !! p = d !! p.
Proof.
  intros Hp. apply lookup_insert_ne. intros <-.
  destruct Hp as [E|[E|[E|(s & _ & E)]]]; [done..|]. symmetry in E. revert E. by apply segment_name_not.
Qed.

Lemma open_tail d c cfg durability cuda base ps torn rec dirty (loaded : option (list IndexSegment * MetadataIndex)) :
  cfg = config c -> coll_ok c -> holds d cfg base ps torn -> replay ps base ∅ = Ok (rec, dirty) -> restores c rec ->
  load_dir avx2 d (MkCollection cfg ∅ 0) = Ok (base, loaded) ->
  specifies (let '(indexes, metadata_index) :=
       match loaded with Some (indexes, metadata) => (indexes, Some metadata) | None => ([], None) end in
     let*? r := recover_wal base in
     let*? _ := sync in
     if bool_decide (cuda = Required)
     then ioret (Err (InvalidConfiguration "CUDA search was requested, but focal-vector was built without --features cuda"))
     else ioret (Ok (MkPersistent (rec_collection r) durability indexes metadata_index (rec_dirty r) cuda)))
    d (opened c) (fun d' => recoverable d' c).
Proof.
  intros -> Hc Hh Hr Hs Hl. assert (recoverable d c) as Hrec by (split; [done|]; by exists base, ps, torn, rec, dirty).
  assert (forall d', holds d' (config c) base ps [] -> recoverable d' c) as Hrec' by (intros; split; [done|]; by exists base, ps, [], rec, dirty).
  set (idx := match loaded with Some (indexes, metadata) => (indexes, Some metadata) | None => ([], None) end).
  destruct idx as [ixs mi] eqn:Ei. eapply spec_try.
  { eapply spec_mono; [by eapply recover_wal_spec| |by intros ? ->]. intros [r|e|] d' Hr'; [exact Hr'|by subst|done]. }
  intros r d' (<- & <- & Hd' & Hwal). apply spec_sync_then; [by apply Hrec'|intros e; by apply Hrec'|].
  case_bool_decide; apply spec_ret; [by apply Hrec'|]. split; [|split; [done|by apply Hrec']].
  destruct (replay_step _ _ _ _ _ Hr) as (_ & _ & Hdirty & _). split; [by eapply restores_coll_ok|]. split.
  - constructor; cbn [metadata_index indexes inner dirty_ids].
    2: { rewrite (rs_config _ _ Hs). subst idx. destruct loaded as [[ixs' mi']|]; [|injection Ei as <- _; constructor].
         injection Ei as <- _. exact (load_dir_indexes _ _ _ _ _ Hl). }
    intros mi0 E. exists base. split; [apply Hh|]. split; [apply Hh|]. split.
    + subst idx. destruct loaded as [[ixs' mi']|]; [|injection Ei as _ <-; done]. injection Ei as _ <-. injection E as <-.
      unfold load_dir in Hl. inv_ok Hl. destruct a as [m|]; [|done]. inv_ok Hl. by injection Hl as <- _ <-.
    + intros id Hid. by rewrite !lookup_contents, Hdirty.
  - exists base, ps, (rec_collection r), (rec_dirty r). cbn. pose proof (rs_config _ _ Hs) as Ec. rewrite Ec.
    split_and!; [done|done|apply restores_refl; by eapply restores_coll_ok| |].
    + intros id Hid. by rewrite !lookup_contents, Hdirty.
    + intros Hne. rewrite Hwal by done. intros Em. destruct (h_load _ _ _ _ _ Hh) as (l' & Hl' & Hm).
      rewrite Hl in Hl'. injection Hl' as <-. apply Hm in Em as ->. subst idx. injection Ei as <- _. done.
Qed.

Lemma new_config_ok c : coll_ok c -> Collection.new (config c) = Ok (MkCollection (config c) ∅ 0).
Proof. intros (Hd & _). unfold Collection.new. rewrite (proj2 (Z.eqb_neq _ _)) by lia. done. Qed.

(** Opening, once the metadata and the log are there. *)
Lemma open_rest d c durability cuda :
  recoverable d c ->
  specifies (
    let*? inner := iolift (Collection.new (config c)) in
    let*? (inner, loaded) := load_current_segments avx2 inner in
    let '(indexes, metadata_index) :=
      match loaded with Some (indexes, metadata) => (indexes, Some metadata) | None => ([], None) end in
    let*? r := recover_wal inner in
    let*? _ := sync in
    if bool_decide (cuda = Required)
    then ioret (Err (InvalidConfiguration "CUDA search was requested, but focal-vector was built without --features cuda"))
    else ioret (Ok (MkPersistent (rec_collection r) durability indexes metadata_index (rec_dirty r) cuda)))
    d (opened c) (fun d' => recoverable d' c).
Proof.
  intros Hrec. pose proof Hrec as (Hc & base & ps & torn & rec & dirty & Hh & Hr & Hs).
  rewrite (new_config_ok c Hc), iotry_ok. destruct (h_load _ _ _ _ _ Hh) as (loaded & Hl & _).
  eapply spec_reads; [apply load_current_dir|done|done|]. rewrite Hl. cbv beta iota. by eapply open_tail.
Qed.

Lemma open_spec d c durability cuda lock :
  recoverable d c -> specifies (open_with_cuda avx2 (config c) durability cuda lock) d (opened c) (fun d' => recoverable d' c).
Proof.
  intros Hrec. unfold open_with_cuda. apply spec_sync_then; [done|done|].
  eapply (spec_try _ _ _ (fun _ d' => recoverable d' c)).
  { apply spec_open_or_create; [done|done|]. intros d' Hd' _. eapply recoverable_live; [|exact Hrec]. intros p Hp. apply Hd'. intros ->.
    destruct Hp as [E|[E|[E|(s & _ & E)]]]; [done..|]. symmetry in E. revert E. by apply segment_name_not. }
  intros _ d' Hd'. clear d Hrec. destruct lock; [|by apply spec_ret..]. rewrite iotry_ok.
  pose proof Hd' as (Hc & base & ps & torn & rec & dirty & Hh & _).
  eapply spec_reads; [apply ensure_metadata_present; apply Hh|done|done|]. cbv beta iota.
  apply spec_open_or_create_then; [done|done|rewrite (h_wal _ _ _ _ _ Hh); done|]. intros _. by apply open_rest.
Qed.

(** Without faults, opening succeeds. *)
Lemma open_succeeds d c durability cuda :
  recoverable d c -> cuda <> Required ->
  exists st d', runs (open_with_cuda avx2 (config c) durability cuda Locked) d (Ok st) d'.
Proof.
  intros (Hc & base & ps & torn & rec & dirty & Hh & Hr & Hs) Hcuda.
  set (d1 := match d !! "collection.lock" with Some _ => d | None => <["collection.lock" := []]> d end).
  assert (forall p, live_file p -> d1 !! p = d !! p) as Hp.
  { intros p Hp. unfold d1. destruct (d !! "collection.lock"); [done|]. by apply insert_lock. }
  pose proof (holds_live _ _ _ _ _ _ Hp Hh) as Hh1.
  assert (runs (open_or_create "collection.lock") d (Ok tt) d1) as Hd1 by apply runs_open_or_create. clearbody d1.
  assert (runs (open_or_create WAL) d1 (Ok tt) d1) as Hd2.
  { pose proof (runs_open_or_create WAL d1) as Hw. by rewrite (h_wal _ _ _ _ _ Hh1) in Hw. }
  assert (exists r d2, runs (recover_wal base) d1 (Ok r) d2) as (r & d2 & Hw).
  { unfold recover_wal. pose proof (h_wal _ _ _ _ _ Hh1) as Ew.
    destruct (Z.eqb_spec (zlen (log ps)) (zlen (log ps ++ torn))) as [E|E].
    - eexists _, _. eapply runs_try; [unfold runs, read_file, effect; cbn [script disk]; by rewrite Ew|].
      rewrite recover_log by apply Hh1. rewrite Hr, iotry_ok. cbn [rec_length]. rewrite (proj2 (Z.eqb_eq _ _) E). done.
    - eexists _, _. eapply runs_try; [unfold runs, read_file, effect; cbn [script disk]; by rewrite Ew|].
      rewrite recover_log by apply Hh1. rewrite Hr, iotry_ok. cbn [rec_length]. rewrite (proj2 (Z.eqb_neq _ _) E).
      eapply runs_try; done. }
  destruct (h_load _ _ _ _ _ Hh1) as (loaded & Hl & _).
  assert (exists st d3, runs (open_with_cuda avx2 (config c) durability cuda Locked) d (Ok st) d3) as (st & d3 & Ho).
  { unfold open_with_cuda. destruct loaded as [[ixs mi]|]; eexists _, _.
    all:
      (eapply runs_try; [done|]); (eapply runs_try; [exact Hd1|]); rewrite iotry_ok;
      (eapply runs_try; [apply ensure_metadata_present; apply Hh1|]);
      (eapply runs_try; [exact Hd2|]); rewrite (new_config_ok c Hc), iotry_ok;
      (eapply runs_try; [unfold runs; rewrite (proj2 (load_current_dir avx2 _ d1)), Hl; done|]); cbv beta iota;
      (eapply runs_try; [exact Hw|]); (eapply runs_try; [done|]); rewrite bool_decide_eq_false_2 by done; done. }
  by exists st, d3.
Qed.

(** ** Appending one record *)

Definition wal_at (d : Dir) (w l : list byte) : Dir := <[WAL := w ++ l]> d.

(** What an append of [payload] that was cut short may leave: any prefix. *)
Definition partly (d : Dir) (w payload : list byte) (d' : Dir) : Prop :=
  exists l, l `prefix_of` frame payload /\ d' = wal_at d w l.

Lemma partly_at d w payload pre bytes post n :
  frame payload = pre ++ bytes ++ post -> partly d w payload (appended WAL (firstn n bytes) (wal_at d w pre)).
Proof.
  intros E. exists (pre ++ firstn n bytes). split.
  - exists (skipn n bytes ++ post). by rewrite E, <- app_assoc, (app_assoc (firstn n bytes)), firstn_skipn.
  - unfold appended, wal_at. rewrite lookup_insert_eq, insert_insert_eq. cbn. by rewrite <- app_assoc.
Qed.

Lemma appended_at d w pre bytes : appended WAL bytes (wal_at d w pre) = wal_at d w (pre ++ bytes).
Proof. unfold appended, wal_at. rewrite lookup_insert_eq, insert_insert_eq. cbn. by rewrite <- app_assoc. Qed.

Lemma append_frame_spec d durability payload w :
  d !! WAL = Some w -> zlen payload <= MAX_FRAME_BYTES ->
  specifies (append_frame durability payload) d
    (fun r d' => match r with
                 | Ok _ => d' = wal_at d w (frame payload)
                 | Err _ => partly d w payload d'
                 | Panic => False
                 end) (partly d w payload).
Proof.
  intros Ew Hlen. unfold append_frame. rewrite (proj2 (Z.ltb_ge _ _)) by (unfold MAX_FRAME_BYTES, U32_MAX in *; lia).
  assert (wal_at d w [] = d) as E0 by (unfold wal_at; rewrite app_nil_r; by apply insert_id).
  assert (partly d w payload d) as Hd by (exists []; split; [apply prefix_nil|done]).
  set (q := fun (r : Result unit) d' => match r with
     | Ok _ => d' = wal_at d w (frame payload) | Err _ => partly d w payload d' | Panic => False end).
  apply spec_file_len_then; [done|done|]. rewrite Ew. cbn [default from_option id].
  eapply (spec_bind _ _ _ q).
  - rewrite <- E0 at 1. apply spec_append_then.
    { intros n. by eapply partly_at. }
    { intros e n. by eapply partly_at. }
    rewrite appended_at. cbn [app]. apply spec_append_then.
    { intros n. by eapply partly_at. }
    { intros e n. by eapply partly_at. }
    rewrite appended_at. apply spec_append_then.
    { intros n. eapply partly_at. unfold frame. by rewrite <- app_assoc. }
    { intros e n. eapply partly_at. unfold frame. by rewrite <- app_assoc. }
    rewrite appended_at. apply spec_append_then.
    { intros n. eapply partly_at. unfold frame. rewrite app_nil_r. by rewrite <- !app_assoc. }
    { intros e n. eapply partly_at. unfold frame. rewrite app_nil_r. by rewrite <- !app_assoc. }
    rewrite appended_at, <- !app_assoc. fold (frame payload).
    assert (partly d w payload (wal_at d w (frame payload))) as Hfull by (by exists (frame payload)).
    destruct durability; [apply spec_sync; done|by apply spec_ret].
  - intros [[]|e|] d' Hq; [by apply spec_ret| |done]. destruct Hq as (l & Hl & ->).
    assert (partly d w payload (wal_at d w l)) as Hl' by (by exists l).
    eapply (spec_bind _ _ _ (fun _ => partly d w payload)).
    + apply spec_ignore, spec_set_len; [done..|]. unfold wal_at. rewrite lookup_insert_eq, insert_insert_eq. cbn.
      unfold zlen. rewrite Nat2Z.id, firstn_app, firstn_all, Nat.sub_diag, app_nil_r, insert_id by done. done.
    + intros _ d' Hd'. eapply (spec_bind _ _ _ (fun _ => partly d w payload)); [by apply spec_ignore, spec_sync|].
      intros _ d'' Hd''. by apply spec_ret.
Qed.

(** ** One logged write *)

(** The record [payload] takes [c] to [c'], changing only [ids], and does the
    same to every recovered copy of [c]. *)
Record logs (c : Collection) (payload : list byte) (ids : list string) (c' : Collection) : Prop := {
  lg_size : zlen payload <= MAX_FRAME_BYTES;
  lg_ok : coll_ok c';
  lg_config : config c' = config c;
  lg_frame : forall id, id ∉ ids -> contents c' !! id = contents c !! id;
  lg_replay : forall rec, restores c rec -> exists ids' rec', apply_payload rec payload = (Ok ids', rec') /\ restores c' rec'
}.

Lemma log_snoc ps p : log (ps ++ [p]) = log ps ++ frame p.
Proof. unfold log. rewrite map_app, concat_app. cbn. by rewrite app_nil_r. Qed.

(** The directory with the whole record holds the new collection, under the
    updated handle; with part of it, the old one. *)
Lemma store_ok_logged st d payload ids c' :
  store_ok st d -> logs (inner st) payload ids c' ->
  exists w, d !! WAL = Some w /\ store_ok (with_inner st c' ids) (wal_at d w (frame payload)) /\
    forall d', partly d w payload d' -> recoverable d' (inner st) \/ recoverable d' c'.
Proof.
  intros (Hc & Hi & base & ps & rec & dirty & Hh & Hr & Hs & Hout & Hidx) [L1 L2 L3 L4 L5].
  destruct (L5 rec Hs) as (ids' & rec' & Hp & Hs'). pose proof (h_wal _ _ _ _ _ Hh) as Ew. rewrite app_nil_r in Ew.
  assert (forall torn, (forall valid c dirty, recover_step torn valid c dirty = Ok None) ->
    holds (wal_at d (log ps) torn) (config (inner st)) base ps torn) as Htorn.
  { intros torn Ht. eapply holds_wal; [exact Hh|apply Hh|done]. }
  assert (holds (wal_at d (log ps) (frame payload)) (config c') base (ps ++ [payload]) []) as Hfull.
  { unfold wal_at. rewrite L3, <- log_snoc, <- (app_nil_r (log (ps ++ [payload]))).
    eapply holds_wal; [exact Hh| |done]. apply Forall_app. split; [apply Hh|]. by constructor. }
  assert (replay (ps ++ [payload]) base ∅ = Ok (rec', dirty ∪ list_to_set ids')) as Hr'.
  { rewrite replay_app, Hr. cbn [replay]. by rewrite Hp. }
  exists (log ps). split; [done|]. split.
  - split; [done|]. split.
    + constructor; [|cbn; rewrite L3; apply Hi]. intros mi E. destruct (ic_metadata _ Hi mi E) as (c0 & H1 & H2 & H3 & H4).
      exists c0. split; [done|]. split; [done|]. split; [done|]. cbn.
      intros id Hid. rewrite H4 by set_solver. symmetry. apply L4. set_solver.
    + exists base, (ps ++ [payload]), rec', (dirty ∪ list_to_set ids'). cbn. split_and!; [done|done|done| |].
      * intros id Hid. rewrite Hout by set_solver. symmetry. apply L4. set_solver.
      * intros Hne. unfold wal_at. rewrite lookup_insert_ne by done. by apply Hidx.
  - intros d' (l & [k E] & ->). destruct (decide (k = [])) as [->|Hk].
    + right. rewrite app_nil_r in E. subst l. split; [done|]. by exists base, (ps ++ [payload]), [], rec', (dirty ∪ list_to_set ids').
    + left. split; [done|]. exists base, ps, l, rec, dirty. split; [|done]. apply Htorn.
      assert (l = firstn (length l) (frame payload)) as -> by (by rewrite E, firstn_app, firstn_all, Nat.sub_diag, app_nil_r).
      intros valid c0 dirty0. apply recover_step_torn; [done|]. rewrite E, length_app. destruct k; [done|]. cbn. lia.
Qed.

(** The outcome of a write that takes the collection to [c'] by logging
    [payload] in the directory [d0]. *)
Definition written_outcome (st : PersistentCollection) (d0 : Dir) (payload : list byte) (ids : list string) (sequence : Z)
    (c' : Collection) (r : Result Z * PersistentCollection) (d : Dir) : Prop :=
  match r.1 with
  | Ok s => s = sequence /\ r.2 = with_inner st c' ids /\ store_ok r.2 d /\ exists w, d0 !! WAL = Some w /\ d = wal_at d0 w (frame payload)
  | Err _ => r.2 = st /\ (recoverable d (inner st) \/ recoverable d c')
  | Panic => False
  end.

Lemma logged_spec st d payload ids c' sequence :
  store_ok st d -> logs (inner st) payload ids c' ->
  specifies (logged st sequence payload (with_inner st c' ids)) d (written_outcome st d payload ids sequence c')
    (fun d' => recoverable d' (inner st) \/ recoverable d' c').
Proof.
  intros Hst Hl. destruct (store_ok_logged _ _ _ _ _ Hst Hl) as (w & Ew & Hok & Hpart). unfold logged.
  eapply spec_bind.
  - eapply spec_mono; [apply (append_frame_spec d (durability st) payload w Ew); apply Hl| |exact Hpart].
    intros r d' Hr. exact Hr.
  - intros [[]|e|] d' Hr; apply spec_ret; unfold written_outcome; cbn [fst snd]; [|by auto|done].
    subst d'. split_and!; [done..|]. by exists w.
Qed.

(** ** Upserts and deletions *)

(** A batch the log can hold: its prepared points are accepted by the decoder
    and by a second preparation, and the record fits a frame. *)
Definition recordable (c : Collection) (us : list UpsertPoint) : Prop :=
  exists ps bs, prepare_upsert c us (sequence c + 1) = Ok ps /\ zlen ps <= MAX_ITEMS /\
    Forall (point_storable (config c)) ps /\ is_ok (prepare_upsert c (map as_upsert ps) (sequence c + 1)) = true /\
    encode_upsert (sequence c + 1) ps = Ok bs /\ zlen bs <= MAX_FRAME_BYTES.

Lemma upsert_logs c us :
  coll_ok c -> sequence c < U64_MAX -> recordable c us ->
  exists ps bs, prepare_upsert c us (sequence c + 1) = Ok ps /\ encode_upsert (sequence c + 1) ps = Ok bs /\
    logs c bs (map sp_id ps) (apply_prepared_upsert c ps (sequence c + 1)).
Proof.
  intros Hc Hseq (ps & bs & Hp & Hn & Hst & Hp2 & He & Hb). exists ps, bs. split; [done|]. split; [done|].
  destruct Hc as (Hd & [H0 H1] & Hpts). pose proof Hp as [_ Hps]%prepare_upsert_ok.
  destruct (prepare_upsert c (map as_upsert ps) (sequence c + 1)) as [ps2| |] eqn:Ep2; [|done..].
  pose proof Ep2 as [_ Hps2]%prepare_upsert_ok. constructor; [done| |done| |].
  - apply apply_prepared_upsert_ok; [by split_and!|lia|]. by eapply prepared_points_ok.
  - intros id Hid. rewrite !lookup_contents. cbn. rewrite fold_insert_lookup.
    by rewrite (proj2 (last_with_None id ps)).
  - intros rec [Ec Es Hr]. exists (map sp_id ps), (apply_prepared_upsert rec ps2 (sequence c + 1)). split.
    + rewrite <- Es. apply apply_payload_upsert; try (rewrite ?Es, ?Ec; done || lia).
      * unfold MAX_FRAME_BYTES, USIZE_MAX, U64_MAX in *. lia.
      * unfold prepare_upsert in *. by rewrite Es, Ec.
    + apply restores_upsert; [by constructor|done|]. clear -Hps. apply Forall_forall. intros p Hin.
      apply list_elem_of_lookup in Hin as [i Hi]. destruct (Forall2_lookup_r _ _ _ _ _ Hps Hi) as (u & _ & (v & _ & -> & _)). done.
Qed.

Lemma delete_logs c ids bs :
  coll_ok c -> sequence c < U64_MAX -> 0 < zlen ids <= MAX_ITEMS -> Forall str_wf ids ->
  encode_delete (sequence c + 1) ids = Ok bs -> zlen bs <= MAX_FRAME_BYTES ->
  logs c bs ids (apply_delete_at c ids (sequence c + 1)).
Proof.
  intros Hc Hseq Hn Hwf He Hb. pose proof Hc as (Hd & [H0 H1] & Hpts). constructor; [done| |done| |].
  - apply apply_delete_at_ok; [done|lia].
  - intros id Hid. rewrite !lookup_contents. cbn. by rewrite fold_delete_lookup, decide_False.
  - intros rec Hrec. pose proof Hrec as [Ec Es _]. exists ids, (apply_delete_at rec ids (sequence c + 1)). split; [|by apply restores_delete].
    rewrite <- Es. apply apply_payload_delete; rewrite ?Es; try done; try lia.
    unfold MAX_FRAME_BYTES, USIZE_MAX, U64_MAX in *. lia.
Qed.

(** ** What a restart finds *)

(** Opening the directory, without further faults, gives back [c]. *)
Definition reopens (d : Dir) (c : Collection) : Prop :=
  forall durability, exists st w,
    open_with_cuda avx2 (config c) durability Disabled Locked (MkWorld d []) = Returned (Ok st) w /\
    restores c (inner st) /\ store_ok st (disk w).

Lemma recoverable_reopens d c : recoverable d c -> reopens d c.
Proof.
  intros Hr durability. destruct (open_succeeds d c durability Disabled Hr ltac:(done)) as (st & w & E).
  exists st, (MkWorld w []). split; [done|]. pose proof (open_spec d c durability Disabled Locked Hr []) as Hs. rewrite E in Hs.
  by destruct Hs as (H1 & H2 & _).
Qed.

Definition is_upserted (c : Collection) (us : list UpsertPoint) (c' : Collection) : Prop :=
  config c' = config c /\ sequence c' = sequence c + 1 /\
  forall id, contents c' !! id = upserted (config c) (sequence c + 1) us (contents c) id.

Definition is_deleted (c : Collection) (ids : list string) (c' : Collection) : Prop :=
  config c' = config c /\ sequence c' = sequence c + 1 /\
  forall id, contents c' !! id = if decide (id ∈ ids) then None else contents c !! id.

(** A write under any faults: acknowledged, it is there after a restart;
    refused, the handle is as before and a restart finds the old or the new
    collection; cut short by a crash, likewise. *)
Definition survives (is_new : Collection -> Prop) (st : PersistentCollection)
    (outcome : Outcome (Result Z * PersistentCollection)) : Prop :=
  match outcome with
  | Returned (Ok s, st') w => s = sequence (inner st) + 1 /\ is_new (inner st') /\ store_ok st' (disk w) /\
                              reopens (disk w) (inner st')
  | Returned (Err _, st') w => st' = st /\ (reopens (disk w) (inner st) \/ exists c', is_new c' /\ reopens (disk w) c')
  | Returned (Panic, _) _ => False
  | Crashed d' => reopens d' (inner st) \/ exists c', is_new c' /\ reopens d' c'
  end.

Lemma next_sequence_small c : sequence c < U64_MAX -> next_sequence c = Ok (sequence c + 1).
Proof. intros Hs. apply next_sequence_ok. split; [done|lia]. Qed.

(** A write is one logged record. *)
Definition is_logged (st : PersistentCollection) (is_new : Collection -> Prop) (m : io (Result Z * PersistentCollection)) : Prop :=
  exists payload ids c', m = logged st (sequence (inner st) + 1) payload (with_inner st c' ids) /\
    logs (inner st) payload ids c' /\ is_new c'.

Lemma upsert_logged st us :
  coll_ok (inner st) -> sequence (inner st) < U64_MAX -> recordable (inner st) us ->
  is_logged st (is_upserted (inner st) us) (upsert st us).
Proof.
  intros Hc Hseq Hrec. destruct (upsert_logs _ us Hc Hseq Hrec) as (ps & bs & Hp & He & Hl).
  exists bs, (map sp_id ps), (apply_prepared_upsert (inner st) ps (sequence (inner st) + 1)). split_and!; [|done|].
  - unfold upsert. rewrite next_sequence_small by done. cbn [rbind]. rewrite Hp. cbn [rbind]. by rewrite He.
  - apply prepare_upsert_ok in Hp as [_ Hps]. split_and!; [done|done|]. intros id. by apply apply_prepared_contents.
Qed.

(** A deletion the log can hold. *)
Definition deletable (c : Collection) (ids : list string) : Prop :=
  0 < zlen ids <= MAX_ITEMS /\ "" ∉ ids /\ Forall str_wf ids /\
  forall bs, encode_delete (sequence c + 1) ids = Ok bs -> zlen bs <= MAX_FRAME_BYTES.

Lemma delete_logged st ids :
  coll_ok (inner st) -> sequence (inner st) < U64_MAX -> deletable (inner st) ids ->
  is_logged st (is_deleted (inner st) ids) (delete st ids).
Proof.
  intros Hc Hseq (Hn & He & Hwf & Hb).
  assert (exists bs, encode_delete (sequence (inner st) + 1) ids = Ok bs) as (bs & Ebs).
  { unfold encode_delete. rewrite put_count_small by lia. cbn [rbind]. unfold put_each.
    assert (mapM_result put_string ids = Ok (map (fun s => le_bytes 4 (str_len s) ++ bytes_of_string s) ids)) as ->; [|by eexists].
    apply mapM_result_ok, Forall2_fmap_r, Forall_Forall2_diag. eapply Forall_impl; [exact Hwf|]. intros x Hx. by apply put_string_wf. }
  exists bs, ids, (apply_delete_at (inner st) ids (sequence (inner st) + 1)). split_and!; [|by apply delete_logs; auto|].
  - unfold delete. rewrite bool_decide_eq_false_2 by (intros ->; unfold zlen in Hn; cbn in Hn; lia).
    assert (existsb (fun id => bool_decide (id = "")) ids = false) as ->.
    { apply not_true_iff_false. intros (x & Hx & E)%existsb_exists. apply bool_decide_eq_true in E as ->. by apply list_elem_of_In in Hx. }
    rewrite next_sequence_small by done. cbn [rbind]. by rewrite Ebs.
  - split_and!; [done|done|]. intros id. rewrite !lookup_contents. cbn. rewrite fold_delete_lookup. by case_decide.
Qed.

Lemma written_survives (is_new : Collection -> Prop) st d s (m : io (Result Z * PersistentCollection)) :
  store_ok st d -> is_logged st is_new m -> survives is_new st (m (MkWorld d s)).
Proof.
  intros Hst (payload & ids & c' & -> & Hl & Hn). pose proof (logged_spec st d payload ids c' (sequence (inner st) + 1) Hst Hl s) as Hm.
  unfold survives. destruct (logged _ _ _ _ _) as [[[n|e|] st'] w|d']; unfold written_outcome in Hm; cbn [fst snd] in Hm.
  - destruct Hm as (-> & -> & Hok & _). split_and!; [done|done|done|]. by apply recoverable_reopens, store_ok_recoverable.
  - destruct Hm as (-> & [Hr|Hr]); (split; [done|]); [left; by apply recoverable_reopens|right; exists c'; split; [done|by apply recoverable_reopens]].
  - done.
  - destruct Hm as [Hr|Hr]; [left; by apply recoverable_reopens|right; exists c'; split; [done|by apply recoverable_reopens]].
Qed.

(** C1 (upsert_survives). Upserts are durable and atomic under every placement
    of I/O errors and of a crash: an acknowledged batch is the next sequence,
    is visible, and is what a restart finds; a failed one leaves the handle
    untouched; and after a failure or a crash at any system call, with any
    prefix of the interrupted write on disk, a restart succeeds and finds
    either the old contents or the whole batch. *)
Theorem upsert_survives st us d s :
  store_ok st d -> sequence (inner st) < U64_MAX -> recordable (inner st) us ->
  survives (is_upserted (inner st) us) st (upsert st us (MkWorld d s)).
Proof. intros Hst Hseq Hrec. by apply written_survives, upsert_logged; [|apply Hst|..]. Qed.

(** C3 (delete_survives). Deletions are durable and atomic in the same sense. *)
Theorem delete_survives st ids d s :
  store_ok st d -> sequence (inner st) < U64_MAX -> 0 < zlen ids <= MAX_ITEMS -> "" ∉ ids -> Forall str_wf ids ->
  (forall bs, encode_delete (sequence (inner st) + 1) ids = Ok bs -> zlen bs <= MAX_FRAME_BYTES) ->
  survives (is_deleted (inner st) ids) st (delete st ids (MkWorld d s)).
Proof. intros Hst Hseq Hn He Hwf Hb. by apply written_survives, delete_logged; [|apply Hst|..]. Qed.

End Durability.

(** ** A collection's directory *)

(** The directory of a collection just created, and its handle. *)
Definition demo_dir : Dir := <[META := encode_metadata demo_config]> (<[WAL := []]> (<["collection.lock" := []]> ∅)).
Definition demo_store : PersistentCollection := MkPersistent demo_empty Sync [] None ∅ Disabled.

Lemma demo_created :
  @open_with_cuda x86_64_env true demo_config Sync Disabled Locked (MkWorld ∅ []) = Returned (Ok demo_store) (MkWorld demo_dir []).
Proof. vm_compute. reflexivity. Qed.

Lemma demo_holds : @holds x86_64_env true demo_dir demo_config demo_empty [] [].
Proof.
  constructor; [vm_compute; split; [reflexivity|discriminate]|reflexivity| |
    split; [apply demo_empty_ok|apply (bool_decide_unpack _); vm_compute; exact I]| |reflexivity|constructor|done].
  - exists None. split; [vm_compute; reflexivity|]. split; [|done]. intros _. vm_compute. reflexivity.
  - intros m E. vm_compute in E. discriminate E.
Qed.

Lemma demo_store_ok : @store_ok x86_64_env true demo_store demo_dir.
Proof.
  split; [apply demo_empty_ok|]. split; [by constructor; [|constructor]|]. exists demo_empty, [], demo_empty, ∅.
  split; [apply demo_holds|]. split; [done|]. split; [apply restores_refl, demo_empty_ok|]. by split.
Qed.

Lemma demo_recordable : @recordable x86_64_env demo_empty demo_batch.
Proof.
  eexists _, _. split; [vm_compute; reflexivity|]. split; [vm_compute; discriminate|].
  split; [apply (bool_decide_unpack _); vm_compute; exact I|]. split; [vm_compute; reflexivity|].
  split; [vm_compute; reflexivity|vm_compute; discriminate].
Qed.

(** The crash strikes while the payload is written, after seven bytes. *)
Lemma upsert_survives_witness :
  match @upsert x86_64_env demo_store demo_batch (MkWorld demo_dir [Proceed; Proceed; Proceed; Crashes 7]) with
  | Crashed d' => @reopens x86_64_env true d' demo_empty \/
                  exists c', @is_upserted x86_64_env demo_empty demo_batch c' /\ @reopens x86_64_env true d' c'
  | _ => False
  end.
Proof.
  pose proof (@upsert_survives x86_64_env true demo_store demo_batch demo_dir [Proceed; Proceed; Proceed; Crashes 7]
    demo_store_ok ltac:(reflexivity) demo_recordable) as Hs.
  assert (match @upsert x86_64_env demo_store demo_batch (MkWorld demo_dir [Proceed; Proceed; Proceed; Crashes 7]) with
    Crashed _ => true | _ => false end = true) as Hc by (vm_compute; reflexivity).
  destruct (upsert _ _ _); [discriminate Hc|]. exact Hs.
Defined.

Lemma delete_survives_witness :
  @survives x86_64_env true (is_deleted demo_empty ["a"]) demo_store (delete demo_store ["a"] (MkWorld demo_dir [Proceed; Fails "disk full" 0])).
Proof.
  apply (@delete_survives x86_64_env true demo_store ["a"]); [apply demo_store_ok|reflexivity|split; [reflexivity|discriminate]| | |].
  - apply (bool_decide_unpack _). vm_compute. exact I.
  - apply (bool_decide_unpack _). vm_compute. exact I.
  - intros bs E. vm_compute in E. apply Ok_inj in E as <-. vm_compute. discriminate.
Defined.


(** The same collection after its first batch, not yet flushed. *)
Definition demo_written : Result Z * PersistentCollection * Dir :=
  match @upsert x86_64_env demo_store demo_batch (MkWorld demo_dir []) with
  | Returned (r, st) w => (r, st, disk w)
  | Crashed d => (Panic, demo_store, d)
  end.
Definition demo_store1 : PersistentCollection := demo_written.1.2.
Definition demo_dir1 : Dir := demo_written.2.

Lemma demo_store1_ok : @store_ok x86_64_env true demo_store1 demo_dir1.
Proof.
  pose proof (@written_survives x86_64_env true _ demo_store demo_dir [] _ demo_store_ok
    (@upsert_logged x86_64_env demo_store demo_batch (proj1 demo_store_ok) ltac:(reflexivity) demo_recordable)) as Hs.
  unfold demo_store1, demo_dir1, demo_written.
  assert (match @upsert x86_64_env demo_store demo_batch (MkWorld demo_dir []) with Returned (Ok _, _) _ => true | _ => false end = true) as Hok
    by (vm_compute; reflexivity).
  destruct (upsert _ _ _) as [[[n|e|] st] w|d]; [|discriminate Hok..]. by destruct Hs as (_ & _ & Hst & _).
Qed.
