(* ===== verification/FlushFacts.v ===== *)
(** * FlushFacts: a flush changes what is on disk, never what it holds

    The pure part first - a manifest that lists one more segment, and what the
    segment of a snapshot does to the segments below it - then the flush under
    every placement of I/O errors and of a crash. *)

From stdpp Require Import base gmap sets list strings sorting.
From Stdlib Require Import ZArith Lia.
From S2P Require Import Prelude Errors Floats Ranking Metric Filter MetadataIndex Quantize.
From S2P Require Hnsw.
From S2P Require Import Collection CollectionFacts Codec Wire WireFacts Wal Disk DiskFacts Segment SegmentFacts.
From S2P Require Import SegmentRoundtrip Manifest ManifestFacts Persistence Recovery Durability.

(** ** One more segment in the manifest *)

Lemma enumerate_snoc {A} (l : list A) (x : A) : Hnsw.enumerate (l ++ [x]) = Hnsw.enumerate l ++ [(zlen l, x)].
Proof. unfold Hnsw.enumerate. rewrite imap_app. cbn. by rewrite Nat.add_0_r. Qed.

Lemma elem_of_enumerate {A} (l : list A) e : e ∈ Hnsw.enumerate l -> 0 <= e.1 < zlen l /\ e.2 ∈ l.
Proof.
  unfold Hnsw.enumerate. intros (i & x & -> & Hx)%elem_of_lookup_imap. cbn. split; [|by eapply list_elem_of_lookup_2].
  apply lookup_lt_Some in Hx. unfold zlen. lia.
Qed.

Section Extend.
Context `{FloatEnv} (avx2 : bool).

(** The check that only the last entry of a manifest undergoes is the one that
    a longer manifest does not repeat. *)
Lemma check_segment_longer m m' cfg prev pos decoded :
  pos + 1 <= zlen (man_segments m) < zlen (man_segments m') ->
  check_segment m cfg prev pos decoded = Ok tt -> check_segment m' cfg prev pos decoded = Ok tt.
Proof.
  intros Hp. unfold check_segment. do 3 (destruct (_ : bool); [done|]).
  rewrite (proj2 (Z.eqb_neq (pos + 1) (zlen (man_segments m')))) by lia. done.
Qed.

Lemma load_segment_longer d m m' st e st' :
  e.1 + 1 <= zlen (man_segments m) < zlen (man_segments m') ->
  load_segment_dir avx2 d m st e = Ok st' -> load_segment_dir avx2 d m' st e = Ok st'.
Proof.
  destruct e as [i n]. cbn [fst]. intros Hp. unfold load_segment_dir, load_decoded. intros Hl.
  inv_ok Hl. rewrite Hok. cbn [rbind]. destruct (_ =? 0); [done|]. inv_ok Hl. rewrite Hok0. cbn [rbind].
  inv_ok Hl. destruct a1. rewrite (check_segment_longer m m') by done. cbn [rbind]. exact Hl.
Qed.

Lemma load_names_longer d m name seq st0 st :
  load_names avx2 d m st0 = Ok st ->
  load_names avx2 d (MkManifest seq (man_segments m ++ [name])) st0 =
    load_segment_dir avx2 d (MkManifest seq (man_segments m ++ [name])) st (zlen (man_segments m), name).
Proof.
  intros Hl. unfold load_names. cbn [man_segments]. rewrite enumerate_snoc, foldM_result_app.
  set (m' := MkManifest seq (man_segments m ++ [name])).
  assert (foldM_result (load_segment_dir avx2 d m') st0 (Hnsw.enumerate (man_segments m)) = Ok st) as ->.
  - unfold load_names in Hl. assert (forall e, e ∈ Hnsw.enumerate (man_segments m) -> e.1 + 1 <= zlen (man_segments m) < zlen (man_segments m')) as He.
    { intros e [[_ He] _]%elem_of_enumerate. cbn. rewrite zlen_app, zlen_cons. unfold zlen at 4. cbn. lia. }
    revert st0 Hl He. generalize (Hnsw.enumerate (man_segments m)) as l. induction l as [|e l IH]; intros st0; cbn [foldM_result]; [done|].
    intros Hl He. inv_ok Hl. rewrite (load_segment_longer d m m' st0 e a) by (done || apply He; left). cbn [rbind].
    apply IH; [done|]. intros e' Hin. apply He. by right.
  - cbn [rbind foldM_result]. by destruct (load_segment_dir _ _ _ _ _).
Qed.

(** The last loaded segment is the manifest's. *)
Lemma load_names_previous d m st0 st :
  man_segments m <> [] -> load_names avx2 d m st0 = Ok st -> l_previous st = man_sequence m.
Proof.
  intros Hne. destruct (exists_last Hne) as (l & n & E). unfold load_names. rewrite E, enumerate_snoc, foldM_result_app.
  intros Hl. inv_ok Hl. cbn [foldM_result] in Hl. inv_ok Hl. injection Hl as <-. unfold load_segment_dir in Hok0.
  inv_ok Hok0. destruct (_ =? 0) in Hok0; [done|]. inv_ok Hok0. unfold load_decoded in Hok0. inv_ok Hok0. inv_ok Hok0.
  injection Hok0 as <-. cbn. destruct a3. unfold check_segment in Hok3. do 3 (destruct (_ : bool) in Hok3; [done|]).
  rewrite E, zlen_app in Hok3. unfold zlen at 2 3 in Hok3. cbn in Hok3. rewrite Z.eqb_refl in Hok3. cbn in Hok3.
  destruct (Z.eqb_spec (seg_sequence a2) (man_sequence m)); [done|done].
Qed.

Lemma load_names_config d m st0 st :
  load_names avx2 d m st0 = Ok st -> config (l_collection st) = config (l_collection st0).
Proof.
  unfold load_names. revert st0. induction (Hnsw.enumerate (man_segments m)) as [|e l IH]; intros st0; cbn [foldM_result]; [by intros [= <-]|].
  intros Hf. inv_ok Hf. rewrite (IH _ Hf). by eapply load_segment_config.
Qed.
End Extend.

(** ** What a segment's points do to a collection *)

(** [l] lists the points of [m] at the identifiers in [sel], each once. *)
Definition lists (m : gmap string Point) (sel : string -> Prop) (l : list StoredPoint) : Prop :=
  NoDup (map sp_id l) /\ (forall p, p ∈ l -> sel (sp_id p) /\ m !! sp_id p = Some (to_owned_point p)) /\
  (forall id q, sel id -> m !! id = Some q -> id ∈ map sp_id l).

Lemma lists_owned m sel l l' : map to_owned_point l' = map to_owned_point l -> lists m sel l -> lists m sel l'.
Proof.
  intros E (Hn & Hin & Hall). assert (map sp_id l' = map sp_id l) as Ei by (by rewrite !map_sp_id_owned, E).
  split; [by rewrite Ei|]. split; [|intros id q Hs Hq; rewrite Ei; by eapply Hall].
  intros p Hp. assert (to_owned_point p ∈ map to_owned_point l) as (q & Eq & Hq)%list_elem_of_fmap.
  { rewrite <- E. by apply list_elem_of_fmap_2. }
  destruct (Hin q Hq) as [H1 H2]. injection Eq as E1 E2 E3 E4. unfold to_owned_point. rewrite E1, E2, E3, E4. done.
Qed.

Lemma contents_upsert_in m sel l c seq id q :
  lists m sel l -> sel id -> m !! id = Some q -> contents (apply_prepared_upsert c l seq) !! id = Some q.
Proof.
  intros (Hn & Hin & Hall) Hs Hq. destruct (list_elem_of_fmap_1 _ _ _ (Hall id q Hs Hq)) as (p & -> & Hp).
  rewrite lookup_contents. cbn. rewrite fold_insert_lookup, last_with_NoDup by done. cbn.
  destruct (Hin p Hp) as [_ E]. congruence.
Qed.

Lemma contents_upsert_out m sel l c seq id :
  lists m sel l -> (sel id -> m !! id = None) -> contents (apply_prepared_upsert c l seq) !! id = contents c !! id.
Proof.
  intros (Hn & Hin & Hall) Hs. rewrite !lookup_contents. cbn. rewrite fold_insert_lookup.
  rewrite (proj2 (last_with_None id l)); [done|]. intros (p & -> & Hp)%list_elem_of_fmap.
  destruct (Hin p Hp) as [H1 H2]. rewrite (Hs H1) in H2. done.
Qed.

Definition views_ok (c : Collection) : Prop := map_Forall (fun _ p => view_ok p) (points c).

Lemma coll_ok_views c : coll_ok c -> views_ok c.
Proof. intros (_ & _ & Hp) id p E. by destruct (Hp id p E) as (_ & _ & _ & _ & ?). Qed.

Lemma coll_ok_contents c c' :
  coll_ok c -> config c' = config c -> sequence c' = sequence c -> contents c' = contents c -> views_ok c' -> coll_ok c'.
Proof.
  intros (Hd & Hs & Hp) Ec Es E Hv. unfold coll_ok. rewrite Ec, Es. split_and!; [done|lia|lia|]. intros id q Eq.
  assert (contents c !! id = Some (to_owned_point q)) as E'.
  { rewrite <- E, lookup_contents, Eq. done. }
  rewrite lookup_contents in E'. apply fmap_Some in E' as (p & Hpq & Epq).
  destruct (Hp id p Hpq) as (H1 & H2 & H3 & H4 & _). injection Epq as E1 E2 E3 E4.
  split_and!; [congruence|done|congruence|congruence|by eapply Hv].
Qed.

Lemma views_upsert c l seq : views_ok c -> Forall view_ok l -> views_ok (apply_prepared_upsert c l seq).
Proof.
  intros Hc Hl id p. cbn. rewrite fold_insert_lookup. destruct (last_with id l) as [q|] eqn:E; [|apply Hc].
  intros [= <-]. apply last_with_Some in E as [Hin _]. by eapply Forall_forall in Hl.
Qed.

Lemma views_delete c ids seq : views_ok c -> views_ok (apply_delete_at c ids seq).
Proof. intros Hc id p. cbn. rewrite fold_delete_lookup. case_decide; [done|apply Hc]. Qed.

Lemma views_segment l : Forall (fun p => sp_public_view p = None) l -> Forall view_ok l.
Proof. intros Hl. eapply Forall_impl; [exact Hl|]. intros p E v. by rewrite E. Qed.

(** The segment of a full snapshot of [c]. *)
Lemma apply_full c c0 decoded :
  coll_ok c -> seg_full decoded = true -> seg_sequence decoded = sequence c -> config c0 = config c ->
  lists (contents c) (fun _ => True) (seg_points decoded) -> Forall (fun p => sp_public_view p = None) (seg_points decoded) ->
  exists c', apply_segment c0 decoded = Ok c' /\ coll_ok c' /\ config c' = config c /\ sequence c' = sequence c /\ contents c' = contents c.
Proof.
  intros Hc Hf Hs Ec Hl Hv. pose proof Hl as (Hn & Hin & Hall). unfold apply_segment. rewrite Hf, Hs.
  rewrite restore_stored_ok; [|done|].
  2: { apply Forall_forall. intros p Hp. destruct (Hin p Hp) as [_ E]. rewrite lookup_contents in E.
       apply fmap_Some in E as (p0 & E0 & E1). destruct Hc as (_ & _ & Hc). destruct (Hc _ _ E0) as (_ & _ & _ & ? & _).
       injection E1 as _ _ _ ->. done. }
  set (c' := apply_prepared_upsert (MkCollection (config c) ∅ 0) (seg_points decoded) (sequence c)).
  assert (MkCollection (config c0) (fold_left (fun m p => <[sp_id p:=p]> m) (seg_points decoded) ∅) (sequence c) = c') as -> by (by rewrite Ec).
  exists c'. assert (contents c' = contents c) as E.
  { apply map_eq. intros id. destruct (contents c !! id) as [q|] eqn:Eq; [by eapply contents_upsert_in|].
    unfold c'. erewrite contents_upsert_out; [|exact Hl|done]. rewrite lookup_contents. done. }
  split; [done|]. split; [|done]. eapply coll_ok_contents; [done..|]. apply views_upsert; [|by apply views_segment].
  intros id p Ep. done.
Qed.

(** The delta of [c] above [base], which agrees with it outside [dirty]. *)
Lemma apply_delta c base (dirty : gset string) decoded :
  coll_ok c -> coll_ok base -> seg_full decoded = false -> seg_sequence decoded = sequence c -> config base = config c ->
  lists (contents c) (fun id => id ∈ dirty) (seg_points decoded) -> Forall (fun p => sp_public_view p = None) (seg_points decoded) ->
  (forall id, id ∈ seg_tombstones decoded <-> id ∈ dirty /\ contents c !! id = None) ->
  (forall id, id ∉ dirty -> contents base !! id = contents c !! id) ->
  exists c', apply_segment base decoded = Ok c' /\ coll_ok c' /\ config c' = config c /\ sequence c' = sequence c /\ contents c' = contents c.
Proof.
  intros Hc Hb Hf Hs Ec Hl Hv Ht Hout. unfold apply_segment. rewrite Hf, Hs.
  set (up := if bool_decide (seg_points decoded = []) then base else apply_prepared_upsert base (seg_points decoded) (sequence c)).
  eexists. split; [done|]. set (c' := apply_delete_at up (seg_tombstones decoded) (sequence c)).
  assert (config c' = config c) as Ec' by (unfold c', up; cbn; by case_bool_decide).
  assert (forall id, contents up !! id = contents (apply_prepared_upsert base (seg_points decoded) (sequence c)) !! id) as Hup.
  { intros id. unfold up. case_bool_decide as E; [|done]. rewrite E, !lookup_contents. done. }
  assert (contents c' = contents c) as E.
  { apply map_eq. intros id. unfold c'. rewrite lookup_contents. cbn. rewrite fold_delete_lookup.
    destruct (decide (id ∈ seg_tombstones decoded)) as [Hd|Hd]; [by apply Ht in Hd as [_ ->]|].
    rewrite <- lookup_contents, Hup. destruct (decide (id ∈ dirty)) as [Hin|Hin].
    - destruct (contents c !! id) as [q|] eqn:Eq; [by eapply contents_upsert_in|]. destruct Hd. by apply Ht.
    - erewrite contents_upsert_out; [by apply Hout|exact Hl|done]. }
  split; [|done]. apply (coll_ok_contents c); [done..|]. apply views_delete. unfold up. case_bool_decide; [by apply coll_ok_views|].
  apply views_upsert; [by apply coll_ok_views|by apply views_segment].
Qed.

(** ** Snapshots *)

Lemma snapshot_lists c : coll_ok c -> lists (contents c) (fun _ => True) (snapshot_stored_points c).
Proof.
  intros Hc. pose proof Hc as (_ & _ & Hp). unfold snapshot_stored_points.
  assert (forall p, p ∈ sort_by (cmp_on sp_id str_cmp) (map clone_stored (values c)) <->
            exists id p0, points c !! id = Some p0 /\ p = clone_stored p0) as Hin.
  { intros p. rewrite elem_of_sort_by. unfold values. rewrite list_elem_of_fmap. split.
    - intros (p0 & -> & ([id p1] & -> & Hm%elem_of_map_to_list)%list_elem_of_fmap). by exists id, p1.
    - intros (id & p0 & E & ->). exists p0. split; [done|]. apply list_elem_of_fmap. exists (id, p0). split; [done|].
      by apply elem_of_map_to_list. }
  split; [|split].
  - assert (map sp_id (map clone_stored (values c)) ≡ₚ map sp_id (sort_by (cmp_on sp_id str_cmp) (map clone_stored (values c)))) as <-.
    { apply (fmap_Permutation sp_id). symmetry. apply sort_by_perm. }
    assert (map sp_id (map clone_stored (values c)) = map pt_id (map_to_list (contents c)).*2) as ->; [|by apply NoDup_ids, contents_ids].
    rewrite map_map. unfold values, contents. rewrite map_to_list_fmap, <- list_fmap_compose, <- list_fmap_compose.
    rewrite map_map. by apply map_ext.
  - intros p (id & p0 & E & ->)%Hin. split; [done|]. destruct (Hp _ _ E) as (Ei & _). cbn. rewrite Ei, lookup_contents, E. done.
  - intros id q _ Eq. rewrite lookup_contents in Eq. apply fmap_Some in Eq as (p0 & E & ->).
    apply list_elem_of_fmap. exists (clone_stored p0). split; [cbn; by destruct (Hp _ _ E) as (-> & _)|]. apply Hin. by exists id, p0.
Qed.

Lemma lists_filter m l (dirty : gset string) :
  lists m (fun _ => True) l -> lists m (fun id => id ∈ dirty) (List.filter (fun p => bool_decide (sp_id p ∈ dirty)) l).
Proof.
  intros (Hn & Hin & Hall). split; [|split].
  - eapply sublist_NoDup; [exact Hn|]. apply (fmap_sublist sp_id), filter_sublist.
  - intros p [Hp Hd%bool_decide_eq_true]%list_elem_of_In%filter_In. apply list_elem_of_In in Hp.
    split; [done|]. by apply Hin.
  - intros id q Hd Hq. destruct (list_elem_of_fmap_1 _ _ _ (Hall id q I Hq)) as (p & -> & Hp).
    apply list_elem_of_fmap. exists p. split; [done|]. apply list_elem_of_In, filter_In. split; [by apply list_elem_of_In|].
    by apply bool_decide_eq_true.
Qed.

(** ** Publishing a segment *)

Section Publish.
Context `{FloatEnv} (avx2 : bool).

(** ** Writes since a snapshot *)

(** Newer points, and nothing else, have newer sequences. *)
Definition newer (c c' : Collection) : Prop :=
  sequence c < sequence c' /\
  forall id p, contents c' !! id = Some p -> contents c !! id = Some p \/ sequence c < pt_sequence p.

(** A search leaves the handle as it was but for the indexes' workspaces. *)
Record read_only (st st' : PersistentCollection) : Prop := {
  ro_inner : inner st' = inner st;
  ro_dirty : dirty_ids st' = dirty_ids st;
  ro_metadata : metadata_index st' = metadata_index st;
  ro_graphs : Forall (index_ok (config (inner st))) (indexes st) -> Forall (index_ok (config (inner st))) (indexes st');
  ro_loaded : indexes st' <> [] -> indexes st <> []
}.

(** The handle [st] comes from [st0] by searches and writes that logged [ps]. *)
Inductive wrote (st0 : PersistentCollection) : list (list byte) -> PersistentCollection -> Prop :=
| wrote_none : wrote st0 [] st0
| wrote_read ps st st' : wrote st0 ps st -> read_only st st' -> wrote st0 ps st'
| wrote_one ps st payload ids c' :
    wrote st0 ps st -> logs (inner st) payload ids c' -> newer (inner st) c' -> wrote st0 (ps ++ [payload]) (with_inner st c' ids).

Record since (st0 : PersistentCollection) (ps : list (list byte)) (st : PersistentCollection) : Prop := {
  si_ok : coll_ok (inner st);
  si_config : config (inner st) = config (inner st0);
  si_sequence : sequence (inner st0) <= sequence (inner st) /\
    (sequence (inner st) = sequence (inner st0) -> ps = [] /\ contents (inner st) = contents (inner st0));
  si_dirty : dirty_ids st0 ⊆ dirty_ids st;
  si_contents : forall id, id ∉ dirty_ids st -> contents (inner st) !! id = contents (inner st0) !! id;
  si_old : forall id p, contents (inner st) !! id = Some p -> pt_sequence p <= sequence (inner st0) -> contents (inner st0) !! id = Some p;
  si_metadata : metadata_index st = metadata_index st0;
  si_graphs : Forall (index_ok (config (inner st0))) (indexes st0) -> Forall (index_ok (config (inner st0))) (indexes st);
  si_loaded : indexes st <> [] -> indexes st0 <> [];
  si_size : Forall (fun p => zlen p <= MAX_FRAME_BYTES) ps;
  si_replay : forall rec D, restores (inner st0) rec -> exists rec' D', replay ps rec D = Ok (rec', D') /\ restores (inner st) rec'
}.

Lemma wrote_since st0 ps st : coll_ok (inner st0) -> wrote st0 ps st -> since st0 ps st.
Proof.
  intros Hc. induction 1 as [|ps st st' _ [I1 I2 I3 I4 I5 I6 I7 I8 I9 I10 I11] [R1 R2 R3 R4 R5]
    |ps st payload ids c' _ [I1 I2 [I3 I3'] I4 I5 I6 I7 I8 I9 I10 I11] [L1 L2 L3 L4 L5] [N1 N2]].
  - constructor; try done. intros rec D Hr. by exists rec, D.
  - rewrite I2 in R4. constructor; rewrite ?R1, ?R2, ?R3; auto.
  - constructor; cbn [inner with_inner indexes metadata_index dirty_ids]; [done|congruence| | | | |done..|by apply Forall_app_2; [|constructor]|].
    + split; lia.
    + set_solver.
    + intros id Hid. rewrite L4 by set_solver. apply I5. set_solver.
    + intros id p Hp Hs. destruct (N2 id p Hp) as [Ho|?]; [by apply I6|lia].
    + intros rec D Hr. destruct (I11 rec D Hr) as (rec1 & D1 & E1 & H1). destruct (L5 rec1 H1) as (ids' & rec' & E2 & H2).
      eexists rec', _. split; [|exact H2]. rewrite replay_app, E1. cbn [replay]. by rewrite E2.
Qed.

(** The directory holds the snapshot's collection and, behind it in the log,
    the records [ps]. *)
Definition store_since (st0 : PersistentCollection) (ps : list (list byte)) (d : Dir) : Prop :=
  coll_ok (inner st0) /\ index_current st0 /\
  exists base old rec dirty,
    holds avx2 d (config (inner st0)) base (old ++ ps) [] /\ replay old base ∅ = Ok (rec, dirty) /\ restores (inner st0) rec /\
    (forall id, id ∉ dirty_ids st0 -> contents base !! id = contents (inner st0) !! id) /\
    (indexes st0 <> [] -> d !! "MANIFEST" <> None).

Lemma store_ok_since st d : store_ok avx2 st d -> store_since st [] d.
Proof.
  intros (Hc & Hi & base & ps & rec & dirty & Hh & Hrest). split; [done|]. split; [done|]. exists base, ps, rec, dirty. by rewrite app_nil_r.
Qed.

Lemma since_index st0 ps st : since st0 ps st -> index_current st0 -> index_current st.
Proof.
  intros Hs Hi. constructor; [|rewrite (si_config _ _ _ Hs); apply Hs, Hi].
  intros mi E. rewrite (si_metadata _ _ _ Hs) in E. destruct (ic_metadata _ Hi mi E) as (c0 & H1 & H2 & H3 & H4). exists c0. split_and!; [done..|].
  intros id Hid. rewrite (si_contents _ _ _ Hs) by done. apply H4. pose proof (si_dirty _ _ _ Hs). set_solver.
Qed.

Lemma since_store st0 ps st d : since st0 ps st -> store_since st0 ps d -> store_ok avx2 st d.
Proof.
  intros Hs (Hc & Hi & base & old & rec & dirty & Hh & Hr & Hrec & Hout & Hidx). split; [apply Hs|]. split; [by eapply since_index|].
  destruct (si_replay _ _ _ Hs rec dirty Hrec) as (rec' & D' & E & Hrec'). exists base, (old ++ ps), rec', D'.
  rewrite (si_config _ _ _ Hs). split_and!; [done| |done| |].
  - by rewrite replay_app, Hr.
  - intros id Hid. rewrite (si_contents _ _ _ Hs) by done. apply Hout. pose proof (si_dirty _ _ _ Hs). set_solver.
  - intros E1. apply Hidx. by apply (si_loaded _ _ _ Hs).
Qed.

(** A directory whose segments alone hold the collection: the records [old] in
    the log are already in them, the records [ps] come after. *)
Definition checkpointed (c : Collection) (names : list string) (old ps : list (list byte)) (d : Dir) : Prop :=
  exists base, holds avx2 d (config c) base (old ++ ps) [] /\ contents base = contents c /\ sequence base = sequence c /\
    replay old base ∅ = Ok (base, ∅) /\ manifest_dir d = Ok (Some (MkManifest (sequence c) names)).

Lemma manifest_dir_present d m : manifest_dir d = Ok (Some m) -> d !! "MANIFEST" <> None.
Proof. unfold manifest_dir. by destruct (d !! "MANIFEST"). Qed.

Lemma manifest_dir_total d : manifest_dir d <> Panic.
Proof.
  unfold manifest_dir. destruct (d !! "MANIFEST") as [bytes|]; [|done]. pose proof (decode_manifest_spec bytes) as Hs.
  by destruct (decode_manifest bytes).
Qed.

Lemma manifest_dir_ok d m : manifest_dir d = Ok (Some m) -> manifest_ok m.
Proof.
  unfold manifest_dir. destruct (d !! "MANIFEST") as [bytes|]; [|done]. pose proof (decode_manifest_spec bytes) as Hs.
  destruct (decode_manifest bytes); cbn; [|done..]. by intros [= ->].
Qed.

(** The segment [decoded], taken of [c], above the segments of [d]. *)
Record snapshot_segment (c : Collection) (dirty : gset string) (decoded : DecodedSegment) : Prop := {
  ss_config : seg_config decoded = config c;
  ss_sequence : seg_sequence decoded = sequence c;
  ss_views : Forall (fun p => sp_public_view p = None) (seg_points decoded);
  ss_points : lists (contents c) (fun id => seg_full decoded = true \/ id ∈ dirty) (seg_points decoded);
  ss_tombstones : seg_full decoded = false ->
    forall id, id ∈ seg_tombstones decoded <-> id ∈ dirty /\ contents c !! id = None
}.

Definition previous_names (d : Dir) (full : bool) : list string :=
  if full then [] else match manifest_dir d with Ok (Some m) => man_segments m | _ => [] end.

(** The new manifest can be written: its names are new and few enough. *)
Definition publishable (d : Dir) (sequence : Z) (full : bool) : Prop :=
  (full = false -> d !! "MANIFEST" <> None) /\
  forall m, manifest_dir d = Ok (Some m) -> man_sequence m < sequence /\
    (full = false -> zlen (man_segments m) <= MAX_INDEX_SEGMENTS).

Lemma new_manifest_ok d cfg base ps torn sequence full :
  holds avx2 d cfg base ps torn -> in_u 64 sequence -> publishable d sequence full ->
  manifest_ok (MkManifest sequence (previous_names d full ++ [segment_name sequence])).
Proof.
  intros Hh Hs [_ Hpub]. unfold previous_names.
  assert (manifest_ok (MkManifest sequence ([] ++ [segment_name sequence]))) as Hone.
  { constructor; cbn; [done|unfold zlen, MAX_INDEX_SEGMENTS; cbn; lia| |apply NoDup_singleton].
    constructor; [by apply segment_name_ok|constructor]. }
  destruct full; [exact Hone|]. destruct (manifest_dir d) as [[m|]| |] eqn:Em; try exact Hone.
  destruct (Hpub m eq_refl) as [Hlt Hc]. specialize (Hc eq_refl). pose proof (manifest_dir_ok d m Em) as Hm.
  constructor; cbn [man_sequence man_segments].
  - done.
  - rewrite zlen_app. unfold zlen at 2 4. cbn. pose proof (zlen_nonneg (man_segments m)). lia.
  - apply Forall_app. split; [apply Hm|]. constructor; [by apply segment_name_ok|constructor].
  - apply NoDup_app. split; [apply Hm|]. split; [|apply NoDup_singleton]. intros n Hn ->%list_elem_of_singleton.
    destruct (h_tidy _ _ _ _ _ _ Hh m Em) as [_ Ht]. eapply Forall_forall in Ht as (s & Hs1 & E); [|exact Hn].
    apply segment_name_inj in E; destruct Hs; lia.
Qed.

Lemma load_one d m st pos name bytes decoded c' :
  d !! name = Some bytes -> decode_segment_mapped avx2 bytes = Ok decoded ->
  check_segment m (config (l_collection st)) (l_previous st) pos decoded = Ok tt ->
  apply_segment (l_collection st) decoded = Ok c' ->
  load_segment_dir avx2 d m st (pos, name) = Ok (MkLoading c' (push_index (l_indexes st) decoded) (seg_sequence decoded)).
Proof.
  intros E Ed Hc Ha. unfold load_segment_dir. rewrite E. cbn [ok_or rbind].
  destruct (Z.eqb_spec (zlen bytes) 0) as [E0|E0].
  - assert (bytes = []) as -> by (destruct bytes; [done|unfold zlen in E0; cbn in E0; lia]). by vm_compute in Ed.
  - rewrite Ed. cbn [rbind]. unfold load_decoded. rewrite Hc. cbn [rbind]. by rewrite Ha.
Qed.

(** The segments of a published directory load as the collection. *)
Lemma load_published d d' c base ps torn dirty bytes decoded :
  let full := seg_full decoded in let names := previous_names d full ++ [segment_name (sequence c)] in
  let m' := MkManifest (sequence c) names in
  holds avx2 d (config c) base ps torn -> coll_ok c -> publishable d (sequence c) full ->
  (forall id, id ∉ dirty -> contents base !! id = contents c !! id) ->
  (forall m n, manifest_dir d = Ok (Some m) -> n ∈ man_segments m -> d' !! n = d !! n) ->
  d' !! segment_name (sequence c) = Some bytes -> decode_segment_mapped avx2 bytes = Ok decoded ->
  snapshot_segment c dirty decoded ->
  exists st base', load_names avx2 d' m' (MkLoading (MkCollection (config c) ∅ 0) [] 0) = Ok st /\ l_collection st = base' /\
    coll_ok base' /\ contents base' = contents c /\ sequence base' = sequence c.
Proof.
  intros full names m' Hh Hc [Hpres Hpub] Hout Hagree Eb Ed Hss. set (c0 := MkCollection (config c) ∅ 0).
  set (st0 := MkLoading c0 [] 0). unfold previous_names in names. destruct full eqn:Ef.
  - destruct (apply_full c c0 decoded) as (c' & Ha & Hc' & _ & Hs' & Hcont); [done|done|apply Hss|done| |apply Hss|].
    { destruct (ss_points _ _ _ Hss) as (H1 & H2 & H3). split; [done|]. split; [intros p Hp; split; [done|by apply H2]|].
      intros id q _ Hq. eapply H3; [by left|exact Hq]. }
    exists (MkLoading c' (push_index [] decoded) (seg_sequence decoded)), c'. split; [|done].
    unfold m', names. change ([] ++ ?x) with (man_segments (MkManifest 0 []) ++ x). rewrite (load_names_longer avx2 d' _ _ _ _ st0) by done.
    apply (load_one d' _ st0 _ _ bytes); [done|done| |done]. cbn [man_segments zlen length Z.of_nat st0 l_collection config c0 l_previous].
    unfold check_segment. rewrite bool_decide_eq_true_2 by apply Hss. unfold full in Ef. rewrite Ef, (ss_sequence _ _ _ Hss). unfold zlen.
    cbn [man_segments man_sequence length app Z.of_nat negb andb orb].
    rewrite (Z.eqb_refl (sequence c)). done.
  - destruct (h_load _ _ _ _ _ _ Hh) as (loaded & Hl & _). unfold load_dir in Hl. inv_ok Hl.
    destruct a as [m|]; [|unfold manifest_dir in Hok; destruct (d !! "MANIFEST"); [|by destruct (Hpres eq_refl)];
      inv_ok Hok; done].
    inv_ok Hl. injection Hl as Ebase _. destruct (Hpub m Hok) as [Hlt _]. pose proof (manifest_dir_ok d m Hok) as Hm.
    assert (man_segments m <> []) as Hne by (intros E; pose proof (mo_count m Hm) as Hcount; rewrite E in Hcount; unfold zlen in Hcount; cbn in Hcount; lia).
    rewrite <- (load_names_agree avx2 d d') in Hok0 by (intros n; by apply Hagree).
    destruct (apply_delta c base dirty decoded) as (c' & Ha & Hc' & _ & Hs' & Hcont);
      [done|apply Hh|done|apply Hss|by eapply holds_config| |apply Hss|by apply (ss_tombstones _ _ _ Hss)|done|].
    { destruct (ss_points _ _ _ Hss) as (H1 & H2 & H3). unfold full in Ef. rewrite Ef in H2, H3.
      split; [done|]. split; [intros p Hp; destruct (H2 p Hp) as [[|] ?]; done|]. intros id q Hd Hq. eapply H3; [by right|exact Hq]. }
    exists (MkLoading c' (push_index (l_indexes a) decoded) (seg_sequence decoded)), c'. split; [|done].
    unfold m'. assert (names = man_segments m ++ [segment_name (sequence c)]) as -> by (unfold names; by rewrite Hok).
    rewrite (load_names_longer avx2 d' m _ _ _ a Hok0).
    apply (load_one d' _ a _ _ bytes); [done|done| |by rewrite Ebase].
    unfold check_segment. rewrite (load_names_config _ _ _ _ _ Hok0), bool_decide_eq_true_2 by apply Hss.
    rewrite (load_names_previous _ _ _ _ _ Hne Hok0). unfold full in Ef. rewrite Ef, (ss_sequence _ _ _ Hss). cbn [negb orb andb].
    assert (0 < zlen (man_segments m)) by apply Hm. rewrite (proj2 (Z.eqb_neq (zlen (man_segments m)) 0)) by lia.
    rewrite (proj2 (Z.leb_gt _ _)) by lia. rewrite andb_false_r. cbn [andb]. rewrite Z.eqb_refl, andb_false_r. done.
Qed.

Lemma published_checkpointed st ps d d' bytes decoded :
  let c := inner st in let full := seg_full decoded in let names := previous_names d full ++ [segment_name (sequence c)] in
  store_since st ps d -> typed c -> publishable d (sequence c) full -> snapshot_segment c (dirty_ids st) decoded ->
  (forall m n, manifest_dir d = Ok (Some m) -> n ∈ man_segments m -> d' !! n = d !! n) ->
  d' !! META = d !! META -> d' !! WAL = d !! WAL -> d' !! "MANIFEST" = Some (manifest_file (sequence c) names) ->
  d' !! segment_name (sequence c) = Some bytes -> decode_segment_mapped avx2 bytes = Ok decoded ->
  exists old, checkpointed c names old ps d'.
Proof.
  intros c full names Hst Hty Hpub Hss Hag Emeta Ewal Eman Eb Ed. pose proof Hst as (Hc & _ & base & old & rec & dirty & Hh & Hr & Hs & Hout & _). fold c in Hc, Hh, Hs, Hout.
  assert (in_u 64 (sequence c)) as Hseq by (destruct Hc as (_ & Hseq & _); unfold U64_MAX in Hseq; split; lia).
  pose proof (new_manifest_ok _ _ _ _ _ _ _ Hh Hseq Hpub) as Hm. fold names in Hm.
  assert (manifest_dir d' = Ok (Some (MkManifest (sequence c) names))) as Em.
  { unfold manifest_dir. rewrite Eman. pose proof (decode_manifest_file _ Hm) as Hd. cbn [man_sequence man_segments] in Hd. by rewrite Hd. }
  destruct (load_published d d' c base (old ++ ps) [] (dirty_ids st) bytes decoded) as (l & base' & Hl & <- & Hb & Hcont & Hs'); [done..|].
  fold full names in Hl. assert (config (l_collection l) = config c) as Ec by (by rewrite (load_names_config _ _ _ _ _ Hl)).
  assert (replay old (l_collection l) ∅ = Ok (l_collection l, ∅)) as Hr'.
  { eapply replay_seen; [exact Hr|]. rewrite Hs', (rs_sequence _ _ Hs). done. }
  exists old, (l_collection l). split; [|done]. constructor; [apply Hh|by rewrite Emeta; apply Hh| |by split; [|by eapply typed_contents]| | |apply Hh|apply Hh].
  - eexists. unfold load_dir. rewrite Em. cbn [rbind]. rewrite Hl. cbn [rbind]. split; [done|]. rewrite Eman. done.
  - intros m E. rewrite Em in E. injection E as <-. cbn [man_sequence man_segments]. split; [done|]. unfold names. apply Forall_app. split.
    + unfold previous_names. destruct full; [constructor|]. destruct (manifest_dir d) as [[m|]| |] eqn:E'; try constructor.
      destruct (h_tidy _ _ _ _ _ _ Hh m E') as [_ Ht]. destruct Hpub as [_ Hpub]. destruct (Hpub m E') as [Hlt _].
      eapply Forall_impl; [exact Ht|]. intros n (s & Hn & ->). exists s. split; [lia|done].
    + constructor; [|constructor]. exists (sequence c). split; [|done]. destruct Hseq. lia.
  - rewrite Ewal. apply Hh.
Qed.

(** A handle whose collection has the same contents. *)
Lemma restores_left c c' rec :
  config c' = config c -> sequence c' = sequence c -> contents c' = contents c -> restores c rec -> restores c' rec.
Proof.
  intros Ec Es E [H1 H2 H3]. constructor; [by rewrite Ec|by rewrite Es|]. intros id. specialize (H3 id). rewrite Ec.
  assert (contents c' !! id = contents c !! id) as Ei by (by rewrite E). rewrite !lookup_contents in Ei.
  destruct H3 as [p q Hpq|]; destruct (points c' !! id) as [p'|]; cbn in Ei; try done; constructor.
  apply (inj Some) in Ei. injection Ei as E1 E2 E3 E4. destruct Hpq as [G1 G2 G3 G4 G5].
  constructor; [congruence..| |done]. by rewrite E2.
Qed.

(** A checkpointed directory serves any handle of the collection that the later
    writes lead to. *)
Lemma checkpointed_store st0 ps st st' names old d :
  since st0 ps st -> checkpointed (inner st0) names old ps d ->
  coll_ok (inner st') -> index_current st' -> config (inner st') = config (inner st) -> sequence (inner st') = sequence (inner st) ->
  contents (inner st') = contents (inner st) ->
  (forall id, id ∉ dirty_ids st' -> contents (inner st0) !! id = contents (inner st) !! id) -> store_ok avx2 st' d.
Proof.
  intros Hs (base & Hh & Hcont & Hseq & Hr & Hm) Hc' Hi' Ec Es E Hd. split; [done|]. split; [done|].
  assert (restores (inner st0) base) as Hb by (apply restores_contents; [apply Hh|by rewrite (holds_config _ _ _ _ _ _ Hh)|done|done]).
  destruct (si_replay _ _ _ Hs base ∅ Hb) as (rec & D & Er & Hrec). exists base, (old ++ ps), rec, D.
  rewrite Ec, (si_config _ _ _ Hs). split_and!; [done| | | |].
  - by rewrite replay_app, Hr.
  - by eapply restores_left.
  - intros id Hid. rewrite Hcont, E. by apply Hd.
  - intros _. by eapply manifest_dir_present.
Qed.

(** Files outside the collection do not matter, nor do unlisted segments. *)
Lemma checkpointed_agree c names old ps d d' :
  d' !! META = d !! META -> d' !! WAL = d !! WAL -> d' !! "MANIFEST" = d !! "MANIFEST" ->
  (forall n, n ∈ names -> d' !! n = d !! n) -> checkpointed c names old ps d -> checkpointed c names old ps d'.
Proof.
  intros E1 E2 E3 Hn (base & Hh & Hc & Hs & Hr & Hm). exists base. split_and!; [|done..|].
  - eapply holds_agree; [done..| |exact Hh]. intros m n Em Hin. rewrite Hm in Em. injection Em as <-. by apply Hn.
  - unfold manifest_dir in *. by rewrite E3.
Qed.

Lemma checkpointed_emptied c names old d : checkpointed c names old [] d -> checkpointed c names [] [] (<[WAL := []]> d).
Proof.
  intros (base & Hh & Hc & Hs & Hr & Hm). exists base. split_and!; [|done..|].
  - change (@nil byte) with (log [] ++ []) at 1. eapply holds_wal; [exact Hh|constructor|done].
  - unfold manifest_dir in *. by rewrite lookup_insert_ne.
Qed.

Lemma store_since_agree st ps d d' :
  d' !! META = d !! META -> d' !! WAL = d !! WAL -> d' !! "MANIFEST" = d !! "MANIFEST" ->
  (forall m n, manifest_dir d = Ok (Some m) -> n ∈ man_segments m -> d' !! n = d !! n) ->
  store_since st ps d -> store_since st ps d'.
Proof.
  intros E1 E2 E3 Hn (Hc & Hi & base & old & rec & dirty & Hh & Hrest & Hs & Hout & Hidx). split; [done|]. split; [done|].
  exists base, old, rec, dirty. rewrite E3. split_and!; try done. by eapply holds_agree.
Qed.

Lemma store_since_live st ps d d' : (forall p, live_file p -> d' !! p = d !! p) -> store_since st ps d -> store_since st ps d'.
Proof.
  intros Hp Hst. pose proof Hst as (_ & _ & base & old & rec & dirty & Hh & _). unfold live_file in Hp.
  eapply store_since_agree; [apply Hp; tauto..| |exact Hst]. intros m n Em Hin. apply Hp. do 3 right.
  destruct (h_tidy _ _ _ _ _ _ Hh m Em) as [_ Ht]. eapply Forall_forall in Ht as (s & Hs & ->); [|exact Hin]. exists s. split; [lia|done].
Qed.

Lemma store_ok_agree st d d' :
  d' !! META = d !! META -> d' !! WAL = d !! WAL -> d' !! "MANIFEST" = d !! "MANIFEST" ->
  (forall m n, manifest_dir d = Ok (Some m) -> n ∈ man_segments m -> d' !! n = d !! n) ->
  store_ok avx2 st d -> store_ok avx2 st d'.
Proof.
  intros E1 E2 E3 Hn (Hc & Hi & base & ps & rec & dirty & Hh & Hrest & Hs & Hout & Hidx). split; [done|]. split; [done|].
  exists base, ps, rec, dirty. rewrite E3. split_and!; try done. by eapply holds_agree.
Qed.

Lemma store_ok_live st d d' : (forall p, live_file p -> d' !! p = d !! p) -> store_ok avx2 st d -> store_ok avx2 st d'.
Proof.
  intros Hp Hst. pose proof Hst as (_ & _ & base & ps & rec & dirty & Hh & _). unfold live_file in Hp.
  eapply store_ok_agree; [apply Hp; tauto..| |exact Hst]. intros m n Em Hin. apply Hp. do 3 right.
  destruct (h_tidy _ _ _ _ _ _ Hh m Em) as [_ Ht]. eapply Forall_forall in Ht as (s & Hs & ->); [|exact Hin]. exists s. split; [lia|done].
Qed.

Lemma recoverable_same d c c' :
  coll_ok c' -> config c' = config c -> sequence c' = sequence c -> contents c' = contents c ->
  recoverable avx2 d c -> recoverable avx2 d c'.
Proof.
  intros Hc' Ec Es E (_ & base & ps & torn & rec & dirty & Hh & Hr & Hs). split; [done|]. exists base, ps, torn, rec, dirty.
  rewrite Ec. split_and!; [done|done|]. by eapply restores_left.
Qed.

Lemma store_ok_same st d c' :
  coll_ok c' -> config c' = config (inner st) -> sequence c' = sequence (inner st) -> contents c' = contents (inner st) ->
  store_ok avx2 st d -> store_ok avx2 (with_inner st c' []) d.
Proof.
  intros Hc' Ec Es E (Hc & Hi & base & ps & rec & dirty & Hh & Hr & Hs & Hout & Hidx).
  assert (forall id, id ∉ dirty_ids st ∪ list_to_set [] -> id ∉ dirty_ids st) as Hd by set_solver.
  split; [done|]. split.
  - constructor; [|cbn; rewrite Ec; apply Hi]. intros mi Emi. destruct (ic_metadata _ Hi mi Emi) as (c0 & H1 & H2 & H3 & H4).
    exists c0. split; [done|]. split; [done|]. split; [done|]. intros id Hid%Hd. cbn. rewrite E. by apply H4.
  - exists base, ps, rec, dirty. cbn. rewrite Ec. split_and!; [done|done| |intros id Hid%Hd; rewrite E; by apply Hout|done].
    by eapply restores_left.
Qed.

(** ** Building the segment *)

Definition snap_segment_points (s : FlushSnapshot) : list StoredPoint :=
  if snap_compact s then snap_points s else graph_points s.

Lemma snapshot_typed c : coll_ok c -> typed c -> Forall (point_typed (dimension (config c))) (snapshot_stored_points c).
Proof.
  intros Hc [_ Ht]. apply Forall_forall. intros p Hp. unfold snapshot_stored_points in Hp. rewrite elem_of_sort_by in Hp.
  apply list_elem_of_fmap in Hp as (q & -> & Hq). unfold values in Hq. apply list_elem_of_fmap in Hq as ([id p] & -> & E%elem_of_map_to_list).
  exact (Ht id p E).
Qed.

Lemma snapshot_lists_segment st :
  coll_ok (inner st) -> let s := flush_snapshot st in
  lists (contents (inner st)) (fun id => snap_compact s = true \/ id ∈ dirty_ids st) (snap_segment_points s).
Proof.
  intros Hc s. pose proof (snapshot_lists _ Hc) as Hl. unfold snap_segment_points, s, flush_snapshot. cbn [snap_compact snap_points graph_points].
  destruct (_ || _).
  - destruct Hl as (H1 & H2 & H3). split; [done|]. split; [intros p Hp; split; [by left|by apply H2]|]. intros id q _ Hq. by eapply H3.
  - destruct (lists_filter _ _ (dirty_ids st) Hl) as (H1 & H2 & H3). split; [done|].
    split; [intros p Hp; destruct (H2 p Hp); split; [by right|done]|]. intros id q [|Hd] Hq; [done|by eapply H3].
Qed.

Lemma snapshot_tombstones st id :
  let s := flush_snapshot st in snap_compact s = false ->
  id ∈ snap_tombstones s <-> id ∈ dirty_ids st /\ contents (inner st) !! id = None.
Proof.
  unfold flush_snapshot. cbn [snap_compact snap_tombstones]. intros ->.
  rewrite list_elem_of_In, filter_In, <- list_elem_of_In, elem_of_elements, lookup_contents. unfold get_stored.
  destruct (points (inner st) !! id) as [p|]; cbn; naive_solver.
Qed.

Lemma snapshot_decoded st bytes index decoded :
  let s := flush_snapshot st in
  coll_ok (inner st) -> typed (inner st) ->
  segment_bytes (config (inner st)) (sequence (inner st)) (snap_segment_points s) (snap_tombstones s) (snap_compact s) index = Ok bytes ->
  decode_segment_mapped avx2 bytes = Ok decoded ->
  snapshot_segment (inner st) (dirty_ids st) decoded /\ seg_full decoded = snap_compact s.
Proof.
  intros s Hc Ht Hb Hd. pose proof Hc as (_ & Hseq & _). destruct Ht as [Hdim Hpts].
  assert (Forall (point_typed (dimension (config (inner st)))) (snap_segment_points s)) as Htyped.
  { pose proof (snapshot_typed _ Hc (conj Hdim Hpts)) as Hall. unfold snap_segment_points, s, flush_snapshot.
    cbn [snap_compact snap_points graph_points]. destruct (_ || _); [done|]. apply Forall_forall. intros p [Hp _]%list_elem_of_In%filter_In.
    eapply Forall_forall in Hall; [exact Hall|]. by apply list_elem_of_In. }
  assert (in_u 64 (sequence (inner st))) as Hu by (unfold U64_MAX in Hseq; split; lia).
  pose proof (decode_written avx2 true _ _ _ _ _ _ _ Hdim Hu Htyped Hb) as Hw. cbv iota in Hw.
  pose proof (decode_segment_ok avx2 bytes true) as Hok. cbv iota in Hok.
  unfold decode_segment_mapped in Hd. rewrite Hd in Hw, Hok. destruct Hw as (W1 & W2 & W3 & W4 & W5). destruct Hok as [Hok _].
  split; [|done]. constructor; [done|done| | |].
  - eapply Forall_impl; [apply Hok|]. cbv beta. tauto.
  - rewrite W5. eapply lists_owned; [exact W3|]. by apply snapshot_lists_segment.
  - intros Ef id. rewrite W4. apply snapshot_tombstones. by rewrite <- Ef, W5.
Qed.

Lemma write_segment_spec path cfg seq pts ts full index d :
  specifies (write_segment_file path cfg seq pts ts full index) d
    (fun r d' => except path d d' /\
       (is_ok r = true -> exists bytes, d' !! path = Some bytes /\ segment_bytes cfg seq pts ts full index = Ok bytes))
    (except path d).
Proof.
  unfold write_segment_file. eapply (spec_bind _ _ _ (fun r d' => except path d d' /\
    (is_ok r = true -> exists bytes, d' !! path = Some bytes /\ segment_bytes cfg seq pts ts full index = Ok bytes))).
  - assert (except path d (<[path := []]> d)) as H1 by (by apply except_insert).
    apply spec_create_then; [done|done|]. intros _. destruct (segment_bytes _ _ _ _ _ _) as [bytes|e|]; [|by apply spec_ret..].
    rewrite iotry_ok. apply spec_append_then.
    + intros n. by apply except_appended.
    + intros e n. split; [by apply except_appended|done].
    + assert (except path d (appended path bytes (<[path := []]> d))) as H2 by (by apply except_appended).
      apply spec_sync; [done|done|]. split; [done|]. intros _. exists bytes. split; [|done].
      by rewrite lookup_appended, lookup_insert_eq.
  - intros r d' Hr. assert (specifies (let* _ := ignore (remove_file path) in ioret r) d' (fun r' d'' => except path d d'' /\ r' = r) (except path d)) as Hclean.
    { destruct Hr as [He _]. eapply (spec_bind _ _ _ (fun _ => except path d)).
      - apply spec_ignore, spec_remove; [done|done|by apply except_delete].
      - intros _ d'' Hd''. by apply spec_ret. }
    destruct r as [[]|e|]; [by apply spec_ret| |]; (eapply spec_mono; [exact Hclean| |done]; cbv beta; intros r' d'' [? ->]; done).
Qed.

Lemma build_flush_spec workers temporary st d :
  let s := flush_snapshot st in
  specifies (build_flush avx2 workers temporary s) d
    (fun r d' => except temporary d d' /\
       forall p, r = Ok p ->
         prep_sequence p = sequence (inner st) /\ temporary_segment p = temporary /\ prep_compact p = snap_compact s /\
         prep_metadata_index p = Some (MetadataIndex.build (snapshot_stored_points (inner st))) /\
         exists bytes index, d' !! temporary = Some bytes /\
           segment_bytes (config (inner st)) (sequence (inner st)) (snap_segment_points s) (snap_tombstones s) (snap_compact s) index = Ok bytes)
    (except temporary d).
Proof.
  intros s. unfold build_flush. destruct (Hnsw.build_quantized_prepared _ _ _ _ _ _) as [index|e|]; [|by apply spec_ret..].
  rewrite iotry_ok. eapply (spec_try _ _ _ (fun _ d' => except temporary d d' /\ exists bytes, d' !! temporary = Some bytes /\
    segment_bytes (config (inner st)) (sequence (inner st)) (snap_segment_points s) (snap_tombstones s) (snap_compact s) index = Ok bytes)).
  - eapply spec_mono; [apply write_segment_spec| |done]. cbv beta. intros r d' [He Hr]. destruct r as [[]|e|]; [exact (conj He (Hr eq_refl))|by split..].
  - cbv beta. intros [] d' (He & bytes & E & Hb). apply spec_ret. split; [done|]. intros p [= <-]. cbn.
    split_and!; [done..|]. by exists bytes, index.
Qed.

(** ** Publishing, step by step *)

Definition scratch (path : string) : Prop := ~ live_file path.

Lemma scratch_dot path : String.prefix "." path = true -> scratch path.
Proof.
  intros Hp [->|[->|[->|(s & _ & ->)]]]; [discriminate Hp..|]. unfold segment_name in Hp. cbn in Hp. done.
Qed.

Lemma manifest_temporary_scratch pid : scratch (manifest_temporary pid).
Proof. apply scratch_dot. unfold manifest_temporary. cbn. by destruct (fmt_int pid). Qed.

Lemma except_live path d d' : scratch path -> except path d d' -> forall p, live_file p -> d' !! p = d !! p.
Proof. intros Hs He p Hp. apply He. intros ->. by apply Hs. Qed.

(** A new manifest is written beside the old one and renamed over it: at every
    point the directory has one or the other. *)
Lemma publish_manifest_spec pid sequence names d (Q : Result unit -> Dir -> Prop) (C : Dir -> Prop) :
  manifest_ok (MkManifest sequence names) ->
  (forall d', except (manifest_temporary pid) d d' -> C d' /\ forall e, Q (Err e) d') ->
  (forall d', except "MANIFEST" d d' \/ (forall p, p <> manifest_temporary pid -> p <> "MANIFEST" -> d' !! p = d !! p) ->
     d' !! "MANIFEST" = Some (manifest_file sequence names) -> C d' /\ (forall e, Q (Err e) d') /\ Q (Ok tt) d') ->
  specifies (publish_manifest pid sequence names) d Q C.
Proof.
  intros Hm Hold Hnew. unfold publish_manifest. pose proof (encode_manifest_ok _ Hm) as He. cbn [man_sequence man_segments] in He.
  rewrite He, iotry_ok. set (tmp := manifest_temporary pid). set (file := manifest_file sequence names).
  assert (tmp <> "MANIFEST") as Hne by (intros E; apply (manifest_temporary_scratch pid); fold tmp; rewrite E; unfold live_file; tauto).
  assert (except tmp d d) as H0 by done. assert (except tmp d (<[tmp := []]> d)) as H1 by (by apply except_insert).
  assert (forall bs, except tmp d (appended tmp bs (<[tmp := []]> d))) as H2 by (intros bs; by apply except_appended).
  eapply (spec_try _ _ _ (fun _ d' => except tmp d d' /\ d' !! tmp = Some file)).
  - unfold write_new_file. apply spec_create_then; [by apply Hold|intros e; by apply Hold|]. intros _.
    apply spec_append_then; [intros n; by apply Hold|intros e n; by apply Hold|].
    apply spec_sync; [by apply Hold|intros e; by apply Hold|]. split; [done|]. by rewrite lookup_appended, lookup_insert_eq.
  - intros _ d' [He' Ef]. apply spec_rename_then; [by apply Hold|intros e; by apply Hold|]. intros bytes Eb.
    rewrite Ef in Eb. injection Eb as <-. destruct (Hnew (<["MANIFEST" := file]> (base.delete tmp d'))) as (G1 & G2 & G3).
    + right. intros p Hp1 Hp2. rewrite lookup_insert_ne, lookup_delete_ne by done. by apply He'.
    + by rewrite lookup_insert_eq.
    + by apply spec_sync.
Qed.

(** What publishing the prepared segment of [st0] needs of the directory, when
    the handle is [st] by now. *)
Definition ready (st0 : PersistentCollection) (ps : list (list byte)) (st : PersistentCollection) (prepared : PreparedFlush) (d : Dir) : Prop :=
  let s := flush_snapshot st0 in
  store_since st0 ps d /\ since st0 ps st /\ typed (inner st0) /\ publishable d (sequence (inner st0)) (snap_compact s) /\
  prep_sequence prepared = sequence (inner st0) /\ prep_compact prepared = snap_compact s /\
  prep_metadata_index prepared = Some (MetadataIndex.build (snapshot_stored_points (inner st0))) /\
  scratch (temporary_segment prepared) /\
  exists bytes index, d !! temporary_segment prepared = Some bytes /\
    segment_bytes (config (inner st0)) (sequence (inner st0)) (snap_segment_points s) (snap_tombstones s) (snap_compact s) index = Ok bytes.

Definition new_names (st : PersistentCollection) (d : Dir) : list string :=
  previous_names d (snap_compact (flush_snapshot st)) ++ [segment_name (sequence (inner st))].

(** The directory of a checkpointed snapshot still serves the handle. *)
Lemma checkpointed_current st0 ps st names old d :
  since st0 ps st -> index_current st0 -> checkpointed (inner st0) names old ps d -> store_ok avx2 st d.
Proof.
  intros Hs Hi Hck. eapply checkpointed_store; [exact Hs|exact Hck|apply Hs|by eapply since_index|done..|].
  intros id Hid. symmetry. by apply Hs.
Qed.

Lemma previous_of_manifest d previous (full : bool) :
  manifest_dir d = Ok previous ->
  (if full then [] else match previous with Some manifest => man_segments manifest | None => [] end) = previous_names d full.
Proof. intros E. unfold previous_names. rewrite E. by destruct full, previous. Qed.

Lemma publish_segment_spec pid st0 ps st prepared d previous :
  ready st0 ps st prepared d -> manifest_dir d = Ok previous ->
  specifies (publish_segment avx2 pid (config (inner st)) prepared previous) d
    (fun r d' => match r with
       | Ok decoded => (exists old, checkpointed (inner st0) (new_names st0 d) old ps d') /\
                       snapshot_segment (inner st0) (dirty_ids st0) decoded /\ segment_ok decoded /\ graph_matches decoded
       | Err _ => store_ok avx2 st d'
       | Panic => False
       end) (store_ok avx2 st).
Proof.
  intros (Hst & Hsi & Hty & Hpub & Eseq & Ecomp & _ & Hscr & bytes & index & Et & Hb) Eprev.
  pose proof Hst as (Hc & Hi & base & old & rec & dirty & Hh & _).
  assert (in_u 64 (sequence (inner st0))) as Hu by (destruct Hc as (_ & Hseq & _); unfold U64_MAX in Hseq; split; lia).
  assert (forall d', store_since st0 ps d' -> store_ok avx2 st d') as Hsince by (intros; by eapply since_store).
  pose proof (Hsince _ Hst) as Hnow.
  unfold publish_segment. rewrite Eseq. set (name := segment_name (sequence (inner st0))).
  apply spec_rename_then; [done|done|]. intros b Eb. rewrite Et in Eb. injection Eb as <-.
  set (d1 := <[name := bytes]> (base.delete (temporary_segment prepared) d)).
  assert (live_file name) as Hlive by (do 3 right; exists (sequence (inner st0)); destruct Hu; done).
  assert (forall p, p <> name -> p <> temporary_segment prepared -> d1 !! p = d !! p) as Hd1.
  { intros p H1 H2. unfold d1. by rewrite lookup_insert_ne, lookup_delete_ne. }
  assert (forall p, p <> name -> live_file p -> d1 !! p = d !! p) as Hd1l.
  { intros p H1 H2. apply Hd1; [done|]. intros ->. by apply Hscr. }
  assert (d1 !! META = d !! META /\ d1 !! WAL = d !! WAL /\ d1 !! "MANIFEST" = d !! "MANIFEST") as (E1 & E2 & E3).
  { unfold live_file in Hd1l. split_and!; apply Hd1l; try tauto; intros E; symmetry in E; revert E; by apply segment_name_not. }
  assert (forall m n, manifest_dir d = Ok (Some m) -> n ∈ man_segments m -> d1 !! n = d !! n) as E4.
  { intros m n Em Hin. destruct (h_tidy _ _ _ _ _ _ Hh m Em) as [_ Ht]. eapply Forall_forall in Ht as (s & Hs & ->); [|exact Hin].
    destruct Hpub as [_ Hpub]. destruct (Hpub m Em) as [Hlt _]. apply Hd1l; [|do 3 right; exists s; split; [lia|done]].
    intros E. apply segment_name_inj in E; destruct Hu; lia. }
  assert (store_since st0 ps d1) as Hst1 by (by eapply store_since_agree). pose proof (Hsince _ Hst1) as Hnow1.
  apply spec_sync_then; [done|done|]. apply spec_read_then; [done|done|]. intros b Eb. unfold d1 in Eb. rewrite lookup_insert_eq in Eb. injection Eb as <-.
  destruct (decode_segment_mapped avx2 bytes) as [decoded|e|] eqn:Ed; [|by apply spec_ret|].
  2: { pose proof (decode_segment_ok avx2 bytes true) as Hok. cbv iota in Hok. unfold decode_segment_mapped in Ed. by rewrite Ed in Hok. }
   rewrite iotry_ok.
  destruct (snapshot_decoded st0 bytes index decoded Hc Hty Hb Ed) as [Hss Hfull].
  destruct (_ || _); [by apply spec_ret|]. rewrite Ecomp, (previous_of_manifest d _ _ Eprev).
  change (previous_names d (snap_compact (flush_snapshot st0)) ++ [name]) with (new_names st0 d).
  set (tmp := manifest_temporary pid). pose proof (manifest_temporary_scratch pid) as Htmp. fold tmp in Htmp.
  eapply (spec_try _ _ _ (fun _ d' => exists old, checkpointed (inner st0) (new_names st0 d) old ps d')).
  - apply publish_manifest_spec.
    + unfold new_names. eapply new_manifest_ok; [exact Hh|done|done].
    + intros d' He. assert (store_ok avx2 st d') as Hs' by (eapply store_ok_live; [by eapply except_live|done]). done.
    + intros d' Hd' Eman. assert (forall p, live_file p -> p <> "MANIFEST" -> d' !! p = d1 !! p) as Hp.
      { intros p Hp Hne. destruct Hd' as [He|He]; [by apply He|]. apply He; [|done]. intros ->. by apply Htmp. }
      assert (exists old, checkpointed (inner st0) (new_names st0 d) old ps d') as Hck.
      { unfold new_names in *. rewrite <- Hfull in *. eapply published_checkpointed; [exact Hst| | | | | | | | |exact Ed]; try done.
        - intros m n Em Hin. rewrite <- (E4 m n Em Hin). apply Hp.
          + destruct (h_tidy _ _ _ _ _ _ Hh m Em) as [_ Ht]. eapply Forall_forall in Ht as (s & Hs & ->); [|exact Hin].
            do 3 right. exists s. split; [lia|done].
          + destruct (h_tidy _ _ _ _ _ _ Hh m Em) as [_ Ht]. eapply Forall_forall in Ht as (s & Hs & ->); [|exact Hin]. by apply segment_name_not.
        - rewrite <- E1. apply Hp; [unfold live_file; tauto|done].
        - rewrite <- E2. apply Hp; [unfold live_file; tauto|done].
        - fold name. rewrite Hp; [unfold d1; by rewrite lookup_insert_eq|done|by apply segment_name_not]. }
      assert (store_ok avx2 st d') as Hs'.
      { destruct Hck as (old' & Hck). by eapply checkpointed_current. }
      split; [exact Hs'|]. split; [intros e; exact Hs'|exact Hck].
  - intros _ d' Hck. apply spec_ret. split; [done|]. split; [done|].
    pose proof (decode_segment_ok avx2 bytes true) as Hok. cbv iota in Hok. unfold decode_segment_mapped in Ed. by rewrite Ed in Hok.
Qed.

(** ** The flush *)

(** The outcome of publishing a snapshot taken at the sequence [snapshot]: the
    same collection, a handle that agrees with the directory, and on success
    nothing left that only the log holds, unless it was written since. *)
Definition published (snapshot : Z) (st : PersistentCollection) (r : Result Z * PersistentCollection) (d : Dir) : Prop :=
  config (inner r.2) = config (inner st) /\ sequence (inner r.2) = sequence (inner st) /\
  contents (inner r.2) = contents (inner st) /\ store_ok avx2 r.2 d /\ r.1 <> Panic /\
  forall n, r.1 = Ok n -> n = snapshot /\ dirty_ids r.2 ⊆ dirty_ids st /\
    (snapshot = sequence (inner st) -> dirty_ids r.2 = ∅) /\ is_Some (metadata_index r.2).

(** The outcome of a flush. *)
Definition flushed (st : PersistentCollection) (r : Result Z * PersistentCollection) (d : Dir) : Prop :=
  config (inner r.2) = config (inner st) /\ sequence (inner r.2) = sequence (inner st) /\
  contents (inner r.2) = contents (inner st) /\ store_ok avx2 r.2 d /\
  forall n, r.1 = Ok n -> n = sequence (inner st) /\ dirty_ids r.2 = ∅.

Lemma published_flushed st r d : published (sequence (inner st)) st r d -> flushed st r d.
Proof. intros (H1 & H2 & H3 & H4 & _ & H5). split_and!; [done..|]. intros n E. destruct (H5 n E) as (? & _ & H6 & _). auto. Qed.

Lemma published_failed seq st st1 e d :
  config (inner st1) = config (inner st) -> sequence (inner st1) = sequence (inner st) -> contents (inner st1) = contents (inner st) ->
  store_ok avx2 st1 d -> published seq st (Err e, st1) d.
Proof. intros E1 E2 E3 Hst. by split_and!. Qed.

Lemma replaced_same st0 ps st decoded :
  coll_ok (inner st0) -> since st0 ps st -> snapshot_segment (inner st0) (dirty_ids st0) decoded ->
  contents (replace_persisted_points (inner st) (seg_points decoded)) = contents (inner st) /\
  coll_ok (replace_persisted_points (inner st) (seg_points decoded)).
Proof.
  intros Hc Hs Hss. apply replace_persisted_contents; [apply Hs|]. apply Forall_forall. intros p Hp.
  pose proof (ss_views _ _ _ Hss) as Hv. eapply Forall_forall in Hv; [|exact Hp]. split; [intros v; by rewrite Hv|].
  intros cur Ecur Eseq. destruct (ss_points _ _ _ Hss) as (_ & Hin & _). destruct (Hin p Hp) as [_ E].
  assert (contents (inner st) !! sp_id p = Some (to_owned_point cur)) as Ec by (by rewrite lookup_contents, Ecur).
  apply (si_old _ _ _ Hs) in Ec; [congruence|]. change (sp_sequence cur <= sequence (inner st0)). rewrite Eseq.
  rewrite lookup_contents in E. destruct (points (inner st0) !! sp_id p) as [q|] eqn:Eq; [|done]. apply (inj Some) in E.
  destruct Hc as (_ & _ & Hpts). pose proof (Hpts _ _ Eq) as Hq. assert (sp_sequence q = sp_sequence p) as <- by (by injection E). apply Hq.
Qed.

(** Retiring the segments of the previous manifest. *)
Lemma retire_spec c name names old ps previous d :
  checkpointed c names old ps d -> (forall n, n ∈ names -> n = name) ->
  (forall m n, previous = Some m -> n ∈ man_segments m -> exists s, n = segment_name s) ->
  specifies (retire name previous) d (fun _ => checkpointed c names old ps) (checkpointed c names old ps).
Proof.
  intros Hck Hn Hp. unfold retire. destruct previous as [m|]; [|by apply spec_ret]. apply spec_for_each; [done|].
  intros n d' Hin Hd'. case_bool_decide as E; [by apply spec_ret|]. apply spec_ignore, spec_remove; [done|done|].
  destruct (Hp m n eq_refl Hin) as (s & ->).
  eapply checkpointed_agree; [| | | |exact Hd']; try (apply lookup_delete_ne; by apply segment_name_not).
  intros n' ->%Hn. apply lookup_delete_ne. done.
Qed.

(** The log is emptied only when nothing was written since the snapshot. *)
Lemma checkpoint_spec st0 ps st st1 names old d :
  since st0 ps st -> index_current st0 -> sequence (inner st1) = sequence (inner st) -> dirty_ids st1 = dirty_ids st ->
  checkpointed (inner st0) names old ps d ->
  specifies (checkpoint st1 (sequence (inner st0))) d
    (fun r d' => match r with
       | Ok dirty => (exists old, checkpointed (inner st0) names old ps d') /\ dirty ⊆ dirty_ids st /\
                     dirty = (if Z.eqb (sequence (inner st0)) (sequence (inner st)) then ∅ else dirty_ids st)
       | Err _ => store_ok avx2 st d'
       | Panic => False
       end) (store_ok avx2 st).
Proof.
  intros Hs Hi Eseq Ed Hck. assert (forall old d', checkpointed (inner st0) names old ps d' -> store_ok avx2 st d') as Hstore by (intros; by eapply checkpointed_current).
  unfold checkpoint. unfold latest_sequence, Collection.latest_sequence. rewrite Eseq, Z.eqb_sym, Ed. destruct (Z.eqb_spec (sequence (inner st0)) (sequence (inner st))) as [E|E].
  - destruct (proj2 (si_sequence _ _ _ Hs) (eq_sym E)) as [-> _]. pose proof (checkpointed_emptied _ _ _ _ Hck) as Hempty.
    apply spec_set_len_then; [by eapply Hstore|intros; by eapply Hstore|]. cbn [Z.to_nat firstn].
    apply spec_sync_then; [by eapply Hstore|intros; by eapply Hstore|]. apply spec_sync_then; [by eapply Hstore|intros; by eapply Hstore|].
    apply spec_ret. split; [by eexists|]. split; [set_solver|done].
  - apply spec_ret. split; [by eexists|done].
Qed.

Lemma publish_prepared_spec pid st0 ps st prepared d previous :
  ready st0 ps st prepared d -> manifest_dir d = Ok previous ->
  specifies (publish_prepared avx2 pid st prepared previous) d (published (sequence (inner st0)) st) (store_ok avx2 st).
Proof.
  intros Hready Eprev. pose proof Hready as (Hst & Hsi & Hty & Hpub & Eseq & Ecomp & Eidx & _).
  pose proof Hst as (Hc & Hi & base0 & old0 & rec0 & dirty0 & Hh & _).
  unfold publish_prepared. eapply spec_bind; [by apply (publish_segment_spec pid st0 ps st prepared d previous)|].
  intros [decoded|e|] d' Hd'; [|by apply spec_ret, published_failed|done]. destruct Hd' as ((old & Hck) & Hss & Hok & Hmatch).
  destruct (replaced_same st0 ps st decoded Hc Hsi Hss) as [Econt Hc'].
  set (c' := replace_persisted_points (inner st) (seg_points decoded)) in *. set (st1 := with_inner st c' []).
  assert (forall d', store_ok avx2 st d' -> store_ok avx2 st1 d') as Hsame by (intros d'' Hd''; by apply store_ok_same).
  rewrite Eseq. eapply spec_bind; [apply (checkpoint_spec st0 ps st st1 (new_names st0 d) old d'); [done..|by apply (right_id_L ∅ (∪))|done]|].
  intros [dirty|e|] d'' Hd''; [|by apply spec_ret, published_failed; auto|done].
  destruct Hd'' as ((old' & Hck') & Hsub & Edirty). set (names := new_names st0 d) in *.
  assert (forall id, id ∉ dirty -> contents (inner st0) !! id = contents (inner st) !! id) as Hout.
  { intros id Hid. symmetry. rewrite Edirty in Hid. destruct (Z.eqb_spec (sequence (inner st0)) (sequence (inner st))) as [E|_]; [|by apply Hsi].
    by destruct (proj2 (si_sequence _ _ _ Hsi) (eq_sym E)) as [_ ->]. }
  assert (forall d', checkpointed (inner st0) names old' ps d' -> published (sequence (inner st0)) st (Ok (sequence (inner st0)), install st1 prepared decoded dirty) d') as Hdone.
  { intros d3 Hd3. split_and!; [done|done|done| |done|].
    - eapply checkpointed_store; [exact Hsi|exact Hd3|done| |done|done|done|].
      + constructor.
        2: { cbn. rewrite (si_config _ _ _ Hsi). apply push_index_ok; [done|done|apply Hss|]. destruct (prep_compact prepared); [constructor|].
             destruct (since_index _ _ _ Hsi Hi) as [_ Hix]. by rewrite (si_config _ _ _ Hsi) in Hix. }
        intros mi Emi. cbn in Emi. rewrite Eidx in Emi. injection Emi as <-.
        exists (inner st0). split_and!; [try done; symmetry; apply Hsi..|]. intros id Hid.
        change (contents (inner st0) !! id = contents c' !! id). rewrite Econt. by apply Hout.
      + by apply Hout.
    - intros n [= <-]. split_and!; [done|done| |by eexists]. intros E. cbn. by rewrite Edirty, (proj2 (Z.eqb_eq _ _) E). }
  eapply (spec_bind _ _ _ (fun _ => checkpointed (inner st0) names old' ps)); [|intros _ d3 Hd3; apply spec_ret; by apply Hdone].
  rewrite Ecomp. destruct (snap_compact (flush_snapshot st0)) eqn:Efull; [|by apply spec_ret].
  eapply spec_mono; [apply (retire_spec (inner st0) _ names old' ps); [exact Hck'| |]|done|intros; by eapply checkpointed_current].
  - unfold names, new_names, previous_names. rewrite Efull. intros n Hn. by apply list_elem_of_singleton in Hn.
  - intros m n -> Hin. destruct (h_tidy _ _ _ _ _ _ Hh m Eprev) as [_ Ht]. eapply Forall_forall in Ht as (s & _ & ->); [|exact Hin]. by exists s.
Qed.

Lemma published_live seq st r d d' : (forall p, live_file p -> d' !! p = d !! p) -> published seq st r d -> published seq st r d'.
Proof. intros Hp (H1 & H2 & H3 & H4 & H5 & H6). split_and!; [done..| |done|done]. by eapply store_ok_live. Qed.

Lemma published_recoverable seq st r d : coll_ok (inner st) -> published seq st r d -> recoverable avx2 d (inner st).
Proof.
  intros Hc (H1 & H2 & H3 & H4 & _). apply store_ok_recoverable in H4. by eapply recoverable_same.
Qed.

Lemma flushed_recoverable st r d : coll_ok (inner st) -> flushed st r d -> recoverable avx2 d (inner st).
Proof.
  intros Hc (H1 & H2 & H3 & H4 & _). apply store_ok_recoverable in H4. by eapply recoverable_same.
Qed.

Lemma publish_flush_spec pid st0 ps st prepared d :
  ready st0 ps st prepared d ->
  specifies (publish_flush avx2 pid st prepared) d (published (sequence (inner st0)) st) (fun d' => recoverable avx2 d' (inner st)).
Proof.
  intros Hready. pose proof Hready as (Hst & Hsi & _ & [_ Hpub] & Eseq & _ & _ & Hscr & _). pose proof (since_store _ _ _ _ Hsi Hst) as Hnow.
  pose proof (si_ok _ _ _ Hsi) as Hc.
  unfold publish_flush. eapply (spec_bind _ _ _ (published (sequence (inner st0)) st)).
  - eapply (spec_mono _ _ (published (sequence (inner st0)) st) _ (store_ok avx2 st)); [|done|by intros d' ?%store_ok_recoverable].
    destruct (read_manifest_dir d) as [Hread _]. eapply spec_bind.
    { eapply spec_mono; [exact Hread|intros r d' Hr; exact Hr|by intros d' ->]. }
    intros r d' [-> Hr]. destruct r as [previous|e|]; [|by apply spec_ret, published_failed|].
    2: { destruct Hr as [Hr|(e & Hr)]; [|done]. exfalso; by apply (manifest_dir_total d). }
    destruct Hr as [Hr|(e & Hr)]; [|done]. symmetry in Hr. destruct previous as [m|].
    + destruct (Hpub m Hr) as [Hlt _]. rewrite Eseq, (proj2 (Z.ltb_ge _ _)) by lia. by eapply publish_prepared_spec.
    + by eapply publish_prepared_spec.
  - intros r d' Hr. eapply (spec_bind _ _ _ (fun _ => published (sequence (inner st0)) st r)); [|intros _ d'' Hd''; by apply spec_ret].
    apply spec_ignore, spec_remove; [by eapply published_recoverable|done|].
    eapply published_live; [|exact Hr]. intros p Hp. apply lookup_delete_ne. intros <-. by apply Hscr.
Qed.

(** What flushing needs: the Rust types' ranges, a manifest that the next
    sequence extends, and a temporary name outside the collection. *)
Definition flushable (st : PersistentCollection) (temporary : string) (d : Dir) : Prop :=
  typed (inner st) /\ scratch temporary /\
  forall m, manifest_dir d = Ok (Some m) -> man_sequence m < sequence (inner st) /\
    (snap_compact (flush_snapshot st) = false -> zlen (man_segments m) <= MAX_INDEX_SEGMENTS).

Lemma flushable_publishable st temporary d0 d :
  store_ok avx2 st d0 -> flushable st temporary d0 -> d !! "MANIFEST" = d0 !! "MANIFEST" ->
  publishable d (sequence (inner st)) (snap_compact (flush_snapshot st)).
Proof.
  intros (_ & _ & _ & _ & _ & _ & _ & _ & _ & _ & Hidx) (_ & _ & Hpub) Em. split.
  - intros Ecomp. rewrite Em. apply Hidx. unfold flush_snapshot in Ecomp. cbn in Ecomp. intros E. by rewrite bool_decide_eq_true_2 in Ecomp.
  - intros m Hm. apply Hpub. unfold manifest_dir in *. by rewrite <- Em.
Qed.

(** What a built segment's file has to keep until it is published. *)
Definition built (st : PersistentCollection) (temporary : string) (prepared : PreparedFlush) (d : Dir) : Prop :=
  let s := flush_snapshot st in
  prep_sequence prepared = sequence (inner st) /\ temporary_segment prepared = temporary /\ prep_compact prepared = snap_compact s /\
  prep_metadata_index prepared = Some (MetadataIndex.build (snapshot_stored_points (inner st))) /\
  exists bytes index, d !! temporary = Some bytes /\
    segment_bytes (config (inner st)) (sequence (inner st)) (snap_segment_points s) (snap_tombstones s) (snap_compact s) index = Ok bytes.

Lemma built_ready st0 ps st temporary prepared d0 d :
  store_ok avx2 st0 d0 -> flushable st0 temporary d0 -> d !! "MANIFEST" = d0 !! "MANIFEST" ->
  store_since st0 ps d -> since st0 ps st -> built st0 temporary prepared d -> ready st0 ps st prepared d.
Proof.
  intros H0 Hf Em Hst Hs (H1 & H2 & H3 & H4 & H5). split; [done|]. split; [done|]. split; [apply Hf|].
  split; [by eapply flushable_publishable|]. rewrite H2. split_and!; [done..|apply Hf|done].
Qed.

Lemma since_refl st : coll_ok (inner st) -> since st [] st.
Proof. intros Hc. by apply wrote_since, wrote_none. Qed.

Lemma flush_spec st d workers pid temporary :
  store_ok avx2 st d -> flushable st temporary d ->
  specifies (flush avx2 workers pid temporary st) d (flushed st) (fun d' => recoverable avx2 d' (inner st)).
Proof.
  intros Hst Hf. pose proof Hst as (Hc & _). pose proof Hf as (_ & Hscr & _).
  unfold flush. destruct (_ && _) eqn:Eclean.
  { apply spec_ret. split_and!; [done..|]. cbn. intros n [= <-]. split; [done|].
    apply andb_true_iff in Eclean as [Ed _]. by apply bool_decide_eq_true in Ed. }
  assert (forall d', except temporary d d' -> store_ok avx2 st d') as Hex.
  { intros d' He. eapply store_ok_live; [by eapply except_live|done]. }
  eapply spec_bind.
  - eapply spec_mono; [apply (build_flush_spec workers temporary st d)|intros r d' Hr; exact Hr|].
    cbv beta. intros d' He. apply store_ok_recoverable, Hex, He.
  - cbv beta. intros r d' [He Hr]. assert (store_ok avx2 st d') as Hst' by (by apply Hex).
    destruct r as [p|e|]; [|by apply spec_ret; split_and!..].
    eapply spec_mono; [apply (publish_flush_spec pid st []); apply (built_ready st [] st temporary p d d'); [done|done| | | |]|by intros r ?; apply published_flushed|done].
    + eapply except_live; [exact Hscr|done|unfold live_file; tauto].
    + by apply store_ok_since.
    + by apply since_refl.
    + by apply Hr.
Qed.

End Publish.

(** The first flush of a two-point collection; the process dies while the new
    manifest is being written, after five of its bytes. *)
Definition demo_temporary : string := ".segment-1.tmp".
Definition demo_crash : list Fault := repeat Proceed 7 ++ [Crashes 5].

Lemma demo_flushable : flushable demo_store1 demo_temporary demo_dir1.
Proof.
  split; [split|split].
  - apply (bool_decide_unpack _). vm_compute. exact I.
  - apply (bool_decide_unpack _). vm_compute. exact I.
  - by apply scratch_dot.
  - intros m Hm. vm_compute in Hm. discriminate Hm.
Qed.


(** The same collection flushed. *)
Definition demo_flushed : PersistentCollection * Dir :=
  match @flush x86_64_env true 2 7 demo_temporary demo_store1 (MkWorld demo_dir1 []) with
  | Returned (_, st) w => (st, disk w)
  | Crashed d => (demo_store1, d)
  end.

Lemma demo_flushed_ok : @store_ok x86_64_env true demo_flushed.1 demo_flushed.2 /\ dirty_ids demo_flushed.1 = ∅.
Proof.
  pose proof (@flush_spec x86_64_env true demo_store1 demo_dir1 2 7 demo_temporary demo_store1_ok demo_flushable []) as Hs.
  unfold demo_flushed.
  assert (match @flush x86_64_env true 2 7 demo_temporary demo_store1 (MkWorld demo_dir1 []) with Returned (Ok _, _) _ => true | _ => false end = true) as Hok
    by (vm_compute; reflexivity).
  destruct (flush _ _ _ _ _ _) as [[[n|e|] st] w|d]; [|discriminate Hok..]. destruct Hs as (_ & _ & _ & Hst & Hd). split; [exact Hst|].
  by destruct (Hd n eq_refl) as [_ Hd'].
Qed.
