(* ===== verification/QueryFacts.v ===== *)
(** * QueryFacts: what the persistent collection's searches return

    A filtered search goes through the metadata index and the set of unflushed
    identifiers; an unfiltered one through the segments' graphs.  The first is
    the exact scan; the second is the exact answer among the points the graphs
    proposed and all the unflushed ones, every hit scored exactly. *)

From stdpp Require Import base gmap sets list strings sorting.
From Stdlib Require Import ZArith Lia.
From S2P Require Import Prelude Errors Floats Ranking Metric Filter MetadataIndex Quantize.
From S2P Require Hnsw HnswFacts HnswSearch.
From S2P Require Import Collection CollectionFacts Codec Wire WireFacts Wal Disk DiskFacts Segment SegmentFacts.
From S2P Require Import Manifest ManifestFacts Persistence Recovery Durability FlushFacts.

(** ** Merging *)

Lemma dedup_ids_by last l : dedup_ids last l = dedup_by hit_id last l.
Proof.
  revert last. induction l as [|h l IH]; intros last; [done|]. cbn [dedup_ids dedup_by].
  case_bool_decide; case_decide; [apply IH|done|done|by rewrite IH].
Qed.

(** Merging any part of a ranked universe that has its best [k]. *)
Lemma merge_hits_between l u k :
  NoDup (map hit_id u) -> truncate k (sort_by hit_cmp u) ⊆ l -> l ⊆ u -> merge_hits l k = truncate k (sort_by hit_cmp u).
Proof.
  intros Hn Hk Hsub. unfold merge_hits. rewrite dedup_ids_by. pose proof (separates_by_id u Hn) as Hsep.
  assert (keyed hit_id u) as Hkey.
  { intros x y [i Hx]%list_elem_of_lookup [j Hy]%list_elem_of_lookup E. assert (i = j) as ->; [|congruence].
    eapply (NoDup_lookup (map hit_id u)); [done| |]; rewrite list_lookup_fmap; [by rewrite Hx|by rewrite Hy, E]. }
  destruct (dedup_sort_spec hit_cmp hit_id l) as (H1 & H2 & H3); [by eapply separates_sub|by eapply keyed_sub|].
  set (s := dedup_by _ _ _) in *. unfold truncate in *. rewrite <- (sort_by_id hit_cmp s) by (done || by apply separates_by_id).
  apply take_sort_between; [apply _|done|by eapply NoDup_fmap_1|by eapply NoDup_fmap_1| |]; intros h; rewrite H3; [apply Hsub|apply Hk].
Qed.

(** The part of a collection's contents at the given identifiers. *)
Definition restrict (ids : gset string) (m : gmap string Point) : gmap string Point :=
  base.filter (fun kv : string * Point => kv.1 ∈ ids) m.

Lemma lookup_restrict ids m id : restrict ids m !! id = if decide (id ∈ ids) then m !! id else None.
Proof.
  unfold restrict. case_decide as Hid.
  - destruct (m !! id) as [p|] eqn:E; [by apply map_lookup_filter_Some|]. apply map_lookup_filter_None. by left.
  - apply map_lookup_filter_None. by right.
Qed.

Lemma restrict_ids ids m : ids_match m -> ids_match (restrict ids m).
Proof. intros Hm id p. rewrite lookup_restrict. case_decide; [apply Hm|done]. Qed.

Section Queries.
Context `{FloatEnv}.

Lemma elem_of_scored cfg q m f h :
  ids_match m -> h ∈ map (scored cfg q) (selected m f) <->
  exists p, m !! hit_id h = Some p /\ matches_opt f (pt_metadata p) = true /\ h = scored cfg q p.
Proof.
  intros Hm. rewrite list_elem_of_fmap. split.
  - intros (p & -> & [Hp Hf]%elem_of_selected); [|done]. by exists p.
  - intros (p & Hp & Hf & E). exists p. split; [done|]. apply elem_of_selected; [done|]. by rewrite (Hm _ _ Hp).
Qed.

(** Searching some identifiers is searching the part of the collection there. *)
Lemma search_ids_exact c query k ids f :
  coll_ok c -> 0 <= k ->
  search_ids c query k ids f =
    (let? q := validate_query c query k in Ok (exact_hits (config c) (restrict ids (contents c)) q k f)).
Proof.
  intros Hc Hk. unfold search_ids. destruct (validate_query c query k) as [q| |]; [cbn [rbind]|done..]. f_equal.
  pose proof (contents_ids c Hc) as Hid. pose proof (restrict_ids ids _ Hid) as Hrid.
  set (ps := List.filter (fun p => matches_opt f (sp_metadata p)) (omap (fun id => points c !! id) (elements ids))).
  assert (NoDup (map sp_id ps)) as Hn.
  { eapply sublist_NoDup with (l2 := map sp_id (omap (fun id => points c !! id) (elements ids))); [|apply fmap_sublist, filter_sublist].
    assert (forall l, NoDup l -> NoDup (map sp_id (omap (fun id => points c !! id) l)) /\
      forall x, x ∈ map sp_id (omap (fun id => points c !! id) l) -> x ∈ l) as Hl; [|by apply Hl, NoDup_elements].
    destruct Hc as (_ & _ & Hp). induction l as [|id l IH]; intros Hnd; [split; [constructor|done]|].
    apply NoDup_cons in Hnd as [Hid' Hnd]. destruct (IH Hnd) as [H1 H2]. cbn. destruct (points c !! id) as [p|] eqn:E.
    - destruct (Hp id p E) as (Ei & _). cbn. rewrite Ei. split; [constructor; [intros Hx%H2; done|done]|].
      intros x [->|Hx]%elem_of_cons; [left|right; by apply H2].
    - split; [done|]. intros x Hx. right. by apply H2. }
  rewrite top_k_sorted by done. unfold exact_hits. f_equal. apply sort_by_perm_eq; [apply _| |].
  - apply separates_by_id. rewrite map_map. done.
  - apply NoDup_Permutation.
    + apply (NoDup_fmap_1 hit_id). change (NoDup (map hit_id (map (fun p => scored (config c) q (to_owned_point p)) ps))). by rewrite map_map.
    + apply (NoDup_fmap_1 hit_id). change (NoDup (map hit_id (map (scored (config c) q) (selected (restrict ids (contents c)) f)))).
      rewrite map_map. by apply NoDup_ids_selected.
    + intros h. change ((fun p => scored (config c) q (to_owned_point p)) <$> ps) with (map (fun p => scored (config c) q (to_owned_point p)) ps).
      rewrite elem_of_scored by done. rewrite list_elem_of_fmap. split.
      * intros (p & -> & [Hp Hf]%list_elem_of_In%filter_In). apply list_elem_of_In, list_elem_of_omap in Hp as (id & Hin & E).
        exists (to_owned_point p). cbn. rewrite lookup_restrict. destruct Hc as (_ & _ & Hc). destruct (Hc id p E) as (Ei & _).
        rewrite Ei, decide_True by (by apply elem_of_elements). rewrite lookup_contents, E. done.
      * intros (p & Hp & Hf & E). rewrite lookup_restrict in Hp. case_decide; [|done]. rewrite lookup_contents in Hp.
        apply fmap_Some in Hp as (p0 & E0 & ->). exists p0. split; [done|]. apply list_elem_of_In, filter_In. split; [|done].
        apply list_elem_of_In, list_elem_of_omap. exists (hit_id h). split; [by apply elem_of_elements|done].
Qed.

(** The points at [found] and those at [ids]. *)
Lemma scored_union cfg q m f found ids :
  ids_match m -> found ## ids ->
  map (scored cfg q) (selected (restrict found m) f) ++ map (scored cfg q) (selected (restrict ids m) f)
    ≡ₚ map (scored cfg q) (selected (restrict (found ∪ ids) m) f).
Proof.
  intros Hm Hdisj. rewrite <- map_app. apply (fmap_Permutation (scored cfg q)).
  assert (forall part, NoDup (selected (restrict part m) f)) as Hn by (intros part; by eapply NoDup_fmap_1, NoDup_ids_selected, restrict_ids).
  apply NoDup_Permutation; [apply NoDup_app; split; [done|split; [|done]]|done|]; intros p; rewrite ?elem_of_app, !elem_of_selected, !lookup_restrict by (by apply restrict_ids).
  - intros [Hp _] [Hp' _]. do 2 (case_decide; [|done]). set_solver.
  - rewrite (decide_ext (pt_id p ∈ found ∪ ids) (pt_id p ∈ found \/ pt_id p ∈ ids)) by set_solver.
    repeat case_decide; naive_solver.
Qed.

(** Merging hits at [found] that include the best [k] with the exact answer
    over [ids]: the exact answer over both. *)
Lemma merge_exact_part cfg q k f m hits found ids :
  ids_match m -> found ## ids ->
  exact_hits cfg (restrict found m) q k f ⊆ hits -> hits ⊆ map (scored cfg q) (selected (restrict found m) f) ->
  merge_hits (hits ++ exact_hits cfg (restrict ids m) q k f) k = exact_hits cfg (restrict (found ∪ ids) m) q k f.
Proof.
  intros Hm Hdisj Hbest Hsub. pose proof (scored_union cfg q m f found ids Hm Hdisj) as Hu. unfold exact_hits in *.
  set (a := map _ (selected (restrict found m) f)) in *. set (b := map _ (selected (restrict ids m) f)) in *. set (u := map _ (selected (restrict (found ∪ ids) m) f)) in *.
  assert (NoDup (map hit_id u)) as Hn by (unfold u; rewrite map_map; by apply NoDup_ids_selected, restrict_ids).
  pose proof (separates_by_id u Hn) as Hsep. apply merge_hits_between; [done| |].
  - assert (separates hit_cmp (a ++ b)) as Hab by (by eapply separates_perm; [symmetry|]).
    rewrite (sort_by_perm_eq hit_cmp u (a ++ b)) by done. unfold truncate in *.
    rewrite <- (take_sort_app_r hit_cmp _ a b) by done. rewrite <- (take_sort_app_l hit_cmp).
    + intros h Hh%elem_of_truncate. rewrite elem_of_sort_by in Hh. set_solver.
    + eapply separates_sub; [|exact Hab]. set_solver.
  - intros h. rewrite <- Hu, !elem_of_app. intros [Hh|Hh%elem_of_truncate]; [left; by apply Hsub|right]. by rewrite elem_of_sort_by in Hh.
Qed.

Lemma exact_hits_part cfg q k f m : exact_hits cfg m q k f ⊆ map (scored cfg q) (selected m f).
Proof. intros h Hh%elem_of_truncate. by rewrite elem_of_sort_by in Hh. Qed.

(** A live point outside [dirty] that satisfies the filter, scored exactly. *)
Definition live_match c (dirty : gset string) (q : list Z) (f : option Filter) (h : SearchHit) : Prop :=
  exists p, contents c !! hit_id h = Some p /\ hit_id h ∉ dirty /\ matches_opt f (pt_metadata p) = true /\ h = scored (config c) q p.

(** Such hits are the whole answer among themselves. *)
Lemma live_hits_part c dirty q f k hits :
  ids_match (contents c) -> Forall (live_match c dirty q f) hits ->
  let found := list_to_set (map hit_id hits) : gset string in
  found ## dirty /\ exact_hits (config c) (restrict found (contents c)) q k f ⊆ hits /\
  hits ⊆ map (scored (config c) q) (selected (restrict found (contents c)) f).
Proof.
  intros Hid Hlive found. rewrite Forall_forall in Hlive.
  assert (forall h, h ∈ map (scored (config c) q) (selected (restrict found (contents c)) f) <-> h ∈ hits) as Hset.
  { intros h. rewrite elem_of_scored by (by apply restrict_ids). rewrite lookup_restrict. split.
    - intros (p & Hp & _ & E). case_decide as Hin; [|done]. apply elem_of_list_to_set, list_elem_of_fmap in Hin as (h' & Eh & Hh').
      destruct (Hlive h' Hh') as (p' & Hp' & _ & _ & E'). rewrite <- Eh, Hp in Hp'. injection Hp' as <-. by rewrite E, <- E'.
    - intros Hh. destruct (Hlive h Hh) as (p & Hp & _ & Hf & E). exists p.
      by rewrite decide_True by (apply elem_of_list_to_set; by apply list_elem_of_fmap_2). }
  split_and!.
  - intros id Hin Hd. apply elem_of_list_to_set, list_elem_of_fmap in Hin as (h & -> & Hh). by destruct (Hlive h Hh) as (p & _ & Hn & _).
  - intros h Hh%exact_hits_part. by apply Hset.
  - intros h Hh. by apply Hset.
Qed.

(** ** Filtered searches *)

Lemma selected_restrict m f ids :
  ids_match m -> (forall id p, m !! id = Some p -> matches_opt f (pt_metadata p) = true -> id ∈ ids) ->
  selected (restrict ids m) f ≡ₚ selected m f.
Proof.
  intros Hm Hids. pose proof (restrict_ids ids m Hm) as Hr.
  apply NoDup_Permutation; [by eapply NoDup_fmap_1, (NoDup_ids_selected _ f Hr)|by eapply NoDup_fmap_1, (NoDup_ids_selected _ f Hm)|].
  intros p. rewrite !elem_of_selected, lookup_restrict by done. split; [case_decide; [done|by intros [? _]]|].
  intros [Hp Hf]. rewrite decide_True by (by eapply Hids). done.
Qed.

Lemma exact_hits_perm cfg m m' q k f :
  ids_match m -> selected m f ≡ₚ selected m' f -> exact_hits cfg m q k f = exact_hits cfg m' q k f.
Proof.
  intros Hm Hp. unfold exact_hits. f_equal. apply sort_by_perm_eq; [apply _|by apply selected_separates|].
  by apply (fmap_Permutation (scored cfg q)).
Qed.

Lemma snapshot_points_wf c : coll_ok c -> typed c -> points_wf (snapshot_stored_points c).
Proof.
  intros Hc Ht. split; [apply (snapshot_lists c Hc)|]. intros p fd v Hp E. pose proof (snapshot_typed c Hc Ht) as Hall.
  eapply Forall_forall in Hall as (_ & _ & Hm & _); [|exact Hp]. exact (Hm fd v E).
Qed.

(** What the metadata index answers for the points it describes. *)
Lemma candidates_current c0 (m : gmap string Point) f (dirty : gset string) :
  coll_ok c0 -> typed c0 -> filter_wf f -> (forall id, id ∉ dirty -> contents c0 !! id = m !! id) ->
  exists s, candidates (build (snapshot_stored_points c0)) f = Ok s /\
    forall id p, m !! id = Some p -> matches f (pt_metadata p) = true -> id ∈ s ∪ dirty.
Proof.
  intros Hc Ht Hf Hm. destruct (candidates_answer _ (snapshot_points_wf c0 Hc Ht) f Hf) as (s & Es & Hs).
  exists s. split; [done|]. intros id p Hp Hmatch. destruct (decide (id ∈ dirty)) as [?|Hd]; [set_solver|].
  apply elem_of_union_l, Hs. rewrite <- Hm in Hp by done. destruct (snapshot_lists c0 Hc) as (_ & Hin & Hall).
  destruct (list_elem_of_fmap_1 _ _ _ (Hall id p I Hp)) as (p0 & -> & Hp0). destruct (Hin p0 Hp0) as [_ E].
  exists p0. split; [done|]. split; [done|]. rewrite Hp in E. injection E as ->. exact Hmatch.
Qed.

(** C5 (filtered_search_exact). A filtered search of the persistent collection
    is the exact scan: the metadata index, stale for unflushed writes, and the
    separate search of the unflushed identifiers together give the same hits in
    the same order, and the same errors, as searching every live point. *)
Theorem filtered_search_exact st query k f :
  coll_ok (inner st) -> index_current st -> filter_wf f -> 0 <= k ->
  filtered_search st query k f = Collection.search (inner st) query k (Some f).
Proof.
  intros Hc Hi Hf Hk. unfold filtered_search. destruct (metadata_index st) as [mi|] eqn:Emi; [|done].
  destruct (ic_metadata _ Hi mi Emi) as (c0 & Hc0 & Ht0 & -> & Hm). pose proof (contents_ids _ Hc) as Hid.
  destruct (candidates_current c0 (contents (inner st)) f (dirty_ids st) Hc0 Ht0 Hf Hm) as (s & -> & Hs). cbn [rbind].
  rewrite !search_ids_exact, search_exact_hits by done. destruct (validate_query _ _ _) as [q| |]; [cbn [rbind]|done..]. f_equal.
  rewrite (merge_exact_part _ _ _ _ _ _ (s ∖ dirty_ids st)); [|done|set_solver|done|apply exact_hits_part].
  apply exact_hits_perm; [by apply restrict_ids|]. apply selected_restrict; [done|]. intros id p Hp Hmatch.
  pose proof (Hs id p Hp Hmatch) as Hin. destruct (decide (id ∈ dirty_ids st)); set_solver.
Qed.

(** ** Searches through the graphs *)

Context (avx2 : bool).

(** A hit that an index segment contributed: a live, flushed point, scored exactly. *)
Definition live_hit (st : PersistentCollection) (q : list Z) (h : SearchHit) : Prop :=
  exists p, contents (inner st) !! hit_id h = Some p /\ hit_id h ∉ dirty_ids st /\ h = scored (config (inner st)) q p.

Lemma rescore_live st segment q hit h :
  coll_ok (inner st) -> rescore st segment q hit = Some h -> live_hit st q h.
Proof.
  intros (_ & _ & Hp). unfold rescore, get_stored. destruct (points (inner st) !! Hnsw.hit_id hit) as [p|] eqn:E; [|done].
  case_bool_decide as Hd; [done|]. cbn [orb]. destruct (_ <? _); [done|]. intros [= <-]. exists (to_owned_point p). cbn.
  rewrite lookup_contents, E. destruct (Hp _ _ E) as (Ei & _). split_and!; [done|done|]. unfold scored. cbn. by rewrite Ei.
Qed.

Definition same_segment (s s' : IndexSegment) : Prop := is_sequence s' = is_sequence s /\ is_index s' = is_index s.

Lemma search_segment_ok st query q k ef hits searched segment :
  coll_ok (inner st) -> index_ok (config (inner st)) segment -> 0 < k <= ef ->
  zlen query = dimension (config (inner st)) -> prepare (metric (config (inner st))) query = Ok q ->
  Forall (live_hit st q) hits ->
  exists hits' segment', search_segment avx2 st query q k ef (hits, searched) segment = Ok (hits', searched ++ [segment']) /\
    Forall (live_hit st q) hits' /\ same_segment segment segment' /\ index_ok (config (inner st)) segment'.
Proof.
  intros Hc (Hg & Hd & Hm & Hidle) Hk Hq Hp Hhits. unfold search_segment.
  set (rerank := if bool_decide _ then _ else _). set (graph_k := Z.min rerank _).
  assert (0 <= graph_k) as H0.
  { unfold graph_k, rerank, Hnsw.len, saturating_mul, USIZE_MAX, U64_MAX. pose proof (zlen_nonneg (Hnsw.nodes (is_index segment))).
    destruct (bool_decide _); lia. }
  destruct (Z.eqb_spec graph_k 0) as [E|E]; [by exists hits, segment|].
  destruct (HnswSearch.hnsw_search_sound avx2 (is_index segment) query graph_k (Z.max ef graph_k) q) as (found & Hs & _);
    [done|lia|congruence|congruence|].
  destruct (Hs (idle segment) Hidle) as (pool & Hpool & ->). cbn [rbind].
  exists (hits ++ omap (rescore st segment q) found), (MkIndexSegment (is_sequence segment) (is_index segment) pool).
  split; [done|]. split; [|done]. apply Forall_app. split; [done|]. apply Forall_forall. intros h (x & _ & Hx)%list_elem_of_omap.
  by eapply rescore_live.
Qed.

Lemma search_segments_ok st query q k ef segments hits searched :
  coll_ok (inner st) -> Forall (index_ok (config (inner st))) segments -> 0 < k <= ef ->
  zlen query = dimension (config (inner st)) -> prepare (metric (config (inner st))) query = Ok q ->
  Forall (live_hit st q) hits ->
  exists hits' segments', foldM_result (search_segment avx2 st query q k ef) (hits, searched) segments = Ok (hits', searched ++ segments') /\
    Forall (live_hit st q) hits' /\ Forall2 same_segment segments segments' /\ Forall (index_ok (config (inner st))) segments'.
Proof.
  intros Hc Hall Hk Hq Hp. revert hits searched. induction Hall as [|segment segments Hseg Hall IH]; intros hits searched Hhits; cbn [foldM_result].
  - exists hits, []. rewrite app_nil_r. by split_and!.
  - destruct (search_segment_ok st query q k ef hits searched segment Hc Hseg Hk Hq Hp Hhits) as (h1 & s1 & -> & Hh1 & Hs1 & Hok1). cbn [rbind].
    destruct (IH h1 (searched ++ [s1]) Hh1) as (h2 & s2 & -> & Hh2 & Hs2 & Hok2). exists h2, (s1 :: s2). rewrite <- app_assoc.
    split; [done|]. split; [done|]. split; by constructor.
Qed.

Lemma restrict_all ids m : (forall id p, m !! id = Some p -> id ∈ ids) -> restrict ids m = m.
Proof.
  intros Hids. apply map_eq. intros id. rewrite lookup_restrict. case_decide as Hd; [done|].
  destruct (m !! id) as [p|] eqn:E; [|done]. by apply Hids in E.
Qed.

(** The handle after a search: only the indexes' idle workspaces differ. *)
Definition searched (st st' : PersistentCollection) : Prop :=
  st' = with_indexes st (indexes st') /\ Forall2 same_segment (indexes st) (indexes st') /\ index_current st'.

End Queries.

(** Searching the flushed two-point collection: 1065353216 is 1.0. *)
Lemma filtered_search_witness :
  @filtered_search x86_64_env demo_flushed.1 [1065353216; 0] 1 (FNot (FEq "k" (Integer 1))) =
  @Collection.search x86_64_env (inner demo_flushed.1) [1065353216; 0] 1 (Some (FNot (FEq "k" (Integer 1)))) /\
  is_Some (metadata_index demo_flushed.1).
Proof.
  destruct demo_flushed_ok as [(Hc & Hi & _) _]. split.
  - apply (@filtered_search_exact x86_64_env); [exact Hc|exact Hi| |discriminate].
    vm_compute. split; [discriminate|reflexivity].
  - vm_compute. by eexists.
Defined.

