(* ===== verification/Environment.v ===== *)
(** * Environment: integers and settings read from text

    [str::parse] for unsigned integers, and the CUDA search configuration from
    environment variables ([src/src/cuda.rs]). *)

From Stdlib Require Import Ascii.
From stdpp Require Import base strings pretty.
From Stdlib Require Import ZArith Lia.
From S2P Require Import Prelude Errors Floats Disk Collection Persistence ManifestFacts.

(** ** [u64::from_str]: an optional plus sign and decimal digits *)

Definition digit (c : ascii) : option Z :=
  let n := Z.of_N (N_of_ascii c) in if Z.leb 48 n && Z.leb n 57 then Some (n - 48) else None.

(** Every step is checked, as in the library's loop. *)
Fixpoint parse_digits (max acc : Z) (s : string) : option Z :=
  match s with
  | EmptyString => Some acc
  | String c s' =>
      match digit c with
      | None => None
      | Some d => if Z.ltb max (acc * 10 + d) then None else parse_digits max (acc * 10 + d) s'
      end
  end.

Definition parse_unsigned (max : Z) (s : string) : option Z :=
  match s with
  | EmptyString => None
  | String "+" EmptyString => None
  | String "+" digits => parse_digits max 0 digits
  | digits => parse_digits max 0 digits
  end.

Definition to_ascii_lowercase (s : string) : string :=
  String.string_of_list_ascii (map (fun c =>
    let n := N_of_ascii c in if N.leb 65 n && N.leb n 90 then ascii_of_N (n + 32) else c) (String.list_ascii_of_string s)).

(** ** [CudaSearchConfig] *)

Record CudaSearchConfig : Type := MkCuda { mode : CudaSearchMode; device : Z; min_vectors : Z }.

Definition default_cuda : CudaSearchConfig := MkCuda Disabled 0 10000.

(** The process environment: a variable may not be UTF-8. *)
Inductive EnvValue : Type := Utf8 (value : string) | NotUtf8.

Section Env.
Context (var_os : string -> option EnvValue).

Definition parse_usize_env (name : string) (default : Z) : Result Z :=
  match var_os name with
  | None => Ok default
  | Some NotUtf8 => Err (InvalidConfiguration (name +:+ " is not UTF-8"))
  | Some (Utf8 value) =>
      match parse_unsigned USIZE_MAX value with
      | Some n => Ok n
      | None => Err (InvalidConfiguration (name +:+ " must be a non-negative integer"))
      end
  end.

Definition parse_mode (mode : string) : Result CudaSearchMode :=
  let mode := to_ascii_lowercase mode in
  if existsb (String.eqb mode) [""; "0"; "off"; "false"; "disabled"] then Ok Disabled
  else if existsb (String.eqb mode) ["1"; "on"; "true"; "auto"; "preferred"] then Ok Preferred
  else if String.eqb mode "required" then Ok Required
  else Err (InvalidConfiguration "FOCAL_CUDA must be off, auto, or required").

Definition from_env : Result CudaSearchConfig :=
  match var_os "FOCAL_CUDA" with
  | None => Ok default_cuda
  | Some NotUtf8 => Err (InvalidConfiguration "FOCAL_CUDA is not UTF-8")
  | Some (Utf8 mode) =>
      let? mode := parse_mode mode in
      let? device := parse_usize_env "FOCAL_CUDA_DEVICE" 0 in
      let? min_vectors := parse_usize_env "FOCAL_CUDA_MIN_VECTORS" 10000 in
      Ok (MkCuda mode device min_vectors)
  end.
End Env.

(** [PersistentCollection::open] *)
Definition open `{FloatEnv} (avx2 : bool) (var_os : string -> option EnvValue) (config : CollectionConfig) (durability : Durability)
    (lock : LockOutcome) : io (Result PersistentCollection) :=
  let*? cuda := iolift (from_env var_os) in
  open_with_cuda avx2 config durability (mode cuda) lock.

(** ** A number that was printed parses back *)

Fixpoint digits_only (s : string) : bool :=
  match s with EmptyString => true | String c s' => match digit c with Some _ => true | None => false end && digits_only s' end.

Lemma digit_value c d : digit c = Some d -> d = Z.of_N (N_of_ascii c - 48) /\ 0 <= d.
Proof.
  unfold digit. destruct (Z.leb_spec 48 (Z.of_N (N_of_ascii c))); [|done]. destruct (Z.leb_spec (Z.of_N (N_of_ascii c)) 57); [|done].
  cbn [andb]. intros [= <-]. lia.
Qed.

Lemma dec_value_mono s acc : (acc <= dec_value acc s)%N.
Proof. revert acc. induction s as [|c s IH]; intros acc; cbn [dec_value]; [lia|]. specialize (IH (10 * acc + (N_of_ascii c - 48))%N). lia. Qed.

Lemma parse_digits_value max s acc :
  digits_only s = true -> Z.of_N (dec_value acc s) <= max -> parse_digits max (Z.of_N acc) s = Some (Z.of_N (dec_value acc s)).
Proof.
  revert acc. induction s as [|c s IH]; intros acc Hd Hm; [done|]. cbn [digits_only parse_digits dec_value] in *.
  destruct (digit c) as [d|] eqn:Ed; [|done]. apply digit_value in Ed as [-> Hd0].
  assert (Z.of_N acc * 10 + Z.of_N (N_of_ascii c - 48) = Z.of_N (10 * acc + (N_of_ascii c - 48))) as -> by lia.
  pose proof (dec_value_mono s (10 * acc + (N_of_ascii c - 48))%N). rewrite (proj2 (Z.ltb_ge _ _)) by lia. by apply IH.
Qed.

Lemma parse_digits_range max s acc n : 0 <= acc <= max -> parse_digits max acc s = Some n -> 0 <= n <= max.
Proof.
  revert acc. induction s as [|c s IH]; intros acc Ha; cbn [parse_digits]; [by intros [= <-]|].
  destruct (digit c) as [d|] eqn:Ed; [|done]. apply digit_value in Ed as [_ Hd0].
  destruct (Z.ltb_spec max (acc * 10 + d)); [done|]. apply IH. lia.
Qed.

Lemma pretty_N_go_digits x s : digits_only s = true -> digits_only (pretty_N_go x s) = true.
Proof.
  revert s. induction (N.lt_wf_0 x) as [x _ IH]. intros s Hs.
  destruct (decide (x = 0%N)) as [->|Hx]; [by rewrite pretty_N_go_0|].
  rewrite pretty_N_go_step by lia. apply IH; [apply N.div_lt; lia|]. cbn [digits_only]. rewrite Hs, andb_true_r.
  assert (x mod 10 < 10)%N as Hm by (by apply N.mod_lt). revert Hm. generalize (x mod 10)%N. intros y Hy.
  assert (y = 0 \/ y = 1 \/ y = 2 \/ y = 3 \/ y = 4 \/ y = 5 \/ y = 6 \/ y = 7 \/ y = 8 \/ y = 9)%N as Hc by lia.
  by repeat destruct Hc as [->|Hc]; subst.
Qed.

Lemma fmt_int_digits z : 0 <= z -> digits_only (fmt_int z) = true.
Proof.
  intros Hz. unfold fmt_int. destruct z as [|p|p]; [done| |lia].
  change (pretty (Z.pos p)) with (pretty (N.pos p)). unfold pretty, pretty_N.
  rewrite decide_False by done. by apply pretty_N_go_digits.
Qed.

Lemma parse_fmt_int max z : 0 <= z <= max -> parse_unsigned max (fmt_int z) = Some z.
Proof.
  intros Hz. destruct (fmt_int_ok z) as [_ Hv]; [lia|]. pose proof (fmt_int_digits z ltac:(lia)) as Hd.
  pose proof (parse_digits_value max (fmt_int z) 0 Hd) as Hp. rewrite Hv in Hp. rewrite Z2N.id in Hp by lia.
  unfold parse_unsigned. destruct (fmt_int z) as [|c s] eqn:E.
  - exfalso. unfold fmt_int in E. destruct z as [|p|p]; [done| |lia]. change (pretty (Z.pos p)) with (pretty (N.pos p)) in E.
    cbn in Hv. discriminate Hv.
  - assert (digit c <> None) as Hc by (cbn in Hd; by destruct (digit c)). 
    destruct c as [[|] [|] [|] [|] [|] [|] [|] [|]]; try (by rewrite <- Hp by lia); try done.
Qed.

Lemma parse_unsigned_range max s n : 0 <= max -> parse_unsigned max s = Some n -> 0 <= n <= max.
Proof.
  intros Hm. unfold parse_unsigned. intros E.
  assert (exists digits, parse_digits max 0 digits = Some n) as (digits & Ed).
  { destruct s as [|c s]; [done|]. destruct c as [[|] [|] [|] [|] [|] [|] [|] [|]]; try (by eexists). destruct s; [done|by eexists]. }
  eapply parse_digits_range; [|exact Ed]. lia.
Qed.
