(* ===== verification/Concurrent.v ===== *)
(** * Concurrent: the collection behind its lock ([src/src/concurrent.rs])

    Threads share one persistent collection through a reader-writer lock.  What
    a thread does while it holds the lock is one atomic section; a flush has
    three sections - the snapshot under the read lock, the build without a
    lock, the publication under the write lock - and other threads' sections
    run in between.  A run is the sequence of the threads that take a turn. *)

From stdpp Require Import base gmap sets list strings sorting.
From Stdlib Require Import ZArith Lia.
From S2P Require Import Prelude Errors Floats Ranking Metric Filter MetadataIndex Collection Disk Segment Manifest Persistence Environment.

Record SharedCollection : Type := MkShared { guarded : PersistentCollection; poisoned : bool }.

(** What a thread calls; [Timeout] is one turn of the background flusher's
    loop.  The name of a flush's temporary file holds the process id and the
    time, and comes with the call. *)
Inductive Call : Type :=
| Upsert (points : list UpsertPoint)
| Delete (ids : list string)
| Search (query : list Z) (k : Z) (filter : option Filter)
| SearchWithEf (query : list Z) (k : Z) (filter : option Filter) (ef_search : Z)
| Flush (temporary : string)
| LatestSequence
| Config
| Len
| IsEmpty
| PendingPointCount
| HasApproximateIndex
| HasCudaIndex
| Timeout (dirty_point_threshold : Z) (temporary : string).

Inductive Answer : Type :=
| Number (result : Result Z)
| Hits (result : Result (list SearchHit))
| Truth (result : Result bool)
| Configuration (result : Result CollectionConfig).

(** Where a thread's flush stands. *)
Inductive Stage : Type :=
| Idle
| Snapshotted (snapshot : FlushSnapshot) (temporary : string)
| Built (prepared : PreparedFlush).

(** A background flusher stops at its first error. *)
Record Thread : Type := MkThread { calls : list Call; stage : Stage; answers : list Answer; background : bool }.

Record System : Type := MkSystem { shared : SharedCollection; threads : list Thread }.

Definition new (collection : PersistentCollection) : SharedCollection := MkShared collection false.

Section Shared.
Context `{FloatEnv} (avx2 : bool) (workers : nat) (pid : Z).

Definition open_with_cuda (config : CollectionConfig) (durability : Durability) (cuda : CudaSearchMode) (lock : LockOutcome)
    : io (Result SharedCollection) :=
  let*? collection := Persistence.open_with_cuda avx2 config durability cuda lock in
  ioret (Ok (new collection)).

Definition open (var_os : string -> option EnvValue) (config : CollectionConfig) (durability : Durability) (lock : LockOutcome)
    : io (Result SharedCollection) :=
  let*? collection := Environment.open avx2 var_os config durability lock in
  ioret (Ok (new collection)).

(** ** The lock

    A panic poisons the lock when it happens under the write lock. *)

Definition read {A : Type} (self : SharedCollection) (section : PersistentCollection -> Result A) : Result A :=
  if poisoned self then Err (Concurrency "collection read lock is poisoned") else section (guarded self).

Definition write {A : Type} (self : SharedCollection) (section : PersistentCollection -> io (Result A * PersistentCollection))
    : io (Result A * SharedCollection) :=
  if poisoned self then ioret (Err (Concurrency "collection write lock is poisoned"), self)
  else
    let* (result, collection) := section (guarded self) in
    ioret (result, MkShared collection (match result with Panic => true | _ => false end)).

(** A search also takes workspaces from the indexes' pools and puts them back. *)
Definition searching (self : SharedCollection) (section : PersistentCollection -> Result (list SearchHit * PersistentCollection))
    : Result (list SearchHit) * SharedCollection :=
  match read self section with
  | Ok (hits, collection) => (Ok hits, MkShared collection (poisoned self))
  | Err e => (Err e, self)
  | Panic => (Panic, self)
  end.

Definition upsert (self : SharedCollection) (points : list UpsertPoint) : io (Result Z * SharedCollection) :=
  write self (fun collection => Persistence.upsert collection points).
Definition delete (self : SharedCollection) (ids : list string) : io (Result Z * SharedCollection) :=
  write self (fun collection => Persistence.delete collection ids).
Definition search (self : SharedCollection) (query : list Z) (k : Z) (filter : option Filter) : Result (list SearchHit) * SharedCollection :=
  searching self (fun collection => Persistence.search avx2 collection query k filter).
Definition search_with_ef (self : SharedCollection) (query : list Z) (k : Z) (filter : option Filter) (ef_search : Z)
    : Result (list SearchHit) * SharedCollection :=
  searching self (fun collection => Persistence.search_with_ef avx2 collection query k filter ef_search).
Definition latest_sequence (self : SharedCollection) : Result Z := read self (fun collection => Ok (Persistence.latest_sequence collection)).
Definition config (self : SharedCollection) : Result CollectionConfig := read self (fun collection => Ok (Collection.config (inner collection))).
Definition len (self : SharedCollection) : Result Z := read self (fun collection => Ok (Persistence.len collection)).
Definition is_empty (self : SharedCollection) : Result bool := read self (fun collection => Ok (Collection.is_empty (inner collection))).
Definition pending_point_count (self : SharedCollection) : Result Z := read self (fun collection => Ok (Persistence.pending_point_count collection)).
Definition has_approximate_index (self : SharedCollection) : Result bool := read self (fun collection => Ok (Persistence.has_approximate_index collection)).
(** Without the [cuda] feature. *)
Definition has_cuda_index (self : SharedCollection) : Result bool := read self (fun _ => Ok false).

(** ** The sections of a flush *)

Definition flush_snapshot (self : SharedCollection) : Result FlushSnapshot :=
  read self (fun collection => Ok (Persistence.flush_snapshot collection)).

(** A prepared flush that cannot be published is dropped with its file. *)
Definition publish (self : SharedCollection) (prepared : PreparedFlush) : io (Result Z * SharedCollection) :=
  if poisoned self then
    let* _ := ignore (remove_file (temporary_segment prepared)) in
    ioret (Err (Concurrency "collection write lock is poisoned"), self)
  else write self (fun collection => publish_flush avx2 pid collection prepared).

(** [flush], when no other thread runs. *)
Definition flush (self : SharedCollection) (temporary : string) : io (Result Z * SharedCollection) :=
  match flush_snapshot self with
  | Ok snapshot =>
      let* prepared := build_flush avx2 workers temporary snapshot in
      match prepared with
      | Ok prepared => publish self prepared
      | Err e => ioret (Err e, self)
      | Panic => ioret (Panic, self)
      end
  | Err e => ioret (Err e, self)
  | Panic => ioret (Panic, self)
  end.

(** ** Threads *)

Definition failed (answer : Answer) : bool :=
  match answer with
  | Number (Ok _) | Hits (Ok _) | Truth (Ok _) | Configuration (Ok _) => false
  | _ => true
  end.
Definition panicked (answer : Answer) : bool :=
  match answer with
  | Number Panic | Hits Panic | Truth Panic | Configuration Panic => true
  | _ => false
  end.

(** The current call returns: a panic ends the thread, an error ends the
    background flusher. *)
Definition finish (self : Thread) (answer : Answer) : Thread :=
  MkThread (if panicked answer || (background self && failed answer) then [] else tail (calls self))
    Idle (answers self ++ [answer]) (background self).
Definition at_stage (self : Thread) (stage : Stage) : Thread := MkThread (calls self) stage (answers self) (background self).

(** One turn of the background flusher: [flush] when enough is pending. *)
Definition timeout (self : Thread) (shared : SharedCollection) (dirty_point_threshold : Z) (temporary : string) : Thread :=
  match pending_point_count shared with
  | Ok pending =>
      if Z.ltb pending dirty_point_threshold
      then MkThread (tail (calls self)) Idle (answers self) (background self)
      else MkThread (Flush temporary :: tail (calls self)) Idle (answers self) (background self)
  | Err e => finish self (Number (Err e))
  | Panic => finish self (Number Panic)
  end.

(** A thread's next section. *)
Definition advance (self : Thread) (shared : SharedCollection) : io (Thread * SharedCollection) :=
  match stage self with
  | Idle =>
      match calls self with
      | [] => ioret (self, shared)
      | Upsert points :: _ =>
          let* (result, shared) := upsert shared points in ioret (finish self (Number result), shared)
      | Delete ids :: _ =>
          let* (result, shared) := delete shared ids in ioret (finish self (Number result), shared)
      | Search query k filter :: _ =>
          let '(result, shared) := search shared query k filter in ioret (finish self (Hits result), shared)
      | SearchWithEf query k filter ef_search :: _ =>
          let '(result, shared) := search_with_ef shared query k filter ef_search in ioret (finish self (Hits result), shared)
      | Flush temporary :: _ =>
          match flush_snapshot shared with
          | Ok snapshot => ioret (at_stage self (Snapshotted snapshot temporary), shared)
          | Err e => ioret (finish self (Number (Err e)), shared)
          | Panic => ioret (finish self (Number Panic), shared)
          end
      | LatestSequence :: _ => ioret (finish self (Number (latest_sequence shared)), shared)
      | Config :: _ => ioret (finish self (Configuration (config shared)), shared)
      | Len :: _ => ioret (finish self (Number (len shared)), shared)
      | IsEmpty :: _ => ioret (finish self (Truth (is_empty shared)), shared)
      | PendingPointCount :: _ => ioret (finish self (Number (pending_point_count shared)), shared)
      | HasApproximateIndex :: _ => ioret (finish self (Truth (has_approximate_index shared)), shared)
      | HasCudaIndex :: _ => ioret (finish self (Truth (has_cuda_index shared)), shared)
      | Timeout threshold temporary :: _ => ioret (timeout self shared threshold temporary, shared)
      end
  | Snapshotted snapshot temporary =>
      let* prepared := build_flush avx2 workers temporary snapshot in
      match prepared with
      | Ok prepared => ioret (at_stage self (Built prepared), shared)
      | Err e => ioret (finish self (Number (Err e)), shared)
      | Panic => ioret (finish self (Number Panic), shared)
      end
  | Built prepared =>
      let* (result, shared) := publish shared prepared in ioret (finish self (Number result), shared)
  end.

Definition turn (system : System) (i : nat) : io System :=
  match threads system !! i with
  | None => ioret system
  | Some thread =>
      let* (thread, shared) := advance thread (shared system) in
      ioret (MkSystem shared (<[i := thread]> (threads system)))
  end.

Fixpoint run (system : System) (schedule : list nat) : io System :=
  match schedule with
  | [] => ioret system
  | i :: schedule' => let* system := turn system i in run system schedule'
  end.

(** ** The background flusher *)

(** The thread, given the names of the temporary files of the timeouts that
    pass before it is told to stop. *)
Definition start_background_flush (check_interval dirty_point_threshold : Z) (timeouts : list string) : Result Thread :=
  if Z.eqb dirty_point_threshold 0 then Err (InvalidConfig "background flush threshold must be greater than zero")
  else if Z.eqb check_interval 0 then Err (InvalidConfig "background flush interval must be greater than zero")
  else Ok (MkThread (map (Timeout dirty_point_threshold) timeouts) Idle [] true).

Definition last_error (self : Thread) : option Error :=
  match last (answers self) with
  | Some (Number (Err e)) => Some e
  | _ => None
  end.

Definition stop (self : Thread) : Result unit :=
  match last_error self with
  | Some error => Err error
  | None => Ok tt
  end.
End Shared.
