(* ===== verification/ConcurrentFacts.v ===== *)
(** * ConcurrentFacts: threads that write, search and flush at once

    [sound] is the invariant between sections: the shared handle agrees with
    the directory, or one flush is under way, whose snapshot the directory still
    serves and whose handle comes from the snapshot by searches and writes.
    Every section keeps it under every fault, so a restart finds exactly the
    acknowledged writes whatever the interleaving. *)

From stdpp Require Import base gmap sets list strings sorting.
From Stdlib Require Import ZArith Lia.
From S2P Require Import Prelude Errors Floats Ranking Metric Filter MetadataIndex Collection CollectionFacts Codec Wire WireFacts Wal.
From S2P Require Import Disk DiskFacts Segment Manifest ManifestFacts Persistence Recovery Durability FlushFacts QueryFacts Concurrent.

Section Threads.
Context `{FloatEnv} (avx2 : bool) (workers : nat) (pid : Z).

(** ** Searches leave the collection alone *)

Lemma read_only_refl st : read_only st st.
Proof. by constructor. Qed.

Lemma searched_read_only st query k filter ef hits st' :
  coll_ok (inner st) -> index_current st -> 0 <= k ->
  Persistence.search_with_ef avx2 st query k filter ef = Ok (hits, st') -> read_only st st'.
Proof.
  intros Hc Hi Hk. unfold Persistence.search_with_ef. destruct (Z.ltb_spec ef k); [done|]. destruct (Z.eqb_spec k 0); [done|].
  destruct (Z.eqb_spec (zlen query) (dimension (Collection.config (inner st)))) as [Hd|]; [|done]. cbn [negb].
  destruct filter as [f|]; [destruct (filtered_search _ _ _ _); [|done..]; intros [= _ <-]; apply read_only_refl|].
  destruct (bool_decide _) eqn:Eidx.
  { destruct (Collection.search _ _ _ _); [|done..]. intros [= _ <-]. apply read_only_refl. }
  destruct (prepare _ query) as [q| |] eqn:Eq; [|done..]. cbn [rbind].
  destruct (search_segments_ok avx2 st query q k ef (indexes st) [] [] Hc (ic_graphs _ Hi) ltac:(lia) Hd Eq ltac:(constructor))
    as (found & segs & -> & _ & Hsame & Hok). cbn [rbind app].
  destruct (search_ids _ _ _ _ _); [|done..]. cbn [rbind]. intros [= _ <-].
  constructor; [done..|intros _; exact Hok|intros _]. by apply bool_decide_eq_false in Eidx.
Qed.

(** ** The invariant *)

(** A flush of the snapshot [st0] is under way: the directory holds the
    snapshot's collection, then the records [ps], which lead to [st]. *)
Definition flushing (st0 : PersistentCollection) (temporary : string) (st : PersistentCollection) (d : Dir) : Prop :=
  exists d0 ps, store_ok avx2 st0 d0 /\ flushable st0 temporary d0 /\ d !! "MANIFEST" = d0 !! "MANIFEST" /\
    store_since avx2 st0 ps d /\ FlushFacts.wrote st0 ps st.

Inductive served (st : PersistentCollection) (d : Dir) : Stage -> Prop :=
| served_idle : store_ok avx2 st d -> served st d Idle
| served_snapshot st0 temporary : flushing st0 temporary st d -> served st d (Snapshotted (Persistence.flush_snapshot st0) temporary)
| served_built st0 temporary prepared :
    flushing st0 temporary st d -> built st0 temporary prepared d -> served st d (Built prepared).

(** At most the thread [owner] is flushing. *)
Definition sound (system : System) (d : Dir) : Prop :=
  poisoned (shared system) = false /\
  exists owner stg, served (guarded (shared system)) d stg /\
    forall j th, threads system !! j = Some th -> stage th = if decide (j = owner) then stg else Idle.

Lemma flushing_store st0 temporary st d : flushing st0 temporary st d -> store_ok avx2 st d.
Proof. intros (d0 & ps & (Hc & _) & _ & _ & Hst & Hw). eapply since_store; [|exact Hst]. by apply wrote_since. Qed.

Lemma served_store st d stg : served st d stg -> store_ok avx2 st d.
Proof. intros [?|st0 temporary ?|st0 temporary prepared ? _]; [done|by eapply flushing_store..]. Qed.

Lemma sound_store system d : sound system d -> store_ok avx2 (guarded (shared system)) d.
Proof. intros (_ & owner & stg & Hs & _). by eapply served_store. Qed.

(** Searches and writes keep what a flush under way relies on. *)
Lemma served_read st st' d stg : read_only st st' -> served st d stg -> served st' d stg.
Proof.
  intros Hr. assert (forall st0 temporary, flushing st0 temporary st d -> flushing st0 temporary st' d) as Hf.
  { intros st0 temporary (d0 & ps & H1 & H2 & H3 & H4 & H5). exists d0, ps. split_and!; try done. by eapply FlushFacts.wrote_read. }
  intros [Hst|st0 temporary ?|st0 temporary prepared ? Hb]; [constructor|econstructor; by apply Hf|econstructor; [by apply Hf|done]].
  eapply since_store; [|by apply store_ok_since]. apply wrote_since; [apply Hst|]. eapply FlushFacts.wrote_read; [|exact Hr]. constructor.
Qed.

Lemma store_since_logged st0 ps st payload ids c' d w :
  since st0 ps st -> logs (inner st) payload ids c' -> store_since avx2 st0 ps d -> d !! WAL = Some w ->
  store_since avx2 st0 (ps ++ [payload]) (wal_at d w (frame payload)).
Proof.
  intros Hs Hl (Hc & Hi & base & old & rec & dirty & Hh & Hr & Hrec & Hout & Hidx) Ew. split; [done|]. split; [done|].
  pose proof (h_wal _ _ _ _ _ _ Hh) as Ew'. rewrite app_nil_r in Ew'. rewrite Ew in Ew'. injection Ew' as ->.
  exists base, old, rec, dirty. split_and!; [|done..|intros Hne; unfold wal_at; rewrite lookup_insert_ne by done; by apply Hidx].
  unfold wal_at. rewrite <- log_snoc, <- app_assoc, <- (app_nil_r (log (old ++ ps ++ [payload]))).
  eapply holds_wal; [exact Hh| |done]. pose proof (h_records _ _ _ _ _ _ Hh) as Hsize. rewrite Forall_app in Hsize.
  rewrite !Forall_app. split_and!; [apply Hsize..|]. constructor; [apply Hl|done].
Qed.
Lemma flushing_logged st0 temporary st payload ids c' d w :
  flushing st0 temporary st d -> logs (inner st) payload ids c' -> newer (inner st) c' -> d !! WAL = Some w ->
  flushing st0 temporary (with_inner st c' ids) (wal_at d w (frame payload)).
Proof.
  intros (d0 & ps & H1 & H2 & H3 & H4 & H5) Hl Hn Ew. exists d0, (ps ++ [payload]). split_and!; [done|done| | |by econstructor].
  - unfold wal_at. by rewrite lookup_insert_ne.
  - eapply store_since_logged; [by apply wrote_since; [apply H1|]|done..].
Qed.

Lemma served_write st d stg payload ids c' sequence :
  served st d stg -> logs (inner st) payload ids c' -> newer (inner st) c' ->
  specifies (logged st sequence payload (with_inner st c' ids)) d
    (fun r d' => match r.1 with
       | Ok s => s = sequence /\ r.2 = with_inner st c' ids /\ served r.2 d' stg
       | Err _ => r.2 = st /\ (recoverable avx2 d' (inner st) \/ recoverable avx2 d' c')
       | Panic => False
       end) (fun d' => recoverable avx2 d' (inner st) \/ recoverable avx2 d' c').
Proof.
  intros Hs Hl Hn. eapply spec_mono; [apply (logged_spec avx2 st d payload ids c' sequence); [by eapply served_store|done]| |done].
  intros [[n|e|] st'] d' Hr; [|exact Hr..]. destruct Hr as (-> & E & Hst & w & Ew & Ed). cbn [fst snd] in *. subst.
  split; [done|]. split; [done|]. destruct Hs as [?|st0 temporary Hf|st0 temporary prepared Hf (B1 & B2 & B3 & B4 & bytes & index & B5 & B6)].
  - by constructor.
  - econstructor. by eapply flushing_logged.
  - econstructor; [by eapply flushing_logged|]. split_and!; try done. exists bytes, index. split; [|done].
    unfold wal_at. rewrite lookup_insert_ne; [done|]. destruct Hf as (d0 & ps & _ & (_ & Hscr & _) & _). intros <-. apply Hscr. unfold live_file. tauto.
Qed.

Lemma upserted_newer c us c' : is_upserted c us c' -> newer c c'.
Proof.
  intros (_ & Es & Ec). split; [lia|]. intros id p. rewrite Ec. unfold upserted. destruct (last_upsert id us) as [u|]; [|by left].
  destruct (prepare _ _); [|done..]. intros [= <-]. right. cbn. lia.
Qed.

Lemma deleted_newer c ids c' : is_deleted c ids c' -> newer c c'.
Proof. intros (_ & Es & Ec). split; [lia|]. intros id p. rewrite Ec. case_decide; [done|by left]. Qed.

(** ** Sections *)

(** What a reader can tell of a collection. *)
Definition same (c c' : Collection) : Prop :=
  Collection.config c' = Collection.config c /\ sequence c' = sequence c /\ contents c' = contents c.

Definition effect (call : Call) (c c' : Collection) : Prop :=
  match call with
  | Upsert points => is_upserted c points c'
  | Delete ids => is_deleted c ids c'
  | _ => False
  end.

(** A write that the log can hold, and one that is refused. *)
Definition valid (c : Collection) (call : Call) : Prop :=
  match call with
  | Upsert points => recordable c points
  | Delete ids => deletable c ids
  | _ => False
  end.
Definition invalid (c : Collection) (call : Call) : Prop :=
  match call with
  | Upsert points => exists e, prepare_upsert c points (sequence c + 1) = Err e
  | Delete ids => ids = [] \/ "" ∈ ids
  | _ => False
  end.

Definition next_call (thread : Thread) : option Call :=
  match stage thread with Idle => head (calls thread) | _ => None end.
Definition next_write (thread : Thread) : option Call :=
  match next_call thread with
  | Some ((Upsert _ | Delete _) as call) => Some call
  | _ => None
  end.

(** What the next section of a thread needs.  Two flushes do not overlap, and
    something was written since the last one. *)
Definition acceptable (system : System) (thread : Thread) (d : Dir) : Prop :=
  let c := inner (guarded (shared system)) in
  match next_call thread with
  | Some ((Upsert _ | Delete _) as call) => sequence c < U64_MAX /\ (valid c call \/ invalid c call)
  | Some (Search _ k _ | SearchWithEf _ k _ _) => 0 <= k
  | Some (Flush temporary) =>
      (forall j other, threads system !! j = Some other -> stage other = Idle) /\ flushable (guarded (shared system)) temporary d
  | _ => True
  end.

(** An acknowledged write has its effect and gets its sequence; any other
    section leaves the collection alone. *)
Definition acknowledged (thread thread' : Thread) : option Call :=
  match next_write thread, last (answers thread') with
  | Some call, Some (Number (Ok _)) => Some call
  | _, _ => None
  end.
Definition progressed (thread thread' : Thread) (c c' : Collection) : Prop :=
  match acknowledged thread thread' with
  | Some call => effect call c c' /\ last (answers thread') = Some (Number (Ok (sequence c')))
  | None => same c c'
  end.

(** A valid write that failed: its record may be in the log or not. *)
Definition disrupted (thread thread' : Thread) (c : Collection) : Prop :=
  exists call e, next_write thread = Some call /\ valid c call /\ last (answers thread') = Some (Number (Err e)).

Definition torn (thread : Thread) (c : Collection) (d : Dir) : Prop :=
  recoverable avx2 d c \/ exists call c', next_write thread = Some call /\ effect call c c' /\ recoverable avx2 d c'.

Lemma same_refl c : same c c.
Proof. done. Qed.

Lemma sound_next system d i thread st' d' thread' :
  sound system d -> threads system !! i = Some thread -> stage thread = Idle -> stage thread' = Idle ->
  (forall stg, served (guarded (shared system)) d stg -> served st' d' stg) ->
  sound (MkSystem (MkShared st' false) (<[i := thread']> (threads system))) d'.
Proof.
  intros (_ & owner & stg & Hs & Hall) Ei E E' Hnext. split; [done|]. exists owner, stg. split; [by apply Hnext|].
  intros j th. cbn [threads]. destruct (decide (i = j)) as [<-|Hne].
  - rewrite list_lookup_insert_eq by (by eapply lookup_lt_Some). intros [= <-]. rewrite E'. pose proof (Hall _ _ Ei) as Hi. by rewrite E in Hi.
  - rewrite list_lookup_insert_ne by done. by apply Hall.
Qed.

(** A section of the only thread that may be flushing. *)
Lemma sound_flush system d i thread st' d' stg' thread' :
  sound system d -> threads system !! i = Some thread -> stage thread <> Idle \/ (forall j other, threads system !! j = Some other -> stage other = Idle) ->
  stage thread' = stg' -> served st' d' stg' -> sound (MkSystem (MkShared st' false) (<[i := thread']> (threads system))) d'.
Proof.
  intros (_ & owner & stg & Hs & Hall) Ei Hone E' Hs'. split; [done|]. exists i, stg'. split; [done|].
  intros j th. cbn [threads]. destruct (decide (i = j)) as [<-|Hne].
  - rewrite list_lookup_insert_eq by (by eapply lookup_lt_Some). intros [= <-]. by rewrite decide_True.
  - rewrite list_lookup_insert_ne by done. intros Ej. rewrite decide_False by done. destruct Hone as [Hone|Hone]; [|by eapply Hone].
    pose proof (Hall _ _ Ei) as Ho. case_decide; [|done]. subst owner. rewrite (Hall _ _ Ej). by rewrite decide_False.
Qed.

Definition stepped (system : System) (i : nat) (thread : Thread) (r : Thread * SharedCollection) (d : Dir) : Prop :=
  let c := inner (guarded (shared system)) in
  (sound (MkSystem r.2 (<[i := r.1]> (threads system))) d /\ progressed thread r.1 c (inner (guarded r.2))) \/
  (disrupted thread r.1 c /\ torn thread c d).

Lemma torn_now system thread d : sound system d -> torn thread (inner (guarded (shared system))) d.
Proof. intros Hs. left. by eapply store_ok_recoverable, sound_store. Qed.

(** The calls that only read. *)
Lemma advance_answers system d i thread thread' st' :
  sound system d -> threads system !! i = Some thread -> stage thread = Idle -> next_write thread = None ->
  stage thread' = Idle -> read_only (guarded (shared system)) st' ->
  specifies (ioret (thread', MkShared st' false)) d (stepped system i thread) (torn thread (inner (guarded (shared system)))).
Proof.
  intros Hs Ei E Hw E' Hr. apply spec_ret. left. split.
  - eapply sound_next; [done..|]. intros stg. by apply served_read.
  - unfold progressed, acknowledged. rewrite Hw. cbn. rewrite (ro_inner _ _ Hr). done.
Qed.

Lemma shared_eta self : poisoned self = false -> self = MkShared (guarded self) false.
Proof. destruct self as [st p]. by intros [= ->]. Qed.

Lemma advance_search system d i thread section :
  sound system d -> threads system !! i = Some thread -> stage thread = Idle -> next_write thread = None ->
  (forall hits st', section (guarded (shared system)) = Ok (hits, st') -> read_only (guarded (shared system)) st') ->
  specifies (let '(result, shared) := searching (shared system) section in ioret (finish thread (Hits result), shared)) d
    (stepped system i thread) (torn thread (inner (guarded (shared system)))).
Proof.
  intros Hs Ei E Hw Hr. unfold searching, read. pose proof Hs as [Ep _]. rewrite Ep.
  assert (shared system = MkShared (guarded (shared system)) false) as Eta by (by apply shared_eta).
  destruct (section _) as [[hits st']|e|] eqn:Es; [apply advance_answers; try done; by eapply Hr|..];
    rewrite Eta; by apply advance_answers; try apply read_only_refl.
Qed.

(** Writes. *)
Lemma advance_write system d i thread call section :
  sound system d -> threads system !! i = Some thread -> next_write thread = Some call -> stage thread = Idle ->
  valid (inner (guarded (shared system))) call ->
  is_logged (guarded (shared system)) (effect call (inner (guarded (shared system)))) (section (guarded (shared system))) ->
  specifies (let* (result, shared) := write (shared system) section in ioret (finish thread (Number result), shared)) d
    (stepped system i thread) (torn thread (inner (guarded (shared system)))).
Proof.
  intros Hs Ei Hw E Hv (payload & ids & c' & Em & Hl & He). unfold write. pose proof Hs as (Ep & owner & stg & Hserved & Hall). rewrite Ep, Em.
  assert (newer (inner (guarded (shared system))) c') as Hn by (destruct call; try done; [by eapply upserted_newer|by eapply deleted_newer]).
  set (st := guarded (shared system)) in *.
  assert (forall d', recoverable avx2 d' (inner st) \/ recoverable avx2 d' c' -> torn thread (inner st) d') as Htorn.
  { intros d' [Hr|Hr]; [by left|right]. by exists call, c'. }
  eapply (spec_bind _ _ _ (fun r d' => match r.1 with
    | Ok n => n = sequence c' /\ sound (MkSystem r.2 (<[i := finish thread (Number r.1)]> (threads system))) d' /\ guarded r.2 = with_inner st c' ids
    | Err _ => torn thread (inner st) d' | Panic => False end)).
  - eapply spec_bind; [eapply spec_mono; [apply (served_write st d stg payload ids c' (sequence (inner st) + 1)); done|intros r d' Hr; exact Hr|exact Htorn]|].
    intros [[n|e|] st'] d' Hr; apply spec_ret; cbn [fst snd] in *; [|by apply Htorn; destruct Hr|done].
    destruct Hr as (-> & -> & Hserved'). split; [destruct call; try done; by destruct He as (_ & -> & _)|]. split; [|done].
    split; [done|]. exists owner, stg. split; [done|]. intros j th. cbn [threads]. destruct (decide (i = j)) as [<-|Hne].
    + rewrite list_lookup_insert_eq by (by eapply lookup_lt_Some). intros [= <-]. pose proof (Hall _ _ Ei) as Hi. by rewrite E in Hi.
    + rewrite list_lookup_insert_ne by done. by apply Hall.
  - intros [[n|e|] shared'] d' Hr; apply spec_ret; cbn [fst snd] in *; [left|right|done].
    + destruct Hr as (-> & Hsound & Eg). split; [done|]. unfold progressed, acknowledged. cbn [fst snd]. rewrite Hw.
      cbn [finish answers]. rewrite last_snoc, Eg. done.
    + split; [|done]. exists call, e. split; [done|]. split; [done|]. cbn [fst finish answers]. by rewrite last_snoc.
Qed.

(** A write that is refused before anything is logged. *)
Lemma advance_refused system d i thread call section e :
  sound system d -> threads system !! i = Some thread -> next_write thread = Some call -> stage thread = Idle ->
  section (guarded (shared system)) = ioret (Err e, guarded (shared system)) ->
  specifies (let* (result, shared) := write (shared system) section in ioret (finish thread (Number result), shared)) d
    (stepped system i thread) (torn thread (inner (guarded (shared system)))).
Proof.
  intros Hs Ei Hw E Es. unfold write. pose proof Hs as (Ep & _). rewrite Ep, Es.
  change (specifies (ioret (finish thread (Number (Err e)), MkShared (guarded (shared system)) false)) d
    (stepped system i thread) (torn thread (inner (guarded (shared system))))).
  apply spec_ret. left. split.
  - eapply sound_next; [done..|]. auto.
  - unfold progressed, acknowledged. rewrite Hw. cbn [fst finish answers]. by rewrite last_snoc.
Qed.

Lemma upsert_refused st us e :
  sequence (inner st) < U64_MAX -> prepare_upsert (inner st) us (sequence (inner st) + 1) = Err e -> Persistence.upsert st us = ioret (Err e, st).
Proof. intros Hs He. unfold Persistence.upsert. rewrite next_sequence_small by done. cbn [rbind]. by rewrite He. Qed.

Lemma delete_refused st ids :
  ids = [] \/ "" ∈ ids -> exists e, Persistence.delete st ids = ioret (Err e, st).
Proof.
  intros Hi. unfold Persistence.delete. case_bool_decide as E; [by eexists|]. destruct Hi as [->|Hi]; [done|].
  assert (existsb (fun id => bool_decide (id = "")) ids = true) as ->; [|by eexists].
  apply existsb_exists. exists "". split; [by apply list_elem_of_In|]. by apply bool_decide_eq_true.
Qed.

Lemma flushing_except st0 temporary st d d' :
  flushing st0 temporary st d -> except temporary d d' -> flushing st0 temporary st d'.
Proof.
  intros (d0 & ps & H1 & H2 & H3 & H4 & H5) He. pose proof H2 as (_ & Hscr & _). pose proof (except_live _ _ _ Hscr He) as Hlive.
  exists d0, ps. split_and!; [done|done| |by eapply store_since_live|done]. rewrite <- H3. apply Hlive. unfold live_file. tauto.
Qed.

(** The three sections of a flush. *)
Lemma advance_begin system d i thread temporary :
  sound system d -> threads system !! i = Some thread -> next_write thread = None ->
  (forall j other, threads system !! j = Some other -> stage other = Idle) -> flushable (guarded (shared system)) temporary d ->
  stepped system i thread (at_stage thread (Snapshotted (Persistence.flush_snapshot (guarded (shared system))) temporary), shared system) d.
Proof.
  intros Hs Ei Hw Hall Hf. left. pose proof Hs as [Ep _]. pose proof (sound_store _ _ Hs) as Hst. split.
  - rewrite (shared_eta _ Ep). eapply sound_flush; [exact Hs|exact Ei|by right|done|]. constructor.
    exists d, []. split_and!; [done|done|done|by apply store_ok_since|constructor].
  - unfold progressed, acknowledged. by rewrite Hw.
Qed.

Lemma advance_build system d i thread st0 temporary :
  sound system d -> threads system !! i = Some thread -> stage thread = Snapshotted (Persistence.flush_snapshot st0) temporary ->
  flushing st0 temporary (guarded (shared system)) d ->
  specifies (advance avx2 workers pid thread (shared system)) d (stepped system i thread) (torn thread (inner (guarded (shared system)))).
Proof.
  intros Hs Ei E Hf. unfold advance. rewrite E. pose proof Hs as [Ep _].
  assert (next_write thread = None) as Hw by (unfold next_write, next_call; by rewrite E).
  assert (shared system = MkShared (guarded (shared system)) false) as Eta by (by apply shared_eta).
  eapply spec_bind; [eapply spec_mono; [apply (build_flush_spec avx2 workers temporary st0 d)|intros r d' Hr; exact Hr|]|].
  - intros d' He. left. by eapply store_ok_recoverable, flushing_store, flushing_except.
  - intros r d' [He Hr]. pose proof (flushing_except _ _ _ _ _ Hf He) as Hf'.
    assert (forall answer, stepped system i thread (finish thread answer, shared system) d') as Hfinish.
    { intros answer. left. split; [|unfold progressed, acknowledged; by rewrite Hw]. rewrite Eta.
      eapply sound_flush; [exact Hs|exact Ei|left; by rewrite E|done|]. constructor. by eapply flushing_store. }
    destruct r as [prepared|e|]; apply spec_ret; [|by apply Hfinish..]. left. split; [|unfold progressed, acknowledged; by rewrite Hw].
    rewrite Eta. eapply sound_flush; [exact Hs|exact Ei|left; by rewrite E|done|]. econstructor; [done|by apply Hr].
Qed.

Lemma advance_publish system d i thread st0 temporary prepared :
  sound system d -> threads system !! i = Some thread -> stage thread = Built prepared ->
  flushing st0 temporary (guarded (shared system)) d -> built st0 temporary prepared d ->
  specifies (advance avx2 workers pid thread (shared system)) d (stepped system i thread) (torn thread (inner (guarded (shared system)))).
Proof.
  intros Hs Ei E (d0 & ps & H1 & H2 & H3 & H4 & H5) Hb. unfold advance. rewrite E. pose proof Hs as [Ep _].
  assert (next_write thread = None) as Hw by (unfold next_write, next_call; by rewrite E).
  unfold publish, write. rewrite Ep. set (st := guarded (shared system)) in *.
  assert (since st0 ps st) as Hsi by (apply wrote_since; [apply H1|done]).
  eapply (spec_bind _ _ _ (fun r d' => r.1 <> Panic /\ poisoned r.2 = false /\ published avx2 (sequence (inner st0)) st (r.1, guarded r.2) d')).
  - eapply spec_bind; [eapply spec_mono; [apply (publish_flush_spec avx2 pid st0 ps st prepared d); by eapply built_ready|intros r d' Hr; exact Hr|by intros d' Hd'; left]|].
    intros [r st'] d' Hr. apply spec_ret. pose proof Hr as (_ & _ & _ & _ & Hp & _). cbn [fst snd guarded poisoned] in *. by destruct r.
  - intros [r shared'] d' (Hp & Ep' & E1 & E2 & E3 & Hst & _). cbn [fst snd] in *. apply spec_ret. left. cbn [fst snd]. split.
    + rewrite (shared_eta _ Ep'). eapply sound_flush; [exact Hs|exact Ei|left; by rewrite E|done|]. by constructor.
    + unfold progressed, acknowledged. rewrite Hw. by split.
Qed.

Lemma advance_timeout system d i thread threshold temporary :
  sound system d -> threads system !! i = Some thread -> stage thread = Idle -> next_write thread = None ->
  specifies (ioret (timeout thread (shared system) threshold temporary, shared system)) d
    (stepped system i thread) (torn thread (inner (guarded (shared system)))).
Proof.
  intros Hs Ei E Hw. pose proof Hs as [Ep _].
  assert (shared system = MkShared (guarded (shared system)) false) as Eta by (by apply shared_eta). rewrite Eta.
  apply advance_answers; [done..| |apply read_only_refl]. unfold timeout. cbn. by destruct (Z.ltb _ _).
Qed.

Lemma advance_spec system d i thread :
  sound system d -> threads system !! i = Some thread -> acceptable system thread d ->
  specifies (advance avx2 workers pid thread (shared system)) d (stepped system i thread) (torn thread (inner (guarded (shared system)))).
Proof.
  intros Hs Ei Hacc. pose proof Hs as (Ep & owner & stg & Hserved & Hall). pose proof (Hall _ _ Ei) as Estage.
  pose proof (sound_store _ _ Hs) as (Hc & Hi & _).
  assert (shared system = MkShared (guarded (shared system)) false) as Eta by (by apply shared_eta).
  destruct (stage thread) as [|snapshot temporary|prepared] eqn:E.
  2: { case_decide; [subst|done]. inversion Hserved as [|st0 ? Hf| ]; subst. by eapply advance_build. }
  2: { case_decide; [subst|done]. inversion Hserved as [| |st0 temporary ? Hf Hb]; subst. by eapply advance_publish. }
  unfold acceptable, next_call in Hacc. rewrite E in Hacc.
  assert (next_write thread = match head (calls thread) with Some ((Upsert _ | Delete _) as call) => Some call | _ => None end) as Hw
    by (unfold next_write, next_call; by rewrite E).
  unfold advance. rewrite E. destruct (calls thread) as [|call rest] eqn:Ec; cbn [head hd_error] in *.
  { rewrite Eta. by apply advance_answers. }
  destruct call as [points|ids|query k filter|query k filter ef|temporary| | | | | | | |threshold temporary]; cbn [head hd_error] in Hacc, Hw.
  - destruct Hacc as [Hseq [Hv|(e & He)]].
    + eapply (advance_write _ _ _ _ _ (fun collection => Persistence.upsert collection points)); [done..|]. by apply upsert_logged.
    + eapply (advance_refused _ _ _ _ _ (fun collection => Persistence.upsert collection points)); [done..|]. by apply upsert_refused.
  - destruct Hacc as [Hseq [Hv|Hv]].
    + eapply (advance_write _ _ _ _ _ (fun collection => Persistence.delete collection ids)); [done..|]. by apply delete_logged.
    + destruct (delete_refused (guarded (shared system)) ids Hv) as (e & He).
      by eapply (advance_refused _ _ _ _ _ (fun collection => Persistence.delete collection ids)).
  - apply advance_search; [done..|]. intros hits st' Es. unfold Persistence.search in Es. by eapply searched_read_only.
  - apply advance_search; [done..|]. intros hits st' Es. by eapply searched_read_only.
  - unfold flush_snapshot, read. rewrite Ep. apply spec_ret. destruct Hacc. by apply advance_begin.
  - rewrite Eta. by apply advance_answers.
  - rewrite Eta. by apply advance_answers.
  - rewrite Eta. by apply advance_answers.
  - rewrite Eta. by apply advance_answers.
  - rewrite Eta. by apply advance_answers.
  - rewrite Eta. by apply advance_answers.
  - rewrite Eta. by apply advance_answers.
  - by apply advance_timeout.
Qed.

(** ** Runs *)

(** A run from [system0]: the turns taken, each on a section that is acceptable,
    and the acknowledged writes, in the order of their sections.  The run ends
    with the first write whose log record failed. *)
Inductive reaches (system0 : System) (w0 : World) : list Call -> System -> World -> Prop :=
| reaches_start : reaches system0 w0 [] system0 w0
| reaches_turn log system w i thread thread' system' w' :
    reaches system0 w0 log system w -> threads system !! i = Some thread -> acceptable system thread (disk w) ->
    turn avx2 workers pid system i w = Returned system' w' -> threads system' !! i = Some thread' ->
    ~ disrupted thread thread' (inner (guarded (shared system))) ->
    reaches system0 w0 (log ++ match acknowledged thread thread' with Some call => [call] | None => [] end) system' w'.

(** [c'] is [c] after these writes, one after the other. *)
Inductive serial (c : Collection) : list Call -> Collection -> Prop :=
| serial_none c' : same c c' -> serial c [] c'
| serial_one log c1 call c' : serial c log c1 -> effect call c1 c' -> serial c (log ++ [call]) c'
| serial_same log c1 c' : serial c log c1 -> same c1 c' -> serial c log c'.

Lemma sound_start collection ts d :
  store_ok avx2 collection d -> Forall (fun t => stage t = Idle) ts -> sound (MkSystem (new collection) ts) d.
Proof.
  intros Hst Hts. split; [done|]. exists 0%nat, Idle. split; [by constructor|]. intros j th Hj.
  eapply Forall_lookup in Hts; [|exact Hj]. rewrite Hts. by destruct (decide _).
Qed.

Lemma turn_spec system d i thread :
  sound system d -> threads system !! i = Some thread -> acceptable system thread d ->
  specifies (turn avx2 workers pid system i) d
    (fun system' d' => exists thread', threads system' !! i = Some thread' /\
       threads system' = <[i := thread']> (threads system) /\ stepped system i thread (thread', shared system') d')
    (torn thread (inner (guarded (shared system)))).
Proof.
  intros Hs Ei Hacc. unfold turn. rewrite Ei. eapply spec_bind; [eapply spec_mono; [by apply advance_spec|intros r d' Hr; exact Hr|done]|].
  intros [thread' shared'] d' Hr. apply spec_ret. cbn [threads shared]. exists thread'. split; [|done].
  apply list_lookup_insert_eq. by eapply lookup_lt_Some.
Qed.

Lemma reaches_sound system0 w0 log system w :
  sound system0 (disk w0) -> reaches system0 w0 log system w ->
  sound system (disk w) /\ serial (inner (guarded (shared system0))) log (inner (guarded (shared system))).
Proof.
  intros H0. induction 1 as [|log system w i thread thread' system' w' _ [IH IHs] Ei Hacc Et Ei' Hd]; [split; [done|by constructor]|].
  pose proof (turn_spec system (disk w) i thread IH Ei Hacc (script w)) as Ht. destruct w as [d s]. cbn [disk script] in *. rewrite Et in Ht.
  destruct Ht as (th' & E1 & E2 & Hst). rewrite E1 in Ei'. injection Ei' as ->.
  destruct Hst as [[Hsound Hp]|[Hdis _]]; [|by destruct Hd]. cbn [fst snd] in *. split.
  - destruct system' as [shared' threads']. cbn [threads shared] in *. by rewrite E2.
  - unfold progressed in Hp. destruct (acknowledged thread thread'); [destruct Hp; by econstructor|]. rewrite app_nil_r. by eapply serial_same.
Qed.

(** What a restart finds when a section was cut short or its record failed. *)
Definition reopens_torn (thread : Thread) (c : Collection) (d : Dir) : Prop :=
  reopens avx2 d c \/ exists call c', next_write thread = Some call /\ effect call c c' /\ reopens avx2 d c'.

Lemma torn_reopens thread c d : torn thread c d -> reopens_torn thread c d.
Proof. intros [Hr|(call & c' & H1 & H2 & Hr)]; [left|right; exists call, c'; split; [done|split; [done|]]]; by apply recoverable_reopens. Qed.


End Threads.

(** One thread flushes the two-point collection while another deletes a point;
    the process dies while the segment is published. *)
Definition demo_threads : list Thread :=
  [MkThread [Flush demo_temporary] Idle [] false; MkThread [Delete ["a"]] Idle [] false].
Definition demo_turn (state : System * World) (i : nat) : System * World :=
  match @turn x86_64_env true 2 7 state.1 i state.2 with
  | Returned system w => (system, w)
  | Crashed _ => state
  end.
Definition demo_run0 : System * World := (MkSystem (new demo_store1) demo_threads, MkWorld demo_dir1 (repeat Proceed 17 ++ [Crashes 3])).
Definition demo_run1 : System * World := demo_turn demo_run0 0.
Definition demo_run2 : System * World := demo_turn demo_run1 1.
Definition demo_run3 : System * World := demo_turn demo_run2 0.
Definition demo_thread (state : System * World) (i : nat) : Thread := default (MkThread [] Idle [] false) (threads state.1 !! i).

Lemma demo_deletable : deletable (inner demo_store1) ["a"].
Proof.
  split; [split; [reflexivity|discriminate]|]. split; [apply (bool_decide_unpack _); vm_compute; exact I|].
  split; [apply (bool_decide_unpack _); vm_compute; exact I|].
  intros bs E. vm_compute in E. apply Ok_inj in E as <-. vm_compute. discriminate.
Qed.

Lemma demo_step state i thread log :
  @reaches x86_64_env true 2 7 demo_run0.1 demo_run0.2 log state.1 state.2 ->
  threads state.1 !! i = Some thread -> @acceptable x86_64_env state.1 thread (disk state.2) ->
  is_Some (threads (demo_turn state i).1 !! i) ->
  match @turn x86_64_env true 2 7 state.1 i state.2 with Returned _ _ => true | _ => false end = true ->
  match last (answers (demo_thread (demo_turn state i) i)) with Some (Number (Err _)) => false | _ => true end = true ->
  @reaches x86_64_env true 2 7 demo_run0.1 demo_run0.2
    (log ++ match acknowledged thread (demo_thread (demo_turn state i) i) with Some call => [call] | None => [] end)
    (demo_turn state i).1 (demo_turn state i).2.
Proof.
  intros Hr Ei Hacc [thread' Et] Hret Hans. unfold demo_thread in *. rewrite Et in *. cbn [default from_option id] in *.
  eapply reaches_turn; [exact Hr|exact Ei|exact Hacc| |exact Et|].
  - unfold demo_turn in *. by destruct (turn _ _ _ _ _ _).
  - intros (call & e & _ & _ & E). by rewrite E in Hans.
Qed.

