(* ===== verification/Creation.v ===== *)
(** * Creation: a collection's directory from its first system call on

    A crash or an error while a collection is created leaves a directory
    without metadata, which does not count as a collection, or one that opens
    as the empty collection: [openable] includes the moment when the metadata
    are there and the log is not. *)

From stdpp Require Import base gmap sets list strings sorting.
From Stdlib Require Import ZArith Lia.
From S2P Require Import Prelude Errors Floats Ranking Metric Filter MetadataIndex Collection CollectionFacts Codec Wire WireFacts Wal.
From S2P Require Import Disk DiskFacts Segment Manifest ManifestFacts Persistence Recovery Durability.

Section Creation.
Context `{FloatEnv} (avx2 : bool).

Definition blank (cfg : CollectionConfig) : Collection := MkCollection cfg ∅ 0.

(** The metadata are there, the log is not. *)
Definition starting (cfg : CollectionConfig) (d : Dir) : Prop :=
  d !! META = Some (encode_metadata cfg) /\ d !! WAL = None /\ d !! "MANIFEST" = None.
Definition uncreated (d : Dir) : Prop := d !! META = None /\ d !! WAL = None /\ d !! "MANIFEST" = None.

Definition config_ok (cfg : CollectionConfig) : Prop := 0 < dimension cfg <= U64_MAX.

Definition openable (d : Dir) (c : Collection) : Prop :=
  recoverable avx2 d c \/ (config_ok (config c) /\ c = blank (config c) /\ starting (config c) d).

Lemma blank_ok cfg : config_ok cfg -> coll_ok (blank cfg).
Proof. intros [H1 _]. split; [done|]. split; [cbn; unfold U64_MAX; lia|]. apply map_Forall_empty. Qed.

Lemma starting_wal cfg d : config_ok cfg -> starting cfg d -> recoverable avx2 (<[WAL := []]> d) (blank cfg).
Proof.
  intros Hok (E1 & E2 & E3). split; [by apply blank_ok|].
  assert (manifest_dir (<[WAL := []]> d) = Ok None) as Em by (unfold manifest_dir; rewrite lookup_insert_ne by done; by rewrite E3).
  exists (blank cfg), [], [], (blank cfg), ∅. split; [|split; [done|apply restores_refl; by apply blank_ok]]. constructor; try done.
  - by rewrite lookup_insert_ne.
  - exists None. unfold load_dir. rewrite Em. split; [done|]. by rewrite lookup_insert_ne.
  - split; [by apply blank_ok|]. split; [destruct Hok; cbn; unfold in_u; unfold U64_MAX in *; lia|].
    apply map_Forall_empty.
  - by rewrite Em.
  - by rewrite lookup_insert_eq.
Qed.

Lemma openable_ok d c : openable d c -> coll_ok c.
Proof. intros [[Hc _]|(Hok & -> & _)]; [done|by apply blank_ok]. Qed.

Lemma openable_meta d c : openable d c -> d !! META = Some (encode_metadata (config c)) /\ config_ok (config c).
Proof.
  intros [(_ & base & ps & torn & rec & dirty & Hh & _)|(Hok & _ & E & _)]; [|done]. split; apply Hh.
Qed.

Lemma persisted_config_openable d c : openable d c -> reads_as persisted_config d (Ok (config c)).
Proof.
  intros [Em Hok]%openable_meta. unfold persisted_config.
  change (@Ok Error _ (config c)) with (let? bytes := (Ok (encode_metadata (config c)) : Result (list byte)) in (Ok (config c) : Result CollectionConfig)).
  apply reads_as_try; [pose proof (reads_as_file META d) as Hr; by rewrite Em in Hr|]. intros b [= <-].
  rewrite decode_encode_metadata by done. apply reads_as_ret.
Qed.

(** What opening gives, from any of these directories. *)
Definition opened_or (I : Dir -> Prop) (c : Collection) (r : Result PersistentCollection) (d : Dir) : Prop :=
  match r with
  | Ok st => store_ok avx2 st d /\ restores c (inner st) /\ I d
  | Err _ => I d
  | Panic => False
  end.

Lemma opened_weaken (I : Dir -> Prop) c r d : (forall d', recoverable avx2 d' c -> I d') -> opened avx2 c r d -> opened_or I c r d.
Proof. intros Hi. destruct r; cbn; [intros (? & ? & ?); auto|apply Hi|done]. Qed.

Lemma starting_other p bytes d cfg : p <> META -> p <> WAL -> p <> "MANIFEST" -> starting cfg d -> starting cfg (<[p := bytes]> d).
Proof. intros H1 H2 H3 (E1 & E2 & E3). unfold starting. by rewrite !lookup_insert_ne. Qed.

(** The steps after the lock, once the metadata are there. *)
Lemma open_from_wal (I : Dir -> Prop) cfg d durability cuda :
  config_ok cfg -> starting cfg d -> (forall d', recoverable avx2 d' (blank cfg) -> I d') -> I d ->
  specifies (
    let*? _ := open_or_create WAL in
    let*? inner := iolift (Collection.new cfg) in
    let*? (inner, loaded) := load_current_segments avx2 inner in
    let '(indexes, metadata_index) :=
      match loaded with Some (indexes, metadata) => (indexes, Some metadata) | None => ([], None) end in
    let*? r := recover_wal inner in
    let*? _ := sync in
    if bool_decide (cuda = Required)
    then ioret (Err (InvalidConfiguration "CUDA search was requested, but focal-vector was built without --features cuda"))
    else ioret (Ok (MkPersistent (rec_collection r) durability indexes metadata_index (rec_dirty r) cuda)))
    d (opened_or I (blank cfg)) I.
Proof.
  intros Hok Hs Hi Hd. pose proof Hs as (_ & Ew & _). apply spec_open_or_create_then; [done|by intros| |by rewrite Ew; intros []]. intros _.
  eapply spec_mono; [apply (open_rest avx2 _ (blank cfg)); by apply starting_wal|intros r d'; by apply opened_weaken|exact Hi].
Qed.

Lemma openable_lock d d' c : (forall p, p <> "collection.lock" -> d' !! p = d !! p) -> openable d c -> openable d' c.
Proof.
  intros Hp [Hr|(Hok & Eb & E1 & E2 & E3)]; [left; eapply recoverable_live; [|exact Hr]|right].
  - intros p Hl. apply Hp. intros ->. destruct Hl as [E|[E|[E|(s & _ & E)]]]; [done..|]. symmetry in E. revert E. by apply segment_name_not.
  - split; [done|]. split; [done|]. unfold starting. by rewrite !Hp.
Qed.

(** Opening a directory that was interrupted while it was created. *)
Lemma open_openable d c durability cuda lock :
  openable d c ->
  specifies (open_with_cuda avx2 (config c) durability cuda lock) d (opened_or (fun d' => openable d' c) c) (fun d' => openable d' c).
Proof.
  intros [Hr|Hs].
  { eapply spec_mono; [by apply open_spec|intros r d'; apply opened_weaken; by left|by left]. }
  unfold open_with_cuda. assert (openable d c) as Ho by (by right). apply spec_sync_then; [done|done|].
  eapply (spec_try _ _ _ (fun _ d' => config_ok (config c) /\ c = blank (config c) /\ starting (config c) d' /\ openable d' c)).
  { apply spec_open_or_create; [done|done|]. intros d' Hd' _. destruct Hs as (Hok & Eb & Hst). split; [done|]. split; [done|].
    split; [unfold starting in *; by rewrite !Hd'|by eapply openable_lock]. }
  intros _ d' (Hok & Eb & Hst & Ho'). clear d Hs Ho. destruct lock; [|by apply spec_ret..]. rewrite iotry_ok.
  eapply spec_reads; [apply ensure_metadata_present; [apply Hst|done]|done|done|]. cbv beta iota.
  eapply spec_mono; [apply (open_from_wal (fun d' => openable d' c)); [done|done|rewrite <- Eb; by left|done]| |done].
  intros [st|e|] d2; cbn; [by rewrite <- Eb|done..].
Qed.

(** Creating a collection: until its metadata are renamed, the directory holds none. *)
Definition begun (cfg : CollectionConfig) (d : Dir) : Prop := uncreated d \/ openable d (blank cfg).

Lemma uncreated_agree d d' : (forall p, p = META \/ p = WAL \/ p = "MANIFEST" -> d' !! p = d !! p) -> uncreated d -> uncreated d'.
Proof. intros Hp (E1 & E2 & E3). unfold uncreated. rewrite !Hp by tauto. done. Qed.

Lemma ensure_metadata_absent cfg d :
  config_ok cfg -> uncreated d ->
  specifies (ensure_metadata cfg) d
    (fun r d' => match r with Ok _ => starting cfg d' | Err _ => begun cfg d' | Panic => False end) (begun cfg).
Proof.
  intros Hok Hu. assert (forall d', starting cfg d' -> begun cfg d') as Hst by (right; by right).
  assert (forall bytes, uncreated (<["collection.meta.tmp" := bytes]> d)) as Ht.
  { intros bytes. eapply uncreated_agree; [|exact Hu]. by intros p [->|[->| ->]]; apply lookup_insert_ne. }
  assert (begun cfg d) as Hd by (by left). unfold ensure_metadata.
  eapply spec_bind; [apply (spec_exists _ _ _ (fun b d' => b = false /\ d' = d)); destruct Hu as [-> _]; by rewrite bool_decide_eq_false_2 by (by intros [])|]. intros b d' [-> ->].
  apply spec_create_then; [done|by intros|]. intros _.
  assert (forall b1 b2, begun cfg (appended "collection.meta.tmp" b1 (<["collection.meta.tmp" := b2]> d))) as Ha.
  { intros b1 b2. left. unfold appended. rewrite insert_insert_eq. apply Ht. }
  apply spec_append_then; [intros; apply Ha|intros; apply Ha|]. apply spec_sync_then; [apply Ha|intros; apply Ha|].
  apply spec_rename_then; [apply Ha|intros; apply Ha|]. intros bytes Eb. rewrite lookup_appended, lookup_insert_eq in Eb. injection Eb as <-.
  match goal with |- specifies sync ?d' _ _ => assert (starting cfg d') as Hs end.
  { destruct Hu as (_ & E2 & E3). unfold starting, appended. rewrite !lookup_insert_eq. split; [done|].
    rewrite !lookup_insert_ne, !lookup_delete_ne, !lookup_insert_ne by done. done. }
  apply spec_sync; [by apply Hst|intros; by apply Hst|done].
Qed.

Lemma open_fresh cfg d durability cuda lock :
  config_ok cfg -> uncreated d ->
  specifies (open_with_cuda avx2 cfg durability cuda lock) d (opened_or (begun cfg) (blank cfg)) (begun cfg).
Proof.
  intros Hok Hu. assert (begun cfg d) as Hb by (by left). unfold open_with_cuda. apply spec_sync_then; [done|done|].
  eapply (spec_try _ _ _ (fun _ => uncreated)).
  { apply spec_open_or_create; [done|done|]. intros d' Hd' _. eapply uncreated_agree; [|exact Hu]. by intros p [->|[->| ->]]; apply Hd'. }
  intros _ d' Hd'. assert (begun cfg d') as Hb' by (by left). destruct lock; [|by apply spec_ret..]. rewrite iotry_ok.
  eapply (spec_try _ _ _ (fun _ => starting cfg)).
  { eapply spec_mono; [by apply ensure_metadata_absent| |done]. by intros [[]|e|]. }
  intros _ d2 Hd2. apply open_from_wal; [done|done| |]; unfold begun; [intros; right; by left|right; by right].
Qed.

(** Without faults a directory that was interrupted opens. *)
Lemma openable_opens d c durability cuda :
  openable d c -> cuda <> Required ->
  exists st d', runs (open_with_cuda avx2 (config c) durability cuda Locked) d (Ok st) d'.
Proof.
  intros [Hr|(Hok & Eb & Hs)] Hcuda; [by apply open_succeeds|].
  set (d1 := match d !! "collection.lock" with Some _ => d | None => <["collection.lock" := []]> d end).
  assert (starting (config c) d1) as Hs1.
  { unfold d1. destruct (d !! "collection.lock"); [done|]. by apply starting_other. }
  assert (is_Some (d1 !! "collection.lock")) as [lock El].
  { unfold d1. destruct (d !! "collection.lock") eqn:E; [by rewrite E|]. by rewrite lookup_insert_eq. }
  pose proof (runs_open_or_create "collection.lock" d) as Hd1. fold d1 in Hd1. clearbody d1.
  pose proof (runs_open_or_create WAL d1) as Hd2. pose proof Hs1 as (E1 & E2 & _). rewrite E2 in Hd2.
  destruct (open_succeeds avx2 (<[WAL := []]> d1) (blank (config c)) durability cuda) as (st & d' & Ho); [by apply starting_wal|done|].
  exists st, d'. unfold runs in *. rewrite <- Ho. set (d2 := <[WAL := []]> d1).
  assert (d2 !! META = Some (encode_metadata (config c))) as E3 by (unfold d2; by rewrite lookup_insert_ne).
  pose proof (runs_open_or_create "collection.lock" d2) as H1. unfold d2 in H1 at 2. rewrite lookup_insert_ne, El in H1 by done.
  pose proof (runs_open_or_create WAL d2) as H2. unfold d2 in H2 at 2. rewrite lookup_insert_eq in H2.
  unfold open_with_cuda. rewrite (runs_step sync _ d tt d), (runs_step sync _ d2 tt d2) by done.
  rewrite (runs_step _ _ _ _ _ Hd1), (runs_step _ _ _ _ _ H1), !iotry_ok. cbn [config blank].
  rewrite (runs_step _ _ _ _ _ (proj2 (ensure_metadata_present _ _ E1 Hok))), (runs_step _ _ _ _ _ (proj2 (ensure_metadata_present _ _ E3 Hok))).
  by rewrite (runs_step _ _ _ _ _ Hd2), (runs_step _ _ _ _ _ H2).
Qed.
End Creation.
