(* ===== verification/Tree.v ===== *)
(** * Tree: a database's directory of directories

    Under the root there is a directory per collection, and a directory of
    backups with a directory per backup.  A computation on one collection's
    directory runs [within] its place; the calls on directories are effects of
    the tree.  Then [copy_collection_directory] of [src/src/persistence.rs]:
    a copy is made beside its destination and renamed. *)

From Stdlib Require Import Ascii.
From stdpp Require Import base gmap sets list strings.
From Stdlib Require Import ZArith Lia.
From S2P Require Import Prelude Errors Collection Wire Disk Manifest Persistence.

(** [root.join(name)] and [root.join(".backups").join(name)] *)
Inductive Place : Type :=
| Live (name : string)
| Saved (name : string).

#[global] Instance Place_eq_dec : EqDecision Place.
Proof. solve_decision. Defined.
#[global] Instance Place_countable : Countable Place.
Proof.
  refine (inj_countable' (fun p => match p with Live n => inl n | Saved n => inr n end)
    (fun s => match s with inl n => Live n | inr n => Saved n end) _). by intros [].
Defined.

Abbreviation Tree := (gmap Place Dir).

Definition beside (place : Place) (name : string) : Place :=
  match place with Live _ => Live name | Saved _ => Saved name end.
Definition file_name (place : Place) : string := match place with Live name | Saved name => name end.

(** [Path::join] with a relative path. *)
Fixpoint needs_separator (base : string) : bool :=
  match base with
  | EmptyString => false
  | String c EmptyString => negb (Ascii.eqb c "/")
  | String _ base' => needs_separator base'
  end.
Definition join (base name : string) : string := base +:+ (if needs_separator base then "/" else "") +:+ name.
Definition display (root : string) (place : Place) : string :=
  match place with Live name => join root name | Saved name => join (join root ".backups") name end.

(** The directory is there when a collection is opened in it: it is created. *)
Definition within {A : Type} (place : Place) (m : io A) : io_of Tree A := fun w =>
  match m (MkWorld (default ∅ (disk w !! place)) (script w)) with
  | Returned a w' => Returned a (MkWorld (<[place := disk w']> (disk w)) (script w'))
  | Crashed d => Crashed (<[place := d]> (disk w))
  end.

(** ** Calls on directories *)

Definition directory_exists (place : Place) : io_of Tree bool := fun w => Returned (bool_decide (is_Some (disk w !! place))) w.
Definition is_file (place : Place) (name : string) : io_of Tree bool := fun w =>
  Returned (bool_decide (is_Some (disk w !! place ≫= (.!! name)))) w.

(** The root and the directory of backups are there already, or are made. *)
Definition create_dir_all : io_of Tree (Result unit) := sync.

Definition create_dir (place : Place) : io_of Tree (Result unit) :=
  effect unchanged (fun t => match t !! place with
                             | Some _ => (Err (Io "File exists (os error 17)"), t)
                             | None => (Ok tt, <[place := ∅]> t)
                             end).

(** [fs::copy] of one file: it may stop before the target is created, or in it. *)
Definition with_file (place : Place) (name : string) (bytes : list byte) (t : Tree) : Tree :=
  <[place := <[name := bytes]> (default ∅ (t !! place))]> t.
Definition copy (source destination : Place) (name : string) : io_of Tree (Result unit) :=
  effect (fun n t => match t !! source ≫= (.!! name), n with
                     | Some bytes, S n => with_file destination name (firstn n bytes) t
                     | _, _ => t
                     end)
    (fun t => match t !! source ≫= (.!! name) with
              | Some bytes => (Ok tt, with_file destination name bytes t)
              | None => (Err missing, t)
              end).

(** [fs::rename] of a directory: an empty target is replaced. *)
Definition rename_dir (from to : Place) : io_of Tree (Result unit) :=
  effect unchanged (fun t => match t !! from with
    | None => (Err missing, t)
    | Some d => match t !! to with
                | Some target => if bool_decide (target = ∅) then (Ok tt, <[to := d]> (base.delete from t))
                                 else (Err (Io "Directory not empty (os error 39)"), t)
                | None => (Ok tt, <[to := d]> (base.delete from t))
                end
    end).

(** [fs::remove_dir_all]: an interrupted one has removed some of the files. *)
Definition remove_dir_all (place : Place) : io_of Tree (Result unit) :=
  effect (fun n t => match t !! place with
                     | Some d => <[place := list_to_map (drop n (map_to_list d))]> t
                     | None => t
                     end)
    (fun t => match t !! place with Some _ => (Ok tt, base.delete place t) | None => (Err missing, t) end).

(** The names under the root, or in the directory of backups. *)
Definition live_names (t : Tree) : list string := omap (fun e => match e.1 with Live name => Some name | Saved _ => None end) (map_to_list t).
Definition saved_names (t : Tree) : list string := omap (fun e => match e.1 with Saved name => Some name | Live _ => None end) (map_to_list t).
Definition read_dir (names : Tree -> list string) : io_of Tree (Result (list string)) := effect unchanged (fun t => (Ok (names t), t)).

(** ** Copying a collection *)

Definition copy_and_sync (source destination : Place) (name : string) : io_of Tree (Result unit) :=
  let*? _ := copy source destination name in
  sync.

Definition copy_files (source temporary : Place) : io_of Tree (Result unit) :=
  let*? _ := copy_and_sync source temporary META in
  let*? _ := copy_and_sync source temporary WAL in
  let*? manifest := within source read_manifest in
  match manifest with
  | Some manifest =>
      let*? _ := io_fold (fun _ name => copy_and_sync source temporary name) tt (man_segments manifest) in
      copy_and_sync source temporary "MANIFEST"
  | None => ioret (Ok tt)
  end.

(** [nonce] is the process id and the time. *)
Definition temporary_copy (destination : Place) (nonce : string) : Place :=
  beside destination ("." +:+ file_name destination +:+ ".tmp-" +:+ nonce).

Definition copy_collection_directory (root nonce : string) (source destination : Place) : io_of Tree (Result unit) :=
  let* present := directory_exists destination in
  if present : bool then ioret (Err (AlreadyExists ("backup destination " +:+ display root destination)))
  else
    let*? _ := create_dir_all in
    let temporary := temporary_copy destination nonce in
    let*? _ := create_dir temporary in
    let* result := (
      let*? _ := copy_files source temporary in
      let*? _ := sync in
      let*? _ := rename_dir temporary destination in
      sync) in
    match result with
    | Ok _ => ioret result
    | _ => let* _ := ignore (remove_dir_all temporary) in ioret result
    end.

Definition restore_backup (root nonce : string) (source destination : Place) : io_of Tree (Result CollectionConfig) :=
  let*? config := within source persisted_config in
  let*? _ := copy_collection_directory root nonce source destination in
  ioret (Ok config).
