(* ===== verification/TreeFacts.v ===== *)
(** * TreeFacts: one directory among others, and copies of directories

    A computation inside one directory leaves the others alone.  A copy appears
    under its name complete or not at all, whatever fails. *)

From stdpp Require Import base gmap sets list strings sorting.
From Stdlib Require Import ZArith Lia.
From S2P Require Import Prelude Errors Floats Ranking Metric Filter MetadataIndex Collection CollectionFacts Codec Wire WireFacts Wal.
From S2P Require Import Disk DiskFacts Segment Manifest ManifestFacts Persistence Recovery Durability FlushFacts Tree.

(** ** One directory among others *)

Definition elsewhere (places : list Place) (t t' : Tree) : Prop := forall p, p ∉ places -> t' !! p = t !! p.

Lemma elsewhere_refl ps t : elsewhere ps t t.
Proof. done. Qed.
Lemma elsewhere_insert p d ps t t' : p ∈ ps -> elsewhere ps t t' -> elsewhere ps t (<[p := d]> t').
Proof. intros Hp He q Hq. rewrite lookup_insert_ne by (intros ->; done). by apply He. Qed.
Lemma elsewhere_delete p ps t t' : p ∈ ps -> elsewhere ps t t' -> elsewhere ps t (base.delete p t').
Proof. intros Hp He q Hq. rewrite lookup_delete_ne by (intros ->; done). by apply He. Qed.
Lemma elsewhere_trans ps t1 t2 t3 : elsewhere ps t1 t2 -> elsewhere ps t2 t3 -> elsewhere ps t1 t3.
Proof. intros H1 H2 p Hp. by rewrite H2, H1. Qed.

Lemma spec_within {A} place (m : io A) t (Q : A -> Dir -> Prop) (C : Dir -> Prop) :
  specifies m (default ∅ (t !! place)) Q C ->
  specifies (within place m) t (fun a t' => exists d, t' = <[place := d]> t /\ Q a d) (fun t' => exists d, t' = <[place := d]> t /\ C d).
Proof.
  intros Hm s. specialize (Hm s). unfold within. cbn [disk script].
  destruct (m _) as [a w|d]; [exists (disk w)|exists d]; done.
Qed.

(** Reading inside a directory that is there changes nothing. *)
Lemma spec_within_reads {A} place (m : io (Result A)) t d r :
  t !! place = Some d -> reads_as m d r ->
  specifies (within place m) t (fun r' t' => t' = t /\ (r' = r \/ io_failed r')) (fun t' => t' = t).
Proof.
  intros Et [Hm _]. eapply spec_mono; [apply spec_within; rewrite Et; exact Hm| |].
  - intros r' t' (d' & -> & -> & Hr). split; [by apply insert_id|done].
  - intros t' (d' & -> & ->). by apply insert_id.
Qed.

(** ** Copies *)

(** [names] of the files of [d] are in the copy, and no others. *)
Definition part_of (d : Dir) (names : list string) (copy : Dir) : Prop :=
  forall n, copy !! n = if decide (n ∈ names) then d !! n else None.

Section Copy.
Context (source temporary : Place) (t : Tree) (d : Dir).
Context (Hne : source <> temporary) (Hsource : t !! source = Some d).

Definition copying (names : list string) (t' : Tree) : Prop :=
  elsewhere [temporary] t t' /\ exists copy, t' !! temporary = Some copy /\ part_of d names copy.

Lemma copying_source names t' : copying names t' -> t' !! source = Some d.
Proof. intros [He _]. rewrite He; [done|]. by intros ->%list_elem_of_singleton. Qed.

Lemma spec_copy name names t' :
  copying names t' ->
  specifies (copy_and_sync source temporary name) t'
    (fun r t'' => match r with Ok _ => copying (name :: names) t'' | Err _ => elsewhere [temporary] t t'' | Panic => False end)
    (elsewhere [temporary] t).
Proof.
  intros Hc. pose proof Hc as [He (copy & Ec & Hp)]. pose proof (copying_source _ _ Hc) as Es.
  assert (forall bytes, elsewhere [temporary] t (with_file temporary name bytes t')) as Hw.
  { intros bytes. apply elsewhere_insert; [by left|done]. }
  unfold copy_and_sync. apply spec_try_effect.
  - intros n. rewrite Es. cbn. destruct (d !! name); destruct n; try done; apply Hw.
  - intros e n. rewrite Es. cbn. destruct (d !! name); destruct n; try done; apply Hw.
  - rewrite Es. cbn. destruct (d !! name) as [bytes|] eqn:En; cbn [fst snd]; [|done].
    apply spec_sync; [apply Hw|intros; apply Hw|]. split; [apply Hw|]. unfold with_file. rewrite Ec. cbn.
    exists (<[name := bytes]> copy). rewrite lookup_insert_eq. split; [done|]. intros n. destruct (decide (n = name)) as [->|Hn].
    + rewrite lookup_insert_eq, decide_True by (by left). done.
    + rewrite lookup_insert_ne, Hp by done. by repeat case_decide; set_solver.
Qed.

Lemma spec_copy_all l names t' :
  copying names t' ->
  specifies (io_fold (fun _ name => copy_and_sync source temporary name) tt l) t'
    (fun r t'' => match r with Ok _ => copying (rev l ++ names) t'' | Err _ => elsewhere [temporary] t t'' | Panic => False end)
    (elsewhere [temporary] t).
Proof.
  revert names t'. induction l as [|name l IH]; intros names t' Hc; cbn [io_fold]; [by apply spec_ret|].
  eapply (spec_try _ _ _ (fun _ => copying (name :: names))).
  - eapply spec_mono; [by apply spec_copy| |done]. intros [[]|e|] t'' Ht; exact Ht.
  - intros [] t'' Ht. eapply spec_mono; [by apply IH| |done]. intros [r|e|] t3 Hr; [|exact Hr..].
    cbn [rev]. by rewrite <- app_assoc.
Qed.
End Copy.

(** What a restart needs of a copy. *)
Definition copy_of (d copy : Dir) : Prop :=
  copy !! META = d !! META /\ copy !! WAL = d !! WAL /\ copy !! "MANIFEST" = d !! "MANIFEST" /\
  forall m n, manifest_dir d = Ok (Some m) -> n ∈ man_segments m -> copy !! n = d !! n.

Lemma copy_recoverable `{FloatEnv} avx2 d copy c : copy_of d copy -> recoverable avx2 d c -> recoverable avx2 copy c.
Proof.
  intros (E1 & E2 & E3 & E4) (Hc & base & ps & torn & rec & dirty & Hh & Hr & Hs). split; [done|].
  exists base, ps, torn, rec, dirty. split; [|done]. by eapply holds_agree.
Qed.

Lemma part_copy d names copy :
  part_of d names copy -> (forall n, n ∈ [META; WAL] -> n ∈ names) -> 
  (forall m, manifest_dir d = Ok (Some m) -> "MANIFEST" ∈ names /\ forall n, n ∈ man_segments m -> n ∈ names) ->
  (manifest_dir d = Ok None -> d !! "MANIFEST" = None) -> (exists m, manifest_dir d = Ok m) -> copy_of d copy.
Proof.
  intros Hp Hn Hm Hnone (m & Em). assert (forall n, n ∈ names -> copy !! n = d !! n) as Hin by (intros n Hi; by rewrite Hp, decide_True).
  split; [apply Hin, Hn; set_solver|]. split; [apply Hin, Hn; set_solver|]. split.
  - destruct m as [m|]; [apply Hin; by destruct (Hm m Em)|]. rewrite Hp, Hnone by done. by case_decide.
  - intros m' n E Hi. apply Hin. destruct (Hm m' E) as [_ Hs]. by apply Hs.
Qed.

Lemma manifest_dir_none d : manifest_dir d = Ok None -> d !! "MANIFEST" = None.
Proof.
  unfold manifest_dir. destruct (d !! "MANIFEST") as [bytes|]; [|done]. destruct (decode_manifest bytes); done.
Qed.

Section CopyDirectory.
Context (source destination : Place) (root nonce : string) (t : Tree) (d : Dir).
Let temporary := temporary_copy destination nonce.
Context (Hne : source <> temporary) (Hdt : destination <> temporary) (Hsd : source <> destination) (Hsource : t !! source = Some d).

Lemma spec_copy_files t' :
  copying temporary t d [] t' ->
  specifies (copy_files source temporary) t'
    (fun r t'' => match r with
       | Ok _ => elsewhere [temporary] t t'' /\ exists copy, t'' !! temporary = Some copy /\ copy_of d copy
       | Err _ => elsewhere [temporary] t t'' | Panic => False end)
    (elsewhere [temporary] t).
Proof.
  intros Hc. unfold copy_files.
  eapply (spec_try _ _ _ (fun _ => copying temporary t d [META])).
  { eapply spec_mono; [by eapply spec_copy| |done]. intros [[]|e|] t'' Ht; exact Ht. }
  intros _ t1 H1. eapply (spec_try _ _ _ (fun _ => copying temporary t d [WAL; META])).
  { eapply spec_mono; [by eapply spec_copy| |done]. intros [[]|e|] t'' Ht; exact Ht. }
  intros _ t2 H2. pose proof H2 as [He2 (copy & Ec & Hp)].
  eapply (spec_try _ _ _ (fun r t' => t' = t2 /\ manifest_dir d = Ok r)).
  { eapply spec_mono; [eapply spec_within_reads; [exact (copying_source _ _ _ _ Hne Hsource _ _ H2)|apply read_manifest_dir]| |by intros ? ->].
    intros r t3 [-> [->|(e & ->)]]; [|done]. destruct (manifest_dir d) as [m|e|] eqn:E; [by split|done|]. by apply manifest_dir_total in E. }
  intros [m|] t3 [-> Em].
  2: { apply spec_ret. split; [done|]. exists copy. split; [done|]. eapply part_copy; [exact Hp|set_solver|by intros m; rewrite Em|apply manifest_dir_none|by eexists]. }
  eapply (spec_try _ _ _ (fun _ => copying temporary t d (rev (man_segments m) ++ [WAL; META]))).
  { eapply spec_mono; [by eapply spec_copy_all| |done]. intros [[]|e|] t'' Ht; exact Ht. }
  intros _ t4 H4. eapply spec_mono; [by eapply spec_copy| |done]. intros [[]|e|] t5 H5; [|done..].
  destruct H5 as [He5 (copy5 & Ec5 & Hp5)]. split; [done|]. exists copy5. split; [done|].
  eapply part_copy; [exact Hp5|set_solver| |apply manifest_dir_none|by eexists].
  intros m' E. rewrite Em in E. injection E as <-. split; [by left|]. intros n Hn. right. apply elem_of_app. left.
  apply list_elem_of_In. rewrite <- in_rev. by apply list_elem_of_In.
Qed.

(** Under its name the copy is complete or absent. *)
Definition copied (t' : Tree) : Prop :=
  elsewhere [temporary; destination] t t' /\
  (t' !! destination = None \/ exists copy, t' !! destination = Some copy /\ copy_of d copy).

Lemma spec_copy_directory :
  t !! destination = None ->
  specifies (copy_collection_directory root nonce source destination) t
    (fun r t' => copied t' /\ (forall x, r = Ok x -> exists copy, t' !! destination = Some copy /\ copy_of d copy) /\ r <> Panic)
    copied.
Proof.
  intros Hdest. unfold copy_collection_directory.
  assert (forall t', elsewhere [temporary] t t' -> copied t') as Hpart.
  { intros t' He. split; [intros p Hp; apply He; set_solver|]. left. rewrite He; [done|]. by intros E%list_elem_of_singleton. }
  eapply (spec_bind _ _ _ (fun b t' => b = false /\ t' = t)); [intros s; cbn; by rewrite Hdest|]. intros b t' [-> ->].
  assert (copied t) as H0 by (by apply Hpart).
  apply spec_sync_then; [done|done|]. fold temporary. apply spec_try_effect; [done|done|].
  destruct (t !! temporary) eqn:Et; cbn [fst snd]; [done|]. set (t1 := <[temporary := ∅]> t).
  assert (copying temporary t d [] t1) as H1.
  { split; [by apply elsewhere_insert; [left|]|]. exists ∅. split; [unfold t1; by rewrite lookup_insert_eq|]. intros n. by rewrite lookup_empty. }
  eapply (spec_bind _ _ _ (fun r t' => copied t' /\ (forall x, r = Ok x -> exists copy, t' !! destination = Some copy /\ copy_of d copy) /\ r <> Panic)).
  - eapply (spec_try _ _ _ (fun _ t'' => elsewhere [temporary] t t'' /\ exists copy, t'' !! temporary = Some copy /\ copy_of d copy)).
    { eapply spec_mono; [by apply spec_copy_files| |intros; by apply Hpart]. intros [[]|e|] t'' Ht; [exact Ht| |done]. split; [by apply Hpart|done]. }
    intros _ t2 [He2 (copy & Ec & Hc)]. pose proof (Hpart _ He2) as H2. apply spec_sync_then; [done|done|].
    apply spec_try_effect; [done|done|]. rewrite Ec. assert (t2 !! destination = None) as -> by (rewrite He2; [done|by intros E%list_elem_of_singleton]).
    cbn [fst snd]. set (t3 := <[destination := copy]> (base.delete temporary t2)).
    assert (copied t3) as H3.
    { split; [|right; exists copy; split; [unfold t3; by rewrite lookup_insert_eq|done]].
      apply elsewhere_insert; [set_solver|]. apply elsewhere_delete; [set_solver|]. intros p Hp. apply He2. set_solver. }
    apply spec_sync; [done|done|]. split; [done|]. split; [|done]. intros _ _. exists copy. unfold t3. by rewrite lookup_insert_eq.
  - intros r t' (Ht & Hok & Hnp). destruct r as [x|e|]; [by apply spec_ret| |done].
    assert (forall d', copied (<[temporary := d']> t')) as Hi.
    { intros d'. destruct Ht as [He Hd]. split; [by apply elsewhere_insert; [left|]|]. by rewrite lookup_insert_ne. }
    eapply (spec_bind _ _ _ (fun _ => copied)); [|intros _ t'' Ht'; by apply spec_ret]. apply spec_ignore, spec_effect.
    + intros n. destruct (t' !! temporary); [apply Hi|done].
    + intros _ n. destruct (t' !! temporary); [apply Hi|done].
    + destruct (t' !! temporary); cbn [fst snd]; [|done]. destruct Ht as [He Hd].
      split; [by apply elsewhere_delete; [left|]|]. by rewrite lookup_delete_ne.
Qed.
End CopyDirectory.
