(* ===== verification/Database.v ===== *)
(** * Database: a catalogue of named collections ([src/src/database.rs])

    The database maps names to shared collections with their background
    flushers; each lives in the directory of its name.  [backup_to] of
    [src/src/concurrent.rs] is here too, because it needs a second directory.
    The nonces in the names of temporary files and directories, the outcome of
    locking a directory and the process environment are parameters. *)

From Stdlib Require Import Ascii.
From stdpp Require Import base gmap sets list strings sorting.
From Stdlib Require Import ZArith Lia.
From S2P Require Import Prelude Errors Floats Ranking Metric Filter MetadataIndex Collection Wire Disk Persistence Environment Concurrent Tree.

Record DatabaseConfig : Type := MkDatabaseConfig { db_durability : Durability; flush_interval : Z; dirty_point_threshold : Z }.

(** One second, in nanoseconds. *)
Definition default_config : DatabaseConfig := MkDatabaseConfig Sync 1000000000 10000.

Record CollectionSummary : Type := MkSummary {
  summary_name : string; summary_config : CollectionConfig; summary_points : Z; summary_latest_sequence : Z; summary_pending_points : Z
}.

Record ManagedCollection : Type := MkManaged { managed : SharedCollection; flusher : Thread }.

(** [catalog_poisoned]: a panic under the catalogue's write lock. *)
Record Database : Type := MkDatabase {
  root : string;
  db_config : DatabaseConfig;
  collections : gmap string ManagedCollection;
  catalog_poisoned : bool
}.

Definition validate_database_config (config : DatabaseConfig) : Result unit :=
  if Z.eqb (flush_interval config) 0 || Z.eqb (dirty_point_threshold config) 0
  then Err (InvalidConfig "flush interval and dirty point threshold must be positive")
  else Ok tt.

(** [is_ascii_alphanumeric], hyphen or underscore *)
Definition name_char (c : ascii) : bool :=
  let n := N_of_ascii c in
  (N.leb 48 n && N.leb n 57) || (N.leb 65 n && N.leb n 90) || (N.leb 97 n && N.leb n 122) || N.eqb n 45 || N.eqb n 95.

Definition validate_collection_name (name : string) : Result unit :=
  if String.eqb name "" || Z.ltb 64 (str_len name) || negb (forallb name_char (String.list_ascii_of_string name))
  then Err (InvalidQuery "collection names must be 1-64 ASCII letters, digits, '-' or '_'")
  else Ok tt.
Definition valid_name (name : string) : bool := is_ok (validate_collection_name name).

Definition with_collections (self : Database) (collections : gmap string ManagedCollection) : Database :=
  MkDatabase (root self) (db_config self) collections (catalog_poisoned self).
(** The catalogue's lock is poisoned by a panic of the section under it. *)
Definition poisoning {A : Type} (result : Result A) (self : Database) : Result A * Database :=
  (result, match result with
           | Panic => MkDatabase (root self) (db_config self) (collections self) true
           | _ => self
           end).

Definition read_collections (self : Database) : Result (gmap string ManagedCollection) :=
  if catalog_poisoned self then Err (Concurrency "database catalog read lock is poisoned") else Ok (collections self).
Definition write_collections (self : Database) : Result (gmap string ManagedCollection) :=
  if catalog_poisoned self then Err (Concurrency "database catalog write lock is poisoned") else Ok (collections self).

Definition is_ready (self : Database) : bool := negb (catalog_poisoned self).

Section Database.
Context `{FloatEnv} (avx2 : bool) (workers : nat) (pid : Z).
Context (var_os : string -> option EnvValue) (try_lock : string -> LockOutcome).
(** The temporary names of the timeouts a background flusher will see. *)
Context (timeouts : string -> list string).

Definition open_managed (self : Database) (name : string) (config : CollectionConfig) : io_of Tree (Result ManagedCollection) :=
  let*? collection := within (Live name) (Concurrent.open avx2 var_os config (db_durability (db_config self)) (try_lock name)) in
  let*? flusher := iolift (start_background_flush (flush_interval (db_config self)) (dirty_point_threshold (db_config self)) (timeouts name)) in
  ioret (Ok (MkManaged collection flusher)).

(** The directories under the root that hold a collection. *)
Definition keep_collections (place : string -> Place) (names : list string) : io_of Tree (Result (list string)) :=
  io_fold (fun kept name =>
    let* present := is_file (place name) META in
    ioret (Ok (if valid_name name && present then kept ++ [name] else kept))) [] names.

Definition discover (self : Database) : io_of Tree (Result Database) :=
  let*? entries := read_dir live_names in
  let*? names := keep_collections Live entries in
  let*? _ := iolift (write_collections self) in
  io_fold (fun self name =>
    let*? config := within (Live name) persisted_config in
    let*? managed := open_managed self name config in
    ioret (Ok (with_collections self (<[name := managed]> (collections self))))) self (sort_by str_cmp names).

Definition open (root : string) (config : DatabaseConfig) : io_of Tree (Result Database) :=
  let*? _ := iolift (validate_database_config config) in
  let*? _ := create_dir_all in
  let*? _ := create_dir_all in
  discover (MkDatabase root config ∅ false).

Definition create_collection (self : Database) (name : string) (config : CollectionConfig)
    : io_of Tree (Result SharedCollection * Database) :=
  match (let? _ := validate_collection_name name in write_collections self) with
  | Ok catalogue =>
      match catalogue !! name with
      | Some _ => ioret (Err (AlreadyExists ("collection " +:+ name)), self)
      | None =>
          let* result := open_managed self name config in
          match result with
          | Ok opened => ioret (Ok (managed opened), with_collections self (<[name := opened]> catalogue))
          | Err e => ioret (Err e, self)
          | Panic => ioret (poisoning Panic self)
          end
      end
  | Err e => ioret (Err e, self)
  | Panic => ioret (Panic, self)
  end.

Definition collection (self : Database) (name : string) : Result SharedCollection :=
  let? _ := validate_collection_name name in
  let? catalogue := read_collections self in
  match catalogue !! name with
  | Some opened => Ok (managed opened)
  | None => Err (NotFound ("collection " +:+ name))
  end.

(** The handles of a collection share it: what one does, all see. *)
Definition update (self : Database) (name : string) (shared : SharedCollection) : Database :=
  with_collections self (alter (fun opened => MkManaged shared (flusher opened)) name (collections self)).

(** [self.collection(name)?] and a call on it. *)
Definition on_collection {A : Type} (self : Database) (name : string) (section : SharedCollection -> io (Result A * SharedCollection))
    : io_of Tree (Result A * Database) :=
  match collection self name with
  | Ok shared => let* (result, shared) := within (Live name) (section shared) in ioret (result, update self name shared)
  | Err e => ioret (Err e, self)
  | Panic => ioret (Panic, self)
  end.

Definition summarise (name : string) (collection : SharedCollection) : Result CollectionSummary :=
  let? config := Concurrent.config collection in
  let? points := Concurrent.len collection in
  let? latest_sequence := Concurrent.latest_sequence collection in
  let? pending_points := Concurrent.pending_point_count collection in
  Ok (MkSummary name config points latest_sequence pending_points).

Definition by_name (a b : CollectionSummary) : comparison := str_cmp (summary_name a) (summary_name b).

Definition list_collections (self : Database) : Result (list CollectionSummary) :=
  let? catalogue := read_collections self in
  let? summaries := mapM_result (fun e => summarise e.1 (managed e.2)) (map_to_list catalogue) in
  Ok (sort_by by_name summaries).

(** ** Backups *)

(** [SharedCollection::backup_to] *)
Definition backup_to (self : Database) (shared : SharedCollection) (source destination : Place) (temporary nonce : string)
    : io_of Tree (Result Z * SharedCollection) :=
  let* (flushed, shared) := within source (Concurrent.flush avx2 workers pid shared temporary) in
  match (let? _ := flushed in Concurrent.latest_sequence shared) with
  | Ok sequence =>
      let* copied := copy_collection_directory (root self) nonce source destination in
      ioret (rmap (fun _ => sequence) copied, shared)
  | Err e => ioret (Err e, shared)
  | Panic => ioret (Panic, shared)
  end.

Definition backup_collection (self : Database) (collection_name backup_name temporary nonce : string) : io_of Tree (Result Z * Database) :=
  match (let? _ := validate_collection_name backup_name in collection self collection_name) with
  | Ok shared =>
      let* (result, shared) := backup_to self shared (Live collection_name) (Saved backup_name) temporary nonce in
      ioret (result, update self collection_name shared)
  | Err e => ioret (Err e, self)
  | Panic => ioret (Panic, self)
  end.

Definition restore_collection (self : Database) (backup_name collection_name nonce : string)
    : io_of Tree (Result SharedCollection * Database) :=
  match (let? _ := validate_collection_name backup_name in
         let? _ := validate_collection_name collection_name in
         write_collections self) with
  | Ok catalogue =>
      match catalogue !! collection_name with
      | Some _ => ioret (Err (AlreadyExists ("collection " +:+ collection_name)), self)
      | None =>
          let* present := is_file (Saved backup_name) META in
          if negb present then ioret (Err (NotFound ("backup " +:+ backup_name)), self)
          else
            let* restored := restore_backup (root self) nonce (Saved backup_name) (Live collection_name) in
            match restored with
            | Ok config =>
                let* result := open_managed self collection_name config in
                match result with
                | Ok opened => ioret (Ok (managed opened), with_collections self (<[collection_name := opened]> catalogue))
                | Err e => let* _ := ignore (remove_dir_all (Live collection_name)) in ioret (Err e, self)
                | Panic => ioret (poisoning Panic self)
                end
            | Err e => ioret (Err e, self)
            | Panic => ioret (poisoning Panic self)
            end
      end
  | Err e => ioret (Err e, self)
  | Panic => ioret (Panic, self)
  end.

Definition list_backups : io_of Tree (Result (list string)) :=
  let*? entries := read_dir saved_names in
  let*? backups := keep_collections Saved entries in
  ioret (Ok (sort_by str_cmp backups)).
End Database.
