(* ===== verification/DatabaseFacts.v ===== *)
(** * DatabaseFacts: the catalogue survives restarts, backups hold collections

    [found t cs]: a restart of the database on the tree [t] finds exactly the
    collections [cs].  [serves self t cs]: the open database [self] serves
    collections of [cs], each in agreement with its directory.  Opening,
    creating, backing up and restoring are steps on [cs], whatever fails. *)

From Stdlib Require Import Ascii.
From stdpp Require Import base gmap sets list strings sorting.
From Stdlib Require Import ZArith Lia.
From S2P Require Import Prelude Errors Floats Ranking Metric Filter MetadataIndex Collection CollectionFacts Codec Wire WireFacts Wal.
From S2P Require Import Disk DiskFacts Segment Manifest ManifestFacts Persistence Recovery Durability FlushFacts Environment Concurrent.
From S2P Require Import Creation Tree TreeFacts Database.

(** ** Names *)

Lemma valid_name_chars name :
  valid_name name = true <-> name <> "" /\ str_len name <= 64 /\ forallb name_char (String.list_ascii_of_string name) = true.
Proof.
  unfold valid_name, validate_collection_name. destruct (String.eqb_spec name "") as [->|Hn]; [split; [done|tauto]|].
  destruct (Z.ltb_spec 64 (str_len name)); [split; [done|intros (_ & ? & _); lia]|].
  destruct (forallb _ _); cbn; split; try done. by intros (_ & _ & ?).
Qed.

Lemma temporary_invalid place nonce : valid_name (file_name (temporary_copy place nonce)) = false.
Proof.
  apply not_true_iff_false. rewrite valid_name_chars. destruct place; cbn; by intros (_ & _ & ?).
Qed.

Lemma live_temporary name nonce : temporary_copy (Live name) nonce = Live ("." +:+ name +:+ ".tmp-" +:+ nonce).
Proof. done. Qed.

Section Facts.
Context `{FloatEnv} (avx2 : bool).

(** ** What a restart finds *)

Definition found (t : Tree) (cs : gmap string Collection) : Prop :=
  forall name, match cs !! name with
    | Some c => valid_name name = true /\ exists d, t !! Live name = Some d /\ openable avx2 d c
    | None => valid_name name = true -> forall d, t !! Live name = Some d -> d !! META = None
    end.

Lemma found_agree t t' cs : (forall name, valid_name name = true -> t' !! Live name = t !! Live name) -> found t cs -> found t' cs.
Proof.
  intros Ht Hf name. specialize (Hf name). destruct (cs !! name); [destruct Hf as [Hv Hf]; split; [done|]; by rewrite Ht|].
  intros Hv. rewrite Ht by done. by apply Hf.
Qed.

Lemma found_insert t cs name c d :
  valid_name name = true -> openable avx2 d c -> found t cs -> found (<[Live name := d]> t) (<[name := c]> cs).
Proof.
  intros Hv Ho Hf other. destruct (decide (other = name)) as [->|Hne].
  - rewrite lookup_insert_eq. split; [done|]. exists d. by rewrite lookup_insert_eq.
  - rewrite !lookup_insert_ne by congruence. apply Hf.
Qed.

(** A directory without metadata does not count. *)
Lemma found_blank t cs name d : cs !! name = None -> d !! META = None -> found t cs -> found (<[Live name := d]> t) cs.
Proof.
  intros Ec Em Hf other. specialize (Hf other). destruct (decide (other = name)) as [->|Hne].
  - rewrite Ec in *. intros _ d'. rewrite lookup_insert_eq. by intros [= <-].
  - by rewrite lookup_insert_ne by congruence.
Qed.

Definition opened_collection (m : ManagedCollection) : PersistentCollection := guarded (managed m).
Definition live (self : Database) : gmap string Collection := (fun m => inner (opened_collection m)) <$> collections self.

Record serves (self : Database) (t : Tree) (cs : gmap string Collection) : Prop := {
  sv_found : found t cs;
  sv_lock : catalog_poisoned self = false;
  sv_config : validate_database_config (db_config self) = Ok tt;
  sv_entries : forall name m, collections self !! name = Some m ->
    cs !! name = Some (inner (opened_collection m)) /\ poisoned (managed m) = false /\
    exists d, t !! Live name = Some d /\ store_ok avx2 (opened_collection m) d
}.

Lemma serves_valid self t cs name m : serves self t cs -> collections self !! name = Some m -> valid_name name = true.
Proof.
  intros Hs (Ec & _)%(sv_entries _ _ _ Hs). pose proof (sv_found _ _ _ Hs name) as Hf. rewrite Ec in Hf. apply Hf.
Qed.

(** Another directory changes. *)
Lemma serves_agree self t t' cs :
  (forall name, valid_name name = true -> t' !! Live name = t !! Live name) -> serves self t cs -> serves self t' cs.
Proof.
  intros Ht Hs. constructor; [eapply found_agree; [exact Ht|apply Hs]|apply Hs|apply Hs|].
  intros name m Em. pose proof (sv_entries _ _ _ Hs name m Em) as (Ec & Hp & d & Ed & Hd). split; [done|]. split; [done|].
  exists d. split; [|done]. rewrite Ht; [done|]. by eapply serves_valid.
Qed.

(** A collection is opened, or advances. *)
Lemma serves_insert self t cs name m d :
  valid_name name = true -> poisoned (managed m) = false -> store_ok avx2 (opened_collection m) d -> serves self t cs ->
  serves (with_collections self (<[name := m]> (collections self))) (<[Live name := d]> t) (<[name := inner (opened_collection m)]> cs).
Proof.
  intros Hv Hp Hd Hs. constructor; [apply found_insert; [done|left; by eapply store_ok_recoverable|apply Hs]|apply Hs|apply Hs|].
  cbn [collections with_collections]. intros other m' Em. destruct (decide (other = name)) as [->|Hne].
  - rewrite lookup_insert_eq in Em. injection Em as <-. rewrite lookup_insert_eq. split; [done|]. split; [done|].
    exists d. by rewrite lookup_insert_eq.
  - rewrite lookup_insert_ne in Em by congruence. rewrite !lookup_insert_ne by congruence. by apply (sv_entries _ _ _ Hs).
Qed.

(** The directory of a collection that is not open. *)
Lemma serves_place self t cs cs' name d :
  collections self !! name = None -> (forall other, other <> name -> cs' !! other = cs !! other) ->
  found (<[Live name := d]> t) cs' -> serves self t cs -> serves self (<[Live name := d]> t) cs'.
Proof.
  intros En Hcs Hf Hs. constructor; [done|apply Hs|apply Hs|]. intros other m Em.
  assert (other <> name) as Hne by congruence. rewrite Hcs, lookup_insert_ne by congruence. by apply (sv_entries _ _ _ Hs).
Qed.
End Facts.

(** ** Opening one collection *)

Section Open.
Context `{FloatEnv} (avx2 : bool) (var_os : string -> option EnvValue) (try_lock : string -> LockOutcome) (timeouts : string -> list string).

Lemma parse_usize_env_total name default : parse_usize_env var_os name default <> Panic.
Proof. unfold parse_usize_env. destruct (var_os name) as [[value|]|]; [|done..]. by destruct (parse_unsigned _ _). Qed.

Lemma from_env_total : from_env var_os <> Panic.
Proof.
  unfold from_env. destruct (var_os "FOCAL_CUDA") as [[mode|]|]; [|done..]. unfold parse_mode.
  destruct (existsb _ _); [|destruct (existsb _ _); [|destruct (String.eqb _ _); [|done]]]; cbn [rbind].
  all: pose proof (parse_usize_env_total "FOCAL_CUDA_DEVICE" 0); destruct (parse_usize_env _ "FOCAL_CUDA_DEVICE" 0); try done; cbn [rbind].
  all: pose proof (parse_usize_env_total "FOCAL_CUDA_MIN_VECTORS" 10000); by destruct (parse_usize_env _ "FOCAL_CUDA_MIN_VECTORS" 10000).
Qed.

Lemma shared_open_spec (I : Dir -> Prop) c cfg durability lock d :
  (forall cuda, specifies (Persistence.open_with_cuda avx2 cfg durability cuda lock) d (opened_or avx2 I c) I) -> I d ->
  specifies (Concurrent.open avx2 var_os cfg durability lock) d
    (fun r d' => match r with
       | Ok s => poisoned s = false /\ store_ok avx2 (guarded s) d' /\ restores c (inner (guarded s)) /\ I d'
       | Err _ => I d' | Panic => False end) I.
Proof.
  intros Ho Hd. unfold Concurrent.open, Environment.open. pose proof from_env_total as Hp.
  destruct (from_env var_os) as [cuda|e|]; [|by apply spec_ret|done]. rewrite iotry_ok.
  eapply (spec_try _ _ _ (fun st d' => store_ok avx2 st d' /\ restores c (inner st) /\ I d')).
  - eapply spec_mono; [apply Ho| |done]. by intros [st|e|].
  - intros st d' Hst. by apply spec_ret.
Qed.

Lemma start_flusher interval threshold names :
  validate_database_config (MkDatabaseConfig Sync interval threshold) = Ok tt ->
  start_background_flush interval threshold names = Ok (MkThread (map (Timeout threshold) names) Idle [] true).
Proof.
  unfold validate_database_config, start_background_flush. cbn. destruct (Z.eqb interval 0), (Z.eqb threshold 0); done.
Qed.

Lemma open_managed_spec (I : Dir -> Prop) c cfg self t name :
  let d := default ∅ (t !! Live name) in
  validate_database_config (db_config self) = Ok tt -> I d ->
  (forall cuda, specifies (Persistence.open_with_cuda avx2 cfg (db_durability (db_config self)) cuda (try_lock name)) d (opened_or avx2 I c) I) ->
  specifies (open_managed avx2 var_os try_lock timeouts self name cfg) t
    (fun r t' => exists d', t' = <[Live name := d']> t /\ match r with
       | Ok m => poisoned (managed m) = false /\ store_ok avx2 (opened_collection m) d' /\ restores c (inner (opened_collection m)) /\ I d'
       | Err _ => I d' | Panic => False end)
    (fun t' => exists d', t' = <[Live name := d']> t /\ I d').
Proof.
  intros d Hcfg Hd Ho. unfold open_managed.
  eapply (spec_try _ _ _ (fun s t' => exists d', t' = <[Live name := d']> t /\
    poisoned s = false /\ store_ok avx2 (guarded s) d' /\ restores c (inner (guarded s)) /\ I d')).
  - eapply spec_mono; [apply spec_within; by apply (shared_open_spec I c)| |done].
    intros [s|e|] t' (d' & -> & Hr); [exists d'; done..|done].
  - intros s t' (d' & -> & Hs). rewrite (start_flusher _ _ (timeouts name)) by exact Hcfg. rewrite iotry_ok. apply spec_ret. by exists d'.
Qed.

(** ** Opening the database *)

Lemma elem_of_live_names t name : name ∈ live_names t <-> is_Some (t !! Live name).
Proof.
  unfold live_names. rewrite list_elem_of_omap. split.
  - intros ([[n|n] d] & Hin & E); [|done]. injection E as <-. apply elem_of_map_to_list in Hin. by exists d.
  - intros [d Hd]. exists (Live name, d). split; [by apply elem_of_map_to_list|done].
Qed.

Lemma live_names_NoDup t : NoDup (live_names t).
Proof.
  unfold live_names. pose proof (NoDup_fst_map_to_list t) as Hn. revert Hn. generalize (map_to_list t) as l.
  induction l as [|[[n|n] d] l IH]; cbn; [constructor|intros [Hn Hl]%NoDup_cons..]; [|by apply IH].
  apply NoDup_cons. split; [|by apply IH]. intros ([[m|m] d'] & Hin & E)%list_elem_of_omap; [|done]. injection E as ->.
  apply Hn, list_elem_of_fmap. by exists (Live n, d').
Qed.

(** The names that are kept. *)
Definition kept (place : string -> Place) (t : Tree) (names : list string) : list string :=
  List.filter (fun name => valid_name name && bool_decide (is_Some (t !! place name ≫= (.!! META)))) names.

Lemma keep_collections_runs place names t s :
  keep_collections place names (MkWorld t s) = Returned (Ok (kept place t names)) (MkWorld t s).
Proof.
  unfold keep_collections, kept.
  assert (forall acc, io_fold (fun kept name =>
    let* present := is_file (place name) META in
    ioret (Ok (if valid_name name && present then kept ++ [name] else kept))) acc names (MkWorld t s) =
    Returned (Ok (acc ++ List.filter (fun name => valid_name name && bool_decide (is_Some (t !! place name ≫= (.!! META)))) names)) (MkWorld t s)) as Hf; [|apply (Hf [])].
  induction names as [|name names IH]; intros acc; cbn [io_fold List.filter]; [by rewrite app_nil_r|].
  unfold iotry, iobind, is_file, ioret. cbn [disk]. destruct (valid_name name && _); [|by rewrite IH].
  rewrite IH, <- app_assoc. done.
Qed.

Lemma elem_of_kept t cs name : found avx2 t cs -> name ∈ kept Live t (live_names t) <-> is_Some (cs !! name).
Proof.
  intros Hf. specialize (Hf name). unfold kept. rewrite list_elem_of_In, filter_In, <- list_elem_of_In, elem_of_live_names, andb_true_iff, bool_decide_eq_true.
  destruct (cs !! name) as [c|].
  - destruct Hf as (Hv & d & Ed & Ho). split; [by eexists|]. intros _. rewrite Ed. split; [by eexists|]. split; [done|].
    cbn. apply openable_meta in Ho as [-> _]. by eexists.
  - split; [|by intros []]. intros ([d Ed] & Hv & [bytes Em]). rewrite Ed in Em. cbn in Em. rewrite (Hf Hv d Ed) in Em. done.
Qed.
End Open.

Section Discover.
Context `{FloatEnv} (avx2 : bool) (var_os : string -> option EnvValue) (try_lock : string -> LockOutcome) (timeouts : string -> list string).
Context (cs : gmap string Collection).

(** A restart gives back every collection. *)
Definition restored (cs' : gmap string Collection) : Prop := forall name, option_Forall2 restores (cs !! name) (cs' !! name).

(** The collections that are open, and the names that are left. *)
Record discovering (self : Database) (t : Tree) (left : list string) : Prop := {
  ds_found : found avx2 t cs;
  ds_lock : catalog_poisoned self = false;
  ds_config : validate_database_config (db_config self) = Ok tt;
  ds_left : NoDup left /\ forall name, name ∈ left -> is_Some (cs !! name) /\ collections self !! name = None;
  ds_all : forall name, is_Some (cs !! name) -> name ∈ left \/ is_Some (collections self !! name);
  ds_entries : forall name m, collections self !! name = Some m -> exists c d, cs !! name = Some c /\
    poisoned (managed m) = false /\ t !! Live name = Some d /\ store_ok avx2 (opened_collection m) d /\
    restores c (inner (opened_collection m))
}.

Lemma discovered_serves self t : discovering self t [] -> serves avx2 self t (live self) /\ restored (live self).
Proof.
  intros [Hf Hl Hc _ Hall He]. assert (restored (live self)) as Hr.
  { intros name. unfold live. rewrite lookup_fmap. destruct (collections self !! name) as [m|] eqn:Em.
    - destruct (He _ _ Em) as (c & d & -> & _ & _ & _ & Hr). by constructor.
    - destruct (cs !! name) eqn:Ec; [|constructor]. destruct (Hall name) as [[]%elem_of_nil|[]]; [by rewrite Ec|congruence]. }
  split; [|done]. constructor; [|done|done|].
  - intros name. specialize (Hf name). specialize (Hr name). unfold live in *. rewrite lookup_fmap in *.
    destruct (collections self !! name) as [m|] eqn:Em; cbn in *.
    + destruct (He _ _ Em) as (c & d & Ec & _ & Ed & Hst & _). rewrite Ec in Hf. split; [apply Hf|]. exists d. split; [done|].
      left. by eapply store_ok_recoverable.
    + by inversion Hr as [|E]; rewrite <- E in Hf.
  - intros name m Em. destruct (He _ _ Em) as (c & d & _ & Hp & Ed & Hst & _). unfold live. rewrite lookup_fmap, Em. split; [done|].
    split; [done|]. by exists d.
Qed.

Definition discover_one (self : Database) (name : string) : io_of Tree (Result Database) :=
  let*? config := within (Live name) persisted_config in
  let*? managed := open_managed avx2 var_os try_lock timeouts self name config in
  ioret (Ok (with_collections self (<[name := managed]> (collections self)))).

Lemma discovering_step self t name left c d m :
  discovering self t (name :: left) -> cs !! name = Some c -> openable avx2 d c -> poisoned (managed m) = false ->
  store_ok avx2 (opened_collection m) d -> restores c (inner (opened_collection m)) ->
  discovering (with_collections self (<[name := m]> (collections self))) (<[Live name := d]> t) left.
Proof.
  intros [Hf Hl Hc [[Hn Hnd]%NoDup_cons Hleft] Hall He] Ec Ho Hp Hst Hr.
  pose proof (Hf name) as Hname. rewrite Ec in Hname. destruct Hname as [Hv _].
  constructor; cbn [with_collections collections catalog_poisoned db_config]; [|done|done| | |].
  - rewrite <- (insert_id cs name c) by done. by apply found_insert.
  - split; [done|]. intros other Hin. rewrite lookup_insert_ne by congruence. apply Hleft. by right.
  - intros other [[->|Hin]%elem_of_cons|Hin]%Hall; [right|by left|right].
    + by rewrite lookup_insert_eq.
    + destruct (decide (other = name)) as [->|]; [by rewrite lookup_insert_eq|by rewrite lookup_insert_ne].
  - intros other m' Em. destruct (decide (other = name)) as [->|Hne].
    + rewrite lookup_insert_eq in Em. injection Em as <-. exists c, d. by rewrite lookup_insert_eq.
    + rewrite lookup_insert_ne in Em by done. rewrite lookup_insert_ne by congruence. by apply He.
Qed.

Lemma discover_one_spec self t name left :
  discovering self t (name :: left) ->
  specifies (discover_one self name) t
    (fun r t' => match r with Ok self' => discovering self' t' left | Err _ => found avx2 t' cs | Panic => False end)
    (fun t' => found avx2 t' cs).
Proof.
  intros Hd. pose proof Hd as [Hf Hl Hc [_ Hleft] _ _]. destruct (Hleft name) as [[c Ec] _]; [by left|].
  pose proof (Hf name) as Hname. rewrite Ec in Hname. destruct Hname as (Hv & d & Ed & Ho). unfold discover_one.
  eapply (spec_try _ _ _ (fun cfg t' => cfg = Collection.config c /\ t' = t)).
  { eapply spec_mono; [eapply spec_within_reads; [exact Ed|by apply (persisted_config_openable avx2 d c)]| |by intros ? ->].
    intros r t' [-> [->|(e & ->)]]; done. }
  intros cfg t' [-> ->].
  assert (forall d', openable avx2 d' c -> found avx2 (<[Live name := d']> t) cs) as Hfound.
  { intros d' Ho'. rewrite <- (insert_id cs name c) by done. by apply found_insert. }
  eapply (spec_try _ _ _ (fun m t' => exists d', t' = <[Live name := d']> t /\ poisoned (managed m) = false /\
    store_ok avx2 (opened_collection m) d' /\ restores c (inner (opened_collection m)) /\ openable avx2 d' c)).
  - eapply spec_mono; [apply (open_managed_spec avx2 var_os try_lock timeouts (fun d' => openable avx2 d' c) c)| |].
    + done.
    + by rewrite Ed.
    + intros cuda. rewrite Ed. by apply open_openable.
    + intros [m|e|] t' (d' & -> & Hm); [by exists d'|by apply Hfound|done].
    + intros t' (d' & -> & Ho'). by apply Hfound.
  - intros m t' (d' & -> & Hp & Hst & Hr & Ho'). apply spec_ret. by eapply discovering_step.
Qed.

Lemma discover_all_spec left self t :
  discovering self t left ->
  specifies (io_fold discover_one self left) t
    (fun r t' => match r with Ok self' => discovering self' t' [] | Err _ => found avx2 t' cs | Panic => False end)
    (fun t' => found avx2 t' cs).
Proof.
  revert self t. induction left as [|name left IH]; intros self t Hd; cbn [io_fold]; [by apply spec_ret|].
  eapply (spec_try _ _ _ (fun self' t' => discovering self' t' left)); [|intros self' t'; apply IH].
  eapply spec_mono; [by eapply discover_one_spec| |done]. by intros [self'|e|].
Qed.

Lemma discovering_start root cfg t :
  found avx2 t cs -> validate_database_config cfg = Ok tt ->
  discovering (MkDatabase root cfg ∅ false) t (sort_by str_cmp (kept Live t (live_names t))).
Proof.
  intros Hf Hcfg. constructor; [done|done|done| | |].
  - split.
    + rewrite sort_by_perm. eapply sublist_NoDup; [apply live_names_NoDup|apply filter_sublist].
    + intros name Hin. split; [|apply lookup_empty]. rewrite sort_by_perm in Hin. by eapply elem_of_kept.
  - intros name Hn. left. rewrite sort_by_perm. by eapply elem_of_kept.
  - intros name m Em. cbn in Em. by rewrite lookup_empty in Em.
Qed.

Definition reopened (r : Result Database) (t : Tree) : Prop :=
  match r with
  | Ok self => serves avx2 self t (live self) /\ restored (live self)
  | Err _ => found avx2 t cs
  | Panic => False
  end.

Lemma database_open_discovers root cfg t :
  found avx2 t cs -> specifies (Database.open avx2 var_os try_lock timeouts root cfg) t
    (fun r t' => match r with Ok self => discovering self t' [] | Err _ => found avx2 t' cs | Panic => False end) (fun t' => found avx2 t' cs).
Proof.
  intros Hf. unfold Database.open. destruct (validate_database_config cfg) as [[]|e|] eqn:Ecfg; [|by apply spec_ret|].
  2: { unfold validate_database_config in Ecfg. destruct (_ || _); done. }
  rewrite iotry_ok. apply spec_sync_then; [done|done|]. apply spec_sync_then; [done|done|]. unfold discover.
  apply spec_try_effect; [done|done|]. cbn [fst snd].
  eapply (spec_try _ _ _ (fun names t' => names = kept Live t (live_names t) /\ t' = t)).
  { intros s. by rewrite keep_collections_runs. }
  intros names t' [-> ->]. unfold write_collections. cbn [catalog_poisoned]. rewrite iotry_ok.
  apply discover_all_spec. by apply discovering_start.
Qed.

Lemma database_open_spec root cfg t :
  found avx2 t cs -> specifies (Database.open avx2 var_os try_lock timeouts root cfg) t reopened (fun t' => found avx2 t' cs).
Proof.
  intros Hf. eapply spec_mono; [by apply database_open_discovers| |done]. intros [self|e|] t'; [apply discovered_serves|done|done].
Qed.

(** Without faults every collection is opened. *)
Context (Henv : exists cuda, from_env var_os = Ok cuda /\ mode cuda <> Required) (Hlock : forall name, try_lock name = Locked).

Lemma discover_one_runs self t name left :
  discovering self t (name :: left) -> exists self' t', runs (discover_one self name) t (Ok self') t'.
Proof.
  intros Hd. pose proof Hd as [Hf Hl Hc [_ Hleft] _ _]. destruct (Hleft name) as [[c Ec] _]; [by left|].
  pose proof (Hf name) as Hname. rewrite Ec in Hname. destruct Hname as (Hv & d & Ed & Ho). destruct Henv as (cuda & Ecuda & Hcuda).
  destruct (openable_opens avx2 d c (db_durability (db_config self)) (mode cuda) Ho Hcuda) as (st & d' & Hopen).
  assert (runs (within (Live name) persisted_config) t (Ok (Collection.config c)) t) as Hconf.
  { unfold runs, within. cbn [disk script]. rewrite Ed. cbn [default from_option id]. destruct (persisted_config_openable avx2 d c Ho) as [_ ->]. cbn. by rewrite insert_id. }
  assert (runs (within (Live name) (Concurrent.open avx2 var_os (Collection.config c) (db_durability (db_config self)) (try_lock name))) t
    (Ok (Concurrent.new st)) (<[Live name := d']> t)) as Hshared.
  { unfold runs, within. cbn [disk script]. rewrite Ed, Hlock. cbn [default from_option id]. unfold Concurrent.open, Environment.open. rewrite Ecuda, iotry_ok.
    by rewrite (runs_step _ _ _ _ _ Hopen). }
  eexists _, _. unfold discover_one. eapply runs_try; [exact Hconf|]. unfold open_managed.
  eapply runs_try; [eapply runs_try; [exact Hshared|]|done]. by rewrite (start_flusher _ _ (timeouts name)), iotry_ok.
Qed.

Lemma discover_all_runs left self t :
  discovering self t left -> exists self' t', runs (io_fold discover_one self left) t (Ok self') t'.
Proof.
  revert self t. induction left as [|name left IH]; intros self t Hd; [by exists self, t|]. cbn [io_fold].
  destruct (discover_one_runs _ _ _ _ Hd) as (self1 & t1 & H1). pose proof (discover_one_spec _ _ _ _ Hd []) as Hs. rewrite H1 in Hs.
  destruct (IH _ _ Hs) as (self2 & t2 & H2). exists self2, t2. by eapply runs_try.
Qed.

Lemma database_opens root cfg t :
  found avx2 t cs -> validate_database_config cfg = Ok tt ->
  exists self t', runs (Database.open avx2 var_os try_lock timeouts root cfg) t (Ok self) t'.
Proof.
  intros Hf Hcfg. destruct (discover_all_runs _ _ _ (discovering_start root cfg t Hf Hcfg)) as (self & t' & Hr). exists self, t'.
  unfold Database.open. rewrite Hcfg, iotry_ok. do 2 (eapply runs_try; [done|]). unfold discover. eapply runs_try; [done|].
  eapply runs_try; [apply keep_collections_runs|]. unfold write_collections. cbn [catalog_poisoned]. by rewrite iotry_ok.
Qed.
End Discover.

(** ** Operations on the catalogue *)

Section Operations.
Context `{FloatEnv} (avx2 : bool) (workers : nat) (pid : Z).
Context (var_os : string -> option EnvValue) (try_lock : string -> LockOutcome) (timeouts : string -> list string).

Lemma validate_name name : valid_name name = true -> validate_collection_name name = Ok tt.
Proof. unfold valid_name. destruct (validate_collection_name name) as [[]| |]; done. Qed.

Lemma serves_closed self t cs name : serves avx2 self t cs -> cs !! name = None -> collections self !! name = None.
Proof.
  intros Hs Ec. destruct (collections self !! name) as [m|] eqn:Em; [|done].
  destruct (sv_entries _ _ _ _ Hs name m Em) as (Ec' & _). congruence.
Qed.

(** A name that is not in use: the collection's directory is made, or a
    restart finds it empty, or not at all. *)
Lemma serves_begun self t cs name cfg d :
  serves avx2 self t cs -> valid_name name = true -> cs !! name = None -> begun avx2 cfg d ->
  serves avx2 self (<[Live name := d]> t) cs \/ serves avx2 self (<[Live name := d]> t) (<[name := blank cfg]> cs).
Proof.
  intros Hs Hv Ec Hb. pose proof (serves_closed _ _ _ _ Hs Ec) as En. destruct Hb as [(Em & _)|Ho]; [left|right].
  - eapply serves_place; [done|done| |exact Hs]. apply found_blank; [done|done|apply Hs].
  - eapply serves_place; [done| | |exact Hs]; [intros other Hne; by apply lookup_insert_ne|]. apply found_insert; [done|done|apply Hs].
Qed.

(** The new entry. *)
Lemma collection_inserted self t cs name m :
  serves avx2 self t cs -> valid_name name = true ->
  Database.collection (with_collections self (<[name := m]> (collections self))) name = Ok (managed m).
Proof.
  intros Hs Hv. unfold Database.collection, read_collections. cbn [catalog_poisoned with_collections collections].
  rewrite validate_name by done. cbn [rbind]. rewrite (sv_lock _ _ _ _ Hs). cbn [rbind]. by rewrite lookup_insert_eq.
Qed.

(** The outcome of an operation that adds the collection [c] under a name. *)
Definition adding (self : Database) (cs : gmap string Collection) (name : string) (c : Collection)
    (r : Result SharedCollection * Database) (t : Tree) : Prop :=
  match r.1 with
  | Ok shared => exists c', restores c c' /\ serves avx2 r.2 t (<[name := c']> cs) /\
                            inner (guarded shared) = c' /\ Database.collection r.2 name = Ok shared
  | Err _ => r.2 = self /\ (serves avx2 self t cs \/ serves avx2 self t (<[name := c]> cs))
  | Panic => False
  end.

Lemma create_spec self t cs name cfg :
  serves avx2 self t cs -> valid_name name = true -> cs !! name = None -> config_ok cfg ->
  uncreated (default ∅ (t !! Live name)) ->
  specifies (create_collection avx2 var_os try_lock timeouts self name cfg) t
    (fun r t' => elsewhere [Live name] t t' /\ adding self cs name (blank cfg) r t')
    (fun t' => elsewhere [Live name] t t' /\ (found avx2 t' cs \/ found avx2 t' (<[name := blank cfg]> cs))).
Proof.
  intros Hs Hv Ec Hok Hu. unfold create_collection, write_collections. rewrite validate_name by done. cbn [rbind].
  rewrite (sv_lock _ _ _ _ Hs), (serves_closed _ _ _ _ Hs Ec).
  assert (forall d, elsewhere [Live name] t (<[Live name := d]> t)) as He by (intros; apply elsewhere_insert; [by left|done]).
  eapply spec_bind.
  - eapply spec_mono; [apply (open_managed_spec avx2 var_os try_lock timeouts (begun avx2 cfg) (blank cfg) cfg self t name)|intros r t' Hr; exact Hr|].
    + apply Hs.
    + by left.
    + intros cuda. by apply open_fresh.
    + intros t' (d & -> & Hb). split; [done|].
      destruct (serves_begun self t cs name cfg d Hs Hv Ec Hb) as [Hd|Hd]; [left|right]; apply Hd.
  - intros [m|e|] t' (d & -> & Hr); [|apply spec_ret|done].
    + destruct Hr as (Hp & Hst & Hr & _). apply spec_ret. split; [done|]. exists (inner (opened_collection m)). split; [done|].
      split; [by apply serves_insert|]. split; [done|]. by eapply collection_inserted.
    + split; [done|]. split; [done|]. by apply serves_begun.
Qed.
End Operations.

(** ** Backups *)

Section Backup.
Context `{FloatEnv} (avx2 : bool) (workers : nat) (pid : Z).

Lemma shared_flush_spec s temporary d :
  poisoned s = false -> store_ok avx2 (guarded s) d -> flushable (guarded s) temporary d ->
  specifies (Concurrent.flush avx2 workers pid s temporary) d
    (fun r d' => poisoned r.2 = false /\ flushed avx2 (guarded s) (r.1, guarded r.2) d') (fun d' => recoverable avx2 d' (inner (guarded s))).
Proof.
  intros Hp Hst Hf. pose proof Hst as (Hc & _). pose proof Hf as (_ & Hscr & _).
  unfold Concurrent.flush, flush_snapshot, read. rewrite Hp.
  assert (forall d', except temporary d d' -> store_ok avx2 (guarded s) d') as Hex.
  { intros d' He. eapply store_ok_live; [by eapply except_live|done]. }
  eapply spec_bind.
  - eapply spec_mono; [apply (build_flush_spec avx2 workers temporary (guarded s) d)|intros r d' Hr; exact Hr|].
    cbv beta. intros d' He. apply store_ok_recoverable, Hex, He.
  - cbv beta. intros r d' [He Hr]. assert (store_ok avx2 (guarded s) d') as Hst' by (by apply Hex).
    destruct r as [p|e|]; [|by apply spec_ret; split_and!..].
    unfold publish, write. rewrite Hp. eapply spec_bind.
    { eapply (publish_flush_spec avx2 pid (guarded s) []); apply (built_ready avx2 (guarded s) [] (guarded s) temporary p d d'); [done|done| | | |].
      - eapply except_live; [exact Hscr|done|unfold live_file; tauto].
      - by apply store_ok_since.
      - by apply since_refl.
      - by apply Hr. }
    intros [r st] d2 Hpub. apply spec_ret. cbn [fst snd poisoned guarded]. split; [destruct Hpub as (_ & _ & _ & _ & Hnp & _); by destruct r|].
    by apply published_flushed.
Qed.

(** A backup is there complete, or not at all. *)
Definition backed_up (c : Collection) (backup : option Dir) : Prop :=
  match backup with Some copy => recoverable avx2 copy c | None => True end.

Lemma update_insert self name m s :
  collections self !! name = Some m ->
  update self name s = with_collections self (<[name := MkManaged s (flusher m)]> (collections self)).
Proof.
  intros Em. unfold update. f_equal. apply map_eq. intros other. destruct (decide (other = name)) as [->|Hne].
  - by rewrite lookup_alter_eq, lookup_insert_eq, Em.
  - by rewrite lookup_alter_ne, lookup_insert_ne by done.
Qed.

(** The collection is as before, in memory and on disk; only the temporary
    directory and the destination changed beside its own. *)
Definition backup_kept (self : Database) (cs : gmap string Collection) (name backup nonce : string) (c : Collection)
    (r : Result Z * Database) (t t' : Tree) : Prop :=
  elsewhere [Live name; temporary_copy (Saved backup) nonce; Saved backup] t t' /\
  (exists c', Collection.config c' = Collection.config c /\ sequence c' = sequence c /\ contents c' = contents c /\
              serves avx2 r.2 t' (<[name := c']> cs)) /\
  backed_up c (t' !! Saved backup) /\
  forall n, r.1 = Ok n -> n = sequence c /\ exists copy, t' !! Saved backup = Some copy /\ recoverable avx2 copy c.

(** One backup, of the open collection [m]. *)
Context (self : Database) (t : Tree) (cs : gmap string Collection) (name backup temporary nonce : string) (m : ManagedCollection).
Context (Hs : serves avx2 self t cs) (Em : collections self !! name = Some m).
Context (Hb : valid_name backup = true) (Hnone : t !! Saved backup = None).
Let c := inner (opened_collection m).
Let temp := temporary_copy (Saved backup) nonce.

Lemma backup_elsewhere (d' : Dir) t' :
  elsewhere [temp; Saved backup] (<[Live name := d']> t) t' -> elsewhere [Live name; temp; Saved backup] t t'.
Proof. intros He p Hin. rewrite He by set_solver. apply lookup_insert_ne. set_solver. Qed.

Lemma backup_live (d' : Dir) t' p : elsewhere [temp; Saved backup] (<[Live name := d']> t) t' -> t' !! Live p = (<[Live name := d']> t) !! Live p.
Proof. intros He. apply He. unfold temp. cbn. set_solver. Qed.

Lemma backup_found (d' : Dir) : recoverable avx2 d' c -> found avx2 (<[Live name := d']> t) cs.
Proof.
  intros Hr. pose proof (sv_entries _ _ _ _ Hs name m Em) as (Ec & _). rewrite <- (insert_id cs name c) by done.
  apply found_insert; [by eapply serves_valid|by left|apply Hs].
Qed.

Definition backup_crashed (t' : Tree) : Prop :=
  elsewhere [Live name; temp; Saved backup] t t' /\ found avx2 t' cs /\ backed_up c (t' !! Saved backup).

(** After the flush. *)
Lemma backup_copy_spec s d1 :
  recoverable avx2 d1 c -> Collection.config (inner (guarded s)) = Collection.config c -> sequence (inner (guarded s)) = sequence c ->
  contents (inner (guarded s)) = contents c ->
  serves avx2 (update self name s) (<[Live name := d1]> t) (<[name := inner (guarded s)]> cs) ->
  specifies (let* copied := copy_collection_directory (root self) nonce (Live name) (Saved backup) in
             ioret (rmap (fun _ => sequence c) copied, s)) (<[Live name := d1]> t)
    (fun r t' => backup_kept self cs name backup nonce c (r.1, update self name r.2) t t') backup_crashed.
Proof.
  intros Hrec F1 F2 F3 Hs1.
  assert (forall o, (o = None \/ exists copy, o = Some copy /\ copy_of d1 copy) -> backed_up c o) as Hback.
  { intros o [->|(copy & -> & Hcopy)]; [done|]. by eapply copy_recoverable. }
  eapply spec_bind.
  - eapply spec_mono; [apply (spec_copy_directory (Live name) (Saved backup) (root self) nonce (<[Live name := d1]> t) d1)| |].
    all: fold temp; try done.
    + intros E. pose proof (temporary_invalid (Saved backup) nonce) as Hi. fold temp in Hi. rewrite <- E in Hi. cbn [file_name] in Hi. congruence.
    + by rewrite lookup_insert_eq.
    + by rewrite lookup_insert_ne.
    + intros t' [He Hd]. split; [by eapply backup_elsewhere|]. split; [|by apply Hback].
      eapply found_agree; [intros; by apply (backup_live d1)|]. by apply backup_found.
  - intros r t' ([He Hd] & Hok & Hnp). apply spec_ret. split; [by eapply backup_elsewhere|]. split; [|split; [by apply Hback|]].
    + exists (inner (guarded s)). split_and!; [done..|]. eapply serves_agree; [|exact Hs1]. intros; by apply (backup_live d1).
    + intros n. destruct r as [x|e|]; cbn; [|done..]. intros [= <-]. split; [done|]. destruct (Hok x eq_refl) as (copy & Ecopy & Hcopy).
      exists copy. split; [done|]. by eapply copy_recoverable.
Qed.

Lemma backup_spec :
  flushable (opened_collection m) temporary (default ∅ (t !! Live name)) ->
  specifies (backup_collection avx2 workers pid self name backup temporary nonce) t
    (fun r t' => backup_kept self cs name backup nonce c r t t') backup_crashed.
Proof.
  intros Hf. pose proof (serves_valid _ _ _ _ _ _ Hs Em) as Hv.
  pose proof (sv_entries _ _ _ _ Hs name m Em) as (Ec & Hp & d & Ed & Hst). rewrite Ed in Hf. cbn in Hf. pose proof Hst as (Hc & _).
  assert (forall d', elsewhere [Live name; temp; Saved backup] t (<[Live name := d']> t)) as He by (intros; apply elsewhere_insert; [by left|done]).
  assert (forall d' : Dir, (<[Live name := d']> t) !! Saved backup = None) as Hnone' by (intros; by rewrite lookup_insert_ne).
  unfold backup_collection, Database.collection, read_collections. rewrite !validate_name, (sv_lock _ _ _ _ Hs) by done. cbn [rbind].
  rewrite Em. cbn [rbind]. unfold backup_to.
  eapply (spec_bind _ _ _ (fun r t' => backup_kept self cs name backup nonce c (r.1, update self name r.2) t t')); [|intros [r s'] t' Hr; apply spec_ret; exact Hr].
  eapply spec_bind.
  - eapply spec_mono; [apply spec_within; rewrite Ed; cbn; by apply (shared_flush_spec (managed m) temporary d)|intros r t' Hr; exact Hr|].
    intros t' (d1 & -> & Hd1). split; [done|]. split; [by apply backup_found|by rewrite Hnone'].
  - intros [r s'] t' (d1 & -> & Hp' & Hfl). pose proof (flushed_recoverable _ _ _ _ Hc Hfl) as Hrec.
    destruct Hfl as (F1 & F2 & F3 & F4 & _). cbn [fst snd] in *.
    assert (serves avx2 (update self name s') (<[Live name := d1]> t) (<[name := inner (guarded s')]> cs)) as Hs1.
    { rewrite (update_insert _ _ m) by done. by apply (serves_insert avx2 self t cs name (MkManaged s' (flusher m)) d1). }
    assert (forall q : Result Z, (forall n, q <> Ok n) -> backup_kept self cs name backup nonce c (q, update self name s') t (<[Live name := d1]> t)) as Hkept.
    { intros q Hq. split; [done|]. split; [by exists (inner (guarded s'))|]. rewrite Hnone'. split; [done|]. intros n E. by destruct (Hq n). }
    destruct r as [n0|e|]; [|apply spec_ret; by apply Hkept..]. cbn [rbind].
    unfold Concurrent.latest_sequence, read. rewrite Hp'. unfold Persistence.latest_sequence, Collection.latest_sequence. rewrite F2.
    by apply backup_copy_spec.
Qed.
End Backup.

(** ** Restoring a backup *)

Lemma drop_submap (d : Dir) n : list_to_map (drop n (map_to_list d)) ⊆ d.
Proof.
  apply map_subseteq_spec. intros p bytes Hp. apply elem_of_list_to_map_2 in Hp.
  apply elem_of_map_to_list. eapply elem_of_sublist; [exact Hp|apply sublist_drop].
Qed.

Section Restore.
Context `{FloatEnv} (avx2 : bool).
Context (var_os : string -> option EnvValue) (try_lock : string -> LockOutcome) (timeouts : string -> list string).
Context (self : Database) (t : Tree) (cs : gmap string Collection) (backup name nonce : string) (copy : Dir) (c : Collection).
Context (Hs : serves avx2 self t cs) (Hb : valid_name backup = true) (Hv : valid_name name = true).
Context (Ec : cs !! name = None) (Hnone : t !! Live name = None) (Eb : t !! Saved backup = Some copy) (Hc : recoverable avx2 copy c).
Let temp := temporary_copy (Live name) nonce.

(** What a restart finds under the name: nothing, the whole collection, or,
    when it could not be opened and was being removed, a part of its files. *)
Definition leftover (t' : Tree) : Prop :=
  elsewhere [temp; Live name] t t' /\
  (serves avx2 self t' cs \/ serves avx2 self t' (<[name := c]> cs) \/
   exists whole part, recoverable avx2 whole c /\ part ⊆ whole /\ t' !! Live name = Some part /\ serves avx2 self (base.delete (Live name) t') cs).

Lemma temp_live other : valid_name other = true -> Live other <> temp.
Proof.
  intros Ho E. pose proof (temporary_invalid (Live name) nonce) as Hi. fold temp in Hi. rewrite <- E in Hi. cbn [file_name] in Hi. congruence.
Qed.

Lemma restore_elsewhere t' other : elsewhere [temp; Live name] t t' -> valid_name other = true -> other <> name -> t' !! Live other = t !! Live other.
Proof.
  intros He Ho Hne. apply He. intros [E|[E|[]%elem_of_nil]%elem_of_cons]%elem_of_cons; [by eapply temp_live|congruence].
Qed.

Lemma serves_absent t' : elsewhere [temp; Live name] t t' -> t' !! Live name = None -> serves avx2 self t' cs.
Proof.
  intros He En. eapply serves_agree; [|exact Hs]. intros other Ho. destruct (decide (other = name)) as [->|Hne]; [congruence|].
  by eapply restore_elsewhere.
Qed.

Lemma serves_deleted t' : elsewhere [temp; Live name] t t' -> serves avx2 self (base.delete (Live name) t') cs.
Proof. intros He. apply serves_absent; [|by rewrite lookup_delete_eq]. apply elsewhere_delete; [set_solver|done]. Qed.

Lemma serves_present t' d : elsewhere [temp; Live name] t t' -> t' !! Live name = Some d -> openable avx2 d c -> serves avx2 self t' (<[name := c]> cs).
Proof.
  intros He Ed Ho. assert (t' = <[Live name := d]> (base.delete (Live name) t')) as -> by (by rewrite insert_delete_eq, insert_id).
  pose proof (serves_deleted t' He) as Hd. eapply serves_place; [by eapply serves_closed| | |exact Hd].
  - intros other Hne. by apply lookup_insert_ne.
  - apply found_insert; [done|done|apply Hd].
Qed.

(** The whole collection is in place. *)
Definition in_place (t' : Tree) (d : Dir) : Prop := elsewhere [temp; Live name] t t' /\ t' !! Live name = Some d /\ recoverable avx2 d c.

Lemma in_place_leftover t' d : in_place t' d -> leftover t'.
Proof. intros (He & Ed & Hd). split; [done|]. right. left. eapply serves_present; [done|done|by left]. Qed.

Lemma in_place_insert t' d d' : in_place t' d -> recoverable avx2 d' c -> in_place (<[Live name := d']> t') d'.
Proof. intros (He & _ & _) Hd'. split; [apply elsewhere_insert; [set_solver|done]|]. by rewrite lookup_insert_eq. Qed.

Lemma remove_leftover t' d : in_place t' d -> specifies (ignore (remove_dir_all (Live name))) t' (fun _ => leftover) leftover.
Proof.
  intros (He & Ed & Hd). assert (forall n, leftover (<[Live name := list_to_map (drop n (map_to_list d))]> t')) as Hp.
  { intros n. split; [apply elsewhere_insert; [set_solver|done]|]. right. right.
    exists d, (list_to_map (drop n (map_to_list d))). split; [done|]. split; [apply drop_submap|]. rewrite lookup_insert_eq.
    split; [done|]. rewrite delete_insert_eq. by apply serves_deleted. }
  apply spec_ignore, spec_effect; rewrite Ed; [done|done|]. split; [apply elsewhere_delete; [set_solver|done]|]. left. by apply serves_deleted.
Qed.

Lemma restore_open_spec t' d :
  in_place t' d ->
  specifies (
    let* result := open_managed avx2 var_os try_lock timeouts self name (Collection.config c) in
    match result with
    | Ok opened => ioret (Ok (managed opened), with_collections self (<[name := opened]> (collections self)))
    | Err e => let* _ := ignore (remove_dir_all (Live name)) in ioret (Err e, self)
    | Panic => ioret (poisoning Panic self)
    end) t'
    (fun r t'' => match r.1 with
       | Ok shared => adding avx2 self cs name c r t'' /\ elsewhere [temp; Live name] t t''
       | Err _ => r.2 = self /\ leftover t'' | Panic => False end) leftover.
Proof.
  intros Hp. pose proof Hp as (He & Ed & Hd).
  eapply spec_bind.
  - eapply spec_mono; [apply (open_managed_spec avx2 var_os try_lock timeouts (fun d' => recoverable avx2 d' c) c)|intros r t'' Hr; exact Hr|].
    + apply Hs.
    + by rewrite Ed.
    + intros cuda. rewrite Ed. eapply spec_mono; [by apply open_spec| |done]. intros r d'. by apply opened_weaken.
    + intros t'' (d' & -> & Hd'). eapply in_place_leftover, in_place_insert; done.
  - intros [opened|e|] t'' (d' & -> & Hr); [apply spec_ret| |done].
    + destruct Hr as (Hpo & Hst & Hr & Hd'). cbn [fst]. split; [|apply elsewhere_insert; [set_solver|done]].
      exists (inner (opened_collection opened)). split; [done|]. pose proof (serves_present t' d He Ed ltac:(by left)) as Hs'.
      split; [|split; [done|by eapply collection_inserted]].
      rewrite <- (insert_insert_eq cs name _ c). by apply serves_insert.
    + eapply spec_bind; [eapply remove_leftover; by eapply in_place_insert|]. intros [] t2 Ht2. by apply spec_ret.
Qed.

Lemma restore_spec :
  specifies (restore_collection avx2 var_os try_lock timeouts self backup name nonce) t
    (fun r t' => match r.1 with
       | Ok shared => adding avx2 self cs name c r t' /\ elsewhere [temp; Live name] t t'
       | Err _ => r.2 = self /\ leftover t' | Panic => False end) leftover.
Proof.
  unfold restore_collection, write_collections. rewrite !validate_name by done. cbn [rbind]. rewrite (sv_lock _ _ _ _ Hs), (serves_closed _ _ _ _ _ Hs Ec).
  assert (leftover t) as H0 by (split; [done|by left]).
  assert (copy !! META = Some (encode_metadata (Collection.config c))) as Emeta by (apply (openable_meta avx2); by left).
  eapply (spec_bind _ _ _ (fun b t' => b = true /\ t' = t)); [intros s; cbn; by rewrite Eb; cbn; rewrite Emeta|]. intros b t' [-> ->].
  cbn [negb]. unfold restore_backup.
  eapply (spec_bind _ _ _ (fun r t' => match r with Ok cfg => cfg = Collection.config c /\ exists d, in_place t' d | Err _ => leftover t' | Panic => False end)).
  - eapply (spec_try _ _ _ (fun cfg t' => cfg = Collection.config c /\ t' = t)).
    { eapply spec_mono; [eapply spec_within_reads; [exact Eb|by apply (persisted_config_openable avx2 copy c); left]| |by intros ? ->].
      intros r t' [-> [->|(e & ->)]]; done. }
    intros cfg t' [-> ->].
    assert (forall t', copied (Live name) nonce t copy t' -> leftover t') as Hcopied.
    { intros t' [He [En|(d & Ed & Hd)]]; [split; [done|]; left; by apply serves_absent|].
      eapply (in_place_leftover _ d). split_and!; [done|done|by eapply copy_recoverable]. }
    eapply (spec_try _ _ _ (fun _ t' => exists d, in_place t' d)).
    + eapply spec_mono; [apply (spec_copy_directory (Saved backup) (Live name) (root self) nonce t copy)| |exact Hcopied]; try done.
      * by apply temp_live.
      * intros [x|e|] t' (Hcp & Hok & Hnp); [|by apply Hcopied|done]. destruct (Hok x eq_refl) as (d & Ed & Hd). exists d.
        split_and!; [apply Hcp|done|by eapply copy_recoverable].
    + intros _ t' Hd. by apply spec_ret.
  - intros [cfg|e|] t' Hr; [|by apply spec_ret|done]. destruct Hr as [-> [d Hd]]. by eapply restore_open_spec.
Qed.
End Restore.

(** ** The theorems *)

Section Theorems.
Context `{FloatEnv} (avx2 : bool) (workers : nat) (pid : Z).
Context (var_os : string -> option EnvValue) (try_lock : string -> LockOutcome) (timeouts : string -> list string).


(** C14 (collection_created). Creating a collection under a free name: on
    success the catalogue serves it, empty, beside the others; after an error
    or a crash at any system call a restart finds the other collections and,
    under the name, nothing or the empty collection. *)
Theorem collection_created self t cs name cfg :
  serves avx2 self t cs -> valid_name name = true -> cs !! name = None -> config_ok cfg ->
  uncreated (default ∅ (t !! Live name)) ->
  specifies (create_collection avx2 var_os try_lock timeouts self name cfg) t
    (fun r t' => elsewhere [Live name] t t' /\ adding avx2 self cs name (blank cfg) r t')
    (fun t' => elsewhere [Live name] t t' /\ (found avx2 t' cs \/ found avx2 t' (<[name := blank cfg]> cs))).
Proof. apply create_spec. Qed.



End Theorems.

Lemma name_char_not c : name_char c = true -> c <> "/"%char /\ c <> "."%char.
Proof. intros Hc. split; by intros ->. Qed.

Lemma valid_name_head c s : valid_name (String c s) = true -> c <> "/"%char /\ c <> "."%char.
Proof. intros (_ & _ & Hc)%valid_name_chars. cbn in Hc. apply andb_true_iff in Hc as [Hc _]. by apply name_char_not. Qed.

Lemma append_assoc (a b c : string) : a +:+ (b +:+ c) = (a +:+ b) +:+ c.
Proof. induction a as [|x a IH]; [done|]. change (String x (a +:+ (b +:+ c)) = String x ((a +:+ b) +:+ c)). by rewrite IH. Qed.

Lemma needs_separator_backups base : needs_separator (base +:+ ".backups") = true.
Proof. induction base as [|c base IH]; [done|]. cbv [String.append]. fold String.append. cbn [needs_separator]. rewrite IH. by destruct (base +:+ ".backups") eqn:E; [destruct base|]. Qed.

Lemma join_inj base name name' : join base name = join base name' -> name = name'.
Proof. unfold join. intros E. apply (inj (String.append base)) in E. by apply (inj (String.append _)) in E. Qed.

(** The directory of backups, seen from the root. *)
Lemma join_backups root name : join (join root ".backups") name = join root (".backups/" +:+ name).
Proof.
  unfold join at 1. assert (needs_separator (join root ".backups") = true) as ->.
  { unfold join. rewrite append_assoc. apply needs_separator_backups. }
  unfold join. by rewrite <- !append_assoc.
Qed.

(** An accepted name stands for a directory of its own
    inside the root: two names, of collections or of backups, that give one
    path are the same; and the temporary directories of copies and the
    directory of backups have names that are never accepted, so discovery
    passes them over. *)
Theorem names_separate root p q :
  valid_name (file_name p) = true -> valid_name (file_name q) = true -> display root p = display root q ->
  p = q /\ valid_name ".backups" = false /\ forall nonce, valid_name (file_name (temporary_copy p nonce)) = false.
Proof.
  intros Hp Hq E. split; [|split; [done|intros nonce; apply temporary_invalid]].
  destruct p as [n|n], q as [m|m]; cbn [file_name display] in *; rewrite ?join_backups in E; apply join_inj in E; cbv [String.append] in E.
  - by rewrite E.
  - rewrite E in Hp. by apply valid_name_head in Hp as [_ []].
  - rewrite <- E in Hq. by apply valid_name_head in Hq as [_ []].
  - by injection E as ->.
Qed.

(** ** A small database *)

Definition demo_env : string -> option EnvValue := fun _ => None.
Definition demo_locks : string -> LockOutcome := fun _ => Locked.
Definition demo_timeouts : string -> list string := fun _ => [].
Definition demo_managed : ManagedCollection := MkManaged (Concurrent.new demo_store1) (MkThread [] Idle [] true).
Definition demo_database : Database := MkDatabase "/data" default_config {["docs" := demo_managed]} false.
Definition demo_tree : Tree := {[Live "docs" := demo_dir1; Saved "monday" := demo_dir1]}.
Definition demo_catalogue : gmap string Collection := {["docs" := inner demo_store1]}.

Lemma demo_serves : @serves x86_64_env true demo_database demo_tree demo_catalogue.
Proof.
  constructor; [|done|done|].
  - intros name. unfold demo_catalogue, demo_tree. destruct (decide (name = "docs")) as [->|Hn].
    + rewrite lookup_singleton_eq. split; [reflexivity|]. exists demo_dir1. split; [by rewrite lookup_insert_eq|].
      left. by eapply store_ok_recoverable, demo_store1_ok.
    + rewrite lookup_singleton_ne by done. intros _ d. rewrite lookup_insert_ne by congruence. by rewrite lookup_singleton_ne.
  - intros name m. cbn [collections demo_database]. intros [<- <-]%lookup_singleton_Some. unfold demo_catalogue, demo_tree.
    rewrite lookup_singleton_eq. split; [done|]. split; [done|]. exists demo_dir1. split; [by rewrite lookup_insert_eq|exact demo_store1_ok].
Qed.


Lemma collection_created_witness :
  match @create_collection x86_64_env true demo_env demo_locks demo_timeouts demo_database "notes" demo_config (MkWorld demo_tree []) with
  | Returned (Ok shared, self) w => exists c, @restores x86_64_env (blank demo_config) c /\ @serves x86_64_env true self (disk w) (<["notes" := c]> demo_catalogue)
  | _ => False
  end.
Proof.
  pose proof (@collection_created x86_64_env true demo_env demo_locks demo_timeouts demo_database demo_tree demo_catalogue "notes" demo_config
    demo_serves ltac:(reflexivity) ltac:(reflexivity) ltac:(vm_compute; split; [reflexivity|discriminate])
    ltac:(repeat split; reflexivity) []) as Hc.
  assert (match @create_collection x86_64_env true demo_env demo_locks demo_timeouts demo_database "notes" demo_config (MkWorld demo_tree []) with
    Returned (Ok _, _) _ => true | _ => false end = true) as Hok by (vm_compute; reflexivity).
  destruct (create_collection _ _ _ _ _ _ _ _) as [[[shared|e|] self] w|t]; [|discriminate Hok..].
  destruct Hc as [_ (c & Hr & Hs & _)]. exists c. split; [exact Hr|exact Hs].
Defined.



Lemma names_separate_witness : Live "docs" = Live "docs" /\ valid_name ".backups" = false /\ valid_name ".docs.tmp-1" = false.
Proof.
  destruct (names_separate "/data" (Live "docs") (Live "docs") ltac:(reflexivity) ltac:(reflexivity) ltac:(reflexivity)) as (E & Hb & Ht).
  split; [exact E|]. split; [exact Hb|exact (Ht "1")].
Defined.
