(* ===== verification/KnownIssues.v ===== *)
(** * KnownIssues: executions of the model that end badly

    Each lemma runs the model on a small collection and shows a defect of the
    code: an acknowledged operation after which the directory cannot be opened,
    or one that can never succeed again.  The theorems of the other files carry
    the hypotheses that exclude these runs. *)

From stdpp Require Import base gmap sets list strings.
From Stdlib Require Import ZArith Lia.
From S2P Require Import Prelude Errors Floats Ranking Metric Filter MetadataIndex Quantize.
From S2P Require Import Collection CollectionFacts Codec Wire Wal Disk Segment Manifest Persistence Recovery Durability FlushFacts.
From S2P Require Environment Concurrent Tree Database DatabaseFacts.

#[local] Existing Instance x86_64_env.

(** A handle with its directory, and one operation on them without faults. *)
Definition run_op (state : PersistentCollection * Dir) (op : PersistentCollection -> io (Result Z * PersistentCollection))
    : Result Z * (PersistentCollection * Dir) :=
  match op state.1 (MkWorld state.2 []) with
  | Returned (r, st) w => (r, (st, disk w))
  | Crashed d => (Panic, (state.1, d))
  end.

Definition reopen (d : Dir) : Result Z :=
  match open_with_cuda true demo_config Sync Disabled Locked (MkWorld d []) with
  | Returned r _ => rmap len r
  | Crashed _ => Panic
  end.

(** [SharedCollection::flush]: no check that anything is pending. *)
Definition shared_flush (temporary : string) (st : PersistentCollection) : io (Result Z * PersistentCollection) :=
  let* prepared := build_flush true 2 temporary (flush_snapshot st) in
  match prepared with
  | Ok prepared => publish_flush true 7 st prepared
  | Err e => ioret (Err e, st)
  | Panic => ioret (Panic, st)
  end.

(** Flushing twice with nothing written in between (a second backup of a quiet
    collection) lists the segment twice: the collection cannot be opened. *)
Lemma second_flush_breaks_directory :
  let (r, after) := run_op demo_flushed (shared_flush ".segment-2.tmp") in
  reopen demo_flushed.2 = Ok 2 /\ r = Ok 1 /\ reopen after.2 = Err (CorruptStorage "invalid segment name in manifest").
Proof. vm_compute. split_and!; reflexivity. Qed.

(** Deleting absent identifiers and flushing, nine times: deltas without a
    graph never count towards compaction, and the manifest outgrows its limit. *)
Fixpoint delete_and_flush (n : nat) (state : PersistentCollection * Dir) : PersistentCollection * Dir :=
  match n with
  | O => state
  | S n' =>
      let deleted := (run_op state (fun st => delete st ["absent"])).2 in
      delete_and_flush n' (run_op deleted (flush true 2 7 ".segment-3.tmp")).2
  end.

Lemma empty_deltas_break_directory :
  reopen (delete_and_flush 8 demo_flushed).2 = Ok 2 /\
  reopen (delete_and_flush 9 demo_flushed).2 = Err (CorruptStorage "invalid segment count in manifest").
Proof. vm_compute. split_and!; reflexivity. Qed.

(** A failed append whose cleanup fails too leaves torn bytes in the log; the
    next upsert is acknowledged behind them and the directory cannot be opened. *)
Definition failing_append : list Fault := [Proceed; Proceed; Proceed; Fails "disk full" 0; Fails "I/O error" 0].
Definition failed_append : Result Z * PersistentCollection * Dir :=
  match upsert demo_store demo_batch (MkWorld demo_dir failing_append) with
  | Returned (r, st) w => (r, st, disk w)
  | Crashed d => (Panic, demo_store, d)
  end.

Lemma append_after_failed_cleanup :
  failed_append.1.1 = Err (Io "disk full") /\
  let (r, after) := run_op (failed_append.1.2, failed_append.2) (fun st => upsert st demo_batch) in
  r = Ok 1 /\ is_ok (reopen after.2) = false.
Proof. vm_compute. split_and!; reflexivity. Qed.

(** A manifest whose publication failed leaves its temporary file, and no later
    flush of the same process can create it again. *)
Definition failed_publication : PersistentCollection * Dir :=
  match flush true 2 7 ".segment-4.tmp" demo_store1 (MkWorld demo_dir1 (repeat Proceed 7 ++ [Fails "disk full" 0])) with
  | Returned (_, st) w => (st, disk w)
  | Crashed d => (demo_store1, d)
  end.

Lemma failed_manifest_blocks_flushes :
  (run_op failed_publication (flush true 2 7 ".segment-5.tmp")).1 = Err (Io "File exists (os error 17)") /\
  reopen failed_publication.2 = Ok 2.
Proof. vm_compute. split_and!; reflexivity. Qed.

(** A crash while a new directory's metadata is written blocks every open. *)
Definition crashed_creation : Dir :=
  match open_with_cuda true demo_config Sync Disabled Locked (MkWorld ∅ (repeat Proceed 3 ++ [Crashes 4])) with
  | Crashed d => d
  | Returned _ w => disk w
  end.

Lemma crashed_creation_blocks_open : reopen crashed_creation = Err (Io "File exists (os error 17)").
Proof. vm_compute. reflexivity. Qed.

(** A tiny vector normalises to infinity: the upsert is acknowledged and its
    record is rejected by recovery.  The components are the subnormal 2^-149. *)
Definition cosine_dir : PersistentCollection * Dir :=
  match open_with_cuda true (MkConfig 2 Cosine) Sync Disabled Locked (MkWorld ∅ []) with
  | Returned (Ok st) w => (st, disk w)
  | _ => (demo_store, ∅)
  end.

Definition tiny_upsert : Result Z * (PersistentCollection * Dir) :=
  run_op cosine_dir (fun st => upsert st [MkUpsert "t" [1; 0] ∅]).

Lemma tiny_vector_breaks_directory :
  rmap (existsb (fun x => negb (is_finite fmt32 x))) (prepare Cosine [1; 0]) = Ok true /\ tiny_upsert.1 = Ok 1 /\
  match open_with_cuda true (MkConfig 2 Cosine) Sync Disabled Locked (MkWorld tiny_upsert.2.2 []) with
  | Returned (Err e) _ => e = CorruptStorage "non-finite vector component"
  | _ => False
  end.
Proof. vm_compute. split_and!; reflexivity. Qed.

(** ** Databases and collections that cannot be opened any more *)

Module Database.
Import Environment Concurrent Tree Database DatabaseFacts.

Definition opening (t : Tree) : Result Database :=
  match Database.open true demo_env demo_locks demo_timeouts "/data" default_config (MkWorld t []) with
  | Returned r _ => r
  | Crashed _ => Panic
  end.
Definition tree_after {A : Type} (outcome : OutcomeOf Tree A) : Tree :=
  match outcome with Returned _ w => disk w | Crashed t => t end.

Definition named (r : Result Database) : Result (list (string * Z)) :=
  rmap (fun db => map (fun e => (e.1, Persistence.len (guarded (managed e.2)))) (map_to_list (collections db))) r.

Lemma demo_tree_opens : named (opening demo_tree) = Ok [("docs", 2)].
Proof. vm_compute. reflexivity. Qed.

(** A collection is refused because its dimension is zero, but its metadata
    are written first: the whole database cannot be opened any more. *)
Lemma zero_dimension_breaks_database :
  let created := create_collection true demo_env demo_locks demo_timeouts demo_database "empty" (MkConfig 0 Cosine) (MkWorld demo_tree []) in
  match created with
  | Returned (Err (InvalidConfig message), _) _ => message = "dimension must be greater than zero"
  | _ => False
  end /\ named (opening (tree_after created)) = Err (CorruptStorage "collection dimension must be non-zero").
Proof. vm_compute. split; reflexivity. Qed.

(** Two backups in a row: the second one's flush lists the published segment a
    second time, the backup fails, and the database cannot be opened any more. *)
Definition backup_twice : Result Z * Result Z * Tree :=
  match backup_collection true 2 7 demo_database "docs" "first" ".segment-1.tmp" "1" (MkWorld demo_tree []) with
  | Returned (first, db) w =>
      match backup_collection true 2 7 db "docs" "second" ".segment-2.tmp" "2" w with
      | Returned (second, _) w => (first, second, disk w)
      | Crashed t => (first, Panic, t)
      end
  | Crashed t => (Panic, Panic, t)
  end.

Lemma second_backup_breaks_database :
  backup_twice.1.1 = Ok 1 /\ backup_twice.1.2 = Err (CorruptStorage "invalid segment name in manifest") /\
  named (opening backup_twice.2) = Err (CorruptStorage "invalid segment name in manifest").
Proof. vm_compute. split_and!; reflexivity. Qed.

(** A restored collection that cannot be opened is removed; when the process
    dies in the removal, the next start may serve what is left of it. *)
Definition locked_copy (name : string) : LockOutcome := if String.eqb name "copy" then WouldBlock else Locked.
Definition restore_cut_short (removed : nat) : Tree :=
  tree_after (restore_collection true demo_env locked_copy demo_timeouts demo_database "monday" "copy" "1"
    (MkWorld demo_tree (repeat Proceed 12 ++ [Crashes removed]))).

Lemma interrupted_removal_is_served : named (opening (restore_cut_short 1)) = Ok [("copy", 0); ("docs", 2)].
Proof. vm_compute. reflexivity. Qed.
End Database.
