(* ===== verification/Requests.v ===== *)
(** * Requests: clients of one database at the same time

    Clients send requests to one database ([src/src/database.rs]) while each
    collection's background flusher runs.  A request is served in sections, as
    [Concurrent] has them: looking the collection up under the catalogue's lock,
    then the sections of the call under the collection's lock.  A backup looks
    up, flushes in three sections, and copies under the read lock in one more;
    what others write in between is in the copy.  Creating and restoring hold
    the catalogue's write lock from beginning to end. *)

From stdpp Require Import base gmap sets list strings sorting.
From Stdlib Require Import ZArith Lia.
From S2P Require Import Prelude Errors Floats Ranking Metric Filter MetadataIndex Collection Disk Segment Manifest Persistence Environment Concurrent Tree Database.

Inductive Request : Type :=
| On (name : string) (call : Call)
| CreateCollection (name : string) (config : CollectionConfig)
| BackupCollection (collection_name backup_name temporary nonce : string)
| RestoreCollection (backup_name collection_name nonce : string).

Inductive Reply : Type :=
| NotReached (result : Result SharedCollection)
| Answered (answer : Answer)
| Created (result : Result SharedCollection)
| BackedUp (result : Result Z)
| Restored (result : Result SharedCollection).

(** Where a client's request stands: the thread's calls are those that are left
    of it, a backup's being its flush. *)
Inductive Activity : Type :=
| Free
| Serving (name : string) (thread : Thread)
| Flushing (name backup nonce : string) (thread : Thread)
| Copying (name backup nonce : string).

Record Client : Type := MkClient { requests : list Request; activity : Activity; replies : list Reply }.

Record Service : Type := MkService { database : Database; clients : list Client }.

(** Who takes a turn: a client, or the background flusher of a collection. *)
Inductive Actor : Type :=
| Of (i : nat)
| Flusher (name : string).

Definition reply (self : Client) (reply : Reply) : Client := MkClient (tail (requests self)) Free (replies self ++ [reply]).
Definition busy (self : Client) (activity : Activity) : Client := MkClient (requests self) activity (replies self).

Section Requests.
Context `{FloatEnv} (avx2 : bool) (workers : nat) (pid : Z).
Context (var_os : string -> option EnvValue) (try_lock : string -> LockOutcome) (timeouts : string -> list string).

(** The call has returned. *)
Definition returned (thread : Thread) : bool :=
  match calls thread, stage thread with [], Idle => true | _, _ => false end.

(** A section of a thread that has the collection's handle; collections never
    leave the catalogue, so the handle is the catalogue's. *)
Definition advance_on (self : Database) (name : string) (thread : Thread) : io_of Tree (Thread * Database) :=
  match collections self !! name with
  | Some opened =>
      let* (thread, shared) := within (Live name) (advance avx2 workers pid thread (managed opened)) in
      ioret (thread, update self name shared)
  | None => ioret (thread, self)
  end.

(** [backup_to] after its flush: the sequence and the copy, under one read lock. *)
Definition copy_backup (self : Database) (name backup nonce : string) : io_of Tree (Result Z) :=
  match (let? opened := ok_or (collections self !! name) (NotFound ("collection " +:+ name)) in Concurrent.latest_sequence (managed opened)) with
  | Ok sequence =>
      let* copied := copy_collection_directory (root self) nonce (Live name) (Saved backup) in
      ioret (rmap (fun _ => sequence) copied)
  | Err e => ioret (Err e)
  | Panic => ioret Panic
  end.

(** The first section of a request. *)
Definition begin_request (self : Database) (client : Client) (request : Request) : io_of Tree (Client * Database) :=
  match request with
  | On name call =>
      match collection self name with
      | Ok _ => ioret (busy client (Serving name (MkThread [call] Idle [] false)), self)
      | refused => ioret (reply client (NotReached refused), self)
      end
  | CreateCollection name config =>
      let* (result, self) := create_collection avx2 var_os try_lock timeouts self name config in
      ioret (reply client (Created result), self)
  | BackupCollection collection_name backup_name temporary nonce =>
      match (let? _ := validate_collection_name backup_name in collection self collection_name) with
      | Ok _ => ioret (busy client (Flushing collection_name backup_name nonce (MkThread [Flush temporary] Idle [] false)), self)
      | refused => ioret (reply client (NotReached refused), self)
      end
  | RestoreCollection backup_name collection_name nonce =>
      let* (result, self) := restore_collection avx2 var_os try_lock timeouts self backup_name collection_name nonce in
      ioret (reply client (Restored result), self)
  end.

(** After a section of a call: its answer is the reply, and a backup's flush is
    followed by the copy. *)
Definition served_call (client : Client) (name : string) (thread : Thread) : Client :=
  if returned thread then
    match last (answers thread) with
    | Some answer => reply client (Answered answer)
    | None => MkClient (tail (requests client)) Free (replies client)
    end
  else busy client (Serving name thread).

Definition flushed_backup (client : Client) (name backup nonce : string) (thread : Thread) : Client :=
  if returned thread then
    match last (answers thread) with
    | Some (Number (Ok _)) => busy client (Copying name backup nonce)
    | Some (Number result) => reply client (BackedUp result)
    | _ => reply client (BackedUp Panic)
    end
  else busy client (Flushing name backup nonce thread).

(** A client's next section. *)
Definition serve (self : Database) (client : Client) : io_of Tree (Client * Database) :=
  match activity client with
  | Free =>
      match requests client with
      | [] => ioret (client, self)
      | request :: _ => begin_request self client request
      end
  | Serving name thread =>
      let* (thread, self) := advance_on self name thread in
      ioret (served_call client name thread, self)
  | Flushing name backup nonce thread =>
      let* (thread, self) := advance_on self name thread in
      ioret (flushed_backup client name backup nonce thread, self)
  | Copying name backup nonce =>
      let* result := copy_backup self name backup nonce in
      ioret (reply client (BackedUp result), self)
  end.

(** A section of a background flusher. *)
Definition flush_in_background (self : Database) (name : string) : io_of Tree Database :=
  match collections self !! name with
  | Some opened =>
      let* (thread, shared) := within (Live name) (advance avx2 workers pid (flusher opened) (managed opened)) in
      ioret (with_collections self (<[name := MkManaged shared thread]> (collections self)))
  | None => ioret self
  end.

Definition act (service : Service) (actor : Actor) : io_of Tree Service :=
  match actor with
  | Of i =>
      match clients service !! i with
      | None => ioret service
      | Some client =>
          let* (client, database) := serve (database service) client in
          ioret (MkService database (<[i := client]> (clients service)))
      end
  | Flusher name =>
      let* database := flush_in_background (database service) name in
      ioret (MkService database (clients service))
  end.

Fixpoint act_all (service : Service) (schedule : list Actor) : io_of Tree Service :=
  match schedule with
  | [] => ioret service
  | actor :: schedule' => let* service := act service actor in act_all service schedule'
  end.
End Requests.
