(* ===== verification/RequestsFacts.v ===== *)
(** * RequestsFacts: the database serves its clients one effect at a time

    The contents of a database are its collections and its backups, and an
    acknowledged request is one [Event] on them.  [running] is the invariant
    between sections: each collection, with the background flusher and the
    clients that are on it, is a [Concurrent] system that agrees with its
    directory.  Every section keeps it, under every fault, and does nothing or
    the event of its request. *)

From stdpp Require Import base gmap sets list strings sorting.
From Stdlib Require Import ZArith Lia.
From S2P Require Import Prelude Errors Floats Ranking Metric Filter MetadataIndex Collection CollectionFacts Codec Wire WireFacts Wal.
From S2P Require Import Disk DiskFacts Segment Manifest ManifestFacts Persistence Recovery Durability FlushFacts QueryFacts Environment Concurrent ConcurrentFacts.
From S2P Require Import Creation Tree TreeFacts Database DatabaseFacts Requests.

Lemma spec_and {D A} (m : io_of D A) d (Q1 Q2 : A -> D -> Prop) (C1 C2 : D -> Prop) :
  specifies m d Q1 C1 -> specifies m d Q2 C2 -> specifies m d (fun a d' => Q1 a d' /\ Q2 a d') (fun d' => C1 d' /\ C2 d').
Proof. intros H1 H2 s. specialize (H1 s). specialize (H2 s). by destruct (m _). Qed.

(** ** What acknowledged requests do *)

(** The collections under their names, and the backups under theirs. *)
Abbreviation Holdings := (gmap string Collection * gmap string Collection)%type.

Inductive Event : Type :=
| Wrote (name : string) (call : Call)
| Made (name : string) (config : CollectionConfig)
| Kept (name backup : string)
| Recovered (backup name : string).

Inductive does `{FloatEnv} : Holdings -> Event -> Holdings -> Prop :=
| does_write cs bs name call c c' : cs !! name = Some c -> effect call c c' -> does (cs, bs) (Wrote name call) (<[name := c']> cs, bs)
| does_create cs bs name config c : cs !! name = None -> restores (blank config) c -> does (cs, bs) (Made name config) (<[name := c]> cs, bs)
| does_backup cs bs name backup c : cs !! name = Some c -> does (cs, bs) (Kept name backup) (cs, <[backup := c]> bs)
| does_restore cs bs backup name c c' :
    bs !! backup = Some c -> cs !! name = None -> restores c c' -> does (cs, bs) (Recovered backup name) (<[name := c']> cs, bs).

(** What the client is told: the sequence of its write or of its backup, the
    collection it may use from now on. *)
Definition confirms (event : Event) (h : Holdings) (reply : Reply) : Prop :=
  match event, reply with
  | Wrote name _, Answered (Number (Ok n)) => exists c, h.1 !! name = Some c /\ n = sequence c
  | Kept _ backup, BackedUp (Ok n) => exists c, h.2 !! backup = Some c /\ n = sequence c
  | Made name _, Created (Ok shared) | Recovered _ name, Restored (Ok shared) => h.1 !! name = Some (inner (guarded shared))
  | _, _ => False
  end.

(** Flushes and searches leave what a reader can tell of a collection. *)
Definition alike (h h' : Holdings) : Prop :=
  h'.2 = h.2 /\ forall name, option_Forall2 same (h.1 !! name) (h'.1 !! name).

Inductive history `{FloatEnv} (h : Holdings) : list Event -> Holdings -> Prop :=
| history_none h' : alike h h' -> history h [] h'
| history_event log h1 event h' : history h log h1 -> does h1 event h' -> history h (log ++ [event]) h'
| history_alike log h1 h' : history h log h1 -> alike h1 h' -> history h log h'.

Lemma alike_refl h : alike h h.
Proof. split; [done|]. intros name. destruct (h.1 !! name); by constructor. Qed.

Lemma alike_insert cs bs name c c' : cs !! name = Some c -> same c c' -> alike (cs, bs) (<[name := c']> cs, bs).
Proof.
  intros Ec Hs. split; [done|]. intros other. cbn [fst]. destruct (decide (other = name)) as [->|Hne].
  - rewrite Ec, lookup_insert_eq. by constructor.
  - rewrite lookup_insert_ne by done. destruct (cs !! other); by constructor.
Qed.

(** ** The event of a request *)

(** What the next section of an actor can acknowledge. *)
Definition pending (service : Service) (actor : Actor) : option Event :=
  match actor with
  | Flusher _ => None
  | Of i =>
      match clients service !! i with
      | None => None
      | Some client =>
          match activity client, requests client with
          | Free, CreateCollection name config :: _ => Some (Made name config)
          | Free, RestoreCollection backup name _ :: _ => Some (Recovered backup name)
          | Serving name thread, _ => match next_write thread with Some call => Some (Wrote name call) | None => None end
          | Copying name backup _, _ => Some (Kept name backup)
          | _, _ => None
          end
      end
  end.

Definition succeeded (reply : Reply) : bool :=
  match reply with
  | Answered (Number (Ok _)) | Created (Ok _) | BackedUp (Ok _) | Restored (Ok _) => true
  | _ => false
  end.

Definition last_reply (service : Service) (actor : Actor) : option Reply :=
  match actor with
  | Of i => match clients service !! i with Some client => last (replies client) | None => None end
  | Flusher _ => None
  end.

Definition acknowledges (service service' : Service) (actor : Actor) : option (Event * Reply) :=
  match pending service actor, last_reply service' actor with
  | Some event, Some reply => if succeeded reply then Some (event, reply) else None
  | _, _ => None
  end.

(** ** The invariant *)

Definition idle_thread : Thread := MkThread [] Idle [] false.
Definition on_name (name : string) (client : Client) : Thread :=
  match activity client with
  | Serving n thread | Flushing n _ _ thread => if decide (n = name) then thread else idle_thread
  | _ => idle_thread
  end.

(** A collection with the threads that use it. *)
Definition view (service : Service) (name : string) (m : ManagedCollection) : System :=
  MkSystem (managed m) (flusher m :: (on_name name <$> clients service)).

Section Facts.
Context `{FloatEnv} (avx2 : bool) (workers : nat) (pid : Z).

(** Every backup that was acknowledged is there and holds its collection. *)
Definition backups_hold (t : Tree) (bs : gmap string Collection) : Prop :=
  forall backup c, bs !! backup = Some c ->
    valid_name backup = true /\ exists copy, t !! Saved backup = Some copy /\ recoverable avx2 copy c.

(** A background flusher flushes, and so does a backup; a client's thread has
    one call. *)
Definition flushes (call : Call) : Prop := match call with Flush _ | Timeout _ _ => True | _ => False end.
Definition activity_ok (self : Database) (activity : Activity) : Prop :=
  match activity with
  | Free => True
  | Serving name thread => is_Some (collections self !! name) /\ (length (calls thread) <= 1)%nat
  | Flushing name backup _ thread => is_Some (collections self !! name) /\ valid_name backup = true /\ Forall flushes (calls thread)
  | Copying name backup _ => is_Some (collections self !! name) /\ valid_name backup = true
  end.
Definition clients_ok (self : Database) (clients : list Client) : Prop :=
  forall i client, clients !! i = Some client -> activity_ok self (activity client).

Record running (service : Service) (t : Tree) (bs : gmap string Collection) : Prop := {
  rn_serves : serves avx2 (database service) t (live (database service));
  rn_sound : forall name m d, collections (database service) !! name = Some m -> t !! Live name = Some d ->
    sound avx2 (view service name m) d;
  rn_flushers : forall name m, collections (database service) !! name = Some m -> Forall flushes (calls (flusher m));
  rn_clients : clients_ok (database service) (clients service);
  rn_backups : backups_hold t bs
}.

Definition holdings (service : Service) (bs : gmap string Collection) : Holdings := (live (database service), bs).

(** What a restart finds when the section of an actor was cut short, or failed:
    everything, with or without the event of the section; a restored directory
    whose removal was cut short is no collection. *)
Definition interrupted (service : Service) (actor : Actor) (bs : gmap string Collection) (t : Tree) : Prop :=
  backups_hold t bs /\
  (found avx2 t (live (database service)) \/
   (exists event h', pending service actor = Some event /\ does (holdings service bs) event h' /\ found avx2 t h'.1) \/
   (exists backup name part, pending service actor = Some (Recovered backup name) /\ t !! Live name = Some part /\
      found avx2 (base.delete (Live name) t) (live (database service)))).

(** The outcome of a section: nothing, or the event that its reply acknowledges. *)
Definition stepped_to (service service' : Service) (actor : Actor) (bs : gmap string Collection) (t : Tree) : Prop :=
  exists bs', running service' t bs' /\
    match acknowledges service service' actor with
    | Some (event, reply) => does (holdings service bs) event (holdings service' bs') /\ confirms event (holdings service' bs') reply
    | None => alike (holdings service bs) (holdings service' bs')
    end.

(** ** Systems with the same stages *)

Lemma sound_stages system system' d :
  sound avx2 system d -> shared system' = shared system ->
  (forall j th', threads system' !! j = Some th' -> exists th, threads system !! j = Some th /\ stage th' = stage th) ->
  sound avx2 system' d.
Proof.
  intros (Hp & owner & stg & Hs & Hall) E Hst. split; [by rewrite E|]. exists owner, stg. split; [by rewrite E|].
  intros j th' Ej. destruct (Hst _ _ Ej) as (th & Et & ->). by apply Hall.
Qed.

Lemma sound_idle system d :
  poisoned (shared system) = false -> store_ok avx2 (guarded (shared system)) d ->
  (forall j th, threads system !! j = Some th -> stage th = Idle) -> sound avx2 system d.
Proof.
  intros Hp Hst Hall. split; [done|]. exists 0%nat, Idle. split; [by constructor|]. intros j th Ej. rewrite (Hall _ _ Ej). by case_decide.
Qed.

(** Every client of [service'] is on [name] at the stage it was. *)
Definition same_stages (service service' : Service) (name : string) : Prop :=
  forall i client', clients service' !! i = Some client' ->
    exists client, clients service !! i = Some client /\ stage (on_name name client') = stage (on_name name client).

Lemma view_stages service service' name m m' d :
  sound avx2 (view service name m) d -> managed m' = managed m -> stage (flusher m') = stage (flusher m) ->
  same_stages service service' name -> sound avx2 (view service' name m') d.
Proof.
  intros Hs E Ef Hc. eapply sound_stages; [exact Hs|done|]. intros [|j] th'; [intros [= <-]; by exists (flusher m)|].
  change ((on_name name <$> clients service') !! j = Some th' -> exists th, (on_name name <$> clients service) !! j = Some th /\ stage th' = stage th).
  rewrite !list_lookup_fmap. destruct (clients service' !! j) as [client'|] eqn:Ej; [|done]. intros [= <-].
  destruct (Hc _ _ Ej) as (client & Ec & Hst). rewrite Ec. by exists (on_name name client).
Qed.

Lemma activity_ok_insert self name m activity :
  activity_ok self activity -> activity_ok (with_collections self (<[name := m]> (collections self))) activity.
Proof.
  assert (forall n, is_Some (collections self !! n) -> is_Some (<[name := m]> (collections self) !! n)) as Hn.
  { intros n Hs. destruct (decide (n = name)) as [->|]; [by rewrite lookup_insert_eq|by rewrite lookup_insert_ne]. }
  destruct activity; cbn [activity_ok with_collections collections]; [done| | |]; intros [Hs Hr]; (split; [by apply Hn|exact Hr]).
Qed.

Lemma live_insert self name m :
  live (with_collections self (<[name := m]> (collections self))) = <[name := inner (opened_collection m)]> (live self).
Proof. unfold live. cbn [with_collections collections]. by rewrite fmap_insert. Qed.

Lemma backups_hold_agree t t' bs : (forall b, valid_name b = true -> is_Some (bs !! b) -> t' !! Saved b = t !! Saved b) -> backups_hold t bs -> backups_hold t' bs.
Proof. intros Ht Hb b c Ec. destruct (Hb b c Ec) as (Hv & copy & E & Hr). split; [done|]. exists copy. by rewrite Ht. Qed.

(** A collection takes a step, with its directory. *)
Lemma running_next service t bs service' name m m' d' :
  running service t bs -> collections (database service) !! name = Some m ->
  database service' = with_collections (database service) (<[name := m']> (collections (database service))) ->
  sound avx2 (view service' name m') d' -> Forall flushes (calls (flusher m')) ->
  (forall other, other <> name -> same_stages service service' other) -> clients_ok (database service) (clients service') ->
  running service' (<[Live name := d']> t) bs.
Proof.
  intros [Hs Hsound Hf Hc Hb] Em Edb Hs' Hf' Hothers Hok. pose proof (serves_valid _ _ _ _ _ _ Hs Em) as Hv.
  pose proof Hs' as [Hp' _]. pose proof (sound_store _ _ _ Hs') as Hst'. cbn [view shared] in Hp', Hst'.
  constructor; rewrite ?Edb.
  - rewrite live_insert. by apply serves_insert.
  - cbn [with_collections collections]. intros other m2 d2. destruct (decide (other = name)) as [->|Hne].
    + rewrite !lookup_insert_eq. by intros [= <-] [= <-].
    + rewrite !lookup_insert_ne by congruence. intros E2 Ed2. eapply view_stages; [by eapply Hsound|done|done|by apply Hothers].
  - cbn [with_collections collections]. intros other m2. destruct (decide (other = name)) as [->|Hne].
    + rewrite lookup_insert_eq. by intros [= <-].
    + rewrite lookup_insert_ne by congruence. apply Hf.
  - intros i client Ei. by eapply activity_ok_insert, Hok.
  - eapply backups_hold_agree; [|exact Hb]. intros. by rewrite lookup_insert_ne.
Qed.

(** Only what clients are about to do changes, and directories that are not collections. *)
Lemma running_clients service t t' bs bs' service' :
  running service t bs -> database service' = database service ->
  (forall name, valid_name name = true -> t' !! Live name = t !! Live name) -> backups_hold t' bs' ->
  (forall name, same_stages service service' name) -> clients_ok (database service) (clients service') -> running service' t' bs'.
Proof.
  intros [Hs Hsound Hf Hc _] Edb Ht Hb Hall Hok. constructor; rewrite ?Edb; [by eapply serves_agree| |done..].
  intros name m d Em. rewrite Ht by (by eapply serves_valid). intros Ed. eapply view_stages; [by eapply Hsound|done|done|apply Hall].
Qed.

(** A collection is added. *)
Lemma running_added service t t' bs service' name m :
  running service t bs -> collections (database service) !! name = None ->
  database service' = with_collections (database service) (<[name := m]> (collections (database service))) ->
  stage (flusher m) = Idle -> Forall flushes (calls (flusher m)) ->
  serves avx2 (database service') t' (live (database service')) ->
  (forall other, valid_name other = true -> other <> name -> t' !! Live other = t !! Live other) -> backups_hold t' bs ->
  (forall other, same_stages service service' other) -> clients_ok (database service) (clients service') ->
  running service' t' bs.
Proof.
  intros [Hs Hsound Hf Hc Hb] En Edb Hi Hcalls Hs' Ht Hb' Hst Hok. constructor; [done| | | |done]; rewrite ?Edb.
  - cbn [with_collections collections]. intros other m2 d2. destruct (decide (other = name)) as [->|Hne].
    + rewrite lookup_insert_eq. intros [= <-] Ed. assert (collections (database service') !! name = Some m) as Em by (rewrite Edb; apply lookup_insert_eq).
      destruct (sv_entries _ _ _ _ Hs' _ _ Em) as (_ & Hp & d & Ed' & Hstore). rewrite Ed in Ed'. injection Ed' as <-.
      apply sound_idle; [done|done|]. intros [|j] th; [by intros [= <-]|].
      change ((on_name name <$> clients service') !! j = Some th -> stage th = Idle). rewrite list_lookup_fmap.
      destruct (clients service' !! j) as [client'|] eqn:Ej; [|done]. intros [= <-]. specialize (Hok _ _ Ej). unfold on_name.
      destruct (activity client') as [|n th|n b nonce th|n b nonce]; cbn in *; try done.
      all: case_decide; [subst; destruct Hok as [[? E] _]; congruence|done].
    + rewrite lookup_insert_ne by congruence. intros E2. rewrite (Ht other (serves_valid _ _ _ _ _ _ Hs E2)) by done. intros Ed2.
      eapply view_stages; [by eapply Hsound|done|done|apply Hst].
  - cbn [with_collections collections]. intros other m2. destruct (decide (other = name)) as [->|Hne].
    + rewrite lookup_insert_eq. by intros [= <-].
    + rewrite lookup_insert_ne by congruence. apply Hf.
  - intros i client Ei. by eapply activity_ok_insert, Hok.
Qed.

(** ** Sections of calls *)

(** What a section leaves of a thread's calls; a write is one section. *)
Definition calls_next (thread thread' : Thread) : Prop :=
  calls thread' = calls thread \/ calls thread' = tail (calls thread) \/ calls thread' = [] \/
  exists temporary, calls thread' = Flush temporary :: tail (calls thread).
Definition shaped (thread thread' : Thread) : Prop :=
  calls_next thread thread' /\
  (next_write thread <> None -> stage thread' = Idle /\ is_Some (last (answers thread')) /\ (calls thread' = tail (calls thread) \/ calls thread' = [])).

Lemma finish_shaped thread answer : shaped thread (finish thread answer).
Proof.
  unfold shaped, calls_next, finish. cbn [calls stage answers]. rewrite last_snoc.
  destruct (_ || _); (split; [tauto|]); intros _; (split; [done|]); (split; [by eexists|tauto]).
Qed.

Lemma stage_shaped thread stg : next_write thread = None -> shaped thread (at_stage thread stg).
Proof. intros E. split; [by left|]. by rewrite E. Qed.

Lemma timeout_shaped thread shared threshold temporary :
  next_write thread = None -> shaped thread (timeout thread shared threshold temporary).
Proof.
  intros E. unfold timeout. destruct (pending_point_count shared); [|apply finish_shaped..].
  destruct (Z.ltb _ _); (split; [|by rewrite E]); unfold calls_next; cbn [calls]; [tauto|]. do 3 right. by eexists.
Qed.

Lemma advance_shaped thread shared d :
  specifies (advance avx2 workers pid thread shared) d (fun r _ => shaped thread r.1) (fun _ => True).
Proof.
  assert (forall A (m : io A) (k : A -> io (Thread * SharedCollection)) d,
    (forall a d', specifies (k a) d' (fun r _ => shaped thread r.1) (fun _ => True)) ->
    specifies (iobind m k) d (fun r _ => shaped thread r.1) (fun _ => True)) as Hbind.
  { intros A m k d0 Hk. eapply spec_bind; [apply spec_any|]. intros a d' _. apply Hk. }
  assert (next_write thread = match stage thread with Idle => match head (calls thread) with Some ((Upsert _ | Delete _) as call) => Some call | _ => None end | _ => None end) as Hw
    by (unfold next_write, next_call; by destruct (stage thread)).
  unfold advance. destruct (stage thread) as [|snapshot temporary|prepared].
  2-3: apply Hbind; intros r d'.
  2: destruct r; apply spec_ret; try apply finish_shaped; by apply stage_shaped.
  2: destruct r; apply spec_ret; apply finish_shaped.
  destruct (calls thread) as [|call rest] eqn:Ec; [apply spec_ret; split; [by left|by rewrite Hw]|].
  destruct call; cbn [head] in Hw; try (apply spec_ret, finish_shaped); try (apply Hbind; intros [r shared'] d'; apply spec_ret, finish_shaped).
  - destruct (search _ _ _ _ _). apply spec_ret, finish_shaped.
  - destruct (search_with_ef _ _ _ _ _ _). apply spec_ret, finish_shaped.
  - destruct (flush_snapshot shared); apply spec_ret; [by apply stage_shaped|apply finish_shaped..].
  - apply spec_ret. by apply timeout_shaped.
Qed.

Lemma shaped_flushes thread thread' : shaped thread thread' -> Forall flushes (calls thread) -> Forall flushes (calls thread').
Proof.
  intros [[->|[->|[->|(temporary & ->)]]] _] Hf; [done| |constructor|]; [by apply Forall_tail|]. constructor; [exact I|by apply Forall_tail].
Qed.
Lemma shaped_one thread thread' : shaped thread thread' -> (length (calls thread) <= 1)%nat -> (length (calls thread') <= 1)%nat.
Proof. intros [[->|[->|[->|(temporary & ->)]]] _] Hl; cbn [length]; [done| |lia|]; destruct (calls thread); cbn [length tail] in *; lia. Qed.
Lemma shaped_returned thread thread' : shaped thread thread' -> (length (calls thread) <= 1)%nat -> next_write thread <> None -> returned thread' = true.
Proof.
  intros [_ Hw] Hl Hn. destruct (Hw Hn) as (E & _ & Ec). unfold returned. rewrite E.
  assert (calls thread' = []) as ->; [|done]. destruct Ec as [->|]; [|done]. destruct (calls thread) as [|? [|]]; cbn in *; [done|done|lia].
Qed.

Lemma flushes_write thread : Forall flushes (calls thread) -> next_write thread = None.
Proof.
  intros Hf. unfold next_write, next_call. destruct (stage thread); [|done..]. destruct Hf as [|call calls Hc _]; [done|]. by destruct call.
Qed.

(** A thread of the view takes its section inside the collection's directory. *)
Definition section_done (service : Service) (t : Tree) (name : string) (m : ManagedCollection) (k : nat) (thread : Thread)
    (r : Thread * SharedCollection) (t' : Tree) : Prop :=
  exists d', t' = <[Live name := d']> t /\ stepped avx2 (view service name m) k thread r d' /\ shaped thread r.1.

Lemma thread_spec service t bs name m d k thread :
  running service t bs -> collections (database service) !! name = Some m -> t !! Live name = Some d ->
  threads (view service name m) !! k = Some thread -> acceptable (view service name m) thread d ->
  specifies (within (Live name) (advance avx2 workers pid thread (managed m))) t
    (section_done service t name m k thread)
    (fun t' => exists d', t' = <[Live name := d']> t /\ torn avx2 thread (inner (opened_collection m)) d').
Proof.
  intros Hr Em Ed Ek Hacc. eapply spec_mono; [apply spec_within; rewrite Ed; cbn [default]|intros r t' Hd; exact Hd|].
  - eapply spec_mono; [apply spec_and; [apply (advance_spec avx2 workers pid (view service name m)); [by eapply rn_sound|exact Ek|exact Hacc]|apply advance_shaped]| |].
    + intros r d' Hd. exact Hd.
    + intros d' [Hd _]. exact Hd.
  - cbv beta. done.
Qed.

Lemma torn_found service t bs name m thread d' :
  running service t bs -> collections (database service) !! name = Some m ->
  torn avx2 thread (inner (opened_collection m)) d' ->
  found avx2 (<[Live name := d']> t) (live (database service)) \/
  exists call c', next_write thread = Some call /\ effect call (inner (opened_collection m)) c' /\
    found avx2 (<[Live name := d']> t) (<[name := c']> (live (database service))).
Proof.
  intros Hr Em Ht. pose proof (rn_serves _ _ _ Hr) as Hs. pose proof (serves_valid _ _ _ _ _ _ Hs Em) as Hv.
  destruct Ht as [Hd|(call & c' & H1 & H2 & Hd)]; [left|right; exists call, c'; split; [done|split; [done|]]].
  - rewrite <- (insert_id (live (database service)) name (inner (opened_collection m))) by (unfold live; by rewrite lookup_fmap, Em).
    apply found_insert; [done|by left|apply Hs].
  - apply found_insert; [done|by left|apply Hs].
Qed.

(** ** Acceptable sections *)

Definition unavailable (self : Database) (name : string) : Prop := valid_name name = false \/ is_Some (collections self !! name).
Definition creatable (self : Database) (t : Tree) (name : string) (config : CollectionConfig) : Prop :=
  valid_name name = true /\ collections self !! name = None /\ config_ok config /\ uncreated (default ∅ (t !! Live name)).
Definition restorable (self : Database) (t : Tree) (known : gset string) (backup name : string) : Prop :=
  valid_name backup = true /\ valid_name name = true /\ collections self !! name = None /\ backup ∈ known /\ t !! Live name = None.

(** What the section of an actor needs: what its thread needs ([acceptable]); a
    free name for a new collection, or one that is refused; an acknowledged
    backup, or none under the name. *)
Definition acceptable_act (service : Service) (t : Tree) (known : gset string) (actor : Actor) : Prop :=
  let thread_acceptable name (thread : ManagedCollection -> Thread) :=
    forall m d, collections (database service) !! name = Some m -> t !! Live name = Some d -> acceptable (view service name m) (thread m) d in
  match actor with
  | Flusher name => thread_acceptable name flusher
  | Of i =>
      forall client, clients service !! i = Some client ->
      match activity client, requests client with
      | (Serving name thread | Flushing name _ _ thread), _ => thread_acceptable name (fun _ => thread)
      | Free, CreateCollection name config :: _ => unavailable (database service) name \/ creatable (database service) t name config
      | Free, RestoreCollection backup name _ :: _ =>
          valid_name backup = false \/ unavailable (database service) name \/ t !! Saved backup ≫= (.!! META) = None \/
          restorable (database service) t known backup name
      | _, _ => True
      end
  end.

(** A section that was to acknowledge a valid request, and failed. *)
Definition sound_request (service : Service) (t : Tree) (known : gset string) (event : Event) : Prop :=
  match event with
  | Wrote name call => exists m, collections (database service) !! name = Some m /\ valid (inner (opened_collection m)) call
  | Made name config => creatable (database service) t name config
  | Recovered backup name => restorable (database service) t known backup name
  | Kept _ _ => False
  end.
Definition disrupts (service service' : Service) (actor : Actor) (t : Tree) (known : gset string) : Prop :=
  exists event reply, pending service actor = Some event /\ sound_request service t known event /\
    last_reply service' actor = Some reply /\ succeeded reply = false.

Definition outcome (service : Service) (actor : Actor) (bs : gmap string Collection) (t : Tree) (service' : Service) (t' : Tree) : Prop :=
  stepped_to service service' actor bs t' \/
  (disrupts service service' actor t (dom bs) /\ interrupted service actor bs t').

(** ** A client's section under a collection's lock *)

Definition is_on (client : Client) (name : string) (thread : Thread) : Prop :=
  on_name name client = thread /\ forall other, other <> name -> on_name other client = idle_thread.

Lemma serving_on client name thread : activity client = Serving name thread -> is_on client name thread.
Proof. intros E. unfold is_on, on_name. rewrite E. split; [by rewrite decide_True|]. intros other Hne. by rewrite decide_False. Qed.
Lemma flushing_on client name backup nonce thread : activity client = Flushing name backup nonce thread -> is_on client name thread.
Proof. intros E. unfold is_on, on_name. rewrite E. split; [by rewrite decide_True|]. intros other Hne. by rewrite decide_False. Qed.

Lemma returned_idle thread : returned thread = true -> stage thread = Idle.
Proof. unfold returned. by destruct (calls thread), (stage thread). Qed.

(** The stages that a client shows are those of its thread, on its collection. *)
Definition shows (client : Client) (name : string) (thread : Thread) : Prop :=
  stage (on_name name client) = stage thread /\ forall other, other <> name -> stage (on_name other client) = Idle.

Lemma is_on_shows client name thread : is_on client name thread -> shows client name thread.
Proof. intros [<- Ho]. split; [done|]. intros other Hne. by rewrite Ho. Qed.
Lemma free_shows client name thread :
  (forall other, on_name other client = idle_thread) -> stage thread = Idle -> shows client name thread.
Proof. intros Hf E. split; [by rewrite Hf, E|]. intros other _. by rewrite Hf. Qed.

Lemma served_shows client name thread : shows (served_call client name thread) name thread.
Proof.
  unfold served_call. destruct (returned thread) eqn:E; [apply returned_idle in E|by apply is_on_shows, serving_on].
  by destruct (last (answers thread)); apply free_shows.
Qed.
Lemma flushed_shows client name backup nonce thread : shows (flushed_backup client name backup nonce thread) name thread.
Proof.
  unfold flushed_backup. destruct (returned thread) eqn:E; [apply returned_idle in E|by eapply is_on_shows, flushing_on].
  by destruct (last (answers thread)) as [[[n|e|]| | |]|]; apply free_shows.
Qed.

Lemma same_stages_insert service self i client client' name :
  clients service !! i = Some client -> stage (on_name name client') = stage (on_name name client) ->
  same_stages service (MkService self (<[i := client']> (clients service))) name.
Proof.
  intros Ei E j c. cbn [clients]. destruct (decide (j = i)) as [->|Hne].
  - rewrite list_lookup_insert_eq by (by eapply lookup_lt_Some). intros [= <-]. by exists client.
  - rewrite list_lookup_insert_ne by done. intros Ej. by exists c.
Qed.

Lemma clients_ok_insert self clients i client :
  clients_ok self clients -> activity_ok self (activity client) -> clients_ok self (<[i := client]> clients).
Proof. intros Hok Hc j c [(-> & -> & _)|[_ Ej]]%list_lookup_insert_Some; [done|by eapply Hok]. Qed.

Lemma client_section service t bs i client client' name m thread (r : Thread * SharedCollection) d' :
  running service t bs -> collections (database service) !! name = Some m -> clients service !! i = Some client ->
  is_on client name thread -> shows client' name r.1 -> activity_ok (database service) (activity client') ->
  sound avx2 (MkSystem r.2 (<[S i := r.1]> (threads (view service name m)))) d' ->
  running (MkService (update (database service) name r.2) (<[i := client']> (clients service))) (<[Live name := d']> t) bs.
Proof.
  intros Hr Em Ei [Hon Hoff] [Hs1 Hs2] Hok Hs. eapply (running_next service t bs _ name m (MkManaged r.2 (flusher m)) d'); [done|done| | | | |].
  - by apply update_insert.
  - eapply sound_stages; [exact Hs|done|]. intros [|j] th'; [intros [= <-]; by exists (flusher m)|].
    change ((on_name name <$> <[i := client']> (clients service)) !! j = Some th' ->
            exists th, <[i := r.1]> (on_name name <$> clients service) !! j = Some th /\ stage th' = stage th).
    rewrite list_fmap_insert. destruct (decide (j = i)) as [->|Hne].
    + assert (i < length (on_name name <$> clients service))%nat by (rewrite length_fmap; by eapply lookup_lt_Some).
      rewrite !list_lookup_insert_eq by done. intros [= <-]. by exists r.1.
    + rewrite !list_lookup_insert_ne by done. intros Ej. by exists th'.
  - cbn [flusher]. by eapply (rn_flushers _ _ _ Hr).
  - intros other Hne. eapply same_stages_insert; [done|]. by rewrite Hoff, Hs2.
  - cbn [clients]. apply clients_ok_insert; [apply Hr|done].
Qed.

Lemma live_update self name m s : collections self !! name = Some m -> live (update self name s) = <[name := inner (guarded s)]> (live self).
Proof. intros Em. rewrite (update_insert _ _ m) by exact Em. apply live_insert. Qed.
Lemma lookup_live self name m : collections self !! name = Some m -> live self !! name = Some (inner (opened_collection m)).
Proof. intros Em. unfold live. by rewrite lookup_fmap, Em. Qed.

Lemma torn_interrupted service t bs actor name m thread d' :
  running service t bs -> collections (database service) !! name = Some m -> torn avx2 thread (inner (opened_collection m)) d' ->
  (forall call, next_write thread = Some call -> pending service actor = Some (Wrote name call)) ->
  interrupted service actor bs (<[Live name := d']> t).
Proof.
  intros Hr Em Ht Hp. split.
  - eapply backups_hold_agree; [|by apply Hr]. intros. by rewrite lookup_insert_ne.
  - destruct (torn_found _ _ _ _ _ _ _ Hr Em Ht) as [Hf|(call & c' & H1 & H2 & Hf)]; [by left|right; left].
    exists (Wrote name call), (<[name := c']> (live (database service)), bs). split; [by apply Hp|]. split; [|done].
    econstructor; [by apply lookup_live|done].
Qed.

(** A section that acknowledges nothing leaves the holdings alike. *)
Lemma stepped_alike service service' actor bs t :
  running service' t bs -> acknowledges service service' actor = None -> alike (holdings service bs) (holdings service' bs) ->
  stepped_to service service' actor bs t.
Proof. intros Hr Ea Ha. exists bs. split; [done|]. by rewrite Ea. Qed.

Lemma progressed_none thread thread' c c' : next_write thread = None -> progressed thread thread' c c' -> same c c'.
Proof. intros E. unfold progressed, acknowledged. by rewrite E. Qed.

Lemma last_reply_insert self service i client client' :
  clients service !! i = Some client -> last_reply (MkService self (<[i := client']> (clients service))) (Of i) = last (replies client').
Proof. intros Ei. cbn. by rewrite list_lookup_insert_eq by (by eapply lookup_lt_Some). Qed.

Lemma view_client service i client name m thread :
  clients service !! i = Some client -> is_on client name thread -> threads (view service name m) !! S i = Some thread.
Proof. intros Ei [Hon _]. change ((on_name name <$> clients service) !! i = Some thread). rewrite list_lookup_fmap, Ei. cbn. by rewrite Hon. Qed.

Context (var_os : string -> option EnvValue) (try_lock : string -> LockOutcome) (timeouts : string -> list string).

Lemma serving_outcome service t bs i client name thread m d :
  running service t bs -> clients service !! i = Some client -> activity client = Serving name thread ->
  collections (database service) !! name = Some m -> t !! Live name = Some d -> acceptable (view service name m) thread d ->
  specifies (act avx2 workers pid var_os try_lock timeouts service (Of i)) t (outcome service (Of i) bs t) (interrupted service (Of i) bs).
Proof.
  intros Hr Ei Ea Em Ed Hacc. pose proof (serving_on _ _ _ Ea) as Hon. pose proof (rn_clients _ _ _ Hr i client Ei) as Hok. rewrite Ea in Hok.
  assert (pending service (Of i) = match next_write thread with Some call => Some (Wrote name call) | None => None end) as Hp
    by (cbn; rewrite Ei, Ea; by destruct (requests client)).
  unfold act. rewrite Ei. unfold serve, advance_on. rewrite Ea, Em.
  eapply (spec_bind _ _ _ (fun r t' => exists thread' shared', r = (served_call client name thread', update (database service) name shared') /\
    section_done service t name m (S i) thread (thread', shared') t')).
  { eapply (spec_bind _ _ _ (fun r t' => exists thread' shared', r = (thread', update (database service) name shared') /\
      section_done service t name m (S i) thread (thread', shared') t')).
    - eapply spec_bind; [eapply spec_mono; [apply (thread_spec service t bs name m d (S i) thread); [done|done|done|by eapply view_client|done]|intros r t' Hd; exact Hd|]|].
      + intros t' (d' & -> & Hd). eapply torn_interrupted; [done|done|done|]. intros call E. by rewrite Hp, E.
      + intros [thread' shared'] t' Hd. apply spec_ret. by exists thread', shared'.
    - intros r t' (thread' & shared' & -> & Hd). apply spec_ret. by exists thread', shared'. }
  intros r t' (thread' & shared' & -> & d' & -> & Hst & Hsh). apply spec_ret. cbn [fst snd] in *.
  destruct Hst as [[Hsound Hpr]|[(call & e & E1 & Hv & E2) Htorn]]; cbn [fst snd] in *.
  - left. exists bs. split.
    { eapply (client_section service t bs i client _ name m thread (thread', shared') d'); [done|done|done|done|apply served_shows| |done].
      unfold served_call. destruct (returned thread'); [by destruct (last (answers thread'))|]. split; [apply Hok|]. by eapply shaped_one, Hok. }
    unfold acknowledges. rewrite Hp, (last_reply_insert _ _ _ client) by done.
    unfold holdings. cbn [database]. rewrite (live_update _ _ m) by done.
    destruct (next_write thread) as [call|] eqn:Ew; [|eapply alike_insert; [by apply lookup_live|by eapply progressed_none]].
    unfold served_call. rewrite (shaped_returned _ _ Hsh) by (try apply Hok; congruence).
    destruct Hsh as [_ Hsh]. destruct Hsh as (_ & [answer Elast] & _); [congruence|]. rewrite Elast. cbn [reply replies]. rewrite last_snoc.
    unfold progressed, acknowledged in Hpr. rewrite Ew, Elast in Hpr. cbn [succeeded].
    destruct answer as [[n|e|]|hits|b|cfg]; try (eapply alike_insert; [by apply lookup_live|exact Hpr]).
    destruct Hpr as [He [= ->]]. split; [econstructor; [by apply lookup_live|done]|].
    exists (inner (guarded shared')). cbn [fst]. by rewrite lookup_insert_eq.
  - right. split; [|eapply torn_interrupted; [done..|]; intros call' E; by rewrite Hp, E].
    exists (Wrote name call), (Answered (Number (Err e))). rewrite Hp, E1. split; [done|]. split; [by exists m|].
    rewrite (last_reply_insert _ _ _ client) by done. unfold served_call. rewrite (shaped_returned _ _ Hsh) by (try apply Hok; congruence).
    rewrite E2. cbn [reply replies]. by rewrite last_snoc.
Qed.
End Facts.
