(* ===== verification/RequestsRuns.v ===== *)
(** * RequestsRuns: every section of a request, and runs of them

    The remaining sections - flushes, copies of backups, new collections - keep
    the invariant of [RequestsFacts]; then runs of a database with many clients:
    what acknowledged requests did, one after the other, is what it holds. *)

From stdpp Require Import base gmap sets list strings sorting.
From Stdlib Require Import ZArith Lia.
From S2P Require Import Prelude Errors Floats Ranking Metric Filter MetadataIndex Collection CollectionFacts Codec Wire WireFacts Wal.
From S2P Require Import Disk DiskFacts Segment Manifest ManifestFacts Persistence Recovery Durability FlushFacts QueryFacts Environment Concurrent ConcurrentFacts.
From S2P Require Import Creation Tree TreeFacts Database DatabaseFacts Requests RequestsFacts.

Section Facts.
Context `{FloatEnv} (avx2 : bool) (workers : nat) (pid : Z).
Context (var_os : string -> option EnvValue) (try_lock : string -> LockOutcome) (timeouts : string -> list string).

Notation running := (RequestsFacts.running avx2).
Notation backups_hold := (RequestsFacts.backups_hold avx2).
Notation interrupted := (RequestsFacts.interrupted avx2).
Notation stepped_to := (RequestsFacts.stepped_to avx2).
Notation outcome := (RequestsFacts.outcome avx2).
Notation section_done := (RequestsFacts.section_done avx2).

(** ** Flushes, of backups and in the background *)

Lemma acknowledges_none service service' actor : pending service actor = None -> acknowledges service service' actor = None.
Proof. intros E. unfold acknowledges. by rewrite E. Qed.

Lemma flushing_outcome service t bs i client name backup nonce thread m d :
  running service t bs -> clients service !! i = Some client -> activity client = Flushing name backup nonce thread ->
  collections (database service) !! name = Some m -> t !! Live name = Some d -> acceptable (view service name m) thread d ->
  specifies (act avx2 workers pid var_os try_lock timeouts service (Of i)) t (outcome service (Of i) bs t) (interrupted service (Of i) bs).
Proof.
  intros Hr Ei Ea Em Ed Hacc. pose proof (flushing_on _ _ _ _ _ Ea) as Hon. pose proof (rn_clients _ _ _ _ Hr i client Ei) as Hok.
  rewrite Ea in Hok. destruct Hok as (Hname & Hb & Hf). pose proof (flushes_write _ Hf) as Ew.
  assert (pending service (Of i) = None) as Hp by (cbn; rewrite Ei, Ea; by destruct (requests client)).
  unfold act. rewrite Ei. unfold serve, advance_on. rewrite Ea, Em.
  eapply (spec_bind _ _ _ (fun r t' => exists thread' shared', r = (flushed_backup client name backup nonce thread', update (database service) name shared') /\
    section_done service t name m (S i) thread (thread', shared') t')).
  { eapply (spec_bind _ _ _ (fun r t' => exists thread' shared', r = (thread', update (database service) name shared') /\
      section_done service t name m (S i) thread (thread', shared') t')).
    - eapply spec_bind; [eapply spec_mono; [apply (thread_spec avx2 workers pid service t bs name m d (S i) thread); [done|done|done|by eapply view_client|done]|intros r t' Hd; exact Hd|]|].
      + intros t' (d' & -> & Hd). eapply torn_interrupted; [done|done|done|]. intros call E. congruence.
      + intros [thread' shared'] t' Hd. apply spec_ret. by exists thread', shared'.
    - intros r t' (thread' & shared' & -> & Hd). apply spec_ret. by exists thread', shared'. }
  intros r t' (thread' & shared' & -> & d' & -> & [[Hsound Hpr]|[(call & e & E1 & _) _]] & Hsh); apply spec_ret; cbn [fst snd] in *; [left|congruence].
  apply stepped_alike; [|by apply acknowledges_none|].
  - eapply (client_section avx2 service t bs i client _ name m thread (thread', shared') d'); [done|done|done|done|apply flushed_shows| |done].
    unfold flushed_backup. destruct (returned thread'); [by destruct (last (answers thread')) as [[[n|e|]| | |]|]|].
    split; [done|]. split; [done|]. by eapply shaped_flushes.
  - unfold holdings. cbn [database]. rewrite (live_update _ _ m) by done. eapply alike_insert; [by apply lookup_live|by eapply progressed_none].
Qed.

Lemma flusher_outcome service t bs name m d :
  running service t bs -> collections (database service) !! name = Some m -> t !! Live name = Some d ->
  acceptable (view service name m) (flusher m) d ->
  specifies (act avx2 workers pid var_os try_lock timeouts service (Flusher name)) t (outcome service (Flusher name) bs t) (interrupted service (Flusher name) bs).
Proof.
  intros Hr Em Ed Hacc. pose proof (rn_flushers _ _ _ _ Hr name m Em) as Hf. pose proof (flushes_write _ Hf) as Ew.
  unfold act, flush_in_background. rewrite Em.
  eapply (spec_bind _ _ _ (fun r t' => exists thread' shared',
    r = with_collections (database service) (<[name := MkManaged shared' thread']> (collections (database service))) /\
    section_done service t name m 0 (flusher m) (thread', shared') t')).
  { eapply spec_bind; [eapply spec_mono; [apply (thread_spec avx2 workers pid service t bs name m d 0 (flusher m)); done|intros r t' Hd; exact Hd|]|].
    - intros t' (d' & -> & Hd). eapply torn_interrupted; [done|done|done|]. intros call E. congruence.
    - intros [thread' shared'] t' Hd. apply spec_ret. by exists thread', shared'. }
  intros r t' (thread' & shared' & -> & d' & -> & [[Hsound Hpr]|[(call & e & E1 & _) _]] & Hsh); apply spec_ret; cbn [fst snd] in *; [left|congruence].
  apply stepped_alike; [|by apply acknowledges_none|].
  - eapply (running_next avx2 service t bs _ name m (MkManaged shared' thread') d'); [done|done|done| |by eapply shaped_flushes| |apply Hr].
    + eapply sound_stages; [exact Hsound|done|]. intros [|j] th'; [intros [= <-]; by exists thread'|]. intros Ej. exists th'. by split.
    + intros other _ j c Ej. by exists c.
  - unfold holdings. cbn [database]. rewrite live_insert. eapply alike_insert; [by apply lookup_live|by eapply progressed_none].
Qed.

(** ** The copy of a backup *)

Lemma free_stages service self i client client' :
  clients service !! i = Some client -> (forall name, stage (on_name name client) = Idle) -> (forall name, stage (on_name name client') = Idle) ->
  forall name, same_stages service (MkService self (<[i := client']> (clients service))) name.
Proof. intros Ei H1 H2 name. eapply same_stages_insert; [done|]. by rewrite H1, H2. Qed.

Lemma copied_running service t bs i client client' backup t' bs' nonce :
  running service t bs -> clients service !! i = Some client -> (forall name, stage (on_name name client) = Idle) ->
  activity client' = Free -> elsewhere [temporary_copy (Saved backup) nonce; Saved backup] t t' -> backups_hold t' bs' ->
  running (MkService (database service) (<[i := client']> (clients service))) t' bs'.
Proof.
  intros Hr Ei Hidle Ef He Hb. eapply running_clients; [exact Hr|done| |done| |].
  - intros name _. apply He. cbn. set_solver.
  - eapply free_stages; [done|done|]. intros name. unfold on_name. by rewrite Ef.
  - cbn [clients]. apply clients_ok_insert; [apply Hr|by rewrite Ef].
Qed.

Lemma temporary_other place nonce p : valid_name (file_name p) = true -> p <> temporary_copy place nonce.
Proof. intros Hv E. pose proof (temporary_invalid place nonce) as Hi. rewrite <- E in Hi. congruence. Qed.

Lemma elsewhere_backups t t' bs backup nonce :
  elsewhere [temporary_copy (Saved backup) nonce; Saved backup] t t' -> t !! Saved backup = None -> backups_hold t bs -> backups_hold t' bs.
Proof.
  intros He En Hb. eapply backups_hold_agree; [|exact Hb]. intros b Hv [c Ec]. apply He.
  destruct (Hb b c Ec) as (_ & copy & Es & _). intros [E|[E|[]%elem_of_nil]%elem_of_cons]%elem_of_cons; [|congruence].
  by apply (temporary_other (Saved backup) nonce (Saved b)) in E.
Qed.

(** The copy is there under its name, complete, or not at all. *)
Definition copy_done (t : Tree) (bs : gmap string Collection) (backup nonce : string) (c : Collection) (result : Result Z) (t' : Tree) : Prop :=
  elsewhere [temporary_copy (Saved backup) nonce; Saved backup] t t' /\ backups_hold t' bs /\
  forall n, result = Ok n -> n = sequence c /\ backups_hold t' (<[backup := c]> bs).

Lemma backups_hold_insert t bs backup c copy :
  valid_name backup = true -> t !! Saved backup = Some copy -> recoverable avx2 copy c -> backups_hold t bs -> backups_hold t (<[backup := c]> bs).
Proof.
  intros Hv Ec Hr Hb b c' Ec'. destruct (decide (b = backup)) as [->|Hne].
  - rewrite lookup_insert_eq in Ec'. injection Ec' as <-. split; [done|]. by exists copy.
  - rewrite lookup_insert_ne in Ec' by done. by apply Hb.
Qed.

Lemma copy_section service t bs name backup nonce m :
  running service t bs -> collections (database service) !! name = Some m -> valid_name backup = true ->
  specifies (copy_backup (database service) name backup nonce) t
    (copy_done t bs backup nonce (inner (opened_collection m)))
    (fun t' => backups_hold t' bs /\ found avx2 t' (live (database service))).
Proof.
  intros Hr Em Hb. pose proof (rn_serves _ _ _ _ Hr) as Hs. pose proof (sv_entries _ _ _ _ Hs name m Em) as (_ & Hp & d & Ed & Hst).
  set (c := inner (opened_collection m)). assert (recoverable avx2 d c) as Hrec by (by apply store_ok_recoverable).
  pose proof (serves_valid _ _ _ _ _ _ Hs Em) as Hv.
  unfold copy_backup. rewrite Em. cbn [ok_or rbind]. unfold Concurrent.latest_sequence, read. rewrite Hp.
  destruct (t !! Saved backup) as [copy|] eqn:Eb.
  - unfold copy_collection_directory. eapply (spec_bind _ _ _ (fun r t' => is_ok r = false /\ t' = t)).
    { eapply (spec_bind _ _ _ (fun b t' => b = true /\ t' = t)); [intros s; cbn; by rewrite Eb|]. intros b t' [-> ->]. by apply spec_ret. }
    intros r t' [E ->]. apply spec_ret. split; [done|]. split; [apply Hr|]. by destruct r.
  - assert (forall t', elsewhere [temporary_copy (Saved backup) nonce; Saved backup] t t' -> backups_hold t' bs) as Hbs.
    { intros t' He. eapply elsewhere_backups; [exact He|exact Eb|apply Hr]. }
    eapply spec_bind; [eapply spec_mono; [apply (spec_copy_directory (Live name) (Saved backup) (root (database service)) nonce t d)|intros r t' Hd; exact Hd|]|].
    + by apply temporary_other.
    + by apply temporary_other.
    + done.
    + done.
    + done.
    + intros t' [He _]. split; [by apply Hbs|]. eapply found_agree; [|apply Hs]. intros n _. apply He. cbn. set_solver.
    + intros r t' ([He _] & Hok & _). apply spec_ret. split; [done|]. split; [by apply Hbs|]. intros n.
      destruct r as [x|e|]; cbn [rmap]; [|done..]. intros [= <-]. split; [done|].
      destruct (Hok x eq_refl) as (copy & Ecopy & Hcopy). eapply backups_hold_insert; [done|done|by eapply copy_recoverable|by apply Hbs].
Qed.

Lemma copying_outcome service t bs i client name backup nonce :
  running service t bs -> clients service !! i = Some client -> activity client = Copying name backup nonce ->
  specifies (act avx2 workers pid var_os try_lock timeouts service (Of i)) t (outcome service (Of i) bs t) (interrupted service (Of i) bs).
Proof.
  intros Hr Ei Ea. pose proof (rn_clients _ _ _ _ Hr i client Ei) as Hok. rewrite Ea in Hok. destruct Hok as [[m Em] Hb].
  assert (forall n, stage (on_name n client) = Idle) as Hidle by (intros n; unfold on_name; by rewrite Ea).
  assert (pending service (Of i) = Some (Kept name backup)) as Hpend by (cbn; rewrite Ei, Ea; by destruct (requests client)).
  unfold act. rewrite Ei. unfold serve. rewrite Ea.
  eapply (spec_bind _ _ _ (fun r t' => exists result, r = (reply client (BackedUp result), database service) /\
    copy_done t bs backup nonce (inner (opened_collection m)) result t')).
  - eapply spec_bind; [eapply spec_mono; [by apply copy_section|intros r t' Hd; exact Hd|]|].
    + intros t' [Hbs Hf]. split; [done|by left].
    + intros result t' Hd. apply spec_ret. by exists result.
  - intros r t' (result & -> & He & Hb' & Hres). apply spec_ret. left.
    assert (forall bs', backups_hold t' bs' ->
      running (MkService (database service) (<[i := reply client (BackedUp result)]> (clients service))) t' bs') as Hrun by (intros bs' Hbs; by eapply copied_running).
    unfold stepped_to, acknowledges. rewrite Hpend, (last_reply_insert _ _ _ client) by done. cbn [reply replies]. rewrite last_snoc. cbn [succeeded].
    destruct result as [n|e|]; [|exists bs; split; [by apply Hrun|apply alike_refl]..].
    destruct (Hres n eq_refl) as [-> Hbs]. exists (<[backup := inner (opened_collection m)]> bs). split; [by apply Hrun|].
    unfold holdings. cbn [database]. split; [econstructor; by apply lookup_live|].
    exists (inner (opened_collection m)). cbn [snd]. by rewrite lookup_insert_eq.
Qed.

(** ** New collections *)

Lemma opened_flusher self name config t :
  specifies (open_managed avx2 var_os try_lock timeouts self name config) t
    (fun r _ => forall m, r = Ok m -> stage (flusher m) = Idle /\ Forall flushes (calls (flusher m))) (fun _ => True).
Proof.
  unfold open_managed. eapply (spec_try _ _ _ (fun _ _ => True)); [eapply spec_mono; [apply spec_any| |done]; by intros [s|e|]|].
  intros s t' _. unfold start_background_flush. destruct (Z.eqb _ _); [by apply spec_ret|]. destruct (Z.eqb _ _); [by apply spec_ret|].
  rewrite iotry_ok. apply spec_ret. intros m [= <-]. split; [done|]. cbn [flusher calls].
  apply Forall_forall. by intros call (name' & -> & _)%list_elem_of_fmap.
Qed.

(** A collection that was added: its flusher is fresh, the catalogue has it. *)
Definition inserted (self : Database) (name : string) (r : Result SharedCollection * Database) : Prop :=
  forall shared, r.1 = Ok shared -> exists m, managed m = shared /\ stage (flusher m) = Idle /\ Forall flushes (calls (flusher m)) /\
    r.2 = with_collections self (<[name := m]> (collections self)).

Lemma create_inserted self name config t :
  specifies (create_collection avx2 var_os try_lock timeouts self name config) t (fun r _ => inserted self name r) (fun _ => True).
Proof.
  unfold create_collection, write_collections. destruct (let? _ := validate_collection_name name in _) as [catalogue|e|] eqn:E; [|by apply spec_ret..].
  assert (catalogue = collections self) as ->.
  { destruct (validate_collection_name name); [|done..]. cbn [rbind] in E. destruct (catalog_poisoned self); [done|]. by injection E. }
  destruct (collections self !! name); [by apply spec_ret|].
  eapply spec_bind; [apply opened_flusher|]. intros [m|e|] t' Hm; apply spec_ret; [|done..]. intros shared [= <-]. exists m.
  destruct (Hm m eq_refl). done.
Qed.

Lemma restore_inserted self backup name nonce t :
  specifies (restore_collection avx2 var_os try_lock timeouts self backup name nonce) t (fun r _ => inserted self name r) (fun _ => True).
Proof.
  unfold restore_collection, write_collections.
  destruct (let? _ := validate_collection_name backup in _) as [catalogue|e|] eqn:E; [|by apply spec_ret..].
  assert (catalogue = collections self) as ->.
  { destruct (validate_collection_name backup); [|done..]. cbn [rbind] in E. destruct (validate_collection_name name); [|done..]. cbn [rbind] in E.
    destruct (catalog_poisoned self); [done|]. by injection E. }
  destruct (collections self !! name); [by apply spec_ret|].
  eapply spec_bind; [apply spec_any|]. intros present t1 _. destruct (negb present); [by apply spec_ret|].
  eapply spec_bind; [apply spec_any|]. intros [config|e|] t2 _; [|by apply spec_ret..].
  eapply spec_bind; [apply opened_flusher|]. intros [m|e|] t' Hm; [|eapply spec_bind; [apply spec_any|]; intros; by apply spec_ret|by apply spec_ret].
  apply spec_ret. intros shared [= <-]. exists m. destruct (Hm m eq_refl). done.
Qed.

(** A reply that changes nothing. *)
Lemma free_idle client : activity client = Free -> forall name, stage (on_name name client) = Idle.
Proof. intros E name. unfold on_name. by rewrite E. Qed.

Lemma unchanged_running service t bs i client client' :
  running service t bs -> clients service !! i = Some client -> activity client = Free ->
  activity_ok (database service) (activity client') -> (forall name, stage (on_name name client') = Idle) ->
  running (MkService (database service) (<[i := client']> (clients service))) t bs.
Proof.
  intros Hr Ei Ef Hok Hidle. eapply running_clients; [exact Hr|done|done|apply Hr| |].
  - eapply free_stages; [done|by apply free_idle|done].
  - cbn [clients]. apply clients_ok_insert; [apply Hr|done].
Qed.

Lemma refused_outcome service t bs i client rep :
  running service t bs -> clients service !! i = Some client -> activity client = Free -> succeeded rep = false ->
  outcome service (Of i) bs t (MkService (database service) (<[i := reply client rep]> (clients service))) t.
Proof.
  intros Hr Ei Ef Hrep. left. apply stepped_alike; [by eapply unchanged_running| |apply alike_refl].
  unfold acknowledges. rewrite (last_reply_insert _ _ _ client) by done. cbn [reply replies]. rewrite last_snoc, Hrep. by destruct (pending _ _).
Qed.

Lemma begun_outcome service t bs i client activity :
  running service t bs -> clients service !! i = Some client -> Requests.activity client = Free -> pending service (Of i) = None ->
  activity_ok (database service) activity -> (forall name, stage (on_name name (busy client activity)) = Idle) ->
  outcome service (Of i) bs t (MkService (database service) (<[i := busy client activity]> (clients service))) t.
Proof.
  intros Hr Ei Ef Hp Hok Hidle. left. apply stepped_alike; [by eapply unchanged_running|by apply acknowledges_none|apply alike_refl].
Qed.

Lemma added_outcome service t t' bs i client name m rep event self :
  running service t bs -> clients service !! i = Some client -> activity client = Free -> collections (database service) !! name = None ->
  self = with_collections (database service) (<[name := m]> (collections (database service))) ->
  stage (flusher m) = Idle -> Forall flushes (calls (flusher m)) ->
  serves avx2 self t' (<[name := inner (opened_collection m)]> (live (database service))) ->
  (forall other, valid_name other = true -> other <> name -> t' !! Live other = t !! Live other) -> backups_hold t' bs ->
  pending service (Of i) = Some event -> succeeded rep = true ->
  does (holdings service bs) event (<[name := inner (opened_collection m)]> (live (database service)), bs) ->
  confirms event (<[name := inner (opened_collection m)]> (live (database service)), bs) rep ->
  outcome service (Of i) bs t (MkService self (<[i := reply client rep]> (clients service))) t'.
Proof.
  intros Hr Ei Ef En -> Hstage Hcalls Hs Ht Hb Hp Hrep Hdoes Hconf. left. exists bs. split.
  - eapply (running_added avx2 service t t' bs _ name m); try done; cbn [database clients].
    + by rewrite live_insert.
    + eapply free_stages; [done|by apply free_idle|done].
    + apply clients_ok_insert; [apply Hr|done].
  - unfold acknowledges. rewrite Hp, (last_reply_insert _ _ _ client) by done. cbn [reply replies]. rewrite last_snoc, Hrep.
    unfold holdings at 2 3. cbn [database]. by rewrite live_insert.
Qed.

Lemma validate_unavailable self name : catalog_poisoned self = false -> unavailable self name ->
  match (let? _ := validate_collection_name name in write_collections self) with
  | Ok catalogue => catalogue = collections self /\ is_Some (collections self !! name) | Err _ => True | Panic => False end.
Proof.
  intros Hp Hu. unfold write_collections. rewrite Hp. destruct Hu as [Hv|Hs].
  - unfold valid_name in Hv. unfold validate_collection_name in *. by destruct (_ || _).
  - unfold validate_collection_name. by destruct (_ || _).
Qed.

Lemma create_refused self name config :
  catalog_poisoned self = false -> unavailable self name ->
  exists e, create_collection avx2 var_os try_lock timeouts self name config = ioret (Err e, self).
Proof.
  intros Hp Hu. unfold create_collection. pose proof (validate_unavailable self name Hp Hu) as Hv.
  destruct (rbind _ _) as [catalogue|e|]; [|by exists e|done]. destruct Hv as [-> [m ->]]. by eexists.
Qed.

Lemma create_outcome service t bs i client name config rest :
  running service t bs -> clients service !! i = Some client -> activity client = Free ->
  requests client = CreateCollection name config :: rest ->
  unavailable (database service) name \/ creatable (database service) t name config ->
  specifies (act avx2 workers pid var_os try_lock timeouts service (Of i)) t (outcome service (Of i) bs t) (interrupted service (Of i) bs).
Proof.
  intros Hr Ei Ef Er Hacc. pose proof (rn_serves _ _ _ _ Hr) as Hs.
  assert (pending service (Of i) = Some (Made name config)) as Hp by (cbn; by rewrite Ei, Ef, Er).
  unfold act. rewrite Ei. unfold serve. rewrite Ef, Er. cbn [begin_request].
  destruct Hacc as [Hu|Hc].
  { destruct (create_refused (database service) name config (sv_lock _ _ _ _ Hs) Hu) as (e & ->). apply (spec_ret (MkService _ _)). by apply refused_outcome. }
  pose proof Hc as (Hv & En & Hcfg & Hun). set (live0 := live (database service)).
  assert (live0 !! name = None) as Elive by (unfold live0, live; by rewrite lookup_fmap, En).
  assert (forall t', elsewhere [Live name] t t' -> backups_hold t' bs) as Hbs.
  { intros t' He. eapply backups_hold_agree; [|apply Hr]. intros b _ _. apply He. set_solver. }
  assert (does (holdings service bs) (Made name config) (<[name := blank config]> live0, bs)) as Hblank.
  { econstructor; [done|]. apply restores_refl. by apply blank_ok. }
  assert (forall t', elsewhere [Live name] t t' -> found avx2 t' live0 \/ found avx2 t' (<[name := blank config]> live0) ->
    interrupted service (Of i) bs t') as Hint.
  { intros t' He Hf. split; [by apply Hbs|]. destruct Hf as [Hf|Hf]; [by left|right; left].
    exists (Made name config). eexists. split; [done|]. split; [exact Hblank|done]. }
  eapply (spec_bind _ _ _ (fun r t' => exists res self, r = (reply client (Created res), self) /\ inserted (database service) name (res, self) /\
    elsewhere [Live name] t t' /\ adding avx2 (database service) live0 name (blank config) (res, self) t')).
  - eapply (spec_bind _ _ _ (fun r t' => (elsewhere [Live name] t t' /\ adding avx2 (database service) live0 name (blank config) r t') /\ inserted (database service) name r)).
    + eapply spec_mono; [apply spec_and; [by apply create_spec|apply create_inserted]|by intros r t' Hd|].
      intros t' [[He Hf] _]. by apply Hint.
    + intros [res self] t' [[He Ha] Hi]. apply spec_ret. by exists res, self.
  - intros r t' (res & self & -> & Hi & He & Ha). apply spec_ret. unfold adding in Ha. cbn [fst snd] in Ha. destruct res as [shared|e|]; [| |done].
    + destruct (Hi shared eq_refl) as (m & <- & Hstage & Hcalls & E). cbn [snd] in E. destruct Ha as (c' & Hres & Hserve & Einner & _). subst c'.
      eapply (added_outcome service t t' bs i client name m); try done.
      * intros other _ Hne. apply He. set_solver.
      * by apply Hbs.
      * econstructor; done.
      * cbn. by rewrite lookup_insert_eq.
    + destruct Ha as [-> Hf]. right. split; [|apply Hint; [done|destruct Hf as [Hf|Hf]; [left|right]; apply Hf]].
      exists (Made name config), (Created (Err e)). split; [done|]. split; [done|]. rewrite (last_reply_insert _ _ _ client) by done.
      cbn [reply replies]. by rewrite last_snoc.
Qed.

Lemma restore_refused self t backup name nonce :
  catalog_poisoned self = false ->
  valid_name backup = false \/ unavailable self name \/ t !! Saved backup ≫= (.!! META) = None ->
  specifies (restore_collection avx2 var_os try_lock timeouts self backup name nonce) t
    (fun r t' => (exists e, r = (Err e, self)) /\ t' = t) (fun t' => t' = t).
Proof.
  intros Hp Hu. unfold restore_collection.
  destruct (validate_collection_name backup) as [[]|e|] eqn:Eb; cbn [rbind].
  2: { apply spec_ret. split; [by exists e|done]. }
  2: { unfold validate_collection_name in Eb. by destruct (_ || _). }
  destruct Hu as [Hv|[Hu|Hm]]; [unfold valid_name in Hv; by rewrite Eb in Hv| |].
  - pose proof (validate_unavailable self name Hp Hu) as Hv. destruct (rbind _ _) as [catalogue|e|]; [|apply spec_ret; split; [by exists e|done]|done].
    destruct Hv as [-> [m ->]]. apply spec_ret. split; [by eexists|done].
  - destruct (let? _ := validate_collection_name name in _) as [catalogue|e|] eqn:E; [|apply spec_ret; split; [by exists e|done]|].
    2: { unfold validate_collection_name, write_collections in E. rewrite Hp in E. by destruct (_ || _). }
    destruct (catalogue !! name); [apply spec_ret; split; [by eexists|done]|].
    eapply (spec_bind _ _ _ (fun b t' => b = false /\ t' = t)); [intros s; cbn; by rewrite Hm|]. intros b t' [-> ->].
    apply spec_ret. split; [by eexists|done].
Qed.

(** What an interrupted restore leaves. *)
Lemma leftover_interrupted service t bs i backup name nonce c t' :
  running service t bs -> bs !! backup = Some c -> live (database service) !! name = None -> coll_ok c ->
  pending service (Of i) = Some (Recovered backup name) ->
  leftover avx2 (database service) t (live (database service)) name nonce c t' -> interrupted service (Of i) bs t'.
Proof.
  intros Hr Eb En Hc Hp [He Hl]. split.
  - eapply backups_hold_agree; [|apply Hr]. intros b _ _. apply He. cbn. set_solver.
  - destruct Hl as [Hl|[Hl|(whole & part & _ & _ & Epart & Hl)]]; [by left; apply Hl|right; left|right; right].
    + exists (Recovered backup name), (<[name := c]> (live (database service)), bs). split; [done|]. split; [|apply Hl].
      econstructor; [done|done|by apply restores_refl].
    + exists backup, name, part. split; [done|]. split; [done|apply Hl].
Qed.

Lemma restore_outcome service t bs i client backup name nonce rest :
  running service t bs -> clients service !! i = Some client -> activity client = Free ->
  requests client = RestoreCollection backup name nonce :: rest ->
  valid_name backup = false \/ unavailable (database service) name \/ t !! Saved backup ≫= (.!! META) = None \/
    restorable (database service) t (dom bs) backup name ->
  specifies (act avx2 workers pid var_os try_lock timeouts service (Of i)) t (outcome service (Of i) bs t) (interrupted service (Of i) bs).
Proof.
  intros Hr Ei Ef Er Hacc. pose proof (rn_serves _ _ _ _ Hr) as Hs.
  assert (pending service (Of i) = Some (Recovered backup name)) as Hp by (cbn; by rewrite Ei, Ef, Er).
  unfold act. rewrite Ei. unfold serve. rewrite Ef, Er. cbn [begin_request].
  eapply (spec_bind _ _ _ (fun r t' => exists res self, r = (reply client (Restored res), self) /\ outcome service (Of i) bs t
    (MkService self (<[i := reply client (Restored res)]> (clients service))) t')).
  2: { intros r t' (res & self & -> & Ho). by apply spec_ret. }
  assert (forall m Q C, specifies m t Q C -> (forall t', C t' -> interrupted service (Of i) bs t') ->
    (forall res self t', Q (res, self) t' -> outcome service (Of i) bs t (MkService self (<[i := reply client (Restored res)]> (clients service))) t') ->
    specifies (iobind m (fun p => let (result, self) := p in ioret (reply client (Restored result), self))) t
      (fun r t' => exists res self, r = (reply client (Restored res), self) /\ outcome service (Of i) bs t
        (MkService self (<[i := reply client (Restored res)]> (clients service))) t') (interrupted service (Of i) bs)) as Hwrap.
  { intros m Q C Hm HC HQ. eapply spec_bind; [eapply spec_mono; [exact Hm|intros r t' Hd; exact Hd|exact HC]|].
    intros [res self] t' Hd. apply spec_ret. exists res, self. split; [done|]. by apply HQ. }
  assert (valid_name backup = false \/ unavailable (database service) name \/ t !! Saved backup ≫= (.!! META) = None \/
    restorable (database service) t (dom bs) backup name ->
    (valid_name backup = false \/ unavailable (database service) name \/ t !! Saved backup ≫= (.!! META) = None) \/
    restorable (database service) t (dom bs) backup name) as Hcases by tauto.
  destruct (Hcases Hacc) as [Hu|Hc].
  { eapply Hwrap; [by apply restore_refused; [apply Hs|exact Hu]| |].
    - intros t' ->. split; [apply Hr|]. left. apply Hs.
    - intros res self t' [(e & [= -> ->]) ->]. by apply refused_outcome. }
  pose proof Hc as (Hvb & Hv & En & [c Eb]%elem_of_dom & Edir).
  destruct (rn_backups _ _ _ _ Hr backup c Eb) as (_ & copy & Ecopy & Hrec). assert (coll_ok c) as Hcok by apply Hrec.
  assert (live (database service) !! name = None) as Elive by (unfold live; by rewrite lookup_fmap, En).
  eapply Hwrap; [apply spec_and; [by eapply (restore_spec avx2 var_os try_lock timeouts (database service) t (live (database service)) backup name nonce copy c)|apply restore_inserted]| |].
  - intros t' [Hl _]. by eapply leftover_interrupted.
  - intros res self t' [Ha Hi]. cbn [fst snd] in Ha. destruct res as [shared|e|]; [| |done].
    + destruct (Hi shared eq_refl) as (m & <- & Hstage & Hcalls & E). cbn [snd] in E.
      destruct Ha as [(c' & Hres & Hserve & Einner & _) He]. cbn [fst snd] in *. subst c'.
      eapply (added_outcome service t t' bs i client name m); try done.
      * intros other Ho Hne. apply He. intros [E'|[E'|[]%elem_of_nil]%elem_of_cons]%elem_of_cons; [|congruence].
        by apply (temporary_other (Live name) nonce (Live other)) in E'.
      * eapply backups_hold_agree; [|apply Hr]. intros b _ _. apply He. cbn. set_solver.
      * econstructor; done.
      * cbn. by rewrite lookup_insert_eq.
    + destruct Ha as [-> Hl]. right. split; [|by eapply leftover_interrupted].
      exists (Recovered backup name), (Restored (Err e)). split; [done|]. split; [done|]. rewrite (last_reply_insert _ _ _ client) by done.
      cbn [reply replies]. by rewrite last_snoc.
Qed.

(** ** Every section *)

Lemma collection_lookup self name :
  catalog_poisoned self = false ->
  match collection self name with
  | Ok shared => exists m, collections self !! name = Some m /\ managed m = shared
  | Err _ => True | Panic => False end.
Proof.
  intros Hp. unfold collection, read_collections, validate_collection_name. rewrite Hp. destruct (_ || _); [done|]. cbn [rbind].
  destruct (collections self !! name) as [m|]; [|done]. by exists m.
Qed.

Lemma begin_outcome service t bs i client request rest :
  running service t bs -> clients service !! i = Some client -> activity client = Free -> requests client = request :: rest ->
  match request with On _ _ | BackupCollection _ _ _ _ => True | _ => False end ->
  specifies (act avx2 workers pid var_os try_lock timeouts service (Of i)) t (outcome service (Of i) bs t) (interrupted service (Of i) bs).
Proof.
  intros Hr Ei Ef Er Hkind. pose proof (sv_lock _ _ _ _ (rn_serves _ _ _ _ Hr)) as Hlock.
  unfold act. rewrite Ei. unfold serve. rewrite Ef, Er.
  destruct request as [name call|name config|name backup temporary nonce|backup name nonce]; try done; cbn [begin_request].
  - pose proof (collection_lookup (database service) name Hlock) as Hl. destruct (collection (database service) name) as [shared|e|]; [| |done].
    + destruct Hl as (m & Em & _). apply (spec_ret (MkService _ _)). apply begun_outcome; [done..| | |].
      * cbn. by rewrite Ei, Ef, Er.
      * split; [by exists m|cbn; lia].
      * intros n. unfold on_name. cbn. by case_decide.
    + apply (spec_ret (MkService _ _)). by apply refused_outcome.
  - destruct (validate_collection_name backup) as [[]|e|] eqn:Eb; cbn [rbind].
    + pose proof (collection_lookup (database service) name Hlock) as Hl. destruct (collection (database service) name) as [shared|e|]; [| |done].
      * destruct Hl as (m & Em & _). apply (spec_ret (MkService _ _)). apply begun_outcome; [done..| | |].
        { cbn. by rewrite Ei, Ef, Er. }
        { split; [by exists m|]. split; [unfold valid_name; by rewrite Eb|]. by constructor. }
        { intros n. unfold on_name. cbn. by case_decide. }
      * apply (spec_ret (MkService _ _)). by apply refused_outcome.
    + apply (spec_ret (MkService _ _)). by apply refused_outcome.
    + unfold validate_collection_name in Eb. by destruct (_ || _).
Qed.

Lemma act_outcome service t bs actor :
  running service t bs -> acceptable_act service t (dom bs) actor ->
  specifies (act avx2 workers pid var_os try_lock timeouts service actor) t (outcome service actor bs t) (interrupted service actor bs).
Proof.
  intros Hr Hacc. pose proof (rn_serves _ _ _ _ Hr) as Hs.
  assert (forall name m, collections (database service) !! name = Some m -> exists d, t !! Live name = Some d) as Hdir.
  { intros name m Em. destruct (sv_entries _ _ _ _ Hs name m Em) as (_ & _ & d & Ed & _). by exists d. }
  assert (forall service', service' = service -> acknowledges service service' actor = None -> outcome service actor bs t service' t) as Hidle.
  { intros service' -> Ea. left. by apply stepped_alike; [|exact Ea|apply alike_refl]. }
  destruct actor as [i|name].
  - destruct (clients service !! i) as [client|] eqn:Ei.
    2: { unfold act. rewrite Ei. apply spec_ret, Hidle; [done|]. unfold acknowledges. cbn. by rewrite Ei. }
    specialize (Hacc client Ei). pose proof (rn_clients _ _ _ _ Hr i client Ei) as Hok.
    destruct (activity client) as [|name thread|name backup nonce thread|name backup nonce] eqn:Ea.
    + destruct (requests client) as [|request rest] eqn:Er.
      { unfold act, serve. rewrite Ei, Ea, Er. apply (spec_ret (MkService _ _)), Hidle.
        - rewrite list_insert_id by done. by destruct service.
        - unfold acknowledges. cbn. by rewrite Ei, Ea, Er. }
      destruct request; [by eapply begin_outcome|by eapply create_outcome|by eapply begin_outcome|by eapply restore_outcome].
    + destruct Hok as [[m Em] _]. destruct (Hdir _ _ Em) as [d Ed]. eapply serving_outcome; [done..|]. by apply Hacc.
    + destruct Hok as [[m Em] _]. destruct (Hdir _ _ Em) as [d Ed]. eapply flushing_outcome; [done..|]. by apply Hacc.
    + by eapply copying_outcome.
  - destruct (collections (database service) !! name) as [m|] eqn:Em.
    + destruct (Hdir _ _ Em) as [d Ed]. eapply flusher_outcome; [done..|]. by apply Hacc.
    + unfold act, flush_in_background. rewrite Em. apply (spec_ret (MkService _ _)), Hidle; [by destruct service|done].
Qed.

(** ** Runs *)

Definition known (known0 : gset string) (log : list Event) : gset string :=
  known0 ∪ list_to_set (omap (fun event => match event with Kept _ backup => Some backup | _ => None end) log).

Lemma history_known h log h' : history h log h' -> dom h'.2 = known (dom h.2) log.
Proof.
  induction 1 as [h' [E _]|log h1 event h' _ IH Hd|log h1 h' _ IH [E _]].
  - unfold known. rewrite E. set_solver.
  - unfold known in *. rewrite omap_app, list_to_set_app_L.
    inversion Hd; subst; cbn [snd omap list_omap list_to_set] in *; rewrite <- ?(assoc_L (∪)), ?dom_insert_L, ?IH; set_solver.
  - by rewrite E.
Qed.

(** The sections taken so far, each acceptable, and the events that were
    acknowledged, in the order of their sections.  A run ends with the first
    valid request that fails. *)
Inductive served_run (service0 : Service) (w0 : WorldOf Tree) (known0 : gset string) : list Event -> Service -> WorldOf Tree -> Prop :=
| run_start : served_run service0 w0 known0 [] service0 w0
| run_section log service w actor service' w' :
    served_run service0 w0 known0 log service w -> acceptable_act service (disk w) (known known0 log) actor ->
    act avx2 workers pid var_os try_lock timeouts service actor w = Returned service' w' ->
    ~ disrupts service service' actor (disk w) (known known0 log) ->
    served_run service0 w0 known0 (log ++ match acknowledges service service' actor with Some (event, _) => [event] | None => [] end) service' w'.

Lemma run_running service0 w0 bs0 log service w :
  running service0 (disk w0) bs0 -> served_run service0 w0 (dom bs0) log service w ->
  exists bs, history (holdings service0 bs0) log (holdings service bs) /\ running service (disk w) bs.
Proof.
  intros H0. induction 1 as [|log service w actor service' w' _ (bs & Hh & Hr) Hacc Eact Hok].
  { exists bs0. split; [constructor; apply alike_refl|done]. }
  pose proof (history_known _ _ _ Hh) as Hk. cbn [holdings snd] in Hk. rewrite <- Hk in *.
  pose proof (act_outcome service (disk w) bs actor Hr Hacc (script w)) as Ho. destruct w as [t s]. cbn [disk script] in *. rewrite Eact in Ho.
  destruct Ho as [(bs' & Hr' & Ha)|[Hd _]]; [|done]. exists bs'. split; [|done].
  destruct (acknowledges service service' actor) as [[event rep]|]; [|rewrite app_nil_r; by eapply history_alike].
  eapply history_event; [exact Hh|apply Ha].
Qed.

(** A service that starts: nobody is on a collection yet. *)
Lemma running_start service t bs :
  serves avx2 (database service) t (live (database service)) ->
  map_Forall (fun _ m => stage (flusher m) = Idle /\ Forall flushes (calls (flusher m))) (collections (database service)) ->
  Forall (fun client => activity client = Free) (clients service) -> backups_hold t bs -> running service t bs.
Proof.
  intros Hs Hf Hc Hb. constructor; [done| | | |done].
  - intros name m d Em Ed. destruct (sv_entries _ _ _ _ Hs name m Em) as (_ & Hp & d' & Ed' & Hst). rewrite Ed in Ed'. injection Ed' as <-.
    apply sound_idle; [done|done|]. intros [|j] th; [intros [= <-]; by apply (Hf name m)|].
    change ((on_name name <$> clients service) !! j = Some th -> stage th = Idle). rewrite list_lookup_fmap.
    destruct (clients service !! j) as [client|] eqn:Ej; [|done]. intros [= <-]. eapply Forall_lookup in Hc; [|exact Ej]. by apply free_idle.
  - intros name m Em. by apply (Hf name m).
  - intros i client Ei. eapply Forall_lookup in Hc; [|exact Ei]. by rewrite Hc.
Qed.

End Facts.

(** One client backs the two-point collection up while another deletes a point
    between the flush and its publication: the backup holds the deletion. *)
Definition demo_clients : list Client :=
  [MkClient [BackupCollection "docs" "tuesday" demo_temporary "1"] Free []; MkClient [On "docs" (Delete ["a"])] Free []].
Definition demo_act (state : Service * WorldOf Tree) (actor : Actor) : Service * WorldOf Tree :=
  match @act x86_64_env true 2 7 demo_env demo_locks demo_timeouts state.1 actor state.2 with
  | Returned service w => (service, w)
  | Crashed _ => state
  end.
Definition demo_service : Service * WorldOf Tree := (MkService demo_database demo_clients, MkWorld demo_tree []).
Definition demo_looked : Service * WorldOf Tree := demo_act demo_service (Of 0).
Definition demo_snapshotted : Service * WorldOf Tree := demo_act demo_looked (Of 0).
Definition demo_built : Service * WorldOf Tree := demo_act demo_snapshotted (Of 0).
Definition demo_reached : Service * WorldOf Tree := demo_act demo_built (Of 1).
Definition demo_deleted : Service * WorldOf Tree := demo_act demo_reached (Of 1).
Definition demo_published : Service * WorldOf Tree := demo_act demo_deleted (Of 0).

Definition demo_runs (log : list Event) (state : Service * WorldOf Tree) : Prop :=
  @served_run x86_64_env true 2 7 demo_env demo_locks demo_timeouts demo_service.1 demo_service.2 ∅ log state.1 state.2.

Lemma demo_section log log' state actor state' :
  demo_runs log state -> state' = demo_act state actor ->
  @acceptable_act x86_64_env state.1 (disk state.2) (known ∅ log) actor ->
  match @act x86_64_env true 2 7 demo_env demo_locks demo_timeouts state.1 actor state.2 with Returned _ _ => true | _ => false end = true ->
  match last_reply state'.1 actor with Some rep => succeeded rep | None => true end = true ->
  match acknowledges state.1 state'.1 actor with Some (event, _) => [event] | None => [] end = log' ->
  demo_runs (log ++ log') state'.
Proof.
  intros Hr -> Hacc Hret Hrep <-. eapply run_section; [exact Hr|exact Hacc| |].
  - unfold demo_act. by destruct (act _ _ _ _ _ _ _ _ _).
  - intros (event & rep & _ & _ & E & Ef). rewrite E in Hrep. congruence.
Qed.

(** The section of the first client, of the second. *)
Ltac demo_section_tac prev :=
  eapply demo_section; [exact prev|reflexivity| |vm_compute; reflexivity|vm_compute; reflexivity|vm_compute; reflexivity];
  intros client E; vm_compute in E; injection E as <-.

Lemma demo_looked_runs : demo_runs ([] ++ []) demo_looked.
Proof. assert (demo_runs [] demo_service) as H0 by constructor. demo_section_tac H0. exact I. Qed.

(** The first section found the collection as it was. *)
Lemma demo_looked_docs : collections (database demo_looked.1) !! "docs" = Some demo_managed /\ disk demo_looked.2 !! Live "docs" = Some demo_dir1.
Proof. split; vm_compute; reflexivity. Qed.

Lemma demo_looked_stages j other : threads (view demo_looked.1 "docs" demo_managed) !! j = Some other -> stage other = Idle.
Proof.
  assert (map stage (threads (view demo_looked.1 "docs" demo_managed)) = [Idle; Idle; Idle]) as E by (vm_compute; reflexivity).
  intros Ej. assert (map stage (threads (view demo_looked.1 "docs" demo_managed)) !! j = Some (stage other)) as Es.
  { change (map stage) with (fmap (M := list) stage). by rewrite list_lookup_fmap, Ej. }
  rewrite E in Es. destruct j as [|[|[|j]]]; simpl in Es; try discriminate Es; injection Es as Es; exact (eq_sym Es).
Qed.

Lemma demo_snapshotted_runs : demo_runs (([] ++ []) ++ []) demo_snapshotted.
Proof.
  demo_section_tac demo_looked_runs. intros m d Em Ed. destruct demo_looked_docs as [E1 E2].
  assert (m = demo_managed) as -> by congruence. assert (d = demo_dir1) as -> by congruence.
  split; [exact demo_looked_stages|exact demo_flushable].
Qed.

Lemma demo_built_runs : demo_runs ((([] ++ []) ++ []) ++ []) demo_built.
Proof. demo_section_tac demo_snapshotted_runs. intros m d Em Ed. exact I. Qed.

Lemma demo_reached_runs : demo_runs (((([] ++ []) ++ []) ++ []) ++ []) demo_reached.
Proof. demo_section_tac demo_built_runs. exact I. Qed.

Lemma demo_deleted_runs : demo_runs ((((([] ++ []) ++ []) ++ []) ++ []) ++ [Wrote "docs" (Delete ["a"])]) demo_deleted.
Proof.
  demo_section_tac demo_reached_runs. intros m d Em Ed. assert (m = demo_managed) as ->.
  { assert (collections (database demo_reached.1) !! "docs" = Some demo_managed) as E by (vm_compute; reflexivity). congruence. }
  split; [vm_compute; reflexivity|left; exact demo_deletable].
Qed.

Lemma demo_published_runs : demo_runs (((((([] ++ []) ++ []) ++ []) ++ []) ++ [Wrote "docs" (Delete ["a"])]) ++ []) demo_published.
Proof. demo_section_tac demo_deleted_runs. intros m d Em Ed. exact I. Qed.

Lemma demo_fresh : map_Forall (fun _ m => stage (flusher m) = Idle /\ Forall flushes (calls (flusher m))) (collections (database demo_service.1)).
Proof. intros name m Em. cbn [demo_service fst database collections demo_database] in Em. apply lookup_singleton_Some in Em as [_ <-]. split; [reflexivity|constructor]. Qed.

(** A backup holds the collection as it was when it was copied. *)
Lemma kept_backup cs bs cs' bs' name backup t :
  @does x86_64_env (cs, bs) (Kept name backup) (cs', bs') -> @RequestsFacts.backups_hold x86_64_env true t bs' ->
  match cs !! name with Some c => bool_decide (contents c !! "a" = None) | None => false end = true ->
  exists copy c, t !! Saved backup = Some copy /\ @recoverable x86_64_env true copy c /\ contents c !! "a" = None.
Proof.
  intros Hd Hb Hdel. inversion Hd as [| |cs0 bs0 n b c Ec|]; subst. destruct (Hb backup c) as (_ & copy & Ecopy & Hrec); [by rewrite lookup_insert_eq|].
  exists copy, c. split; [done|]. split; [done|]. rewrite Ec in Hdel. by apply bool_decide_eq_true in Hdel.
Qed.

