(* ===== verification/Cuda.v ===== *)
(** * Cuda: the build with the [cuda] feature ([src/src/cuda.rs] and the
    feature's parts of [src/src/persistence.rs])

    The device holds a copy of the vectors; a search has it score every row and
    scores the best again on the host.  The driver is the class [CudaDevice]:
    what each of its calls returns is not known here. *)

From stdpp Require Import base gmap sets list strings sorting.
From Stdlib Require Import ZArith Lia.
From S2P Require Import Prelude Errors Floats Ranking Metric Filter MetadataIndex Collection Wire Disk Segment Manifest Persistence Environment.

(** The calls of cudarc; an error is its text.  [gemv m n vectors query] is one
    score per row on the device, and [clone_dtoh] brings them to the host. *)
Class CudaDevice := {
  context_new : Z -> unit + string;
  blas_new : unit + string;
  clone_htod : list Z -> unit + string;
  alloc_zeros : Z -> unit + string;
  gemv : Z -> Z -> list Z -> list Z -> list Z + string;
  clone_dtoh : list Z -> list Z + string
}.

Record CudaHit : Type := MkCudaHit { cuda_id : string; cuda_score : Z }.

(** [vectors] is the host's copy of the matrix, row after row. *)
Record CudaIndex : Type := MkCudaIndex {
  cuda_collection_config : CollectionConfig; ids : list string; squared_norms : list Z; vectors : list Z; state_poisoned : bool
}.

Definition cuda_error {A : Type} (context : string) (r : A + string) : Result A :=
  match r with inl a => Ok a | inr error => Err (ResourceExhausted (context +:+ ": " +:+ error)) end.

Definition cuda_hit_order : CudaHit -> CudaHit -> comparison :=
  then_with (cmp_rev (cmp_on cuda_score (total_cmp fmt32))) (cmp_on cuda_id str_cmp).

(** Partitioning at [k], truncating and sorting leaves the first [k] in order. *)
Definition select_top_k (hits : list CudaHit) (k : Z) : list CudaHit := truncate k (sort_by cuda_hit_order hits).

Definition I32_MAX : Z := 2 ^ 31 - 1.
Definition try_i32 (z : Z) (error : string) : Result Z := if Z.leb z I32_MAX then Ok z else Err (ResourceExhausted error).

Section Cuda.
Context `{FloatEnv} `{CudaDevice}.

(** The sum in double precision, narrowed. *)
Definition narrow_squared_norm (vector : list Z) : Z := fcast fmt32 fmt64 (squared_norm vector).

Definition probe (device : Z) : Result unit :=
  let? _ := cuda_error "initialize CUDA device" (context_new device) in
  cuda_error "initialize cuBLAS" blas_new.

Definition build (config : CollectionConfig) (points : list StoredPoint) (device : Z) : Result CudaIndex :=
  if bool_decide (points = []) then Err (InvalidConfiguration "cannot create a CUDA index for an empty collection")
  else
    let? _ := cuda_error "initialize CUDA device" (context_new device) in
    let? _ := cuda_error "initialize cuBLAS" blas_new in
    let? _ := ok_or (checked_mul USIZE_MAX (zlen points) (dimension config)) (ResourceExhausted "CUDA vector matrix is too large") in
    let host_vectors := flat_map (fun point => as_slice (sp_vector point)) points in
    let? _ := cuda_error "upload CUDA vector snapshot" (clone_htod host_vectors) in
    Ok (MkCudaIndex config (map sp_id points) (map (fun point => narrow_squared_norm (as_slice (sp_vector point))) points) host_vectors false).

(** The scores the device computes. *)
Definition device_scores (self : CudaIndex) (query : list Z) : Result (list Z) :=
  let? dimension := try_i32 (dimension (cuda_collection_config self)) "CUDA dimension exceeds i32" in
  let? rows := try_i32 (zlen (ids self)) "CUDA row count exceeds i32" in
  if state_poisoned self then Err (Concurrency "CUDA search lock is poisoned")
  else
    let? _ := cuda_error "upload CUDA query" (clone_htod query) in
    let? _ := cuda_error "allocate CUDA score buffer" (alloc_zeros (zlen (ids self))) in
    let? scores := cuda_error "score CUDA vectors" (gemv dimension rows (vectors self) query) in
    cuda_error "download CUDA scores" (clone_dtoh scores).

(** A row's score from its dot product; the norms are indexed by the row. *)
Definition row_score (self : CudaIndex) (query_norm : Z) (ordinal : nat) (dot_product : Z) : Result Z :=
  match metric (cuda_collection_config self) with
  | Cosine | DotProduct => Ok dot_product
  | Euclidean =>
      match squared_norms self !! ordinal with
      | Some squared_norm =>
          Ok (fneg fmt32 (fsub fmt32 (fadd fmt32 query_norm squared_norm) (fmul fmt32 (of_int fmt32 2) dot_product)))
      | None => Panic
      end
  end.

Definition search (self : CudaIndex) (query : list Z) (k : Z) (excluded_ids : gset string) : Result (list CudaHit) :=
  let? dot_products := device_scores self query in
  let query_norm := if decide (metric (cuda_collection_config self) = Euclidean) then narrow_squared_norm query else f32_zero in
  let? hits := mapM_result (fun '(ordinal, (id, dot_product)) =>
      let? score := row_score self query_norm ordinal dot_product in Ok (MkCudaHit id score))
    (List.filter (fun row : nat * (string * Z) => negb (bool_decide (row.2.1 ∈ excluded_ids)))
      (imap (fun ordinal row => (ordinal, row)) (zip (ids self) dot_products))) in
  Ok (select_top_k hits k).

Definition len (self : CudaIndex) : Z := zlen (ids self).

(** ** The persistent collection with a device *)

Record CudaCollection : Type := MkCudaCollection { store : PersistentCollection; cuda_config : CudaSearchConfig; cuda_index : option CudaIndex }.

Definition with_store (self : CudaCollection) (store : PersistentCollection) : CudaCollection :=
  MkCudaCollection store (cuda_config self) (cuda_index self).

Definition create_cuda_index (collection : Collection) (config : CudaSearchConfig) : Result (option CudaIndex) :=
  if decide (mode config = Disabled) then Ok None
  else if bool_decide (mode config = Preferred) && Z.ltb (Collection.len collection) (min_vectors config) then Ok None
  else
    let points := snapshot_stored_points collection in
    if bool_decide (points = []) then
      if decide (mode config = Required) then let? _ := probe (device config) in Ok None else Ok None
    else
      match build (Collection.config collection) points (device config) with
      | Ok index => Ok (Some index)
      | Err error => if decide (mode config = Preferred) then Ok None else Err error
      | Panic => Panic
      end.

(** The rest of [open] is that of the build without the feature. *)
Definition open_with_cuda (avx2 : bool) (config : CollectionConfig) (durability : Durability) (cuda_config : CudaSearchConfig) (lock : LockOutcome)
    : io (Result CudaCollection) :=
  let*? store := Persistence.open_with_cuda avx2 config durability Disabled lock in
  let*? cuda_index := iolift (create_cuda_index (inner store) cuda_config) in
  ioret (Ok (MkCudaCollection store cuda_config cuda_index)).

(** A hit of the device, scored again on the host. *)
Definition rescore_hit (self : PersistentCollection) (prepared_query : list Z) (hit : CudaHit) : option SearchHit :=
  point ← get_stored (inner self) (cuda_id hit);
  Some (MkHit (cuda_id hit) (score (metric (config (inner self))) prepared_query (as_slice (sp_vector point))) (sp_metadata point) (sp_sequence point)).

Definition cuda_search (self : PersistentCollection) (index : CudaIndex) (query : list Z) (k : Z) : Result (list SearchHit) :=
  let? prepared_query := prepare (metric (config (inner self))) query in
  let? found := search index prepared_query k (dirty_ids self) in
  let? pending := search_ids (inner self) query k (dirty_ids self) None in
  Ok (merge_hits (omap (rescore_hit self prepared_query) found ++ pending) k).

(** After the checks and the filtered search of the build without the feature. *)
Definition search_with_ef (avx2 : bool) (self : CudaCollection) (query : list Z) (k : Z) (filter : option Filter) (ef_search : Z)
    : Result (list SearchHit * CudaCollection) :=
  let '(st, cpu) := (store self, let? (hits, st) := Persistence.search_with_ef avx2 (store self) query k filter ef_search in Ok (hits, with_store self st)) in
  if Z.ltb ef_search k || Z.eqb k 0 || negb (Z.eqb (zlen query) (dimension (config (inner st)))) then cpu
  else match filter, cuda_index self with
  | None, Some index => let? hits := cuda_search st index query k in Ok (hits, self)
  | _, _ => cpu
  end.

Definition upsert (self : CudaCollection) (points : list UpsertPoint) : io (Result Z * CudaCollection) :=
  let* (result, store) := Persistence.upsert (store self) points in ioret (result, with_store self store).
Definition delete (self : CudaCollection) (ids : list string) : io (Result Z * CudaCollection) :=
  let* (result, store) := Persistence.delete (store self) ids in ioret (result, with_store self store).

(** A refresh that fails leaves no index. *)
Definition refresh (self : CudaCollection) : Result CudaCollection :=
  let with_index index := MkCudaCollection (store self) (cuda_config self) index in
  match create_cuda_index (inner (store self)) (cuda_config self) with
  | Ok index => Ok (with_index index)
  | Err _ => Ok (with_index None)
  | Panic => Panic
  end.

Definition published (sequence : Result Z) (self : CudaCollection) : Result Z * CudaCollection :=
  match sequence with
  | Ok sequence => match refresh self with Ok self => (Ok sequence, self) | Err e => (Err e, self) | Panic => (Panic, self) end
  | Err e => (Err e, self)
  | Panic => (Panic, self)
  end.

Definition publish_flush (avx2 : bool) (pid : Z) (self : CudaCollection) (prepared : PreparedFlush) : io (Result Z * CudaCollection) :=
  let* result := (
    let* previous := read_manifest in
    match previous with
    | Err e => ioret (Err e, self)
    | Panic => ioret (Panic, self)
    | Ok previous =>
        let publish :=
          let* (result, store) := publish_prepared avx2 pid (store self) prepared previous in
          ioret (published result (with_store self store)) in
        match previous with
        | Some manifest => if Z.ltb (prep_sequence prepared) (man_sequence manifest) then ioret (Ok (man_sequence manifest), self) else publish
        | None => publish
        end
    end) in
  let* _ := ignore (remove_file (temporary_segment prepared)) in
  ioret result.

Definition has_cuda_index (self : CudaCollection) : bool := match cuda_index self with Some _ => true | None => false end.
Definition cuda_vectors (self : CudaCollection) : Z := match cuda_index self with Some index => len index | None => 0 end.
End Cuda.
