(* ===== verification/CudaFacts.v ===== *)
(** * CudaFacts: the device is only a cache

    Whatever the driver answers, a search through the device returns live
    points scored on the host, and no unflushed point is missed; a flush writes
    the same files and leaves the same collection as without the device. *)

From stdpp Require Import base gmap sets list strings sorting.
From Stdlib Require Import ZArith Lia.
From S2P Require Import Prelude Errors Floats Ranking Metric Filter MetadataIndex Collection CollectionFacts Wire Disk Segment Manifest.
From S2P Require Import Persistence Environment FlushFacts QueryFacts Cuda.

Section Facts.
Context `{FloatEnv} `{CudaDevice} (avx2 : bool).

Lemma cuda_error_total {A} context (r : A + string) : cuda_error context r <> Panic.
Proof. by destruct r. Qed.

Lemma device_scores_total index query : device_scores index query <> Panic.
Proof.
  unfold device_scores, try_i32. repeat (case_match; try done); cbn; destruct (state_poisoned index); try done.
  destruct (clone_htod query); [|done]. cbn. destruct (alloc_zeros _); [|done]. cbn. destruct (gemv _ _ _ _); [|done]. cbn. apply cuda_error_total.
Qed.

(** What the index holds of the points it was built from. *)
Definition copied (config : CollectionConfig) (points : list StoredPoint) : CudaIndex :=
  MkCudaIndex config (map sp_id points) (map (fun point => narrow_squared_norm (as_slice (sp_vector point))) points)
    (flat_map (fun point => as_slice (sp_vector point)) points) false.

Lemma build_spec config points device :
  match build config points device with Ok index => index = copied config points | Err _ => True | Panic => False end.
Proof.
  unfold build. case_bool_decide; [done|]. destruct (context_new device); [|done]. cbn. destruct blas_new; [|done]. cbn.
  destruct (checked_mul _ _ _); [|done]. cbn. by destruct (clone_htod _).
Qed.

Lemma create_index_spec collection cuda :
  match create_cuda_index collection cuda with
  | Ok (Some index) => index = copied (config collection) (snapshot_stored_points collection)
  | Panic => False
  | _ => True
  end.
Proof.
  unfold create_cuda_index. case_decide; [done|]. destruct (_ && _); [done|]. case_bool_decide.
  - case_decide; [|done]. unfold probe. destruct (context_new _); [|done]. cbn. by destruct blas_new.
  - pose proof (build_spec (config collection) (snapshot_stored_points collection) (device cuda)) as Hb.
    destruct (build _ _ _); [done| |done]. by case_decide.
Qed.

(** The index is a copy of a collection that agrees with this one outside the
    unflushed identifiers. *)
Definition cuda_current (st : PersistentCollection) (index : CudaIndex) : Prop :=
  exists c0, coll_ok c0 /\ index = copied (config (inner st)) (snapshot_stored_points c0) /\
    forall id, id ∉ dirty_ids st -> contents c0 !! id = contents (inner st) !! id.

(** ** The rows *)

Definition rows (index : CudaIndex) (dots : list Z) (excluded : gset string) : list (nat * (string * Z)) :=
  List.filter (fun row : nat * (string * Z) => negb (bool_decide (row.2.1 ∈ excluded))) (imap (fun ordinal row => (ordinal, row)) (zip (ids index) dots)).

Lemma elem_of_rows index dots excluded row :
  row ∈ rows index dots excluded <-> zip (ids index) dots !! row.1 = Some row.2 /\ row.2.1 ∉ excluded.
Proof.
  unfold rows. rewrite list_elem_of_In, filter_In, <- list_elem_of_In, elem_of_lookup_imap, negb_true_iff, bool_decide_eq_false.
  split; [intros [(i & x & -> & E) Hn]; done|]. intros [E Hn]. split; [|done]. exists row.1, row.2. by destruct row.
Qed.

(** Every row outside the excluded ones has its hit, and there are no others. *)
Lemma search_spec config points query k excluded :
  let index := copied config points in
  match device_scores index query with
  | Ok dots => exists hits, search index query k excluded = Ok (select_top_k hits k) /\
      Forall (fun hit => cuda_id hit ∈ map sp_id points /\ cuda_id hit ∉ excluded) hits /\ zlen hits <= zlen points /\
      (zlen dots = zlen points -> forall id, id ∈ map sp_id points -> id ∉ excluded -> exists hit, hit ∈ hits /\ cuda_id hit = id)
  | Err e => search index query k excluded = Err e
  | Panic => False
  end.
Proof.
  intros index. unfold search. pose proof (device_scores_total index query). destruct (device_scores index query) as [dots| |]; [|done..]. cbn [rbind].
  fold (rows index dots excluded). set (query_norm := if decide _ then _ else _).
  set (f := fun '(ordinal, (id, dot_product)) => let? score := row_score index query_norm ordinal dot_product in Ok (MkCudaHit id score)).
  assert (returns (mapM_result f (rows index dots excluded)) (Forall2 (fun row hit => cuda_id hit = row.2.1) (rows index dots excluded))) as (hits & -> & Hhits).
  { apply returns_mapM. intros [i [id dot]] [Hi _]%elem_of_rows. cbn in Hi. unfold f, row_score.
    destruct (metric _); try by (eexists; split). cbn [squared_norms index copied].
    apply lookup_lt_Some in Hi. rewrite length_zip_with, length_map in Hi. destruct (lookup_lt_is_Some_2 points i ltac:(lia)) as [p Hp].
    change (map ?g points) with (g <$> points). rewrite list_lookup_fmap, Hp. by eexists. }
  cbn [rbind]. exists hits. split; [done|]. assert (length hits = length (rows index dots excluded)) as Elen by (by rewrite (Forall2_length _ _ _ Hhits)).
  split_and!.
  - apply Forall_forall. intros hit (i & Hi)%list_elem_of_lookup. destruct (Forall2_lookup_r _ _ _ _ _ Hhits Hi) as ([j [id dot]] & Hrow & ->).
    apply list_elem_of_lookup_2, elem_of_rows in Hrow as [Hz Hn]. cbn in *. split; [|done].
    apply lookup_zip_with_Some in Hz as (id' & dot' & [= -> ->] & Hid & _). by apply list_elem_of_lookup_2 in Hid.
  - unfold zlen. rewrite Elen. unfold rows. etransitivity; [apply inj_le, filter_length_le|]. rewrite length_imap, length_zip_with. cbn. rewrite length_map. lia.
  - intros Hl id (i & Hi)%list_elem_of_lookup Hn. unfold zlen in Hl. assert (i < length points)%nat by (apply lookup_lt_Some in Hi; by rewrite length_map in Hi).
    destruct (lookup_lt_is_Some_2 dots i ltac:(lia)) as [dot Hdot].
    assert ((i, (id, dot)) ∈ rows index dots excluded) as (j & Hj)%list_elem_of_lookup.
    { apply elem_of_rows. cbn. split; [|done]. rewrite lookup_zip_with, Hi. cbn. by rewrite Hdot. }
    destruct (Forall2_lookup_l _ _ _ _ _ Hhits Hj) as (hit & Hhit & E). exists hit. split; [by eapply list_elem_of_lookup_2|done].
Qed.

Lemma elem_of_select hits k hit : hit ∈ select_top_k hits k -> hit ∈ hits.
Proof. intros Hh%elem_of_truncate. by rewrite elem_of_sort_by in Hh. Qed.
Lemma select_all hits k hit : zlen hits <= k -> hit ∈ hits -> hit ∈ select_top_k hits k.
Proof. intros Hl Hh. unfold select_top_k, truncate. rewrite take_ge; [by rewrite elem_of_sort_by|]. rewrite length_sort_by. unfold zlen in Hl. lia. Qed.

(** A hit scored again is a live, flushed point. *)
Lemma rescore_hit_live st q hit h :
  coll_ok (inner st) -> cuda_id hit ∉ dirty_ids st -> rescore_hit st q hit = Some h ->
  live_match (inner st) (dirty_ids st) q None h /\ hit_id h = cuda_id hit.
Proof.
  intros (_ & _ & Hp) Hd. unfold rescore_hit, get_stored. destruct (points (inner st) !! cuda_id hit) as [p|] eqn:E; [|done]. cbn. intros [= <-].
  split; [|done]. exists (to_owned_point p). cbn. rewrite lookup_contents, E. destruct (Hp _ _ E) as (Ei & _). split_and!; [done..|]. unfold scored. cbn. by rewrite Ei.
Qed.

Lemma rescore_hit_some st q hit p : contents (inner st) !! cuda_id hit = Some p -> exists h, rescore_hit st q hit = Some h /\ hit_id h = cuda_id hit.
Proof.
  rewrite lookup_contents. unfold rescore_hit, get_stored. destruct (points (inner st) !! cuda_id hit); [|done]. by eexists.
Qed.


(** ** Writes and flushes *)

Lemma create_current st cuda index : coll_ok (inner st) -> create_cuda_index (inner st) cuda = Ok (Some index) -> cuda_current st index.
Proof. intros Hc E. pose proof (create_index_spec (inner st) cuda) as Hs. rewrite E in Hs. by exists (inner st). Qed.

Lemma refresh_total self : refresh self <> Panic.
Proof. unfold refresh. pose proof (create_index_spec (inner (store self)) (cuda_config self)). by destruct (create_cuda_index _ _). Qed.

(** The same outcome, the device aside. *)
Definition same_store {A} (x : Outcome (A * CudaCollection)) (y : Outcome (A * PersistentCollection)) : Prop :=
  match x, y with
  | Returned (a, self) w, Returned (a', st) w' => a = a' /\ store self = st /\ w = w'
  | Crashed d, Crashed d' => d = d'
  | _, _ => False
  end.

Lemma publish_same_store pid self prepared previous w :
  same_store ((let* (result, store) := publish_prepared avx2 pid (store self) prepared previous in ioret (published result (with_store self store))) w)
    (publish_prepared avx2 pid (store self) prepared previous w).
Proof.
  unfold iobind. destruct (publish_prepared _ _ _ _ _ w) as [[[n|e|] st] w'|d]; [|done..]. unfold ioret, published.
  pose proof (refresh_total (with_store self st)) as Hp. unfold refresh in *. by destruct (create_cuda_index _ _).
Qed.

Lemma same_store_after {A B} (m : io B) (k : B -> io (A * CudaCollection)) (k' : B -> io (A * PersistentCollection)) w :
  (forall b w, same_store (k b w) (k' b w)) -> same_store (iobind m k w) (iobind m k' w).
Proof. intros Hk. unfold iobind. by destruct (m w). Qed.

Lemma same_store_then {A} (m : io (A * CudaCollection)) (m' : io (A * PersistentCollection)) (cleanup : io unit) w :
  same_store (m w) (m' w) -> same_store ((let* r := m in let* _ := cleanup in ioret r) w) ((let* r := m' in let* _ := cleanup in ioret r) w).
Proof.
  intros Hm. unfold iobind. destruct (m w) as [[a self] w1|d], (m' w) as [[a' st] w2|d']; try done. cbn in Hm. destruct Hm as (-> & <- & ->).
  by destruct (cleanup w2).
Qed.

(** A flush has the same effects, the same answer and leaves the same
    collection as in the build without the feature, whatever the device does. *)
Theorem cuda_flush_transparent pid self prepared w :
  same_store (publish_flush avx2 pid self prepared w) (Persistence.publish_flush avx2 pid (store self) prepared w).
Proof.
  apply same_store_then, same_store_after. intros [[manifest|]|e|] w1; [|apply publish_same_store|done..].
  by destruct (prep_sequence prepared <? man_sequence manifest); [|apply publish_same_store].
Qed.

(** A write keeps the index current: what it changes is unflushed from then on. *)
Lemma cuda_current_write st index inner' changed :
  cuda_current st index -> config inner' = config (inner st) ->
  (forall id, id ∉ changed -> contents inner' !! id = contents (inner st) !! id) -> cuda_current (with_inner st inner' changed) index.
Proof.
  intros (c0 & Hc0 & -> & Hagree) Ec Hout. exists c0. split; [done|]. unfold with_inner. cbn [inner dirty_ids]. rewrite Ec. split; [done|].
  intros id Hn. apply not_elem_of_union in Hn as [Hn Hn']. rewrite Hagree by done. symmetry. apply Hout. by rewrite elem_of_list_to_set in Hn'.
Qed.
End Facts.

(** ** A device that computes the dot products on the host *)

Definition demo_device : CudaDevice :=
  {| context_new := fun _ => inl tt; blas_new := inl tt; clone_htod := fun _ => inl tt; alloc_zeros := fun _ => inl tt;
     gemv := fun m n matrix query => inl (map (fun row => @dot_product x86_64_env query (firstn (Z.to_nat m) (skipn (Z.to_nat m * row)%nat matrix))) (seq 0 (Z.to_nat n)));
     clone_dtoh := inl |}.

Definition demo_cuda : CudaCollection :=
  MkCudaCollection demo_flushed.1 (MkCuda Required 0 0)
    (Some (@copied x86_64_env (config (inner demo_flushed.1)) (snapshot_stored_points (inner demo_flushed.1)))).

