(* ===== verification/Api.v ===== *)
(** * Api: what HTTP clients send ([src/src/server.rs])

    JSON values and numbers belong to serde_json: a number is known by what
    [as_i64] and [as_f64] say of it.  Points and filters are turned into those
    of the collection; a filter's depth and size are bounded. *)

From stdpp Require Import base gmap list strings.
From Stdlib Require Import ZArith Lia.
From S2P Require Import Prelude Errors Floats Ranking Metric Filter Collection.

(** [serde_json::Number] and the conversions into JSON values; a float that is
    not finite becomes [null]. *)
Class JsonNumber := {
  Number : Type;
  as_i64 : Number -> option Z;
  as_f64 : Number -> option Z;
  from_i64 : Z -> Number;
  from_f64 : Z -> option Number
}.

(** Documented: an integer is represented as such, a finite float as a float. *)
Class JsonNumberLaws (J : JsonNumber) : Prop := {
  as_from_i64 z : in_i 64 z -> as_i64 (from_i64 z) = Some z;
  as_from_f64 b : in_u 64 b -> is_finite fmt64 b = true -> exists n, from_f64 b = Some n /\ as_i64 n = None /\ as_f64 n = Some b
}.

Section Api.
Context `{J : JsonNumber}.

Inductive JsonValue : Type :=
| Null
| Bool (value : bool)
| JNumber (value : Number)
| JString (value : string)
| JArray (values : list JsonValue)
| JObject (members : list (string * JsonValue)).

Definition metadata_value (value : JsonValue) : Result Value :=
  match value with
  | JString value => Ok (Keyword value)
  | Bool value => Ok (Boolean value)
  | JNumber value =>
      match as_i64 value with
      | Some value => Ok (Integer value)
      | None =>
          match as_f64 value with
          | Some value => if is_finite fmt64 value then Ok (Float value) else Err (InvalidQuery "metadata number is out of range")
          | None => Err (InvalidQuery "metadata number is out of range")
          end
      end
  | _ => Err (InvalidQuery "metadata values must be strings, numbers, or booleans")
  end.

Definition json_value (value : Value) : JsonValue :=
  match value with
  | Keyword value => JString value
  | Integer value => JNumber (from_i64 value)
  | Float value => match from_f64 value with Some n => JNumber n | None => Null end
  | Boolean value => Bool value
  end.

(** ** Points *)

Record ApiPoint : Type := MkApiPoint { point_id : string; point_vector : list Z; point_metadata : gmap string JsonValue }.

(** [BTreeMap::into_iter] *)
Definition in_key_order {A : Type} (m : gmap string A) : list (string * A) := sort_by (cmp_on fst str_cmp) (map_to_list m).

Definition try_from (point : ApiPoint) : Result UpsertPoint :=
  let? metadata := mapM_result (fun e => let? value := metadata_value e.2 in Ok (e.1, value)) (in_key_order (point_metadata point)) in
  Ok (MkUpsert (point_id point) (point_vector point) (list_to_map metadata)).

(** ** Filters *)

Inductive ApiFilter : Type :=
| ApiMatchAll
| ApiEq (field : string) (value : JsonValue)
| ApiRange (field : string) (gte lt : option Z)
| ApiAnd (filters : list ApiFilter)
| ApiOr (filters : list ApiFilter)
| ApiNot (filter : ApiFilter).

Definition validated_field (field : string) : Result string :=
  if String.eqb field "" || Z.ltb 128 (str_len field)
  then Err (InvalidQuery "filter field names must contain 1-128 bytes")
  else Ok field.

(** The converted filter, and how many nodes may still follow. *)
Fixpoint into_filter_bounded (self : ApiFilter) (depth remaining : Z) : Result (Filter * Z) :=
  if Z.leb 32 depth then Err (ResourceExhausted "filter nesting exceeds 32 levels")
  else if Z.ltb remaining 1 then Err (ResourceExhausted "filter contains more than 1024 nodes")
  else
    let remaining := remaining - 1 in
    let each := fix each (filters : list ApiFilter) (remaining : Z) : Result (list Filter * Z) :=
      match filters with
      | [] => Ok ([], remaining)
      | filter :: filters' =>
          let? (filter, remaining) := into_filter_bounded filter (depth + 1) remaining in
          let? (filters, remaining) := each filters' remaining in
          Ok (filter :: filters, remaining)
      end in
    match self with
    | ApiMatchAll => Ok (MatchAll, remaining)
    | ApiEq field value =>
        let? field := validated_field field in
        let? value := metadata_value value in
        Ok (FEq field value, remaining)
    | ApiRange field gte lt =>
        let? field := validated_field field in
        Ok (FRange field gte lt, remaining)
    | ApiAnd filters => let? (filters, remaining) := each filters remaining in Ok (FAnd filters, remaining)
    | ApiOr filters => let? (filters, remaining) := each filters remaining in Ok (FOr filters, remaining)
    | ApiNot filter => let? (filter, remaining) := into_filter_bounded filter (depth + 1) remaining in Ok (FNot filter, remaining)
    end.

Definition into_filter (self : ApiFilter) (depth : Z) : Result Filter :=
  let? (filter, _) := into_filter_bounded self depth 1024 in Ok filter.

(** ** Metrics and hits *)

Inductive ApiMetric : Type := ApiCosine | ApiDotProduct | ApiEuclidean.

Definition metric_from (metric : ApiMetric) : Metric :=
  match metric with ApiCosine => Cosine | ApiDotProduct => DotProduct | ApiEuclidean => Euclidean end.
Definition metric_to (metric : Metric) : ApiMetric :=
  match metric with Cosine => ApiCosine | DotProduct => ApiDotProduct | Euclidean => ApiEuclidean end.

Record HitResponse : Type := MkHitResponse {
  response_id : string; response_score : Z; response_metadata : gmap string JsonValue; response_sequence : Z
}.

Definition hit_response (hit : SearchHit) : HitResponse :=
  MkHitResponse (hit_id hit) (hit_score hit) (json_value <$> hit_metadata hit) (hit_sequence hit).
End Api.
