(* ===== verification/ApiFacts.v ===== *)
(** * ApiFacts: which filters are accepted, and values that come back

    [translate] is the structural translation of a filter, with no bounds; a
    filter is accepted exactly when it is within the bounds and translates. *)

From stdpp Require Import base gmap list strings.
From Stdlib Require Import ZArith Lia.
From S2P Require Import Prelude Errors Floats Ranking Metric Filter Collection Api.

Section Facts.
Context `{J : JsonNumber}.

(** Induction that reaches the filters inside [ApiAnd] and [ApiOr]. *)
Section FilterInd.
Context (P : ApiFilter -> Prop).
Context (Hall : P ApiMatchAll) (Heq : forall field value, P (ApiEq field value))
  (Hrange : forall field gte lt, P (ApiRange field gte lt))
  (Hand : forall filters, Forall P filters -> P (ApiAnd filters))
  (Hor : forall filters, Forall P filters -> P (ApiOr filters))
  (Hnot : forall filter, P filter -> P (ApiNot filter)).

Fixpoint ApiFilter_nested_ind (f : ApiFilter) : P f :=
  let go := fix go (l : list ApiFilter) : Forall P l :=
    match l with
    | [] => Forall_nil_2 P
    | x :: l' => Forall_cons_2 P x l' (ApiFilter_nested_ind x) (go l')
    end in
  match f with
  | ApiMatchAll => Hall
  | ApiEq field value => Heq field value
  | ApiRange field gte lt => Hrange field gte lt
  | ApiAnd filters => Hand filters (go filters)
  | ApiOr filters => Hor filters (go filters)
  | ApiNot filter => Hnot filter (ApiFilter_nested_ind filter)
  end.
End FilterInd.

Fixpoint nodes (f : ApiFilter) : Z :=
  match f with
  | ApiAnd filters | ApiOr filters => 1 + fold_right Z.add 0 (map nodes filters)
  | ApiNot filter => 1 + nodes filter
  | _ => 1
  end.

Fixpoint depth (f : ApiFilter) : Z :=
  match f with
  | ApiAnd filters | ApiOr filters => 1 + fold_right Z.max 0 (map depth filters)
  | ApiNot filter => 1 + depth filter
  | _ => 1
  end.

Fixpoint translate (f : ApiFilter) : option Filter :=
  let fields (field : string) (filter : Filter) := if decide (0 < str_len field <= 128) then Some filter else None in
  match f with
  | ApiMatchAll => Some MatchAll
  | ApiEq field value => match metadata_value value with Ok value => fields field (FEq field value) | _ => None end
  | ApiRange field gte lt => fields field (FRange field gte lt)
  | ApiAnd filters => FAnd <$> mapM translate filters
  | ApiOr filters => FOr <$> mapM translate filters
  | ApiNot filter => FNot <$> translate filter
  end.

Lemma validated_field_spec field :
  validated_field field = if decide (0 < str_len field <= 128) then Ok field else Err (InvalidQuery "filter field names must contain 1-128 bytes").
Proof.
  unfold validated_field. destruct (String.eqb_spec field "") as [->|Hn]; [done|]. cbn [orb].
  assert (0 < str_len field) by (unfold str_len; destruct field; [done|cbn; lia]).
  destruct (Z.ltb_spec 128 (str_len field)); case_decide; [lia|done|done|lia].
Qed.

Lemma metadata_value_total value : metadata_value value <> Panic.
Proof. destruct value; cbn; try done. destruct (as_i64 _); [done|]. destruct (as_f64 _); [|done]. by case_match. Qed.

(** The children of a node, one after the other. *)
Fixpoint each (filters : list ApiFilter) (depth remaining : Z) : Result (list Filter * Z) :=
  match filters with
  | [] => Ok ([], remaining)
  | filter :: filters' =>
      let? (filter, remaining) := into_filter_bounded filter depth remaining in
      let? (filters, remaining) := each filters' depth remaining in
      Ok (filter :: filters, remaining)
  end.

Lemma into_filter_unfold f d r :
  into_filter_bounded f d r =
  if Z.leb 32 d then Err (ResourceExhausted "filter nesting exceeds 32 levels")
  else if Z.ltb r 1 then Err (ResourceExhausted "filter contains more than 1024 nodes")
  else match f with
    | ApiMatchAll => Ok (MatchAll, r - 1)
    | ApiEq field value => let? field := validated_field field in let? value := metadata_value value in Ok (FEq field value, r - 1)
    | ApiRange field gte lt => let? field := validated_field field in Ok (FRange field gte lt, r - 1)
    | ApiAnd filters => let? (filters, remaining) := each filters (d + 1) (r - 1) in Ok (FAnd filters, remaining)
    | ApiOr filters => let? (filters, remaining) := each filters (d + 1) (r - 1) in Ok (FOr filters, remaining)
    | ApiNot filter => let? (filter, remaining) := into_filter_bounded filter (d + 1) (r - 1) in Ok (FNot filter, remaining)
    end.
Proof.
  destruct f as [| | |filters|filters|f]; try reflexivity; cbn [into_filter_bounded]; destruct (Z.leb 32 d), (Z.ltb r 1); try reflexivity.
  all: f_equal; generalize (r - 1); induction filters as [|f filters IH]; intros r'; cbn [each]; [done|].
  all: destruct (into_filter_bounded f (d + 1) r') as [[g r'']|e|]; cbn; [|done..]; by rewrite IH.
Qed.

Definition accepted (f : ApiFilter) (d r : Z) (g : Filter) (r' : Z) : Prop :=
  d + depth f <= 32 /\ nodes f <= r /\ translate f = Some g /\ r' = r - nodes f.
Definition decides (f : ApiFilter) : Prop := forall d r,
  into_filter_bounded f d r <> Panic /\ forall g r', into_filter_bounded f d r = Ok (g, r') <-> accepted f d r g r'.

Lemma nodes_pos f : 1 <= nodes f.
Proof.
  induction f using ApiFilter_nested_ind; cbn [nodes]; try lia.
  all: enough (0 <= fold_right Z.add 0 (map nodes filters)) by lia.
  all: match goal with Hf : Forall _ _ |- _ => induction Hf; cbn; lia end.
Qed.
Lemma depth_pos f : 1 <= depth f.
Proof.
  induction f using ApiFilter_nested_ind; cbn [depth]; try lia.
  all: enough (0 <= fold_right Z.max 0 (map depth filters)) by lia.
  all: match goal with Hf : Forall _ _ |- _ => induction Hf; cbn; lia end.
Qed.

Lemma each_decides filters d r :
  Forall decides filters -> d <= 32 -> 0 <= r ->
  each filters d r <> Panic /\
  forall gs r', each filters d r = Ok (gs, r') <->
    d + fold_right Z.max 0 (map depth filters) <= 32 /\ fold_right Z.add 0 (map nodes filters) <= r /\
    mapM translate filters = Some gs /\ r' = r - fold_right Z.add 0 (map nodes filters).
Proof.
  intros Hf Hd. revert r. induction Hf as [|f filters Hf _ IH]; intros r Hr; cbn [each].
  - split; [done|]. intros gs r'. cbn. split; [intros [= <- <-]|intros (_ & _ & [= <-] & ->)]; [|f_equal; f_equal; lia].
    split_and!; [lia|lia|done|lia].
  - destruct (Hf d r) as [Hnp Hok]. pose proof (nodes_pos f). pose proof (depth_pos f).
    destruct (into_filter_bounded f d r) as [[g r1]|e|] eqn:E; cbn [rbind]; [| |done].
    + destruct (proj1 (Hok g r1) eq_refl) as (H1 & H2 & H3 & ->). destruct (IH (r - nodes f) ltac:(lia)) as [Hnp' Hok'].
      destruct (each filters d (r - nodes f)) as [[gs r2]|e|] eqn:E'; cbn [rbind]; [| |done].
      * destruct (proj1 (Hok' gs r2) eq_refl) as (H4 & H5 & H6 & ->). split; [done|]. intros gs' r'. cbn [map fold_right mapM option_bind].
        rewrite H3. cbn. rewrite H6. cbn. split; [intros [= <- <-]; split_and!; [lia|lia|done|lia]|intros (_ & _ & [= <-] & ->)].
        f_equal. f_equal. lia.
      * split; [done|]. intros gs' r'. split; [done|]. cbn [map fold_right]. intros (H4 & H5 & H6 & ->). exfalso.
        cbn in H6. rewrite H3 in H6. cbn in H6. apply bind_Some in H6 as (gs & H6 & _).
        assert (@Err Error _ e = Ok (gs, r - nodes f - fold_right Z.add 0 (map nodes filters))) by (apply Hok'; split_and!; [lia|lia|done|done]). done.
    + split; [done|]. intros gs' r'. split; [done|]. cbn [map fold_right]. intros (H4 & H5 & H6 & ->). exfalso.
      cbn in H6. apply bind_Some in H6 as (g & H3 & _).
      assert (0 <= fold_right Z.add 0 (map nodes filters)) by (clear; induction filters as [|f' filters IHf]; cbn; [lia|pose proof (nodes_pos f'); lia]).
      assert (@Err Error _ e = Ok (g, r - nodes f)) by (apply Hok; split_and!; [lia|lia|done|done]). done.
Qed.

Lemma nodes_sum_nonneg filters : 0 <= fold_right Z.add 0 (map nodes filters).
Proof. induction filters as [|f filters IH]; cbn; [lia|]. pose proof (nodes_pos f). lia. Qed.
Lemma depth_max_nonneg filters : 0 <= fold_right Z.max 0 (map depth filters).
Proof. induction filters; cbn; lia. Qed.

(** A node over its converted children. *)
Lemma node_decides {A} (m : Result (A * Z)) (o : option A) (node : A -> Filter) (D N r : Z) :
  m <> Panic -> (forall a r', m = Ok (a, r') <-> D <= 32 /\ N <= r - 1 /\ o = Some a /\ r' = r - 1 - N) ->
  (let? (a, remaining) := m in Ok (node a, remaining)) <> Panic /\
  forall g r', (let? (a, remaining) := m in Ok (node a, remaining)) = Ok (g, r') <-> D <= 32 /\ 1 + N <= r /\ node <$> o = Some g /\ r' = r - (1 + N).
Proof.
  intros Hnp Hok. destruct m as [[a r1]|e|]; cbn [rbind]; [| |done]; (split; [done|]; intros g r').
  - destruct (proj1 (Hok a r1) eq_refl) as (H1 & H2 & -> & ->). cbn.
    split; [intros [= <- <-]; split_and!; [lia|lia|done|lia]|intros (_ & _ & [= <-] & ->); f_equal; f_equal; lia].
  - split; [done|]. intros (H1 & H2 & (a & -> & ->)%fmap_Some & ->).
    assert (@Err Error _ e = Ok (a, r - 1 - N)) by (apply Hok; split_and!; [lia|lia|done|done]). done.
Qed.

Lemma leaf_decides (m : Result Filter) (o : option Filter) (d r : Z) :
  d < 32 -> 1 <= r -> m <> Panic -> (forall g, m = Ok g <-> o = Some g) ->
  (let? g := m in Ok (g, r - 1)) <> Panic /\
  forall g r', (let? g := m in Ok (g, r - 1)) = Ok (g, r') <-> d + 1 <= 32 /\ 1 <= r /\ o = Some g /\ r' = r - 1.
Proof.
  intros Hd Hr Hnp Hok. destruct m as [g|e|]; cbn [rbind]; [| |done]; (split; [done|]; intros g' r').
  - rewrite (proj1 (Hok g) eq_refl). split; [intros [= <- <-]; split_and!; [lia|lia|done|done]|by intros (_ & _ & [= <-] & ->)].
  - split; [done|]. intros (_ & _ & E & _). by apply Hok in E.
Qed.

Lemma into_filter_decides f : decides f.
Proof.
  induction f as [|field value|field gte lt|filters IH|filters IH|f IH] using ApiFilter_nested_ind; intros d r; rewrite into_filter_unfold; unfold accepted.
  all: destruct (Z.leb_spec 32 d); [split; [done|]; intros g r'; split; [done|]; intros (Hd & _); exfalso|].
  all: try match goal with Hd : _ + depth ?f <= 32 |- _ => pose proof (depth_pos f); lia end.
  all: destruct (Z.ltb_spec r 1); [split; [done|]; intros g r'; split; [done|]; intros (_ & Hr & _); exfalso|].
  all: try match goal with Hr : nodes ?f <= _ |- _ => pose proof (nodes_pos f); lia end.
  all: cbn [depth nodes translate].
  - apply (leaf_decides (Ok MatchAll) (Some MatchAll)); [done..|]. intros g; split; by intros [= <-].
  - set (m := let? field := validated_field field in let? value := metadata_value value in Ok (FEq field value)).
    assert ((let? field0 := validated_field field in let? value0 := metadata_value value in Ok (FEq field0 value0, r - 1)) =
      let? g := m in Ok (g, r - 1)) as -> by (unfold m; destruct (validated_field field); [|done..]; cbn; by destruct (metadata_value value)).
    pose proof (metadata_value_total value). unfold m. rewrite validated_field_spec.
    apply leaf_decides; [done|done| |]; case_decide; cbn; try done; destruct (metadata_value value); cbn; try done.
    all: intros g; split; by intros [= <-].
  - set (m := let? field := validated_field field in Ok (FRange field gte lt)).
    assert ((let? field0 := validated_field field in Ok (FRange field0 gte lt, r - 1)) = let? g := m in Ok (g, r - 1)) as ->
      by (unfold m; by destruct (validated_field field)).
    unfold m. rewrite validated_field_spec. apply leaf_decides; [done|done| |]; case_decide; cbn; try done.
    all: intros g; split; by intros [= <-].
  - destruct (each_decides filters (d + 1) (r - 1) IH ltac:(lia) ltac:(lia)) as [Hnp Hok]. rewrite Z.add_assoc. by apply node_decides.
  - destruct (each_decides filters (d + 1) (r - 1) IH ltac:(lia) ltac:(lia)) as [Hnp Hok]. rewrite Z.add_assoc. by apply node_decides.
  - destruct (IH (d + 1) (r - 1)) as [Hnp Hok]. rewrite Z.add_assoc. by apply node_decides.
Qed.
(** C20 (filter_bounds). The service accepts exactly the filters of at most 32
    levels and 1024 nodes whose field names have 1 to 128 bytes and whose values
    are strings, booleans or finite numbers, and translates them node by node;
    the conversion of any other filter ends in an error, never in a panic. *)
Theorem filter_bounds f :
  into_filter f 0 <> Panic /\ forall g, into_filter f 0 = Ok g <-> depth f <= 32 /\ nodes f <= 1024 /\ translate f = Some g.
Proof.
  unfold into_filter. destruct (into_filter_decides f 0 1024) as [Hnp Hok]. unfold accepted in Hok.
  destruct (into_filter_bounded f 0 1024) as [[g r]|e|]; cbn [rbind]; [| |done]; (split; [done|]; intros g').
  - destruct (proj1 (Hok g r) eq_refl) as (H1 & H2 & -> & _). split; [intros [= <-]; split_and!; [lia|lia|done]|by intros (_ & _ & [= <-])].
  - split; [done|]. intros (H1 & H2 & H3). assert (@Err Error _ e = Ok (g', 1024 - nodes f)) by (apply Hok; split_and!; [lia|lia|done|done]). done.
Qed.

(** ** Values come back *)

(** Values with finite floats: what the service accepts and what it stores. *)
Definition finite_value (v : Value) : Prop :=
  value_wf v /\ match v with Float b => is_finite fmt64 b = true | _ => True end.

Lemma metadata_json `{!JsonNumberLaws J} v : finite_value v -> metadata_value (json_value v) = Ok v.
Proof.
  intros [Hwf Hf]. destruct v as [s|z|b|b]; cbn in *; [done| | |done].
  - by rewrite as_from_i64.
  - destruct (as_from_f64 b Hwf Hf) as (n & -> & Hi & Hx). cbn. by rewrite Hi, Hx, Hf.
Qed.

Lemma in_key_order_perm {A} (m : gmap string A) : in_key_order m ≡ₚ map_to_list m.
Proof. apply sort_by_perm. Qed.

Lemma try_from_ok id vector (jm : gmap string JsonValue) (m : Metadata) :
  (forall key, option_Forall2 (fun j v => metadata_value j = Ok v) (jm !! key) (m !! key)) ->
  try_from (MkApiPoint id vector jm) = Ok (MkUpsert id vector m).
Proof.
  intros Hm. unfold try_from. cbn [point_metadata point_id point_vector].
  set (entries := in_key_order jm). set (f := fun e : string * JsonValue => let? value := metadata_value e.2 in Ok (e.1, value)).
  assert (forall e, e ∈ entries -> jm !! e.1 = Some e.2) as Hin.
  { intros [key j] Hin. apply elem_of_map_to_list. unfold entries in Hin. by rewrite in_key_order_perm in Hin. }
  assert (mapM_result f entries = Ok (map (fun e => (e.1, default (Keyword "") (m !! e.1))) entries)) as ->.
  { apply mapM_result_ok, Forall2_fmap_r, Forall_Forall2_diag, Forall_forall. intros e He. unfold f.
    pose proof (Hm e.1) as Hk. rewrite (Hin e He) in Hk. inversion Hk as [j v Hv E1 E2|]. cbn. by rewrite Hv, <- E2. }
  cbn [rbind]. f_equal. f_equal. apply map_eq. intros key. pose proof (Hm key) as Hk.
  assert (NoDup (map fst (map (fun e : string * JsonValue => (e.1, default (Keyword "") (m !! e.1))) entries))) as Hn.
  { rewrite map_map. cbn. change (NoDup (entries.*1)). unfold entries. rewrite in_key_order_perm. apply NoDup_fst_map_to_list. }
  destruct (m !! key) as [v|] eqn:Ev.
  - inversion Hk as [j v' Hv Ej E2|]. symmetry in Ej. apply elem_of_list_to_map_1; [done|]. apply list_elem_of_fmap.
    exists (key, j). cbn. rewrite Ev. split; [done|]. unfold entries. rewrite in_key_order_perm. by apply elem_of_map_to_list.
  - apply not_elem_of_list_to_map_1. intros ([k v] & -> & ((k' & j) & [= -> ->] & He)%list_elem_of_fmap)%list_elem_of_fmap.
    cbn in *. pose proof (Hin _ He) as Hj. cbn in Hj. rewrite Hj in Hk. inversion Hk.
Qed.

(** Metadata survive the wire: sending back the
    metadata that a hit was answered with gives the stored metadata, for values
    of the machine types with finite floats. *)
Theorem hit_metadata_roundtrip `{!JsonNumberLaws J} hit vector :
  map_Forall (fun _ v => finite_value v) (hit_metadata hit) ->
  try_from (MkApiPoint (response_id (hit_response hit)) vector (response_metadata (hit_response hit))) =
    Ok (MkUpsert (hit_id hit) vector (hit_metadata hit)).
Proof.
  intros Hm. apply try_from_ok. intros key. cbn. rewrite lookup_fmap. destruct (hit_metadata hit !! key) as [v|] eqn:E; cbn; constructor.
  apply metadata_json. by eapply Hm.
Qed.
End Facts.

(** Numbers as integers or floats. *)
Definition demo_json : JsonNumber :=
  {| Number := Z + Z; as_i64 := fun n => match n with inl z => Some z | inr _ => None end;
     as_f64 := fun n => match n with inl _ => None | inr b => Some b end; from_i64 := inl; from_f64 := fun b => if is_finite fmt64 b then Some (inr b) else None |}.

#[export] Instance demo_json_laws : JsonNumberLaws demo_json.
Proof. constructor; [done|]. intros b Hb Hf. exists (inr b). cbn. by rewrite Hf. Qed.

Lemma hit_metadata_roundtrip_witness :
  let hit := MkHit "a" 0 {["tag" := Keyword "x"; "year" := Integer 2024]} 7 in
  @try_from demo_json (MkApiPoint "a" [0] (response_metadata (@hit_response demo_json hit))) = Ok (MkUpsert "a" [0] (hit_metadata hit)).
Proof.
  intros hit. apply (@hit_metadata_roundtrip demo_json demo_json_laws hit [0]).
  apply map_Forall_insert_2; [by split|]. apply map_Forall_singleton. split; [by vm_compute|done].
Defined.
