(* ===== verification/Server.v ===== *)
(** * Server: the HTTP service ([src/src/server.rs])

    A request is the route the router chose with its decoded body.  [handle] is
    one request from the observing middleware inwards; the database is on a
    tree of directories.  The names of temporary files and directories and the
    time a query takes come with the request. *)

From Stdlib Require Import Ascii.
From stdpp Require Import base gmap sets list strings sorting.
From Stdlib Require Import ZArith Lia Floats.SpecFloat.
From S2P Require Import Prelude Errors Floats Ranking Metric Filter MetadataIndex Collection Wire Disk Manifest Persistence Environment Concurrent Tree Database Api.

Record ServerConfig : Type := MkServerConfig {
  bearer_token : option string; max_body_bytes : Z; config_max_batch_points : Z; config_max_k : Z; config_max_dimension : Z;
  config_max_ef_search : Z; max_concurrent_operations : Z
}.

Definition default_server : ServerConfig := MkServerConfig None (16 * 1024 * 1024) 1000 1000 4096 4096 64.

(** Counters are atomic 64-bit integers. *)
Record ServiceMetrics : Type := MkMetrics {
  requests : Z; errors : Z; queries : Z; query_microseconds : Z; upserted_points : Z; deleted_ids : Z; flushes : Z; backups : Z; restores : Z
}.
Definition no_metrics : ServiceMetrics := MkMetrics 0 0 0 0 0 0 0 0 0.

(** [AtomicU64::fetch_add] *)
Definition fetch_add (counter n : Z) : Z := wrap_u 64 (counter + n).

Definition count_request (m : ServiceMetrics) : ServiceMetrics :=
  MkMetrics (fetch_add (requests m) 1) (errors m) (queries m) (query_microseconds m) (upserted_points m) (deleted_ids m) (flushes m) (backups m) (restores m).
Definition count_error (m : ServiceMetrics) : ServiceMetrics :=
  MkMetrics (requests m) (fetch_add (errors m) 1) (queries m) (query_microseconds m) (upserted_points m) (deleted_ids m) (flushes m) (backups m) (restores m).
Definition count_query (elapsed : Z) (m : ServiceMetrics) : ServiceMetrics :=
  MkMetrics (requests m) (errors m) (fetch_add (queries m) 1) (fetch_add (query_microseconds m) (Z.min elapsed U64_MAX)) (upserted_points m) (deleted_ids m) (flushes m) (backups m) (restores m).
Definition count_upserted (n : Z) (m : ServiceMetrics) : ServiceMetrics :=
  MkMetrics (requests m) (errors m) (queries m) (query_microseconds m) (fetch_add (upserted_points m) n) (deleted_ids m) (flushes m) (backups m) (restores m).
Definition count_deleted (n : Z) (m : ServiceMetrics) : ServiceMetrics :=
  MkMetrics (requests m) (errors m) (queries m) (query_microseconds m) (upserted_points m) (fetch_add (deleted_ids m) n) (flushes m) (backups m) (restores m).
Definition count_flush (m : ServiceMetrics) : ServiceMetrics :=
  MkMetrics (requests m) (errors m) (queries m) (query_microseconds m) (upserted_points m) (deleted_ids m) (fetch_add (flushes m) 1) (backups m) (restores m).
Definition count_backup (m : ServiceMetrics) : ServiceMetrics :=
  MkMetrics (requests m) (errors m) (queries m) (query_microseconds m) (upserted_points m) (deleted_ids m) (flushes m) (fetch_add (backups m) 1) (restores m).
Definition count_restore (m : ServiceMetrics) : ServiceMetrics :=
  MkMetrics (requests m) (errors m) (queries m) (query_microseconds m) (upserted_points m) (deleted_ids m) (flushes m) (backups m) (fetch_add (restores m) 1).

(** *** The text of [/metrics] *)

Definition round_half_even (numerator denominator : Z) : Z :=
  let quotient := numerator / denominator in
  match Z.compare (2 * (numerator mod denominator)) denominator with
  | Lt => quotient
  | Gt => quotient + 1
  | Eq => if Z.even quotient then quotient else quotient + 1
  end.

Definition pad6 (digits : string) : string := String.concat "" (repeat "0" (6 - String.length digits)) +:+ digits.

(** [{:.6}] of an [f64]: its exact value, rounded to six decimals. *)
Definition fmt_fixed6 (b : Z) : string :=
  let signed (s : bool) (text : string) := (if s then "-" else "") +:+ text in
  match unpack fmt64 b with
  | S754_finite s m e =>
      let scaled := if Z.leb 0 e then Zpos m * 2 ^ e * 1000000 else round_half_even (Zpos m * 1000000) (2 ^ (- e)) in
      signed s (fmt_int (scaled / 1000000) +:+ "." +:+ pad6 (fmt_int (scaled mod 1000000)))
  | S754_zero s => signed s "0.000000"
  | S754_infinity s => signed s "inf"
  | S754_nan => "NaN"
  end.

Definition newline : string := String (ascii_of_N 10) EmptyString.
Definition metric_lines (name value : string) : string :=
  "# TYPE " +:+ name +:+ " counter" +:+ newline +:+ name +:+ " " +:+ value +:+ newline.

Definition metrics_text `{FloatEnv} (m : ServiceMetrics) : string :=
  metric_lines "focal_requests_total" (fmt_int (requests m)) +:+
  metric_lines "focal_errors_total" (fmt_int (errors m)) +:+
  metric_lines "focal_queries_total" (fmt_int (queries m)) +:+
  metric_lines "focal_query_seconds_total" (fmt_fixed6 (fdiv fmt64 (of_int fmt64 (query_microseconds m)) (of_int fmt64 1000000))) +:+
  metric_lines "focal_upserted_points_total" (fmt_int (upserted_points m)) +:+
  metric_lines "focal_deleted_ids_total" (fmt_int (deleted_ids m)) +:+
  metric_lines "focal_flushes_total" (fmt_int (flushes m)) +:+
  metric_lines "focal_backups_total" (fmt_int (backups m)) +:+
  metric_lines "focal_restores_total" (fmt_int (restores m)).

(** [admission]: the permits of the semaphore that nobody holds. *)
Record AppState : Type := MkApp {
  database : Database; token : option string; max_batch_points : Z; max_k : Z; max_dimension : Z; max_ef_search : Z;
  admission : Z; metrics : ServiceMetrics
}.

Definition with_database (self : AppState) (database : Database) : AppState :=
  MkApp database (token self) (max_batch_points self) (max_k self) (max_dimension self) (max_ef_search self) (admission self) (metrics self).
Definition with_metrics (self : AppState) (metrics : ServiceMetrics) : AppState :=
  MkApp (database self) (token self) (max_batch_points self) (max_k self) (max_dimension self) (max_ef_search self) (admission self) metrics.

Definition unlimited (config : ServerConfig) : bool :=
  Z.eqb (max_body_bytes config) 0 || Z.eqb (config_max_batch_points config) 0 || Z.eqb (config_max_k config) 0
  || Z.eqb (config_max_dimension config) 0 || Z.eqb (config_max_ef_search config) 0 || Z.eqb (max_concurrent_operations config) 0.

(** The state behind the routes. *)
Definition router (database : Database) (config : ServerConfig) : Result AppState :=
  if unlimited config then Err (InvalidConfig "server request limits must be greater than zero")
  else Ok (MkApp database (bearer_token config) (config_max_batch_points config) (config_max_k config) (config_max_dimension config)
             (config_max_ef_search config) (max_concurrent_operations config) no_metrics).

(** ** Authorization *)

(** The bytes of both are compared to the end of the longer one. *)
Definition byte_at (s : list byte) (i : nat) : Z := match s !! i with Some b => u8 b | None => 0 end.
Definition constant_time_equal (left right : list byte) : bool :=
  let difference := Z.lxor (zlen left) (zlen right) in
  let length := Nat.max (length left) (length right) in
  Z.eqb (fold_left (fun difference index => Z.lor difference (Z.lxor (byte_at left index) (byte_at right index))) (seq 0 length) difference) 0.

Fixpoint strip_prefix (prefix s : string) : option string :=
  match prefix, s with
  | EmptyString, _ => Some s
  | String c prefix', String c' s' => if Ascii.eqb c c' then strip_prefix prefix' s' else None
  | String _ _, EmptyString => None
  end.

(** [authorization] is the header as text, when it is there and is text. *)
Definition authorize (state : AppState) (authorization : option string) : Result unit :=
  match token state with
  | None => Ok tt
  | Some expected =>
      match authorization ≫= strip_prefix "Bearer " with
      | Some value => if constant_time_equal (bytes_of_string value) (bytes_of_string expected) then Ok tt else Err Unauthorized
      | None => Err Unauthorized
      end
  end.

(** ** Requests and responses *)

Section Server.
Context `{FloatEnv} `{J : JsonNumber} (avx2 : bool) (workers : nat) (pid : Z).
Context (var_os : string -> option EnvValue) (try_lock : string -> LockOutcome) (timeouts : string -> list string).
(** What the runtime says of a task that panicked. *)
Context (join_error : string).

Record CreateCollectionRequest : Type := MkCreate { create_dimension : Z; create_metric : ApiMetric }.
Record QueryRequest : Type := MkQuery { query_vector : list Z; query_k : Z; query_filter : option ApiFilter; query_ef_search : option Z }.

Inductive Request : Type :=
| Health
| Readiness
| Metrics
| ListBackups
| ListCollections
| CreateCollection (name : string) (request : CreateCollectionRequest)
| UpsertPoints (name : string) (points : list ApiPoint)
| DeletePoints (name : string) (ids : list string)
| Query (name : string) (request : QueryRequest) (elapsed : Z)
| FlushCollection (name temporary : string)
| BackupCollection (name backup temporary nonce : string)
| RestoreCollection (backup name nonce : string).

Record CollectionResponse : Type := MkCollectionResponse {
  collection_name : string; collection_dimension : Z; collection_metric : ApiMetric; collection_points : Z;
  collection_latest_sequence : Z; collection_pending_points : Z
}.

Inductive Body : Type :=
| StatusBody (status : string)
| SequenceBody (sequence : Z)
| CollectionsBody (collections : list CollectionResponse)
| BackupsBody (backups : list string)
| QueryBody (hits : list HitResponse)
| TextBody (text : string)
| ErrorBody (error : string).

Record Response : Type := MkResponse { status : Z; body : Body }.

Definition status_code (error : Error) : Z :=
  match error with
  | InvalidDimension _ _ | InvalidVector _ | InvalidConfig _ | InvalidConfiguration _ | InvalidQuery _ => 400
  | NotFound _ => 404
  | AlreadyExists _ => 409
  | Unauthorized => 401
  | ResourceExhausted _ => 429
  | Io _ | CorruptStorage _ | Concurrency _ | SequenceOverflow => 500
  end.
Definition into_response (error : Error) : Response := MkResponse (status_code error) (ErrorBody (to_string error)).

Definition collection_response (summary : CollectionSummary) : CollectionResponse :=
  MkCollectionResponse (summary_name summary) (dimension (summary_config summary)) (metric_to (Collection.metric (summary_config summary)))
    (summary_points summary) (summary_latest_sequence summary) (summary_pending_points summary).

(** A storage operation takes a permit for its time; a panic in it is caught
    at the end of its task. *)
Definition blocking {T : Type} (state : AppState) (operation : Database -> io_of Tree (Result T * Database))
    : io_of Tree (Result T * AppState) :=
  if Z.eqb (admission state) 0 then ioret (Err (ResourceExhausted "too many concurrent storage operations"), state)
  else
    let* (result, database) := operation (database state) in
    let result := match result with Panic => Err (Concurrency ("blocking task failed: " +:+ join_error)) | _ => result end in
    ioret (result, with_database state database).

(** The rest of a handler, after its checks and its storage operation. *)
Definition answering {T : Type} (checked : Result T) (state : AppState) (k : T -> io_of Tree (Result Response * AppState))
    : io_of Tree (Result Response * AppState) :=
  match checked with
  | Ok value => k value
  | Err e => ioret (Err e, state)
  | Panic => ioret (Panic, state)
  end.
Definition finishing {T : Type} (count : ServiceMetrics -> ServiceMetrics) (response : T -> Response) (done : Result T * AppState)
    : Result Response * AppState :=
  match done with
  | (Ok value, state) => (Ok (response value), with_metrics state (count (metrics state)))
  | (Err e, state) => (Err e, state)
  | (Panic, state) => (Panic, state)
  end.

Definition list_backups_handler (state : AppState) (authorization : option string) : io_of Tree (Result Response * AppState) :=
  answering (authorize state authorization) state (fun _ =>
    let* done := blocking state (fun database => let* result := Database.list_backups in ioret (result, database)) in
    ioret (finishing (fun m => m) (fun backups => MkResponse 200 (BackupsBody backups)) done)).

Definition list_collections_handler (state : AppState) (authorization : option string) : io_of Tree (Result Response * AppState) :=
  answering (authorize state authorization) state (fun _ =>
    let* done := blocking state (fun database => ioret (Database.list_collections database, database)) in
    ioret (finishing (fun m => m) (fun collections => MkResponse 200 (CollectionsBody (map collection_response collections))) done)).

Definition check_dimension (dimension max_dimension : Z) : Result unit :=
  if Z.eqb dimension 0 || Z.ltb max_dimension dimension
  then Err (ResourceExhausted ("dimension must be between 1 and " +:+ fmt_int max_dimension))
  else Ok tt.

Definition create_collection_handler (state : AppState) (authorization : option string) (name : string) (request : CreateCollectionRequest)
    : io_of Tree (Result Response * AppState) :=
  answering (let? _ := authorize state authorization in check_dimension (create_dimension request) (max_dimension state)) state (fun _ =>
    let* done := blocking state (fun database =>
      Database.create_collection avx2 var_os try_lock timeouts database name
        (MkConfig (create_dimension request) (metric_from (create_metric request)))) in
    ioret (finishing (fun m => m) (fun _ => MkResponse 201 (SequenceBody 0)) done)).

Definition check_batch {A : Type} (operation items : string) (batch : list A) (max_batch_points : Z) : Result unit :=
  if bool_decide (batch = []) || Z.ltb max_batch_points (zlen batch)
  then Err (ResourceExhausted (operation +:+ " batch must contain 1-" +:+ fmt_int max_batch_points +:+ " " +:+ items))
  else Ok tt.

Definition upsert_points_handler (state : AppState) (authorization : option string) (name : string) (points : list ApiPoint)
    : io_of Tree (Result Response * AppState) :=
  answering (let? _ := authorize state authorization in
             let? _ := check_batch "upsert" "points" points (max_batch_points state) in
             mapM_result try_from points) state (fun converted =>
    let* done := blocking state (fun database => on_collection database name (fun shared => Concurrent.upsert shared converted)) in
    ioret (finishing (count_upserted (zlen points)) (fun sequence => MkResponse 200 (SequenceBody sequence)) done)).

Definition delete_points_handler (state : AppState) (authorization : option string) (name : string) (ids : list string)
    : io_of Tree (Result Response * AppState) :=
  answering (let? _ := authorize state authorization in check_batch "delete" "IDs" ids (max_batch_points state)) state (fun _ =>
    let* done := blocking state (fun database => on_collection database name (fun shared => Concurrent.delete shared ids)) in
    ioret (finishing (count_deleted (zlen ids)) (fun sequence => MkResponse 200 (SequenceBody sequence)) done)).

Definition check_query (k max_k : Z) (ef_search : option Z) (max_ef_search : Z) : Result unit :=
  if Z.eqb k 0 || Z.ltb max_k k then Err (ResourceExhausted ("k must be between 1 and " +:+ fmt_int max_k))
  else if match ef_search with Some value => Z.ltb max_ef_search value | None => false end
  then Err (ResourceExhausted ("ef_search must not exceed " +:+ fmt_int max_ef_search))
  else Ok tt.

(** [filter.map(..).transpose()?] *)
Definition convert_filter (filter : option ApiFilter) : Result (option Filter) :=
  match filter with
  | Some filter => let? filter := into_filter filter 0 in Ok (Some filter)
  | None => Ok None
  end.

(** The search of a query, and the hits; the indexes' workspaces change hands. *)
Definition search_collection (name : string) (vector : list Z) (k : Z) (filter : option Filter) (ef_search : option Z)
    (database : Database) : io_of Tree (Result (list SearchHit) * Database) :=
  on_collection database name (fun shared => ioret
    match ef_search with
    | Some ef => Concurrent.search_with_ef avx2 shared vector k filter ef
    | None => Concurrent.search avx2 shared vector k filter
    end).

Definition query_handler (state : AppState) (authorization : option string) (name : string) (request : QueryRequest) (elapsed : Z)
    : io_of Tree (Result Response * AppState) :=
  answering (let? _ := authorize state authorization in
             let? _ := check_query (query_k request) (max_k state) (query_ef_search request) (max_ef_search state) in
             convert_filter (query_filter request)) state (fun filter =>
    let* done := blocking state (search_collection name (query_vector request) (query_k request) filter (query_ef_search request)) in
    ioret (finishing (count_query elapsed) (fun hits => MkResponse 200 (QueryBody (map hit_response hits))) done)).

Definition flush_handler (state : AppState) (authorization : option string) (name temporary : string)
    : io_of Tree (Result Response * AppState) :=
  answering (authorize state authorization) state (fun _ =>
    let* done := blocking state (fun database =>
      on_collection database name (fun shared => Concurrent.flush avx2 workers pid shared temporary)) in
    ioret (finishing count_flush (fun sequence => MkResponse 200 (SequenceBody sequence)) done)).

Definition backup_collection_handler (state : AppState) (authorization : option string) (name backup temporary nonce : string)
    : io_of Tree (Result Response * AppState) :=
  answering (authorize state authorization) state (fun _ =>
    let* done := blocking state (fun database => Database.backup_collection avx2 workers pid database name backup temporary nonce) in
    ioret (finishing count_backup (fun sequence => MkResponse 201 (SequenceBody sequence)) done)).

(** The sequence is read after the operation has ended. *)
Definition restore_collection_handler (state : AppState) (authorization : option string) (backup name nonce : string)
    : io_of Tree (Result Response * AppState) :=
  answering (authorize state authorization) state (fun _ =>
    let* (restored, state) := blocking state (fun database =>
      Database.restore_collection avx2 var_os try_lock timeouts database backup name nonce) in
    ioret (finishing count_restore (fun sequence => MkResponse 201 (SequenceBody sequence))
      (let? collection := restored in Concurrent.latest_sequence collection, state))).

Definition readiness (state : AppState) : Response :=
  if Database.is_ready (database state) then MkResponse 200 (StatusBody "ready") else MkResponse 503 (StatusBody "not_ready").

Definition route (state : AppState) (authorization : option string) (request : Request) : io_of Tree (Result Response * AppState) :=
  match request with
  | Health => ioret (Ok (MkResponse 200 (StatusBody "ok")), state)
  | Readiness => ioret (Ok (readiness state), state)
  | Metrics => ioret (Ok (MkResponse 200 (TextBody (metrics_text (metrics state)))), state)
  | ListBackups => list_backups_handler state authorization
  | ListCollections => list_collections_handler state authorization
  | CreateCollection name request => create_collection_handler state authorization name request
  | UpsertPoints name points => upsert_points_handler state authorization name points
  | DeletePoints name ids => delete_points_handler state authorization name ids
  | Query name request elapsed => query_handler state authorization name request elapsed
  | FlushCollection name temporary => flush_handler state authorization name temporary
  | BackupCollection name backup temporary nonce => backup_collection_handler state authorization name backup temporary nonce
  | RestoreCollection backup name nonce => restore_collection_handler state authorization backup name nonce
  end.

(** The middleware counts the request, and the response when it is an error. *)
Definition observed (result : Result Response) (state : AppState) : Result Response * AppState :=
  let answer response := (Ok response, if Z.leb 400 (status response) then with_metrics state (count_error (metrics state)) else state) in
  match result with
  | Ok response => answer response
  | Err e => answer (into_response e)
  | Panic => (Panic, state)
  end.
Definition observe (state : AppState) (authorization : option string) (request : Request) : io_of Tree (Result Response * AppState) :=
  let* (result, state) := route (with_metrics state (count_request (metrics state))) authorization request in
  ioret (observed result state).
End Server.
