(* ===== verification/Local.v ===== *)
(** * Local: the local service and its client

    The protocol's types ([src/crates/focal-vector-protocol/src/lib.rs]), the
    service on a Unix socket ([src/src/local.rs]) and the blocking client
    ([src/crates/focal-vector-client/src/lib.rs]).  Reading and writing JSON and
    the connection are parameters. *)

From stdpp Require Import base gmap sets list strings sorting.
From Stdlib Require Import ZArith Lia.
From S2P Require Import Prelude Errors Floats Ranking Metric Filter MetadataIndex Collection Wire Disk Persistence Environment Concurrent Tree Database Api.
From S2P Require Server.

(** ** The protocol *)

Definition PROTOCOL_VERSION : Z := 1.
Definition DEFAULT_SOCKET_NAME : string := "focal-vector.sock".
Definition SOCKET_ENV : string := "FOCAL_VECTOR_SOCKET".

Record Envelope (T : Type) : Type := MkEnvelope { protocol_version : Z; payload : T }.
Arguments MkEnvelope {_} _ _.
Arguments protocol_version {_} _.
Arguments payload {_} _.

Definition current {T : Type} (payload : T) : Envelope T := MkEnvelope PROTOCOL_VERSION payload.

(** [Read::take] and [read_to_end]: at most [limit] bytes. *)
Fixpoint take_bytes (limit : Z) (bytes : list byte) : list byte :=
  match bytes with
  | [] => []
  | b :: bytes' => if Z.leb limit 0 then [] else b :: take_bytes (limit - 1) bytes'
  end.

(** The types of the protocol, under the crate's name. *)
Module protocol.
Inductive Metric : Type := Cosine | DotProduct | Euclidean.

Section Types.
Context `{J : JsonNumber}.

Record Point : Type := MkPoint { id : string; vector : list Z; metadata : gmap string JsonValue }.

Inductive Filter : Type :=
| MatchAll
| Eq (field : string) (value : JsonValue)
| Range (field : string) (gte lt : option Z)
| And (filters : list Filter)
| Or (filters : list Filter)
| Not (filter : Filter).

Inductive Request : Type :=
| Hello
| ListCollections
| CreateCollection (name : string) (dimension : Z) (metric : Metric)
| Upsert (collection : string) (points : list Point)
| Delete (collection : string) (ids : list string)
| Query (collection : string) (vector : list Z) (k : Z) (filter : option Filter) (ef_search : option Z)
| Flush (collection : string).

Record CollectionInfo : Type := MkInfo {
  info_name : string; info_dimension : Z; info_metric : Metric; info_points : Z; info_latest_sequence : Z; info_pending_points : Z
}.

Record SearchHit : Type := MkHit { hit_id : string; hit_score : Z; hit_metadata : gmap string JsonValue; hit_sequence : Z }.

Inductive Response : Type :=
| HelloResponse (server_version : string)
| Collections (collections : list CollectionInfo)
| Created (collection : CollectionInfo)
| SequenceResponse (sequence : Z)
| QueryResponse (hits : list SearchHit)
| ErrorResponse (code message : string).
End Types.
End protocol.

(** ** Conversions

    Written again for the protocol's types. *)

Section Protocol.
Context `{J : JsonNumber}.

Definition metadata_value (value : JsonValue) : Result Value :=
  match value with
  | JString value => Ok (Keyword value)
  | Bool value => Ok (Boolean value)
  | JNumber value =>
      match as_i64 value with
      | Some value => Ok (Integer value)
      | None =>
          match as_f64 value with
          | Some value => if is_finite fmt64 value then Ok (Float value) else Err (InvalidQuery "metadata number is out of range")
          | None => Err (InvalidQuery "metadata number is out of range")
          end
      end
  | _ => Err (InvalidQuery "metadata values must be strings, numbers, or booleans")
  end.

Definition json_value (value : Value) : JsonValue :=
  match value with
  | Keyword value => JString value
  | Integer value => JNumber (from_i64 value)
  | Float value => match from_f64 value with Some n => JNumber n | None => Null end
  | Boolean value => Bool value
  end.

Definition validated_field (field : string) : Result string :=
  if String.eqb field "" || Z.ltb 128 (str_len field)
  then Err (InvalidQuery "filter field names must contain 1-128 bytes")
  else Ok field.

Definition point_from_protocol (point : protocol.Point) : Result UpsertPoint :=
  let? metadata := mapM_result (fun e => let? value := metadata_value e.2 in Ok (e.1, value)) (in_key_order (protocol.metadata point)) in
  Ok (MkUpsert (protocol.id point) (protocol.vector point) (list_to_map metadata)).

Fixpoint filter_from_protocol_bounded (filter : protocol.Filter) (depth remaining : Z) : Result (Filter * Z) :=
  if Z.leb 32 depth then Err (ResourceExhausted "filter nesting exceeds 32 levels")
  else if Z.ltb remaining 1 then Err (ResourceExhausted "filter contains more than 1024 nodes")
  else
    let remaining := remaining - 1 in
    let each := fix each (filters : list protocol.Filter) (remaining : Z) : Result (list Filter * Z) :=
      match filters with
      | [] => Ok ([], remaining)
      | filter :: filters' =>
          let? (filter, remaining) := filter_from_protocol_bounded filter (depth + 1) remaining in
          let? (filters, remaining) := each filters' remaining in
          Ok (filter :: filters, remaining)
      end in
    match filter with
    | protocol.MatchAll => Ok (MatchAll, remaining)
    | protocol.Eq field value =>
        let? field := validated_field field in
        let? value := metadata_value value in
        Ok (FEq field value, remaining)
    | protocol.Range field gte lt =>
        let? field := validated_field field in
        Ok (FRange field gte lt, remaining)
    | protocol.And filters => let? (filters, remaining) := each filters remaining in Ok (FAnd filters, remaining)
    | protocol.Or filters => let? (filters, remaining) := each filters remaining in Ok (FOr filters, remaining)
    | protocol.Not filter =>
        let? (filter, remaining) := filter_from_protocol_bounded filter (depth + 1) remaining in Ok (FNot filter, remaining)
    end.

Definition filter_from_protocol (filter : protocol.Filter) : Result Filter :=
  let? (filter, _) := filter_from_protocol_bounded filter 0 1024 in Ok filter.

Definition metric_from_protocol (metric : protocol.Metric) : Metric :=
  match metric with protocol.Cosine => Cosine | protocol.DotProduct => DotProduct | protocol.Euclidean => Euclidean end.
Definition metric_to_protocol (metric : Metric) : protocol.Metric :=
  match metric with Cosine => protocol.Cosine | DotProduct => protocol.DotProduct | Euclidean => protocol.Euclidean end.

Definition search_hit (hit : SearchHit) : protocol.SearchHit :=
  protocol.MkHit (hit_id hit) (hit_score hit) (json_value <$> hit_metadata hit) (hit_sequence hit).

(** ** The service *)

Record LocalState : Type := MkLocal {
  database : Database; max_body_bytes : Z; max_batch_points : Z; max_k : Z; max_dimension : Z; max_ef_search : Z; admission : Z; uid : Z
}.

Definition with_database (self : LocalState) (database : Database) : LocalState :=
  MkLocal database (max_body_bytes self) (max_batch_points self) (max_k self) (max_dimension self) (max_ef_search self) (admission self) (uid self).

Definition validate_limits (config : Server.ServerConfig) : Result unit :=
  if Server.unlimited config then Err (InvalidConfig "server request limits must be greater than zero") else Ok tt.

(** The state that [serve_local] makes for its connections. *)
Definition local_state (database : Database) (config : Server.ServerConfig) (uid : Z) : Result LocalState :=
  let? _ := validate_limits config in
  Ok (MkLocal database (Server.max_body_bytes config) (Server.config_max_batch_points config) (Server.config_max_k config)
        (Server.config_max_dimension config) (Server.config_max_ef_search config) (Server.max_concurrent_operations config) uid).

Definition error_code (error : Error) : string :=
  match error with
  | InvalidDimension _ _ | InvalidVector _ | InvalidConfig _ | InvalidConfiguration _ | InvalidQuery _ => "invalid_request"
  | NotFound _ => "not_found"
  | AlreadyExists _ => "already_exists"
  | Unauthorized => "unauthorized"
  | ResourceExhausted _ => "resource_exhausted"
  | Io _ | CorruptStorage _ | Concurrency _ | SequenceOverflow => "internal"
  end.
Definition error_response (error : Error) : protocol.Response := protocol.ErrorResponse (error_code error) (to_string error).

Definition collection_info (summary : CollectionSummary) : protocol.CollectionInfo :=
  protocol.MkInfo (summary_name summary) (dimension (summary_config summary)) (metric_to_protocol (Collection.metric (summary_config summary)))
    (summary_points summary) (summary_latest_sequence summary) (summary_pending_points summary).

Section Service.
Context `{FloatEnv} (avx2 : bool) (workers : nat) (pid : Z).
Context (var_os : string -> option EnvValue) (try_lock : string -> LockOutcome) (timeouts : string -> list string).
Context (join_error server_version : string).

(** A refused request, or the operation on the database that answers it. *)
Definition checked {T : Type} (check : Result T) (database : Database) (k : T -> io_of Tree (Result protocol.Response * Database))
    : io_of Tree (Result protocol.Response * Database) :=
  match check with
  | Ok value => k value
  | Err e => ioret (Err e, database)
  | Panic => ioret (Panic, database)
  end.
Definition answer {T : Type} (response : T -> Result protocol.Response) (operation : io_of Tree (Result T * Database)) : io_of Tree (Result protocol.Response * Database) :=
  let* (result, database) := operation in
  ioret (rbind result response, database).

(** [filter.map(..).transpose()?] *)
Definition convert_filter (filter : option protocol.Filter) : Result (option Filter) :=
  match filter with
  | Some filter => let? filter := filter_from_protocol filter in Ok (Some filter)
  | None => Ok None
  end.

(** [temporary] names the file of a flush. *)
Definition dispatch_blocking (state : LocalState) (request : protocol.Request) (temporary : string) : io_of Tree (Result protocol.Response * Database) :=
  let database := database state in
  match request with
  | protocol.Hello => ioret (Panic, database)
  | protocol.ListCollections =>
      answer (fun collections => Ok (protocol.Collections (map collection_info collections))) (ioret (Database.list_collections database, database))
  | protocol.CreateCollection name dimension metric =>
      checked (Server.check_dimension dimension (max_dimension state)) database (fun _ =>
        answer (fun collection =>
            let? latest_sequence := Concurrent.latest_sequence collection in
            Ok (protocol.Created (protocol.MkInfo name dimension (metric_to_protocol (metric_from_protocol metric)) 0 latest_sequence 0)))
          (Database.create_collection avx2 var_os try_lock timeouts database name (MkConfig dimension (metric_from_protocol metric))))
  | protocol.Upsert collection points =>
      checked (let? _ := Server.check_batch "upsert" "points" points (max_batch_points state) in mapM_result point_from_protocol points) database (fun points =>
        answer (fun sequence => Ok (protocol.SequenceResponse sequence)) (on_collection database collection (fun shared => Concurrent.upsert shared points)))
  | protocol.Delete collection ids =>
      checked (Server.check_batch "delete" "IDs" ids (max_batch_points state)) database (fun _ =>
        answer (fun sequence => Ok (protocol.SequenceResponse sequence)) (on_collection database collection (fun shared => Concurrent.delete shared ids)))
  | protocol.Query collection vector k filter ef_search =>
      checked (let? _ := Server.check_query k (max_k state) ef_search (max_ef_search state) in convert_filter filter) database (fun filter =>
        answer (fun hits => Ok (protocol.QueryResponse (map search_hit hits)))
          (Server.search_collection avx2 collection vector k filter ef_search database))
  | protocol.Flush collection =>
      answer (fun sequence => Ok (protocol.SequenceResponse sequence))
        (on_collection database collection (fun shared => Concurrent.flush avx2 workers pid shared temporary))
  end.

(** A panic in the blocking task is caught at its end. *)
Definition dispatch (state : LocalState) (request : protocol.Request) (temporary : string) : io_of Tree (Result protocol.Response * LocalState) :=
  match request with
  | protocol.Hello => ioret (Ok (protocol.HelloResponse server_version), state)
  | _ =>
      if Z.eqb (admission state) 0 then ioret (Err (ResourceExhausted "too many concurrent storage operations"), state)
      else
        let* (result, database) := dispatch_blocking state request temporary in
        let result := match result with Panic => Err (Concurrency ("local IPC task failed: " +:+ join_error)) | _ => result end in
        ioret (result, with_database state database)
  end.

(** [serde_json::from_slice] and [serde_json::to_vec]; an error is its text. *)
Context (parse_request : list byte -> Envelope protocol.Request + string) (print_response : Envelope protocol.Response -> list byte + string).

Definition dispatch_envelope (state : LocalState) (input : list byte) (temporary : string) : io_of Tree (Result protocol.Response * LocalState) :=
  match parse_request input with
  | inr error => ioret (Ok (error_response (InvalidConfiguration ("invalid local IPC request: " +:+ error))), state)
  | inl envelope =>
      if negb (Z.eqb (protocol_version envelope) PROTOCOL_VERSION)
      then ioret (Ok (protocol.ErrorResponse "unsupported_protocol"
             ("client sent protocol version " +:+ fmt_int (protocol_version envelope) +:+ "; server supports " +:+ fmt_int PROTOCOL_VERSION)), state)
      else
        let* (result, state) := dispatch state (payload envelope) temporary in
        ioret (match result with Err e => Ok (error_response e) | _ => result end, state)
  end.

(** One connection of a peer: the bytes it sent, and the bytes it is sent. *)
Definition handle_connection (state : LocalState) (peer : Z) (sent : list byte) (temporary : string)
    : io_of Tree (Result (list byte) * LocalState) :=
  if negb (Z.eqb peer (uid state)) then ioret (Err Unauthorized, state)
  else
    let input := take_bytes (wrap_u 64 (max_body_bytes state + 1)) sent in
    let* (response, state) :=
      (if Z.ltb (max_body_bytes state) (zlen input)
       then ioret (Ok (error_response (ResourceExhausted "local IPC request exceeds the configured body limit")), state)
       else dispatch_envelope state input temporary) in
    ioret (let? response := response in
           match print_response (current response) with
           | inl output => Ok output
           | inr error => Err (Concurrency ("could not encode IPC response: " +:+ error))
           end, state).
End Service.

(** ** The client *)

Inductive ClientError : Type :=
| Configuration (message : string)
| ClientIo (error : string)
| Protocol (message : string)
| Service (code message : string).

Definition client_error_display (self : ClientError) : string :=
  match self with
  | Configuration message | Protocol message => message
  | ClientIo error => "Focal Vector IPC failed: " +:+ error
  | Service code message => "Focal Vector " +:+ code +:+ ": " +:+ message
  end.

(** [timeout] in seconds. *)
Record Client : Type := MkClient { socket : string; timeout : Z; max_response_bytes : Z }.

Definition DEFAULT_MAX_RESPONSE_BYTES : Z := 16 * 1024 * 1024.
Definition new (socket : string) : Client := MkClient socket 30 DEFAULT_MAX_RESPONSE_BYTES.
Definition with_timeout (self : Client) (timeout : Z) : Client := MkClient (socket self) timeout (max_response_bytes self).

(** Paths are Unix paths of text; [None] when the variable is not set. *)
Definition socket_path (var_os : string -> option string) : string + ClientError :=
  match var_os SOCKET_ENV with
  | Some (String _ _ as path) => inl path
  | _ =>
      match var_os "XDG_RUNTIME_DIR" with
      | Some (String _ _ as runtime) => inl (join (join runtime "focaldesk") DEFAULT_SOCKET_NAME)
      | _ => inr (Configuration "XDG_RUNTIME_DIR is required when FOCAL_VECTOR_SOCKET is unset")
      end
  end.
Definition from_environment (var_os : string -> option string) : Client + ClientError :=
  match socket_path var_os with inl path => inl (new path) | inr e => inr e end.

Section Exchange.
(** Writing and reading JSON; the printed form of an unexpected response. *)
Context (print_request : Envelope protocol.Request -> list byte + string) (parse_response : list byte -> Envelope protocol.Response + string).
Context (debug_response : protocol.Response -> string).

(** The body of a request, and what the client makes of the bytes it reads:
    a connection is asked in between. *)
Definition encode_request (request : protocol.Request) : list byte + ClientError :=
  match print_request (current request) with
  | inl body => inl body
  | inr error => inr (Protocol ("could not encode IPC request: " +:+ error))
  end.

Definition decode_response (self : Client) (received : list byte) : protocol.Response + ClientError :=
  let response := take_bytes (wrap_u 64 (max_response_bytes self + 1)) received in
  if Z.ltb (max_response_bytes self) (zlen response) then inr (Protocol "IPC response exceeds the configured limit")
  else
    match parse_response response with
    | inr error => inr (Protocol ("invalid IPC response: " +:+ error))
    | inl envelope =>
        if negb (Z.eqb (protocol_version envelope) PROTOCOL_VERSION)
        then inr (Protocol ("unsupported IPC protocol version " +:+ fmt_int (protocol_version envelope) +:+ "; client supports " +:+ fmt_int PROTOCOL_VERSION))
        else
          match payload envelope with
          | protocol.ErrorResponse code message => inr (Service code message)
          | response => inl response
          end
    end.

(** A connection sends the body and receives bytes, or fails. *)
Definition Connection (W : Type) : Type := W -> list byte -> (list byte + string) * W.

Definition request {W : Type} (exchange : Connection W) (self : Client) (request : protocol.Request) (w : W) : (protocol.Response + ClientError) * W :=
  match encode_request request with
  | inr error => (inr error, w)
  | inl body =>
      let '(received, w) := exchange w body in
      (match received with
       | inl received => decode_response self received
       | inr error => inr (ClientIo error)
       end, w)
  end.

Definition unexpected (operation : string) (response : protocol.Response) : ClientError :=
  Protocol ("unexpected " +:+ operation +:+ " response: " +:+ debug_response response).

(** Each call expects one kind of response. *)
Definition expecting {T : Type} (operation : string) (accept : protocol.Response -> option T) (result : protocol.Response + ClientError) : T + ClientError :=
  match result with
  | inr error => inr error
  | inl response => match accept response with Some value => inl value | None => inr (unexpected operation response) end
  end.

Section Calls.
Context {W : Type} (exchange : Connection W) (self : Client) (w : W).

Definition calling {T : Type} (operation : string) (accept : protocol.Response -> option T) (r : protocol.Request) : (T + ClientError) * W :=
  let '(result, w) := request exchange self r w in (expecting operation accept result, w).

Definition hello : (string + ClientError) * W :=
  calling "hello" (fun response => match response with protocol.HelloResponse server_version => Some server_version | _ => None end) protocol.Hello.
Definition list_collections : (list protocol.CollectionInfo + ClientError) * W :=
  calling "list_collections" (fun response => match response with protocol.Collections collections => Some collections | _ => None end) protocol.ListCollections.
Definition create_collection (name : string) (dimension : Z) (metric : protocol.Metric) : (protocol.CollectionInfo + ClientError) * W :=
  calling "create_collection" (fun response => match response with protocol.Created collection => Some collection | _ => None end)
    (protocol.CreateCollection name dimension metric).
Definition sequence (r : protocol.Request) : (Z + ClientError) * W :=
  calling "mutation" (fun response => match response with protocol.SequenceResponse sequence => Some sequence | _ => None end) r.
Definition upsert (collection : string) (points : list protocol.Point) : (Z + ClientError) * W := sequence (protocol.Upsert collection points).
Definition delete (collection : string) (ids : list string) : (Z + ClientError) * W := sequence (protocol.Delete collection ids).
Definition query (collection : string) (vector : list Z) (k : Z) (filter : option protocol.Filter) (ef_search : option Z)
    : (list protocol.SearchHit + ClientError) * W :=
  calling "query" (fun response => match response with protocol.QueryResponse hits => Some hits | _ => None end) (protocol.Query collection vector k filter ef_search).
Definition flush (collection : string) : (Z + ClientError) * W := sequence (protocol.Flush collection).
End Calls.
End Exchange.
End Protocol.
