(* ===== verification/ServerFacts.v ===== *)
(** * ServerFacts: the services around the database

    Authorization, the durability of what the HTTP service acknowledges, and
    the local service as the same service under another protocol. *)

From Stdlib Require Import Ascii.
From stdpp Require Import base gmap sets list strings sorting.
From Stdlib Require Import ZArith Lia.
From S2P Require Import Prelude Errors Floats Ranking Metric Filter MetadataIndex Collection CollectionFacts Codec Wire WireFacts Wal.
From S2P Require Import Disk DiskFacts Segment Manifest ManifestFacts Persistence Recovery Durability FlushFacts Environment Concurrent.
From S2P Require Import Creation Tree TreeFacts Database DatabaseFacts Api ApiFacts Server.
From S2P Require Local.

(** ** Comparing tokens *)

Lemma fold_lor_zero (f : nat -> Z) l acc :
  fold_left (fun d i => Z.lor d (f i)) l acc = 0 <-> acc = 0 /\ Forall (fun i => f i = 0) l.
Proof.
  revert acc. induction l as [|i l IH]; intros acc; cbn [fold_left]; [split; [intros ->; by split|by intros [-> _]]|].
  rewrite IH, Z.lor_eq_0_iff, Forall_cons. tauto.
Qed.

Lemma byte_at_inj l r : length l = length r -> (forall i, (i < length l)%nat -> byte_at l i = byte_at r i) -> l = r.
Proof.
  intros Hl Hi. apply list_eq_same_length with (length l); [done|done|]. intros i x y Hlt Hx Hy. specialize (Hi i Hlt). unfold byte_at in Hi.
  rewrite Hx, Hy in Hi. by apply u8_inj.
Qed.

Lemma constant_time_equal_spec l r : constant_time_equal l r = true <-> l = r.
Proof.
  unfold constant_time_equal. rewrite Z.eqb_eq, (fold_lor_zero (fun i => Z.lxor (byte_at l i) (byte_at r i))), Z.lxor_eq_0_iff. split.
  - intros [Hl Hi]. assert (length l = length r) as E by (unfold zlen in Hl; lia). apply byte_at_inj; [done|].
    intros i Hlt. rewrite Forall_forall in Hi. apply Z.lxor_eq_0_iff, Hi. apply elem_of_seq. lia.
  - intros ->. split; [done|]. apply Forall_forall. intros i _. apply Z.lxor_eq_0_iff. done.
Qed.

Lemma bytes_of_string_inj s s' : bytes_of_string s = bytes_of_string s' -> s = s'.
Proof. intros E. rewrite <- (string_of_bytes_of_string s), <- (string_of_bytes_of_string s'). by rewrite E. Qed.

Lemma strip_prefix_spec prefix s t : strip_prefix prefix s = Some t <-> s = prefix +:+ t.
Proof.
  revert s. induction prefix as [|c prefix IH]; intros s; [cbn; split; [by intros [= ->]|by intros ->]|].
  change (String c prefix +:+ t) with (String c (prefix +:+ t)). destruct s as [|c' s]; cbn [strip_prefix]; [done|].
  destruct (Ascii.eqb_spec c c') as [<-|Hne]; [rewrite IH; split; [by intros ->|by intros [= ->]]|split; [done|by intros [= -> ?]]].
Qed.

Lemma authorize_spec state authorization :
  authorize state authorization =
  match token state with
  | None => Ok tt
  | Some expected => if decide (authorization = Some ("Bearer " +:+ expected)) then Ok tt else Err Unauthorized
  end.
Proof.
  unfold authorize. destruct (token state) as [expected|]; [|done].
  destruct authorization as [value|]; cbn [mbind option_bind]; [|by rewrite decide_False].
  destruct (strip_prefix "Bearer " value) as [supplied|] eqn:E.
  - apply strip_prefix_spec in E as ->. destruct (constant_time_equal _ _) eqn:Eq.
    + apply constant_time_equal_spec, bytes_of_string_inj in Eq as ->. by rewrite decide_True.
    + rewrite decide_False; [done|]. intros [= E]. change (supplied = expected) in E. subst supplied.
      by rewrite (proj2 (constant_time_equal_spec _ _) eq_refl) in Eq.
  - rewrite decide_False; [done|]. intros [= ->]. by rewrite (proj2 (strip_prefix_spec "Bearer " _ expected) eq_refl) in E.
Qed.

Section Facts.
Context `{FloatEnv} `{J : JsonNumber} (avx2 : bool) (workers : nat) (pid : Z).
Context (var_os : string -> option EnvValue) (try_lock : string -> LockOutcome) (timeouts : string -> list string).
Context (join_error : string).

(** The routes that anyone may ask. *)
Definition public (request : Request) : bool := match request with Health | Readiness | Metrics => true | _ => false end.

Notation observe := (observe avx2 workers pid var_os try_lock timeouts join_error).
Notation route := (route avx2 workers pid var_os try_lock timeouts join_error).

(** C19 (unauthorized_untouched). With a token configured, a request for data
    whose authorization is anything but the bearer token - missing, shorter,
    longer or different in any byte - is answered 401 and touches nothing: not
    the files, not the database, only the two counters. *)
Theorem unauthorized_untouched state expected authorization request w :
  token state = Some expected -> authorization <> Some ("Bearer " +:+ expected) -> public request = false ->
  observe state authorization request w =
    Returned (Ok (MkResponse 401 (ErrorBody "unauthorized")), with_metrics state (count_error (count_request (metrics state)))) w.
Proof.
  intros Ht Ha Hp. unfold Server.observe. set (state' := with_metrics state _).
  assert (authorize state' authorization = Err Unauthorized) as E by (rewrite authorize_spec; cbn [token state' with_metrics]; by rewrite Ht, decide_False).
  assert (route state' authorization request = ioret (Err Unauthorized, state')) as ->; [|done].
  destruct request; try done; cbn [Server.route].
  all: unfold list_backups_handler, list_collections_handler, create_collection_handler, upsert_points_handler, delete_points_handler,
    query_handler, flush_handler, backup_collection_handler, restore_collection_handler; rewrite E; done.
Qed.

(** ** The local service is the same service *)

Definition same_service (l : Local.LocalState) (s : AppState) : Prop :=
  Local.database l = database s /\ Local.max_batch_points l = max_batch_points s /\ Local.max_k l = max_k s /\
  Local.max_dimension l = max_dimension s /\ Local.max_ef_search l = max_ef_search s /\ Local.admission l = admission s.

(** The same request and answer in the types of the other service. *)
Definition api_metric (metric : Local.protocol.Metric) : ApiMetric :=
  match metric with Local.protocol.Cosine => ApiCosine | Local.protocol.DotProduct => ApiDotProduct | Local.protocol.Euclidean => ApiEuclidean end.
Definition api_point (point : Local.protocol.Point) : ApiPoint :=
  MkApiPoint (Local.protocol.id point) (Local.protocol.vector point) (Local.protocol.metadata point).
Fixpoint api_filter (filter : Local.protocol.Filter) : ApiFilter :=
  match filter with
  | Local.protocol.MatchAll => ApiMatchAll
  | Local.protocol.Eq field value => ApiEq field value
  | Local.protocol.Range field gte lt => ApiRange field gte lt
  | Local.protocol.And filters => ApiAnd (map api_filter filters)
  | Local.protocol.Or filters => ApiOr (map api_filter filters)
  | Local.protocol.Not filter => ApiNot (api_filter filter)
  end.
Definition http_hit (hit : Local.protocol.SearchHit) : HitResponse :=
  MkHitResponse (Local.protocol.hit_id hit) (Local.protocol.hit_score hit) (Local.protocol.hit_metadata hit) (Local.protocol.hit_sequence hit).

Lemma filters_agree : forall filter depth remaining,
  Local.filter_from_protocol_bounded filter depth remaining = into_filter_bounded (api_filter filter) depth remaining.
Proof.
  fix filters_agree 1. intros [|field value|field gte lt|filters|filters|filter] depth remaining; cbn; try done.
  1-2: destruct (Z.leb 32 depth), (Z.ltb remaining 1); try done; f_equal; generalize (remaining - 1);
    induction filters as [|filter filters IH]; intros r; cbn; [done|];
    rewrite filters_agree; destruct (into_filter_bounded _ _ _) as [[f r']| |]; cbn; [|done..]; by rewrite IH.
  by rewrite filters_agree.
Qed.

Lemma points_agree points : mapM_result Local.point_from_protocol points = mapM_result try_from (map api_point points).
Proof.
  induction points as [|point points IH]; [done|]. cbn [mapM_result map]. by rewrite IH.
Qed.

Lemma convert_filters_agree filter : Local.convert_filter filter = convert_filter (api_filter <$> filter).
Proof.
  destruct filter as [filter|]; [|done]. cbn. unfold Local.filter_from_protocol, into_filter. by rewrite filters_agree.
Qed.

Lemma metrics_agree metric : Local.metric_from_protocol metric = metric_from (api_metric metric).
Proof. by destruct metric. Qed.

Definition http_request (request : Local.protocol.Request) (temporary : string) (elapsed : Z) : option Request :=
  match request with
  | Local.protocol.Hello => None
  | Local.protocol.ListCollections => Some ListCollections
  | Local.protocol.CreateCollection name dimension metric => Some (CreateCollection name (MkCreate dimension (api_metric metric)))
  | Local.protocol.Upsert collection points => Some (UpsertPoints collection (map api_point points))
  | Local.protocol.Delete collection ids => Some (DeletePoints collection ids)
  | Local.protocol.Query collection vector k filter ef_search => Some (Query collection (MkQuery vector k (api_filter <$> filter) ef_search) elapsed)
  | Local.protocol.Flush collection => Some (FlushCollection collection temporary)
  end.

Definition http_info (info : Local.protocol.CollectionInfo) : CollectionResponse :=
  MkCollectionResponse (Local.protocol.info_name info) (Local.protocol.info_dimension info) (api_metric (Local.protocol.info_metric info)) (Local.protocol.info_points info)
    (Local.protocol.info_latest_sequence info) (Local.protocol.info_pending_points info).
Definition http_response (response : Local.protocol.Response) : option Response :=
  match response with
  | Local.protocol.HelloResponse _ | Local.protocol.ErrorResponse _ _ => None
  | Local.protocol.Collections collections => Some (MkResponse 200 (CollectionsBody (map http_info collections)))
  | Local.protocol.Created _ => Some (MkResponse 201 (SequenceBody 0))
  | Local.protocol.SequenceResponse sequence => Some (MkResponse 200 (SequenceBody sequence))
  | Local.protocol.QueryResponse hits => Some (MkResponse 200 (QueryBody (map http_hit hits)))
  end.

Lemma infos_agree summary : http_info (Local.collection_info summary) = collection_response summary.
Proof. unfold http_info, Local.collection_info, collection_response. cbn. by destruct (Collection.metric _). Qed.

(** The same error, or a panic that each service caught in its own words. *)
Definition same_error (e e' : Error) : Prop :=
  e = e' \/ (e = Concurrency ("local IPC task failed: " +:+ join_error) /\ e' = Concurrency ("blocking task failed: " +:+ join_error)).

Definition agree (x : Result Local.protocol.Response) (y : Result Response) : Prop :=
  match x, y with
  | Ok x, Ok y => http_response x = Some y
  | Err e, Err e' => same_error e e'
  | _, _ => False
  end.

Definition same_outcome (x : OutcomeOf Tree (Result Local.protocol.Response * Local.LocalState)) (y : OutcomeOf Tree (Result Response * AppState)) : Prop :=
  match x, y with
  | Returned (x, l) w, Returned (y, s) w' => w = w' /\ same_service l s /\ agree x y
  | Crashed t, Crashed t' => t = t'
  | _, _ => False
  end.

(** One operation on the database, after the same check. *)
Lemma same_operation {T A : Type} (check : Result T) (operation : T -> Database -> io_of Tree (Result A * Database))
    (lanswer : A -> Result Local.protocol.Response) (count : ServiceMetrics -> ServiceMetrics) (sanswer : A -> Response) l s w :
  same_service l s -> 0 < admission s -> check <> Panic ->
  (forall x db w a db' w', check = Ok x -> operation x db w = Returned (Ok a, db') w' ->
     exists response, lanswer a = Ok response /\ http_response response = Some (sanswer a)) ->
  same_outcome
    ((let* (result, database) := Local.checked check (Local.database l) (fun x => Local.answer lanswer (operation x (Local.database l))) in
      let result := match result with Panic => Err (Concurrency ("local IPC task failed: " +:+ join_error)) | _ => result end in
      ioret (result, Local.with_database l database)) w)
    (answering check s (fun x => let* done := blocking join_error s (operation x) in ioret (finishing count sanswer done)) w).
Proof.
  intros Hs Ha Hnp Hans. pose proof Hs as (Edb & _). assert (Z.eqb (admission s) 0 = false) as Ea by (apply Z.eqb_neq; lia).
  assert (forall e, same_error e e) as Hsame by (by left).
  assert (forall db s', same_service l s' -> same_service (Local.with_database l db) (with_database s' db)) as Hwith by (intros db s' (_ & ?); by split).
  unfold answering, Local.checked. destruct check as [x|e|]; [|split_and!; [done| |by apply Hsame]|done].
  2: { cbn. by destruct l. }
  unfold blocking, Local.answer, iobind, ioret. rewrite Ea, Edb. specialize (Hans x (database s) w).
  destruct (operation x (database s) w) as [[[a|e|] db] w'|t]; [| | |done]; cbn [rbind finishing].
  - destruct (Hans a db w' eq_refl eq_refl) as (response & -> & Hr). split; [done|]. split; [|exact Hr].
    destruct (Hwith db s Hs) as (? & ? & ? & ? & ? & ?). by split_and!.
  - split; [done|]. split; [by apply Hwith|by apply Hsame].
  - split; [done|]. split; [by apply Hwith|by right].
Qed.

(** A new handle's lock is not poisoned. *)
Lemma open_managed_fresh self name cfg t :
  specifies (open_managed avx2 var_os try_lock timeouts self name cfg) t
    (fun r _ => match r with Ok m => poisoned (managed m) = false | _ => True end) (fun _ => True).
Proof.
  unfold open_managed. eapply (spec_try _ _ _ (fun shared _ => poisoned shared = false)).
  - eapply spec_mono; [apply (spec_within _ _ _ (fun r _ => match r with Ok shared => poisoned shared = false | _ => True end) (fun _ => True))| |done].
    + unfold Concurrent.open. eapply (spec_try _ _ _ (fun _ _ => True)); [|intros st d _; by apply spec_ret].
      eapply spec_mono; [apply spec_any|by intros [x|e|]|done].
    + by intros [x|e|] t' (d & _ & Hr).
  - intros shared t' Hp. eapply (spec_try _ _ _ (fun _ _ => True)); [apply spec_lift; by destruct (start_background_flush _ _ _)|].
    intros thread t2 _. by apply spec_ret.
Qed.

Lemma create_collection_fresh self name cfg w shared db w' :
  Database.create_collection avx2 var_os try_lock timeouts self name cfg w = Returned (Ok shared, db) w' -> poisoned shared = false.
Proof.
  unfold Database.create_collection. destruct (let? _ := _ in write_collections self) as [catalogue| |]; [|done..].
  destruct (catalogue !! name); [done|]. unfold iobind. destruct w as [t script]. pose proof (open_managed_fresh self name cfg t script) as Hf.
  destruct (open_managed _ _ _ _ _ _ _ _) as [[m|e|] w1|t1]; [|done..]. cbn. by intros [= <- _ _].
Qed.

Lemma try_from_total point : try_from point <> Panic.
Proof.
  unfold try_from. assert (mapM_result (fun e : string * JsonValue => let? value := metadata_value e.2 in Ok (e.1, value)) (in_key_order (point_metadata point)) <> Panic) as Hm.
  { apply mapM_result_no_panic. intros e _. pose proof (metadata_value_total e.2). by destruct (metadata_value e.2). }
  by destruct (mapM_result _ _).
Qed.

Lemma convert_filter_total filter : convert_filter filter <> Panic.
Proof.
  destruct filter as [f|]; [|done]. unfold convert_filter, into_filter. destruct (into_filter_decides f 0 1024) as [Hf _].
  by destruct (into_filter_bounded f 0 1024) as [[]| |].
Qed.

Lemma check_batch_total {A} operation items (batch : list A) limit : check_batch operation items batch limit <> Panic.
Proof. unfold check_batch. by destruct (_ || _). Qed.
Lemma check_batch_map {A B} (f : A -> B) operation items (batch : list A) limit : check_batch operation items (map f batch) limit = check_batch operation items batch limit.
Proof. unfold check_batch, zlen. rewrite length_map. by destruct batch. Qed.
Lemma check_query_total k limit ef ef_limit : check_query k limit ef ef_limit <> Panic.
Proof. unfold check_query. destruct (_ || _); [done|]. by destruct ef as [ef|]; [destruct (ef_limit <? ef)|]. Qed.

(** C18 (local_http_agree). The local socket and the HTTP service are one
    service, although each checks and converts requests in its own code and its
    own types: for every request that both offer, an authorized one over the same
    database and limits has the same effect on the files and the database,
    under any faults, and the answers carry the same hits, sequences and
    collections or the same error. *)
Theorem local_http_agree server_version l s authorization request request' temporary elapsed w :
  same_service l s -> 0 < admission s -> authorize s authorization = Ok tt -> http_request request temporary elapsed = Some request' ->
  same_outcome (Local.dispatch avx2 workers pid var_os try_lock timeouts join_error server_version l request temporary w)
               (route s authorization request' w).
Proof.
  intros Hs Ha Hauth Hr. pose proof Hs as (_ & Eb & Ek & Ed & Ee & Eadm).
  assert (Z.eqb (Local.admission l) 0 = false) as El by (apply Z.eqb_neq; lia).
  destruct request; cbn in Hr; try done; injection Hr as <-; unfold Local.dispatch, Local.dispatch_blocking; rewrite El; cbn [Server.route];
    unfold list_collections_handler, create_collection_handler, upsert_points_handler, delete_points_handler, query_handler, flush_handler;
    rewrite Hauth; cbn [rbind create_dimension create_metric query_vector query_k query_filter query_ef_search]; rewrite ?Eb, ?Ek, ?Ed, ?Ee.
  - apply (same_operation (Ok tt) (fun _ db => ioret (Database.list_collections db, db))); [done..|]. intros _ db w1 cs db' w' _ _. eexists. split; [done|].
    cbn. rewrite map_map. do 3 f_equal. apply map_ext, infos_agree.
  - rewrite metrics_agree. apply (same_operation (check_dimension dimension (max_dimension s))
      (fun _ db => Database.create_collection avx2 var_os try_lock timeouts db name (MkConfig dimension (metric_from (api_metric metric))))); [done|done| |].
    { unfold check_dimension. by destruct (_ || _). }
    intros _ db w1 shared db' w' _ Hc%create_collection_fresh. unfold Concurrent.latest_sequence, read. rewrite Hc. by eexists.
  - rewrite points_agree, check_batch_map.
    apply (same_operation _ (fun us db => on_collection db collection (fun shared => Concurrent.upsert shared us))); [done|done| |by eexists].
    pose proof (check_batch_total "upsert" "points" points (max_batch_points s)). destruct (check_batch _ _ _ _); [|done..]. cbn.
    apply mapM_result_no_panic. intros p _. apply try_from_total.
  - apply (same_operation _ (fun _ db => on_collection db collection (fun shared => Concurrent.delete shared ids))); [done|done| |by eexists].
    apply check_batch_total.
  - rewrite convert_filters_agree.
    apply (same_operation _ (fun f db => search_collection avx2 collection vector k f ef_search db)); [done|done| |].
    2: { intros _ _ _ hits _ _ _ _. eexists. split; [done|]. cbn. by rewrite map_map. }
    pose proof (check_query_total k (max_k s) ef_search (max_ef_search s)). destruct (check_query _ _ _ _); [|done..]. apply convert_filter_total.
  - by apply (same_operation (Ok tt) (fun _ db => on_collection db collection (fun shared => Concurrent.flush avx2 workers pid shared temporary))); [..|by eexists].
Qed.

(** ** What the service acknowledges *)

(** A restart finds the collections [cs], or also the write [is_new] of one. *)
Definition written_or_not (cs : gmap string Collection) (name : string) (is_new : Collection -> Prop) (t : Tree) : Prop :=
  found avx2 t cs \/ exists c', is_new c' /\ found avx2 t (<[name := c']> cs).

Lemma on_collection_open self t cs name m {A} (section : SharedCollection -> io (Result A * SharedCollection)) :
  serves avx2 self t cs -> collections self !! name = Some m ->
  on_collection self name section = (let* (result, shared) := within (Live name) (section (managed m)) in ioret (result, update self name shared)).
Proof.
  intros Hs Em. unfold on_collection, Database.collection, read_collections. rewrite validate_name by (by eapply serves_valid). cbn [rbind].
  rewrite (sv_lock _ _ _ _ Hs). cbn [rbind]. by rewrite Em.
Qed.

Lemma shared_write_spec shared d payload ids c' sequence op :
  poisoned shared = false -> store_ok avx2 (guarded shared) d -> logs (inner (guarded shared)) payload ids c' ->
  op (guarded shared) = logged (guarded shared) sequence payload (with_inner (guarded shared) c' ids) ->
  specifies (Concurrent.write shared op) d
    (fun r d' => match r.1 with
       | Ok n => n = sequence /\ r.2 = MkShared (with_inner (guarded shared) c' ids) false /\ store_ok avx2 (with_inner (guarded shared) c' ids) d'
       | Err _ => r.2 = shared /\ (recoverable avx2 d' (inner (guarded shared)) \/ recoverable avx2 d' c')
       | Panic => False end)
    (fun d' => recoverable avx2 d' (inner (guarded shared)) \/ recoverable avx2 d' c').
Proof.
  intros Hp Hst Hl Eop. unfold write. rewrite Hp, Eop. eapply spec_bind; [by apply logged_spec|].
  intros [r st] d' Hd'. apply spec_ret. unfold written_outcome in Hd'. cbn [fst snd] in *. destruct r as [n|e|]; [| |done].
  - destruct Hd' as (-> & -> & Hok & _). done.
  - destruct Hd' as (-> & Hr). destruct shared as [st p]. cbn in *. by subst p.
Qed.

Lemma write_collection_spec self t cs name m (is_new : Collection -> Prop) op :
  serves avx2 self t cs -> collections self !! name = Some m -> is_logged (opened_collection m) is_new (op (opened_collection m)) ->
  specifies (on_collection self name (fun shared => Concurrent.write shared op)) t
    (fun r t' => elsewhere [Live name] t t' /\ match r.1 with
       | Ok n => n = sequence (inner (opened_collection m)) + 1 /\ exists c', is_new c' /\ serves avx2 r.2 t' (<[name := c']> cs)
       | Err _ => written_or_not cs name is_new t' | Panic => False end)
    (fun t' => elsewhere [Live name] t t' /\ written_or_not cs name is_new t').
Proof.
  intros Hs Em (payload & ids & c' & Eop & Hl & Hn). rewrite (on_collection_open _ _ _ _ m) by done.
  pose proof (sv_entries _ _ _ _ Hs name m Em) as (Ec & Hp & d & Ed & Hst). pose proof (serves_valid _ _ _ _ _ _ Hs Em) as Hv.
  assert (forall d', elsewhere [Live name] t (<[Live name := d']> t)) as He by (intros; apply elsewhere_insert; [by left|done]).
  assert (forall d', recoverable avx2 d' (inner (opened_collection m)) \/ recoverable avx2 d' c' -> written_or_not cs name is_new (<[Live name := d']> t)) as Hw.
  { intros d' [Hr|Hr]; [left|right; exists c'; split; [done|]]; [rewrite <- (insert_id cs name _ Ec)|]; (apply found_insert; [done|by left|apply Hs]). }
  eapply spec_bind.
  - eapply spec_mono; [apply spec_within; rewrite Ed; by apply (shared_write_spec (managed m) d payload ids c' (sequence (inner (opened_collection m)) + 1))|intros r t' Hr; exact Hr|].
    intros t' (d' & -> & Hr). split; [done|by apply Hw].
  - intros [r shared] t' (d' & -> & Hr). apply spec_ret. split; [done|]. cbn [fst snd] in *. destruct r as [n|e|]; [|by apply Hw, Hr|done].
    destruct Hr as (-> & -> & Hok). split; [done|]. exists c'. split; [done|]. rewrite (update_insert _ _ m) by done.
    by apply (serves_insert avx2 self t cs name (MkManaged (MkShared (with_inner (opened_collection m) c' ids) false) (flusher m)) d').
Qed.

Lemma blocking_spec {T} state (op : Database -> io_of Tree (Result T * Database)) t (Q : Result T -> Database -> Tree -> Prop) C :
  0 < admission state -> specifies (op (database state)) t (fun r t' => Q r.1 r.2 t') C -> (forall db t', ~ Q Panic db t') ->
  specifies (blocking join_error state op) t (fun r t' => exists db, r.2 = with_database state db /\ Q r.1 db t') C.
Proof.
  intros Ha Hop Hnp. unfold blocking. rewrite (proj2 (Z.eqb_neq _ _)) by lia. eapply spec_bind; [exact Hop|].
  intros [r db] t' Hr. apply spec_ret. exists db. split; [done|]. destruct r; [done..|]. by apply Hnp in Hr.
Qed.

Lemma status_code_error e : 400 <= status_code e.
Proof. destruct e; cbn; lia. Qed.

(** C16 (http_upsert_durable). End to end: an upsert that the HTTP service
    answers with 200 has been applied as the next sequence of the collection
    and is what a restart finds; any other answer, or a crash at any moment,
    leaves the collections as they were, or with the whole batch. *)
Theorem http_upsert_durable state authorization name points us m t cs :
  serves avx2 (database state) t cs -> collections (database state) !! name = Some m -> authorize state authorization = Ok tt ->
  0 < zlen points <= max_batch_points state -> 0 < admission state -> mapM_result try_from points = Ok us ->
  let c := inner (opened_collection m) in
  sequence c < U64_MAX -> recordable c us ->
  specifies (observe state authorization (UpsertPoints name points)) t
    (fun r t' => match r.1 with
       | Ok response =>
           (response = MkResponse 200 (SequenceBody (sequence c + 1)) /\
            exists c', is_upserted c us c' /\ serves avx2 (database r.2) t' (<[name := c']> cs)) \/
           (400 <= status response /\ written_or_not cs name (is_upserted c us) t')
       | _ => False end)
    (written_or_not cs name (is_upserted c us)).
Proof.
  intros Hs Em Ha Hn Hadm Hus c Hseq Hrec. unfold Server.observe, Server.route, upsert_points_handler.
  set (state' := with_metrics state _). assert (authorize state' authorization = Ok tt) as -> by exact Ha. cbn [rbind].
  assert (check_batch "upsert" "points" points (max_batch_points state') = Ok tt) as ->.
  { unfold check_batch. change (max_batch_points state') with (max_batch_points state). rewrite bool_decide_eq_false_2 by (intros ->; unfold zlen in Hn; cbn in Hn; lia).
    by rewrite (proj2 (Z.ltb_ge _ _)) by lia. }
  cbn [rbind]. rewrite Hus. cbn [answering].
  pose proof (sv_entries _ _ _ _ Hs name m Em) as (_ & _ & d & _ & Hst).
  assert (is_logged (opened_collection m) (is_upserted c us) (Persistence.upsert (opened_collection m) us)) as Hl by (apply upsert_logged; [apply Hst|done..]).
  set (Q := fun (r : Result Z) (db : Database) (t' : Tree) => match r with
    | Ok n => n = sequence c + 1 /\ exists c', is_upserted c us c' /\ serves avx2 db t' (<[name := c']> cs)
    | Err _ => written_or_not cs name (is_upserted c us) t' | Panic => False end).
  eapply (spec_bind _ _ _ (fun r t' => match r.1 with
    | Ok response => response = MkResponse 200 (SequenceBody (sequence c + 1)) /\ exists c', is_upserted c us c' /\ serves avx2 (database r.2) t' (<[name := c']> cs)
    | Err _ => written_or_not cs name (is_upserted c us) t' | Panic => False end)).
  - eapply spec_bind; [apply (blocking_spec state' _ t Q); [done| |by intros ? ? []]|].
    + eapply spec_mono; [apply (write_collection_spec (database state) t cs name m _ (fun collection => Persistence.upsert collection us) Hs Em Hl)| |by intros t' [_ ?]].
      intros r t' [_ Hr]. exact Hr.
    + intros [r s2] t' (db & E & Hr). cbn in E, Hr. subst s2. apply spec_ret. destruct r as [n|e|]; [|exact Hr..]. by destruct Hr as (-> & Hr).
  - intros [r s2] t' Hr. apply spec_ret. destruct r as [response|e|]; [| |done]; cbn [fst snd observed] in *.
    + destruct Hr as (-> & Hr). by left.
    + right. split; [apply status_code_error|exact Hr].
Qed.
End Facts.

(** ** The client and the service *)

Section Client.
Context `{FloatEnv} `{J : JsonNumber} (avx2 : bool) (workers : nat) (pid : Z).
Context (var_os : string -> option EnvValue) (try_lock : string -> LockOutcome) (timeouts : string -> list string).
Context (join_error server_version reset : string).
Context (print_request : Local.Envelope Local.protocol.Request -> list byte + string) (parse_request : list byte -> Local.Envelope Local.protocol.Request + string).
Context (print_response : Local.Envelope Local.protocol.Response -> list byte + string) (parse_response : list byte -> Local.Envelope Local.protocol.Response + string).

Notation dispatch := (Local.dispatch avx2 workers pid var_os try_lock timeouts join_error server_version).

(** A connection of the process' own user; nothing is sent back when the
    service refuses, and it is reset when the service dies. *)
Definition connection (temporary : string) : Local.Connection (Local.LocalState * WorldOf Tree) := fun '(l, w) body =>
  match Local.handle_connection avx2 workers pid var_os try_lock timeouts join_error server_version parse_request print_response
          l (Local.uid l) body temporary w with
  | Returned (Ok output, l) w => (inl output, (l, w))
  | Returned (_, l) w => (inl [], (l, w))
  | Crashed t => (inr reset, (l, MkWorld t []))
  end.

Lemma take_bytes_all limit bytes : zlen bytes <= limit -> Local.take_bytes limit bytes = bytes.
Proof.
  revert limit. induction bytes as [|b bytes IH]; intros limit Hl; [done|]. rewrite zlen_cons in Hl. cbn [Local.take_bytes].
  assert (0 <= zlen bytes) by (unfold zlen; lia). rewrite (proj2 (Z.leb_gt _ _)) by lia. rewrite IH by lia. done.
Qed.

(** A message within a limit is read whole, also by the width of the limit. *)
Lemma take_all_within limit bytes : zlen bytes <= limit -> limit < U64_MAX -> Local.take_bytes (wrap_u 64 (limit + 1)) bytes = bytes.
Proof.
  intros Hl Hu. assert (0 <= zlen bytes) by (unfold zlen; lia). apply take_bytes_all. unfold wrap_u. rewrite Z.mod_small; [lia|]. unfold U64_MAX in Hu. lia.
Qed.

(** The service never answers with an error but through an error. *)
Definition proper (response : Local.protocol.Response) : Prop := match response with Local.protocol.ErrorResponse _ _ => False | _ => True end.

Lemma answered_proper {A} (f : A -> Result Local.protocol.Response) (operation : io_of Tree (Result A * Database)) w :
  (forall a r, f a = Ok r -> proper r) ->
  match Local.answer f operation w with Returned (Ok r, _) _ => proper r | _ => True end.
Proof.
  intros Hf. unfold Local.answer, iobind, ioret. destruct (operation w) as [[[a|e|] db] w'|t]; cbn; [|done..].
  destruct (f a) eqn:E; [by eapply Hf|done..].
Qed.

Lemma checked_proper {T} (check : Result T) db (k : T -> io_of Tree (Result Local.protocol.Response * Database)) w :
  (forall x, match k x w with Returned (Ok r, _) _ => proper r | _ => True end) ->
  match Local.checked check db k w with Returned (Ok r, _) _ => proper r | _ => True end.
Proof. intros Hk. destruct check; [apply Hk|done..]. Qed.

Lemma dispatch_proper l request temporary w :
  match dispatch l request temporary w with
  | Returned (Ok r, _) _ => proper r | Returned (Panic, _) _ => False | _ => True end.
Proof.
  unfold Local.dispatch. destruct request; [done|..].
  all: destruct (Z.eqb (Local.admission l) 0); [done|].
  all: unfold iobind; match goal with |- context [Local.dispatch_blocking ?a ?b ?c ?d ?e ?f ?g ?h ?i ?x] =>
    assert (match Local.dispatch_blocking a b c d e f g h i x with Returned (Ok r, _) _ => proper r | _ => True end) as Hp;
      [|destruct (Local.dispatch_blocking a b c d e f g h i x) as [[[r|er|] db] w'|t]; [exact Hp|done..]] end.
  all: unfold Local.dispatch_blocking; try (apply checked_proper; intros ?); apply answered_proper; intros a r; try by intros [= <-].
  destruct (Concurrent.latest_sequence a); cbn; try done. by intros [= <-].
Qed.

(** The answer can be printed, within the client's limit. *)
Definition fits (client : Local.Client) (response : Local.protocol.Response) : Prop :=
  exists bytes, print_response (Local.current response) = inl bytes /\ zlen bytes <= Local.max_response_bytes client.
Definition answer_fits (client : Local.Client) (outcome : OutcomeOf Tree (Result Local.protocol.Response * Local.LocalState)) : Prop :=
  match outcome with
  | Returned (Ok response, _) _ => fits client response
  | Returned (Err e, _) _ => fits client (Local.error_response e)
  | _ => True
  end.

End Client.

(** ** A small service *)

Definition demo_empty_database : Database :=
  MkDatabase "/data" default_config {["docs" := MkManaged (Concurrent.new demo_store) (MkThread [] Idle [] true)]} false.
Definition demo_empty_tree : Tree := {[Live "docs" := demo_dir]}.
Definition demo_state : AppState := MkApp demo_empty_database (Some "secret") 1000 1000 4096 4096 64 no_metrics.
Definition demo_points : list (@ApiPoint demo_json) :=
  map (fun u => @MkApiPoint demo_json (up_id u) (up_vector u) (@json_value demo_json <$> up_metadata u)) demo_batch.
Definition demo_local : Local.LocalState := Local.MkLocal demo_empty_database 16777216 1000 1000 4096 4096 64 1000.

Lemma demo_empty_serves : @serves x86_64_env true demo_empty_database demo_empty_tree {["docs" := demo_empty]}.
Proof.
  constructor; [|done|done|].
  - intros name. unfold demo_empty_tree. destruct (decide (name = "docs")) as [->|Hn].
    + rewrite lookup_singleton_eq. split; [reflexivity|]. exists demo_dir. split; [by rewrite lookup_singleton_eq|].
      left. by eapply (store_ok_recoverable _ demo_store), demo_store_ok.
    + rewrite lookup_singleton_ne by done. intros _ d. by rewrite lookup_singleton_ne by congruence.
  - intros name m. cbn [collections demo_empty_database]. intros [<- <-]%lookup_singleton_Some. unfold demo_empty_tree.
    rewrite lookup_singleton_eq. split; [done|]. split; [done|]. exists demo_dir. split; [by rewrite lookup_singleton_eq|exact demo_store_ok].
Qed.

Lemma unauthorized_untouched_witness :
  @observe x86_64_env demo_json true 2 7 demo_env demo_locks demo_timeouts "" demo_state (Some "Bearer secre") (DeletePoints "docs" ["a"]) (MkWorld demo_empty_tree []) =
    Returned (Ok (MkResponse 401 (ErrorBody "unauthorized")), with_metrics demo_state (count_error (count_request no_metrics))) (MkWorld demo_empty_tree []).
Proof.
  apply (@unauthorized_untouched x86_64_env demo_json true 2 7 demo_env demo_locks demo_timeouts "" demo_state "secret"); [reflexivity|discriminate|reflexivity].
Defined.

Lemma http_upsert_durable_witness :
  match @observe x86_64_env demo_json true 2 7 demo_env demo_locks demo_timeouts "" demo_state (Some "Bearer secret") (UpsertPoints "docs" demo_points) (MkWorld demo_empty_tree []) with
  | Returned (Ok response, state) w => response = MkResponse 200 (SequenceBody 1) /\
      exists c', @is_upserted x86_64_env demo_empty demo_batch c' /\ @serves x86_64_env true (database state) (disk w) (<["docs" := c']> {["docs" := demo_empty]})
  | _ => False
  end.
Proof.
  pose proof (@http_upsert_durable x86_64_env demo_json true 2 7 demo_env demo_locks demo_timeouts "" demo_state (Some "Bearer secret") "docs" demo_points demo_batch
    (MkManaged (Concurrent.new demo_store) (MkThread [] Idle [] true)) demo_empty_tree {["docs" := demo_empty]}
    demo_empty_serves ltac:(reflexivity) ltac:(reflexivity) ltac:(vm_compute; split; [reflexivity|discriminate]) ltac:(reflexivity) ltac:(vm_compute; reflexivity)
    ltac:(reflexivity) demo_recordable []) as Hs.
  assert (match @observe x86_64_env demo_json true 2 7 demo_env demo_locks demo_timeouts "" demo_state (Some "Bearer secret") (UpsertPoints "docs" demo_points) (MkWorld demo_empty_tree []) with
    Returned (Ok response, _) _ => Z.ltb (status response) 400 | _ => false end = true) as Hok by (vm_compute; reflexivity).
  destruct (observe _ _ _ _ _ _ _ _ _ _ _) as [[[response|e|] state] w|t]; [|discriminate Hok..].
  destruct Hs as [Hs|[Hs _]]; [exact Hs|]. apply Z.ltb_lt in Hok. cbn in Hs. lia.
Defined.

Lemma local_http_agree_witness :
  same_outcome ""
    (@Local.dispatch demo_json x86_64_env true 2 7 demo_env demo_locks demo_timeouts "" "0.1.0" demo_local (Local.protocol.Delete "docs" ["a"]) "" (MkWorld demo_empty_tree [Proceed; Crashes 3]))
    (@route x86_64_env demo_json true 2 7 demo_env demo_locks demo_timeouts "" demo_state (Some "Bearer secret") (DeletePoints "docs" ["a"]) (MkWorld demo_empty_tree [Proceed; Crashes 3])).
Proof.
  apply (@local_http_agree x86_64_env demo_json true 2 7 demo_env demo_locks demo_timeouts "" "0.1.0" demo_local demo_state (Some "Bearer secret") (Local.protocol.Delete "docs" ["a"])
    (DeletePoints "docs" ["a"]) "" 0); [repeat split|reflexivity|reflexivity|reflexivity].
Defined.

(** A wire format for one request and for the sequences that answer it. *)
Definition demo_print_request (envelope : Local.Envelope (@Local.protocol.Request demo_json)) : list byte + string :=
  match envelope with
  | Local.MkEnvelope v (Local.protocol.Delete name ids) => if decide (v = 1 /\ name = "docs" /\ ids = ["a"]) then inl [x01] else inr "not printed"
  | _ => inr "not printed"
  end.
Definition demo_parse_request (bytes : list byte) : Local.Envelope (@Local.protocol.Request demo_json) + string :=
  match bytes with [x01] => inl (Local.current (Local.protocol.Delete "docs" ["a"])) | _ => inr "not read" end.
Definition demo_print_response (envelope : Local.Envelope (@Local.protocol.Response demo_json)) : list byte + string :=
  match envelope with
  | Local.MkEnvelope v (Local.protocol.SequenceResponse n) => if decide (v = 1 /\ n = 1) then inl [x02] else inr "not printed"
  | _ => inr "not printed"
  end.
Definition demo_parse_response (bytes : list byte) : Local.Envelope (@Local.protocol.Response demo_json) + string :=
  match bytes with [x02] => inl (Local.current (Local.protocol.SequenceResponse 1)) | _ => inr "not read" end.

