(* ===== verification/LocalSocket.v ===== *)
(** * LocalSocket: the local service takes its socket ([src/src/local.rs])

    The socket's parent directory and the path of the socket are entries of a
    file system, with a kind, an owner and a mode.  Starting the service makes
    the directory private, replaces a dead socket of its own, and binds; each
    call can fail or be where the process dies. *)

From stdpp Require Import base gmap list strings.
From Stdlib Require Import ZArith Lia.
From S2P Require Import Prelude Errors Disk DiskFacts Database.
From S2P Require Server Local.

Inductive FileKind : Type := Directory | Socket | Symlink (to_directory : bool) | Other.

#[global] Instance FileKind_eq_dec : EqDecision FileKind.
Proof. solve_decision. Defined.

(** [listening]: a process accepts connections on it. *)
Record Metadata : Type := MkMetadata { kind : FileKind; owner : Z; mode : Z; listening : bool }.

(** The socket's parent directory, and what is at the socket's path. *)
Record Files : Type := MkFiles { parent : option Metadata; entry : option Metadata }.

Section Socket.
(** Files this process makes are its own, with the modes that its umask leaves. *)
Context (uid directory_mode socket_mode : Z) (path : string).

(** ** Calls *)

(** [fs::create_dir_all]: a link to a directory is one. *)
Definition create_dir_all : io_of Files (Result unit) :=
  effect unchanged (fun files =>
    match parent files with
    | None => (Ok tt, MkFiles (Some (MkMetadata Directory uid directory_mode false)) (entry files))
    | Some m => (if bool_decide (kind m = Directory \/ kind m = Symlink true) then Ok tt else Err (Io "File exists (os error 17)"), files)
    end).

Definition effective_uid : io_of Files (Result Z) := effect unchanged (fun files => (Ok uid, files)).

(** [fs::symlink_metadata]; [None] when there is nothing. *)
Definition parent_metadata : io_of Files (Result Metadata) := effect unchanged (fun files => (ok_or (parent files) missing, files)).
Definition socket_metadata : io_of Files (Result (option Metadata)) := effect unchanged (fun files => (Ok (entry files), files)).

Definition with_mode (mode : Z) (m : Metadata) : Metadata := MkMetadata (kind m) (owner m) mode (listening m).
Definition set_parent_permissions (mode : Z) : io_of Files (Result unit) :=
  effect unchanged (fun files => (Ok tt, MkFiles (with_mode mode <$> parent files) (entry files))).
Definition set_socket_permissions (mode : Z) : io_of Files (Result unit) :=
  effect unchanged (fun files => (Ok tt, MkFiles (parent files) (with_mode mode <$> entry files))).

(** [UnixStream::connect]; whatever its error, the socket is taken for dead. *)
Definition connect : io_of Files (Result unit) :=
  effect unchanged (fun files => (if bool_decide (listening <$> entry files = Some true) then Ok tt else Err (Io "Connection refused (os error 111)"), files)).

Definition remove_file : io_of Files (Result unit) :=
  effect unchanged (fun files => match entry files with Some _ => (Ok tt, MkFiles (parent files) None) | None => (Err missing, files) end).

(** [UnixListener::bind]: the file is there before the process listens. *)
Definition bound (listening : bool) (files : Files) : Files :=
  match entry files with
  | None => MkFiles (parent files) (Some (MkMetadata Socket uid socket_mode listening))
  | Some _ => files
  end.
Definition bind : io_of Files (Result unit) :=
  effect (fun n files => match n with O => files | S _ => bound false files end)
    (fun files => match entry files with
                  | None => (Ok tt, bound true files)
                  | Some _ => (Err (Io "Address already in use (os error 98)"), files)
                  end).

(** ** Starting *)

(** [has_parent]: the path is not empty and not the root. *)
Definition prepare_socket_path (has_parent : bool) : io_of Files (Result unit) :=
  if negb has_parent then ioret (Err (InvalidConfig "local IPC socket must have a parent directory"))
  else
    let*? _ := create_dir_all in
    let*? uid := effective_uid in
    let*? metadata := parent_metadata in
    if negb (bool_decide (kind metadata = Directory)) || negb (Z.eqb (owner metadata) uid) then ioret (Err Unauthorized)
    else
      let*? _ := set_parent_permissions 448 in
      let*? found := socket_metadata in
      match found with
      | Some metadata =>
          if bool_decide (kind metadata = Socket) && Z.eqb (owner metadata) uid then
            let* connected := connect in
            match connected with
            | Ok _ => ioret (Err (AlreadyExists ("active local IPC socket " +:+ path)))
            | _ => remove_file
            end
          else ioret (Err (InvalidConfiguration ("refusing to replace non-socket or foreign-owned path " +:+ path)))
      | None => ioret (Ok tt)
      end.

(** Dropping the cleanup removes what is at the path. *)
Definition cleanup : io_of Files unit := ignore remove_file.

(** [serve_local] up to its first [accept]. *)
Definition start (has_parent : bool) (database : Database) (config : Server.ServerConfig) : io_of Files (Result Local.LocalState) :=
  let*? _ := iolift (Local.validate_limits config) in
  let*? _ := prepare_socket_path has_parent in
  let*? _ := bind in
  let*? _ := set_socket_permissions 384 in
  let* uid := effective_uid in
  match uid with
  | Ok uid => iolift (Local.local_state database config uid)
  | Err e => let* _ := cleanup in ioret (Err e)
  | Panic => let* _ := cleanup in ioret Panic
  end.

(** ** What starting may change *)

Definition own_directory (bits : Z) (m : Metadata) : Prop := kind m = Directory /\ owner m = uid /\ mode m = bits.

(** The parent stays as it is, is made, or is the process' own and private. *)
Definition parent_kept (files files' : Files) : Prop :=
  parent files' = parent files \/ (parent files = None /\ exists m, parent files' = Some m /\ own_directory directory_mode m) \/
  exists m, parent files' = Some m /\ own_directory 448 m.
Definition parent_private (files : Files) : Prop := exists m, parent files = Some m /\ own_directory 448 m.

(** What may be replaced: nothing, or a socket of the process' user. *)
Definition replaceable (found : option Metadata) : Prop := match found with None => True | Some m => kind m = Socket /\ owner m = uid end.
Definition new_socket (m : Metadata) : Prop := kind m = Socket /\ owner m = uid.

(** The path keeps its entry; or, in a private directory, a socket of the
    user's gave way to nothing or to the process' socket. *)
Definition harmless (files files' : Files) : Prop :=
  parent_kept files files' /\
  (entry files' = entry files \/
   replaceable (entry files) /\ parent_private files' /\ match entry files' with None => True | Some m => new_socket m end).

Lemma harmless_private files files' e :
  parent_private files' -> replaceable (entry files) -> entry files' = e -> match e with None => True | Some m => new_socket m end -> harmless files files'.
Proof. intros (m & Hm & Ho) Hr <- He. split; [right; right; by exists m|]. right. split; [done|]. split; [by exists m|done]. Qed.

(** Ready to bind: the directory is private, the path is free. *)
Definition ready (files files' : Files) : Prop := parent_private files' /\ entry files' = None /\ replaceable (entry files).

Lemma harmless_parent files p : parent_kept files (MkFiles p (entry files)) -> harmless files (MkFiles p (entry files)).
Proof. intros Hp. split; [done|by left]. Qed.

(** Once the directory is private: the path is cleared, or kept. *)
Lemma clear_spec files m :
  own_directory 448 m -> let files' := MkFiles (Some m) (entry files) in
  specifies (let*? found := socket_metadata in
      match found with
      | Some metadata =>
          if bool_decide (kind metadata = Socket) && Z.eqb (owner metadata) uid then
            let* connected := connect in
            match connected with
            | Ok _ => ioret (Err (AlreadyExists ("active local IPC socket " +:+ path)))
            | _ => remove_file
            end
          else ioret (Err (InvalidConfiguration ("refusing to replace non-socket or foreign-owned path " +:+ path)))
      | None => ioret (Ok tt)
      end) files'
    (fun r files1 => match r with Ok _ => ready files files1 | Err _ => harmless files files1 | Panic => False end) (harmless files).
Proof.
  intros Hm files'. assert (harmless files files') as Hsame by (apply harmless_parent; right; right; by exists m).
  assert (forall e, replaceable (entry files) -> match e with None => True | Some x => new_socket x end -> harmless files (MkFiles (Some m) e)) as Hafter.
  { intros e Hr He. eapply harmless_private; [by exists m|done|done|done]. }
  unfold socket_metadata. apply spec_try_effect; [done|done|]. cbn [fst snd files' entry]. destruct (entry files) as [found|] eqn:Ef.
  - destruct (bool_decide (kind found = Socket) && Z.eqb (owner found) uid) eqn:Eown; [|by apply spec_ret].
    apply andb_true_iff in Eown as [Ek%bool_decide_eq_true Eo%Z.eqb_eq]. assert (replaceable (Some found)) as Hr by done.
    eapply (spec_bind _ _ _ (fun _ files1 => files1 = files')); [unfold connect; by apply spec_effect|]. intros connected files1 ->.
    assert (specifies remove_file files' (fun r files1 => match r with Ok _ => ready files files1 | Err _ => harmless files files1 | Panic => False end) (harmless files)) as Hremove.
    { unfold remove_file, files'. apply spec_effect; [done|done|]. cbn. split; [by exists m|]. split; [done|by rewrite ?Ef]. }
    destruct connected; [by apply spec_ret|exact Hremove..].
  - apply spec_ret. split; [by exists m|]. split; [done|by rewrite ?Ef].
Qed.

Lemma prepare_spec has_parent files :
  specifies (prepare_socket_path has_parent) files
    (fun r files' => match r with Ok _ => ready files files' | Err _ => harmless files files' | Panic => False end) (harmless files).
Proof.
  unfold prepare_socket_path. destruct has_parent; cbn [negb]; [|apply spec_ret; split; by left].
  assert (harmless files files) as Hsame by (split; by left).
  eapply (spec_try _ _ _ (fun _ files1 => exists p, files1 = MkFiles p (entry files) /\ parent_kept files files1)).
  - unfold create_dir_all. apply spec_effect; [done|done|]. destruct (parent files) as [m|] eqn:Ep; cbn.
    + case_bool_decide; cbn; [|done]. exists (parent files). split; [by destruct files|by left].
    + eexists. split; [done|]. right; left. split; [done|]. by eexists.
  - intros _ files1 (p & -> & Hk). pose proof (harmless_parent files p Hk) as H1.
    unfold effective_uid. apply spec_try_effect; [done|done|]. unfold parent_metadata. apply spec_try_effect; [done|done|]. cbn [fst snd parent].
    destruct p as [m|]; cbn [ok_or]; [|done]. destruct (negb (bool_decide (kind m = Directory)) || negb (Z.eqb (owner m) uid)) eqn:Eown; [by apply spec_ret|].
    apply orb_false_iff in Eown as [Ek%negb_false_iff%bool_decide_eq_true Eo%negb_false_iff%Z.eqb_eq].
    unfold set_parent_permissions. apply spec_try_effect; [done|done|]. cbn [fst snd parent entry]. apply (clear_spec files (with_mode 448 m)). done.
Qed.

(** The socket is the process' own, private and listened on. *)
Definition serving (files : Files) : Prop :=
  parent_private files /\ entry files = Some (MkMetadata Socket uid 384 true).

(** Without faults a live socket stops the start. *)
Lemma prepare_live has_parent files m :
  entry files = Some m -> listening m = true ->
  exists e files', prepare_socket_path has_parent (MkWorld files []) = Returned (Err e) (MkWorld files' []) /\ entry files' = Some m.
Proof.
  intros Ee Hl. unfold prepare_socket_path. destruct has_parent; cbn [negb]; [|by do 2 eexists].
  unfold iotry, iobind, create_dir_all, effective_uid, parent_metadata, set_parent_permissions, socket_metadata, connect, effect. cbn [script disk].
  assert (bool_decide (listening <$> Some m = Some true) = true) as Ec by (apply bool_decide_eq_true; cbn; by rewrite Hl).
  destruct (parent files) as [p|] eqn:Ep; [destruct (bool_decide (kind p = Directory \/ kind p = Symlink true)); [|by do 2 eexists]|]; cbn [disk script parent entry ok_or].
  1: rewrite Ep; cbn [ok_or].
  all: match goal with |- context [if ?b then ioret (Err Unauthorized) else _] => destruct b; [by do 2 eexists|] end; cbn [disk script parent entry]; rewrite ?Ee.
  all: match goal with |- context [if ?b then _ else ioret (Err (InvalidConfiguration _))] => destruct b; [|by do 2 eexists] end; cbn [disk script parent entry]; rewrite ?Ee, Ec; by do 2 eexists.
Qed.

Definition started files (r : Result Local.LocalState) files' : Prop :=
  match r with
  | Ok state => serving files' /\ replaceable (entry files) /\ Local.uid state = uid
  | Err _ => harmless files files'
  | Panic => False
  end.

Lemma start_spec has_parent database config files :
  specifies (start has_parent database config) files (started files) (harmless files).
Proof.
  assert (harmless files files) as Hsame by (split; by left). unfold start, Local.local_state.
  destruct (Local.validate_limits config) as [[]|e|] eqn:El; [|by apply spec_ret|].
  2: { unfold Local.validate_limits in El. by destruct (Server.unlimited config). }
  rewrite iotry_ok. eapply (spec_try _ _ _ (fun _ => ready files)); [by apply (prepare_spec has_parent files)|]. intros _ files1 (Hp & He & Hr).
  set (m := fun bits live => MkMetadata Socket uid bits live).
  assert (forall e, match e with None => True | Some x => new_socket x end -> harmless files (MkFiles (parent files1) e)) as Hafter.
  { intros e Hx. destruct Hp as (x & Hx1 & Hx2). eapply harmless_private; [by exists x|done|done|exact Hx]. }
  assert (forall live, bound live files1 = MkFiles (parent files1) (Some (m socket_mode live))) as Hbound by (intros; unfold bound; by rewrite He).
  assert (files1 = MkFiles (parent files1) None) as E1 by (rewrite <- He; by destruct files1).
  unfold bind. apply spec_try_effect; rewrite ?He; cbn [fst snd].
  1-2: intros; destruct n; [rewrite E1|rewrite Hbound]; by apply Hafter.
  rewrite Hbound. unfold set_socket_permissions. apply spec_try_effect; cbn [fst snd parent entry]; [intros; by apply Hafter..|].
  set (files2 := MkFiles (parent files1) (with_mode 384 <$> Some (m socket_mode true))).
  eapply (spec_bind _ _ _ (fun r files' => files' = files2 /\ match r with Ok id => id = uid | Err _ => True | Panic => False end)).
  - unfold effective_uid. apply spec_effect; [intros; by apply Hafter|done|done].
  - intros [id|e|] files' [-> Hu]; [subst id|..|done].
    + apply spec_ret. split; [by split|]. by split.
    + eapply (spec_bind _ _ _ (fun _ files' => harmless files files')); [|intros _ files' Hf; by apply spec_ret].
      unfold cleanup, remove_file. apply spec_ignore, spec_effect; intros; by apply Hafter.
Qed.

(** C22 (socket_start_safe). Starting the local service is safe under every
    fault and crash: when it succeeds, the process listens on a socket that only
    its user can reach, in a directory that only its user can enter; otherwise,
    and at any moment, the path keeps what was there, unless that was a socket
    of the same user, and a new socket is only ever in a private directory.
    Without faults a live socket is never replaced. *)
Theorem socket_start_safe has_parent database config files script :
  match start has_parent database config (MkWorld files script) with
  | Returned (Ok state) w => serving (disk w) /\ replaceable (entry files) /\ Local.uid state = uid
  | Returned (Err _) w => harmless files (disk w)
  | Returned Panic _ => False
  | Crashed files' => harmless files files'
  end /\
  (script = [] -> listening <$> entry files = Some true -> exists e w, start has_parent database config (MkWorld files script) = Returned (Err e) w /\ entry (disk w) = entry files).
Proof.
  split; [apply (start_spec has_parent database config files script)|]. intros ->. destruct (entry files) as [m|] eqn:Ee; [|done]. intros [= Hl].
  unfold start. destruct (Local.validate_limits config) as [[]|e|] eqn:El; [|by do 2 eexists|].
  2: { unfold Local.validate_limits in El. by destruct (Server.unlimited config). }
  rewrite iotry_ok. destruct (prepare_live has_parent files m Ee Hl) as (e & files' & E & He).
  unfold iotry at 1, iobind at 1. rewrite E. exists e, (MkWorld files' []). by split.
Qed.
End Socket.

(** A dead socket of the user's is replaced in a directory that becomes private. *)
Definition demo_files : Files := MkFiles (Some (MkMetadata Directory 1000 493 false)) (Some (MkMetadata Socket 1000 493 false)).
Definition demo_empty : Database := MkDatabase "/data" default_config ∅ false.

Lemma socket_start_witness :
  exists state w, start 1000 493 493 "/run/user/1000/focaldesk/focal-vector.sock" true demo_empty Server.default_server (MkWorld demo_files []) = Returned (Ok state) w /\
    serving 1000 (disk w).
Proof.
  pose proof (socket_start_safe 1000 493 493 "/run/user/1000/focaldesk/focal-vector.sock" true demo_empty Server.default_server demo_files []) as [H _].
  assert (match start 1000 493 493 "/run/user/1000/focaldesk/focal-vector.sock" true demo_empty Server.default_server (MkWorld demo_files []) with
    Returned (Ok state) w => true | _ => false end = true) as Hok by (vm_compute; reflexivity).
  destruct (start _ _ _ _ _ _ _ _) as [[state|e|] w|files]; [|discriminate Hok..]. exists state, w. split; [reflexivity|apply H].
Defined.
