(* ===== verification/Tls.v ===== *)
(** * Tls: certificates and keys ([src/src/tls.rs])

    Reading PEM files, and the configurations of the HTTPS server and of the
    HTTP client.  PEM decoding, rustls and reqwest are the class [TlsLibrary];
    a file is its bytes or the text of the error of reading it. *)

From stdpp Require Import base list strings.
From Stdlib Require Import ZArith Lia.
From S2P Require Import Prelude Errors.

Record HttpClientTlsConfig : Type := MkClientTls { ca_certificate : option string; identity_pem : option string }.

(** An error of these libraries is its text.  A PEM file is a sequence of
    sections, each a certificate or an error; a certificate store takes the
    certificates it can parse, and counts both kinds. *)
Class TlsLibrary := {
  Certificate : Type; PrivateKey : Type; RootCertStore : Type; ClientVerifier : Type; RustlsServerConfig : Type;
  CaCertificate : Type; Identity : Type; HttpClient : Type;
  pem_certificates : list byte -> list (string + Certificate);
  pem_private_key : list byte -> string + PrivateKey;
  add_parsable_certificates : list Certificate -> RootCertStore * nat * nat;
  build_verifier : RootCertStore -> string + ClientVerifier;
  with_single_cert : option ClientVerifier -> list Certificate -> PrivateKey -> string + RustlsServerConfig;
  certificate_from_pem : list byte -> string + CaCertificate;
  identity_from_pem : list byte -> string + Identity;
  build_client : list CaCertificate -> option Identity -> string + HttpClient
}.

Section Tls.
Context `{TlsLibrary} (files : string -> string + list byte).

(** [RustlsConfig]: what the connections of the server share. *)
Record RustlsConfig : Type := MkRustls { server_config : RustlsServerConfig; alpn_protocols : list string }.

Definition or_error {A : Type} (error : string -> Error) (r : string + A) : Result A :=
  match r with inl message => Err (error message) | inr a => Ok a end.
Definition configuration {A : Type} (r : string + A) : Result A := or_error InvalidConfiguration r.

(** [fs::read(path)?] *)
Definition read_path (path : string) : Result (list byte) := or_error Io (files path).

Definition build_http_client (tls : option HttpClientTlsConfig) : Result HttpClient :=
  let? roots := match tls ≫= ca_certificate with
    | Some path => let? ca := read_path path in let? certificate := configuration (certificate_from_pem ca) in Ok [certificate]
    | None => Ok []
    end in
  let? identity := match tls ≫= identity_pem with
    | Some path => let? pem := read_path path in let? identity := configuration (identity_from_pem pem) in Ok (Some identity)
    | None => Ok None
    end in
  configuration (build_client roots identity).

(** [CertificateDer::pem_file_iter(path)] and its [collect] *)
Definition read_certificates (path : string) : Result (list Certificate) :=
  let? bytes := configuration (files path) in
  mapM_result configuration (pem_certificates bytes).

Definition load_server_tls (certificate_path private_key_path : string) (client_ca_path : option string) : Result RustlsConfig :=
  let? certificates := read_certificates certificate_path in
  match certificates with
  | [] => Err (InvalidConfiguration "TLS certificate file contains no certificates")
  | _ =>
      let? bytes := configuration (files private_key_path) in
      let? private_key := configuration (pem_private_key bytes) in
      let? config := match client_ca_path with
        | Some client_ca_path =>
            let? client_roots := read_certificates client_ca_path in
            let '(roots, accepted, rejected) := add_parsable_certificates client_roots in
            if Nat.eqb accepted 0 || Nat.ltb 0 rejected then
              Err (InvalidConfiguration ("client CA file contained " +:+ fmt_int (Z.of_nat accepted) +:+ " accepted and " +:+ fmt_int (Z.of_nat rejected) +:+ " rejected certificates"))
            else
              let? verifier := configuration (build_verifier roots) in
              configuration (with_single_cert (Some verifier) certificates private_key)
        | None => configuration (with_single_cert None certificates private_key)
        end in
      Ok (MkRustls config ["h2"; "http/1.1"])
  end.

(** ** What a loaded configuration is *)

(** The certificates of a PEM file that has no bad section. *)
Definition certificates_of (path : string) (certificates : list Certificate) : Prop :=
  exists bytes, files path = inr bytes /\ pem_certificates bytes = inr <$> certificates.

(** The server's certificate chain is the whole file, its key the file's; with a
    client CA, and only then, clients are verified, against a store that took
    every certificate of the CA file. *)
Definition loaded (certificate_path private_key_path : string) (client_ca_path : option string) (config : RustlsConfig) : Prop :=
  exists certificates bytes key verifier,
    certificates_of certificate_path certificates /\ certificates <> [] /\
    files private_key_path = inr bytes /\ pem_private_key bytes = inr key /\
    with_single_cert verifier certificates key = inr (server_config config) /\
    match client_ca_path with
    | None => verifier = None
    | Some path => exists roots store accepted v, certificates_of path roots /\
        add_parsable_certificates roots = (store, S accepted, O) /\ build_verifier store = inr v /\ verifier = Some v
    end.

Definition configuration_error (e : Error) : Prop := exists message, e = InvalidConfiguration message.

Lemma configuration_cases {A} (r : string + A) :
  match configuration r with Ok a => r = inr a | Err e => configuration_error e | Panic => False end.
Proof. destruct r; [by eexists|done]. Qed.

Lemma read_certificates_cases path :
  match read_certificates path with Ok certificates => certificates_of path certificates | Err e => configuration_error e | Panic => False end.
Proof.
  unfold read_certificates. pose proof (configuration_cases (files path)) as Hf. destruct (configuration (files path)) as [bytes|e|]; [|done..]. cbn [rbind].
  assert (forall l, match mapM_result configuration l with Ok certificates => l = (inr <$> certificates : list (string + Certificate)) | Err e => configuration_error e | Panic => False end) as Hl.
  { induction l as [|x l IH]; [done|]. cbn [mapM_result]. pose proof (configuration_cases x) as Hx. destruct (configuration x) as [c|e|]; [|done..]. cbn [rbind].
    destruct (mapM_result configuration l) as [cs|e|]; [|done..]. cbn [rbind]. by subst. }
  specialize (Hl (pem_certificates bytes)). destruct (mapM_result _ _) as [cs|e|]; [|done..]. by exists bytes.
Qed.

(** Loading ends with an error of configuration, or with what the files say: a
    client CA is never left out. *)
Lemma load_server_tls_cases certificate_path private_key_path client_ca_path :
  match load_server_tls certificate_path private_key_path client_ca_path with
  | Ok config => loaded certificate_path private_key_path client_ca_path config
  | Err e => configuration_error e
  | Panic => False
  end.
Proof.
  unfold load_server_tls. pose proof (read_certificates_cases certificate_path) as Hc.
  destruct (read_certificates certificate_path) as [certificates|e|]; [|done..]. cbn [rbind].
  destruct certificates as [|c cs]; [by eexists|]. set (certificates := c :: cs) in *.
  pose proof (configuration_cases (files private_key_path)) as Hf. destruct (configuration (files private_key_path)) as [bytes|e|]; [|done..]. cbn [rbind].
  pose proof (configuration_cases (pem_private_key bytes)) as Hk. destruct (configuration (pem_private_key bytes)) as [key|e|]; [|done..]. cbn [rbind].
  destruct client_ca_path as [path|].
  - pose proof (read_certificates_cases path) as Hr. destruct (read_certificates path) as [roots|e|]; [|done..]. cbn [rbind].
    destruct (add_parsable_certificates roots) as [[store accepted] rejected] eqn:Es.
    destruct accepted as [|accepted]; cbn [Nat.eqb orb]; [by eexists|]. destruct rejected as [|rejected]; cbn [Nat.ltb Nat.leb]; [|by eexists].
    pose proof (configuration_cases (build_verifier store)) as Hv. destruct (configuration (build_verifier store)) as [v|e|]; [|done..]. cbn [rbind].
    pose proof (configuration_cases (with_single_cert (Some v) certificates key)) as Hw.
    destruct (configuration (with_single_cert _ _ _)) as [config|e|]; [|done..]. cbn [rbind].
    exists certificates, bytes, key, (Some v). split_and!; try done. by exists roots, store, accepted, v.
  - pose proof (configuration_cases (with_single_cert None certificates key)) as Hw.
    destruct (configuration (with_single_cert _ _ _)) as [config|e|]; [|done..]. cbn [rbind].
    by exists certificates, bytes, key, None.
Qed.

Lemma build_http_client_total tls : build_http_client tls <> Panic.
Proof.
  unfold build_http_client, read_path. destruct (tls ≫= ca_certificate) as [ca|].
  - destruct (files ca) as [e|bytes]; [done|]. cbn [or_error rbind]. destruct (certificate_from_pem bytes); [done|]. cbn [configuration or_error rbind].
    destruct (tls ≫= identity_pem) as [path|]; [destruct (files path) as [|pem]; [done|]; cbn; destruct (identity_from_pem pem); [done|]; cbn|cbn];
      by destruct (build_client _ _).
  - cbn [rbind]. destruct (tls ≫= identity_pem) as [path|]; [destruct (files path) as [|pem]; [done|]; cbn; destruct (identity_from_pem pem); [done|]; cbn|cbn];
      by destruct (build_client _ _).
Qed.
End Tls.
