(* ===== verification/Startup.v ===== *)
(** * Startup: the servers' [main] ([src/src/bin/focal-server.rs],
    [src/src/bin/focal-raft-node.rs])

    The settings are read from the environment, the database or the node is
    opened, and the result is what the process then serves, and where.  The
    binding of sockets and the serving itself are the runtime's. *)

From Stdlib Require Import Ascii.
From stdpp Require Import base gmap list strings.
From Stdlib Require Import ZArith Lia.
From S2P Require Import Prelude Errors Floats Ranking Metric Collection Disk DiskFacts Persistence Recovery Durability Environment Concurrent.
From S2P Require Import Creation Tree TreeFacts Database DatabaseFacts Tls.
From S2P Require Server Local.

(** ** [SocketAddr::from_str]

    The standard library's recursive-descent parser over the text: every reader
    returns what it read and the rest, or nothing, having consumed nothing. *)
Module Address.
Inductive IpAddr : Type :=
| V4 (octets : list Z)
| V6 (groups : list Z) (scope_id : Z).

Record SocketAddr : Type := MkAddress { ip : IpAddr; port : Z }.

Definition reader (A : Type) : Type := string -> option (A * string).

Definition read_given_char (c : ascii) : reader unit := fun s =>
  match s with String c' s' => if Ascii.eqb c c' then Some (tt, s') else None | EmptyString => None end.

(** [char::to_digit] *)
Definition to_digit (radix : Z) (c : ascii) : option Z :=
  let n := Z.of_N (N_of_ascii c) in
  let value := if Z.leb 48 n && Z.leb n 57 then n - 48
    else if Z.leb 97 n && Z.leb n 122 then n - 87
    else if Z.leb 65 n && Z.leb n 90 then n - 55 else radix in
  if Z.ltb value radix then Some value else None.

(** The digits in front, with their count; more than [max_digits], or more than
    the type holds, is a failure. *)
Fixpoint read_digits (radix max : Z) (max_digits : option Z) (value count : Z) (s : string) : option (Z * Z * string) :=
  match s with
  | EmptyString => Some (value, count, s)
  | String c s' =>
      match to_digit radix c with
      | None => Some (value, count, s)
      | Some digit =>
          let value := value * radix + digit in
          let count := count + 1 in
          match max_digits with
          | Some limit => if Z.ltb limit count then None else read_digits radix max max_digits value count s'
          | None => if Z.ltb max value then None else read_digits radix max max_digits value count s'
          end
      end
  end.

Definition leading_zero (s : string) : bool := match s with String "0" _ => true | _ => false end.

Definition read_number (radix max : Z) (max_digits : option Z) (allow_zero_prefix : bool) : reader Z := fun s =>
  match read_digits radix max max_digits 0 0 s with
  | Some (value, count, rest) =>
      if Z.eqb count 0 then None
      else if negb allow_zero_prefix && leading_zero s && Z.ltb 1 count then None
      else if Z.ltb max value then None
      else Some (value, rest)
  | None => None
  end.

Definition read_separator {A : Type} (sep : ascii) (index : nat) (inner : reader A) : reader A := fun s =>
  match index with
  | O => inner s
  | S _ => match read_given_char sep s with Some (_, s') => inner s' | None => None end
  end.

Fixpoint read_octets (index count : nat) (s : string) : option (list Z * string) :=
  match count with
  | O => Some ([], s)
  | S count' =>
      match read_separator "." index (read_number 10 255 (Some 3) false) s with
      | Some (octet, s') => match read_octets (S index) count' s' with Some (octets, rest) => Some (octet :: octets, rest) | None => None end
      | None => None
      end
  end.
Definition read_ipv4_addr : reader (list Z) := read_octets 0 4.

(** [read_groups]: up to [limit] groups, the last two may be an IPv4 address;
    tells whether they were. *)
Fixpoint read_groups (index limit : nat) (s : string) : list Z * bool * string :=
  match limit with
  | O => ([], false, s)
  | S limit' =>
      match (match limit' with O => None | S _ => read_separator ":" index read_ipv4_addr s end) with
      | Some (octets, rest) =>
          match octets with
          | [one; two; three; four] => ([one * 256 + two; three * 256 + four], true, rest)
          | _ => ([], false, s)
          end
      | None =>
          match read_separator ":" index (read_number 16 65535 (Some 4) true) s with
          | Some (group, s') => let '(groups, v4, rest) := read_groups (S index) limit' s' in (group :: groups, v4, rest)
          | None => ([], false, s)
          end
      end
  end.

Definition read_ipv6_addr : reader (list Z) := fun s =>
  let '(head, head_ipv4, rest) := read_groups 0 8 s in
  if Nat.eqb (length head) 8 then Some (head, rest)
  else if head_ipv4 : bool then None
  else
    match read_given_char ":" rest with
    | Some (_, rest) =>
        match read_given_char ":" rest with
        | Some (_, rest) =>
            let '(tail, _, rest) := read_groups 0 (8 - (length head + 1)) rest in
            Some (head ++ repeat 0 (8 - length head - length tail) ++ tail, rest)
        | None => None
        end
    | None => None
    end.

Definition read_port : reader Z := fun s =>
  match read_given_char ":" s with Some (_, s') => read_number 10 65535 None true s' | None => None end.
Definition read_scope_id : reader Z := fun s =>
  match read_given_char "%" s with Some (_, s') => read_number 10 U32_MAX None true s' | None => None end.

Definition read_socket_addr_v4 : reader SocketAddr := fun s =>
  match read_ipv4_addr s with
  | Some (octets, s') => match read_port s' with Some (port, rest) => Some (MkAddress (V4 octets) port, rest) | None => None end
  | None => None
  end.
Definition read_socket_addr_v6 : reader SocketAddr := fun s =>
  match read_given_char "[" s with
  | Some (_, s) =>
      match read_ipv6_addr s with
      | Some (groups, s) =>
          let '(scope, s) := match read_scope_id s with Some (scope, s') => (scope, s') | None => (0, s) end in
          match read_given_char "]" s with
          | Some (_, s) => match read_port s with Some (port, rest) => Some (MkAddress (V6 groups scope) port, rest) | None => None end
          | None => None
          end
      | None => None
      end
  | None => None
  end.

(** The whole text is read. *)
Definition parse_socket_addr (s : string) : option SocketAddr :=
  match (match read_socket_addr_v4 s with Some r => Some r | None => read_socket_addr_v6 s end) with
  | Some (address, EmptyString) => Some address
  | _ => None
  end.

Example default_address : parse_socket_addr "127.0.0.1:8080" = Some (MkAddress (V4 [127; 0; 0; 1]) 8080).
Proof. reflexivity. Qed.
Example leading_zeros : (parse_socket_addr "127.0.0.01:8080", parse_socket_addr "127.0.0.1:08080") = (None, Some (MkAddress (V4 [127; 0; 0; 1]) 8080)).
Proof. reflexivity. Qed.
Example mapped_address : parse_socket_addr "[::ffff:10.0.0.1]:443" = Some (MkAddress (V6 [0; 0; 0; 0; 0; 65535; 2560; 1] 0) 443).
Proof. reflexivity. Qed.
Example too_large : (parse_socket_addr "127.0.0.1:65536", parse_socket_addr "256.0.0.1:1", parse_socket_addr "[::1%4]:80x") = (None, None, None).
Proof. reflexivity. Qed.
End Address.
Import Address.

(** [Box<dyn Error>] *)
Inductive BoxError : Type :=
| Message (text : string)
| Library (error : Error)
| ParseInt
| ParseAddress
| NotUnicode (name : string).

Abbreviation BoxResult := (result BoxError).

(** [?] on a library call. *)
Definition boxed {A : Type} (r : Result A) : BoxResult A := map_err Library r.

Definition boxtry {D A B : Type} (m : io_of D (Result A)) (k : A -> io_of D (BoxResult B)) : io_of D (BoxResult B) :=
  let* r := m in
  match boxed r with
  | Ok a => k a
  | Err e => ioret (Err e)
  | Panic => ioret Panic
  end.

Section Environment.
Context (var_os : string -> option EnvValue).

(** [env::var(name).unwrap_or_else(|_| default)]: also when it is not UTF-8. *)
Definition var_or (name default : string) : string :=
  match var_os name with Some (Utf8 value) => value | _ => default end.
(** [env::var(name).ok()] *)
Definition var_ok (name : string) : option string :=
  match var_os name with Some (Utf8 value) => Some value | _ => None end.

Definition environment_usize (name : string) (default : Z) : BoxResult Z :=
  match var_os name with
  | Some (Utf8 value) =>
      match parse_unsigned USIZE_MAX value with
      | Some n => Ok n
      | None => Err (Message (name +:+ " must be a positive integer"))
      end
  | None => Ok default
  | Some NotUtf8 => Err (NotUnicode name)
  end.

Definition parse_address (text : string) : BoxResult SocketAddr := ok_or (parse_socket_addr text) ParseAddress.

(** [FOCAL_TOKEN]; an empty one is none. *)
Definition bearer_token : option string :=
  match var_ok "FOCAL_TOKEN" with
  | Some token => if String.eqb token "" then None else Some token
  | None => None
  end.

Definition server_config : BoxResult Server.ServerConfig :=
  let? max_body_bytes := environment_usize "FOCAL_MAX_BODY_BYTES" (16 * 1024 * 1024) in
  let? max_batch_points := environment_usize "FOCAL_MAX_BATCH_POINTS" 1000 in
  let? max_k := environment_usize "FOCAL_MAX_K" 1000 in
  let? max_dimension := environment_usize "FOCAL_MAX_DIMENSION" 4096 in
  let? max_ef_search := environment_usize "FOCAL_MAX_EF_SEARCH" 4096 in
  let? max_concurrent_operations := environment_usize "FOCAL_MAX_CONCURRENT_OPERATIONS" 64 in
  Ok (Server.MkServerConfig bearer_token max_body_bytes max_batch_points max_k max_dimension max_ef_search max_concurrent_operations).

(** The path of the local socket, when there is one. *)
Definition socket : option EnvValue :=
  match var_os Local.SOCKET_ENV with
  | Some (Utf8 path) => if String.eqb path "" then None else Some (Utf8 path)
  | other => other
  end.

(** Both, or none, of the certificate and its key. *)
Definition tls_paths : BoxResult (option (string * string)) :=
  match var_ok "FOCAL_TLS_CERT", var_ok "FOCAL_TLS_KEY" with
  | Some certificate, Some private_key => Ok (Some (certificate, private_key))
  | None, None => Ok None
  | _, _ => Err (Message "FOCAL_TLS_CERT and FOCAL_TLS_KEY must be set together")
  end.

Section Server.
Context `{FloatEnv} `{TlsLibrary} (files : string -> string + list byte) (avx2 : bool).
Context (try_lock : string -> LockOutcome) (timeouts : string -> list string).

(** What the process serves from now on. *)
Inductive Serving : Type :=
| ServeLocal (socket : EnvValue) (database : Database) (config : Server.ServerConfig)
| ServeTls (address : SocketAddr) (tls : RustlsConfig) (state : Server.AppState)
| ServeHttp (address : SocketAddr) (state : Server.AppState).

(** The listener: HTTPS when a certificate and a key are given. *)
Definition listener (address : SocketAddr) (state : Server.AppState) : BoxResult Serving :=
  let? paths := tls_paths in
  match paths with
  | Some (certificate, private_key) =>
      let? tls := boxed (load_server_tls files certificate private_key (var_ok "FOCAL_TLS_CLIENT_CA")) in
      Ok (ServeTls address tls state)
  | None => Ok (ServeHttp address state)
  end.

Definition focal_server : io_of Tree (BoxResult Serving) :=
  let data_directory := var_or "FOCAL_DATA_DIR" "./data" in
  match (let? address := parse_address (var_or "FOCAL_BIND" "127.0.0.1:8080") in
         let? config := server_config in Ok (address, config)) with
  | Ok (address, config) =>
      boxtry (Database.open avx2 var_os try_lock timeouts data_directory default_config) (fun database =>
        match socket with
        | Some socket => ioret (Ok (ServeLocal socket database config))
        | None => ioret (let? state := boxed (Server.router database config) in listener address state)
        end)
  | Err e => ioret (Err e)
  | Panic => ioret Panic
  end.
End Server.
End Environment.

(** ** The Raft node's [main] *)

Section RaftNode.
Context (var_os : string -> option EnvValue).

Definition required (name : string) : BoxResult string := ok_or (var_ok var_os name) (Message (name +:+ " is required")).

Definition parse_integer (text : string) : BoxResult Z := ok_or (parse_unsigned U64_MAX text) ParseInt.

Definition metric_setting : BoxResult Metric :=
  let value := var_or var_os "FOCAL_METRIC" "cosine" in
  if String.eqb value "cosine" then Ok Cosine
  else if String.eqb value "dot" || String.eqb value "dot_product" then Ok DotProduct
  else if String.eqb value "euclidean" then Ok Euclidean
  else Err (Message ("unsupported FOCAL_METRIC: " +:+ value)).

Definition client_tls : option HttpClientTlsConfig :=
  let ca_certificate := var_ok var_os "FOCAL_TLS_CA" in
  let identity_pem := var_ok var_os "FOCAL_TLS_CLIENT_IDENTITY" in
  match ca_certificate, identity_pem with
  | None, None => None
  | _, _ => Some (MkClientTls ca_certificate identity_pem)
  end.

Record NodeSettings : Type := MkSettings {
  setting_id : Z; setting_token : string; setting_bind : SocketAddr; setting_directory : string; setting_cluster : string; setting_config : CollectionConfig
}.

Section Node.
Context `{FloatEnv} `{TlsLibrary} (files : string -> string + list byte) (avx2 : bool).

(** The settings in the order they are read; the HTTP client is built last. *)
Definition node_settings : BoxResult (NodeSettings * HttpClient) :=
  let? id_text := required "FOCAL_NODE_ID" in
  let? id := parse_integer id_text in
  let? token := required "FOCAL_RAFT_TOKEN" in
  let? dimension_text := required "FOCAL_DIMENSION" in
  let? dimension := parse_integer dimension_text in
  let? bind := parse_address (var_or var_os "FOCAL_BIND" "127.0.0.1:8081") in
  let directory := var_or var_os "FOCAL_DATA_DIR" ("./data/node-" +:+ fmt_int id) in
  let cluster := var_or var_os "FOCAL_CLUSTER" "focal-vector" in
  let? metric := metric_setting in
  let? client := boxed (build_http_client files client_tls) in
  Ok (MkSettings id token bind directory cluster (MkConfig dimension metric), client).

(** Where the opened node [N] is served. *)
Record ServingNode (N : Type) : Type := MkServingNode { serving_node : N; serving_address : SocketAddr; serving_tls : option RustlsConfig }.

Definition node_listener {N : Type} (node : N) (address : SocketAddr) : BoxResult (ServingNode N) :=
  let? paths := tls_paths var_os in
  match paths with
  | Some (certificate, private_key) =>
      let? tls := boxed (load_server_tls files certificate private_key (var_ok var_os "FOCAL_TLS_CLIENT_CA")) in
      Ok (MkServingNode N node address (Some tls))
  | None => Ok (MkServingNode N node address None)
  end.

(** [open] is [RaftNode::open_with_http_client] on the directory of the settings. *)
Definition focal_raft_node {D N : Type} (open : NodeSettings -> HttpClient -> io_of D (Result N)) : io_of D (BoxResult (ServingNode N)) :=
  match node_settings with
  | Ok (settings, client) =>
      boxtry (open settings client) (fun node => ioret (node_listener node (setting_bind settings)))
  | Err e => ioret (Err e)
  | Panic => ioret Panic
  end.
End Node.
End RaftNode.

(** ** Starting the server *)

Lemma spec_boxtry {D A B} (m : io_of D (Result A)) (k : A -> io_of D (BoxResult B)) d (P : A -> D -> Prop) (Q : BoxResult B -> D -> Prop) C :
  specifies m d (fun r d' => match r with Ok a => P a d' | Err e => Q (Err (Library e)) d' | Panic => Q Panic d' end) C ->
  (forall a d', P a d' -> specifies (k a) d' Q C) -> specifies (boxtry m k) d Q C.
Proof. intros Hm Hk. eapply spec_bind; [exact Hm|]. intros [a|e|] d' Hd'; [by apply Hk|by apply spec_ret..]. Qed.

Section Starts.
Context `{FloatEnv} `{TlsLibrary} (files : string -> string + list byte) (avx2 : bool).
Context (var_os : string -> option EnvValue) (try_lock : string -> LockOutcome) (timeouts : string -> list string).

(** The state behind the routes: the limits and the token of the environment. *)
Definition guarded_by (state : Server.AppState) (database : Database) : Prop :=
  Server.database state = database /\
  (exists config, server_config var_os = Ok config /\ Server.router database config = Ok state) /\
  (forall token, var_os "FOCAL_TOKEN" = Some (Utf8 token) -> token <> "" -> Server.token state = Some token).

(** Where it is served: the local socket when there is one; else over TLS when
    a certificate and a key are given, with clients verified when a CA is. *)
Definition served_at (serving : Serving) (database : Database) : Prop :=
  match serving with
  | ServeLocal path database' config => database' = database /\ socket var_os = Some path /\ server_config var_os = Ok config
  | ServeTls address tls state => socket var_os = None /\ guarded_by state database /\
      parse_address (var_or var_os "FOCAL_BIND" "127.0.0.1:8080") = Ok address /\
      exists certificate private_key, tls_paths var_os = Ok (Some (certificate, private_key)) /\
        loaded files certificate private_key (var_ok var_os "FOCAL_TLS_CLIENT_CA") tls
  | ServeHttp address state => socket var_os = None /\ guarded_by state database /\
      parse_address (var_or var_os "FOCAL_BIND" "127.0.0.1:8080") = Ok address /\ tls_paths var_os = Ok None
  end.

Lemma environment_usize_total name default : environment_usize var_os name default <> Panic.
Proof. unfold environment_usize. destruct (var_os name) as [[value|]|]; [destruct (parse_unsigned _ _)| |]; done. Qed.

Lemma server_config_cases :
  match server_config var_os with Ok config => Server.bearer_token config = bearer_token var_os | Err _ => True | Panic => False end.
Proof.
  unfold server_config.
  repeat match goal with |- context [environment_usize ?v ?n ?d] =>
    pose proof (environment_usize_total n d); destruct (environment_usize v n d); [cbn [rbind]|done|done] end.
  done.
Qed.

Lemma router_cases database config :
  match Server.router database config with
  | Ok state => Server.database state = database /\ Server.token state = Server.bearer_token config | Err _ => True | Panic => False end.
Proof. unfold Server.router. by destruct (Server.unlimited config). Qed.

Lemma routed_guarded database config state :
  server_config var_os = Ok config -> Server.router database config = Ok state -> guarded_by state database.
Proof.
  intros Ec Er. pose proof (router_cases database config) as Hr. rewrite Er in Hr. destruct Hr as [Hd Ht].
  pose proof server_config_cases as Hc. rewrite Ec in Hc. split; [done|]. split; [by exists config|].
  intros token Et Hne. rewrite Ht, Hc. unfold bearer_token, var_ok. rewrite Et. by apply String.eqb_neq in Hne as ->.
Qed.

Lemma tls_paths_total : tls_paths var_os <> Panic.
Proof. unfold tls_paths. by destruct (var_ok _ _), (var_ok _ _). Qed.

Lemma listener_cases address database config state :
  server_config var_os = Ok config -> Server.router database config = Ok state -> socket var_os = None ->
  parse_address (var_or var_os "FOCAL_BIND" "127.0.0.1:8080") = Ok address ->
  match listener var_os files address state with Ok serving => served_at serving database | Err _ => True | Panic => False end.
Proof.
  intros Ec Er Es Ea. pose proof (routed_guarded _ _ _ Ec Er) as Hg. unfold listener. pose proof tls_paths_total as Ht.
  destruct (tls_paths var_os) as [[[certificate private_key]|]|e|] eqn:Et; [|done|done|done]; cbn [rbind].
  pose proof (load_server_tls_cases files certificate private_key (var_ok var_os "FOCAL_TLS_CLIENT_CA")) as Hl.
  destruct (load_server_tls _ _ _ _) as [tls|e|]; [|done..]. cbn. split_and!; try done. by exists certificate, private_key.
Qed.

End Starts.

(** ** Starting a Raft node *)

Section NodeStarts.
Context `{TlsLibrary} (files : string -> string + list byte) (var_os : string -> option EnvValue).
Context {D N : Type} (open : NodeSettings -> HttpClient -> io_of D (Result N)).

Lemma parse_address_total text : parse_address text <> Panic.
Proof. unfold parse_address. by destruct (parse_socket_addr text). Qed.

Lemma node_settings_total : node_settings var_os files <> Panic.
Proof.
  unfold node_settings, required, parse_integer.
  repeat first [ done
    | match goal with |- context [ok_or ?o ?e] => destruct (ok_or o e) eqn:?; [cbn [rbind]|done|by destruct o] end ].
  pose proof (parse_address_total (var_or var_os "FOCAL_BIND" "127.0.0.1:8081")). destruct (parse_address _); [cbn [rbind]|done|done].
  assert (metric_setting var_os <> Panic) as Hm.
  { unfold metric_setting. destruct (String.eqb _ _); [done|]. destruct (_ || _); [done|]. by destruct (String.eqb _ _). }
  destruct (metric_setting var_os); [cbn [rbind]|done|done].
  pose proof (build_http_client_total files (client_tls var_os)). by destruct (build_http_client _ _).
Qed.

(** Starting a node does to its directory what opening it does, with the
    settings of the environment; with bad settings it does nothing.  When it
    gets to serving it serves the node that was opened. *)
Lemma node_starts d Q C :
  (forall settings client, node_settings var_os files = Ok (settings, client) -> specifies (open settings client) d Q C) ->
  C d -> (forall d', ~ Q Panic d') ->
  specifies (focal_raft_node var_os files open) d
    (fun r d' => match r with
       | Ok serving => Q (Ok (serving_node _ serving)) d'
       | Err _ => d' = d \/ exists outcome, Q outcome d'
       | Panic => False
       end) C.
Proof.
  intros Ho HC HP. unfold focal_raft_node. pose proof node_settings_total as Hs.
  destruct (node_settings var_os files) as [[settings client]|e|]; [|by apply spec_ret; left|done].
  eapply (spec_boxtry _ _ _ (fun node d' => Q (Ok node) d')).
  { eapply spec_mono; [by apply Ho| |done]. intros [node|e|] d' Hq; [done|right; by eexists|by apply (HP d')]. }
  intros node d' Hq. apply spec_ret. unfold node_listener. pose proof (tls_paths_total var_os) as Ht.
  destruct (tls_paths var_os) as [[[certificate private_key]|]|e|]; [|done|right; by eexists|done]. cbn [rbind].
  pose proof (load_server_tls_cases files certificate private_key (var_ok var_os "FOCAL_TLS_CLIENT_CA")) as Hl.
  destruct (load_server_tls _ _ _ _) as [tls|e|]; [done|right; by eexists|done].
Qed.
End NodeStarts.

(** ** A start *)

(** A library in which every file is a certificate and a key. *)
#[local] Instance demo_tls : TlsLibrary := {|
  Certificate := list byte; PrivateKey := list byte; RootCertStore := list (list byte); ClientVerifier := list (list byte);
  RustlsServerConfig := option (list (list byte)) * list (list byte) * list byte;
  CaCertificate := list byte; Identity := list byte; HttpClient := unit;
  pem_certificates := fun bytes => [inr bytes]; pem_private_key := inr; add_parsable_certificates := fun cs => (cs, length cs, O);
  build_verifier := inr; with_single_cert := fun verifier chain key => inr (verifier, chain, key);
  certificate_from_pem := inr; identity_from_pem := inr; build_client := fun _ _ => inr tt
|}.
Definition demo_files : string -> string + list byte := fun path => inr (bytes_of_string path).
Definition demo_settings (name : string) : option EnvValue :=
  if String.eqb name "FOCAL_TOKEN" then Some (Utf8 "secret")
  else if String.eqb name "FOCAL_TLS_CERT" then Some (Utf8 "chain.pem")
  else if String.eqb name "FOCAL_TLS_KEY" then Some (Utf8 "key.pem")
  else if String.eqb name "FOCAL_TLS_CLIENT_CA" then Some (Utf8 "ca.pem")
  else None.


(** A token that is not UTF-8 is taken for none: the server starts and answers
    requests without one. *)
Example token_not_unicode :
  let var_os := fun name => if String.eqb name "FOCAL_TOKEN" then Some NotUtf8 else None in
  match @focal_server var_os x86_64_env demo_tls demo_files true demo_locks demo_timeouts (MkWorld demo_tree []) with
  | Returned (Ok (ServeHttp _ state)) _ => Server.token state = None /\ Server.authorize state None = Ok tt
  | _ => False
  end.
Proof. vm_compute. split; reflexivity. Qed.

(** So are paths: with certificate and key paths that are not UTF-8 the server
    falls back to plain HTTP. *)
Example tls_paths_not_unicode :
  let var_os := fun name => if String.eqb name "FOCAL_TLS_CERT" || String.eqb name "FOCAL_TLS_KEY" then Some NotUtf8 else None in
  match @focal_server var_os x86_64_env demo_tls demo_files true demo_locks demo_timeouts (MkWorld demo_tree []) with
  | Returned (Ok (ServeHttp _ _)) _ => True
  | _ => False
  end.
Proof. vm_compute. exact I. Qed.
