(* ===== verification/Journal.v ===== *)
(** * Journal: the append-only record file of the Raft stores ([append_record],
    [recover_journal] of [src/src/raft_storage.rs] and [append_record],
    [recover_records] of [src/src/raft_state_machine.rs])

    Both stores keep the same kind of file: framed, checksummed JSON records.
    The section is the code they share, with what differs as parameters.  JSON
    is third-party code: [to_vec] and [from_slice] are parameters. *)

From stdpp Require Import base gmap sets list strings.
From Stdlib Require Import ZArith Lia.
From S2P Require Import Prelude Errors Codec Wire WireFacts Wal Disk DiskFacts.

(** [serde_json::to_vec] and [serde_json::from_slice]; an error is its
    message, and neither panics. *)
Class Json (A : Type) : Type := {
  to_vec : A -> result string (list byte);
  from_slice : list byte -> result string A;
  to_vec_total : forall a, to_vec a <> Panic;
  from_slice_total : forall bytes, from_slice bytes <> Panic
}.

(** What the journals rely on: the value reads back. *)
Definition json_stable {A : Type} `{Json A} (a : A) : Prop := forall bytes, to_vec a = Ok bytes -> from_slice bytes = Ok a.

Record Format : Type := MkFormat {
  path : string; magic : list byte; version : Z; max_bytes : Z;
  too_large : string; too_long : string; bad_header : string; bad_length : string; bad_checksum : string
}.

Section Journal.
Context {R : Type} `{Json R} (format : Format).

Definition record_frame (payload : list byte) : list byte :=
  magic format ++ [to_u8 (version format)] ++ le_bytes 4 (zlen payload) ++ payload ++ le_bytes 4 (crc32c payload).

Definition append_record (record : R) : io (Result unit) :=
  let*? payload := iolift (map_err Io (to_vec record)) in
  if Z.ltb (max_bytes format) (zlen payload) then ioret (Err (Io (too_large format)))
  else if Z.ltb U32_MAX (zlen payload) then ioret (Err (Io (too_long format)))
  else
    let*? start := file_len (path format) in
    let* result := (
      let*? _ := append (path format) (magic format) in
      let*? _ := append (path format) [to_u8 (version format)] in
      let*? _ := append (path format) (le_bytes 4 (zlen payload)) in
      let*? _ := append (path format) payload in
      let*? _ := append (path format) (le_bytes 4 (crc32c payload)) in
      sync) in
    match result with
    | Ok _ => ioret result
    | _ =>
        let* _ := ignore (set_len (path format) start) in
        let* _ := ignore sync in
        ioret result
    end.

(** One record off the unread bytes; [None] where the file ends or is torn. *)
Definition read_record (unread : list byte) : Result (option (R * list byte)) :=
  if Z.ltb (zlen unread) 9 then Ok None
  else
    let? header_magic := slice unread 0 4 in
    let? header_version := index unread 4 in
    if negb (bool_decide (header_magic = magic format)) || negb (Z.eqb (u8 header_version) (version format))
    then Err (Io (bad_header format))
    else
      let? size := slice unread 5 9 in
      let? size := fixed 4 size in
      let length := le_value size in
      if Z.ltb (max_bytes format) length then Err (Io (bad_length format))
      else if Z.ltb (zlen unread) (9 + length + 4) then Ok None
      else
        let? frame := slice unread 9 (9 + length + 4) in
        let? stored := slice frame length (zlen frame) in
        let? stored := fixed 4 stored in
        let? payload := slice frame 0 length in
        if negb (Z.eqb (crc32c payload) (le_value stored)) then Err (Io (bad_checksum format))
        else
          let? record := map_err Io (from_slice payload) in
          Ok (Some (record, skipn (Z.to_nat (9 + length + 4)) unread)).

Section Fold.
Context {S : Type} (apply : S -> R -> S).

(** The loop; the fuel bounds the records, a file has fewer than its bytes. *)
Fixpoint recover_loop (fuel : nat) (unread : list byte) (start : Z) (state : S) : Result (S * Z) :=
  match fuel with
  | O => Panic
  | Datatypes.S fuel' =>
      let? next := read_record unread in
      match next with
      | None => Ok (state, start)
      | Some (record, rest) => recover_loop fuel' rest (start + (zlen unread - zlen rest)) (apply state record)
      end
  end.

(** Reading the file, and cutting it where the last whole record ends. *)
Definition recover_journal (state : S) : io (Result S) :=
  let*? _ := sync in
  let*? bytes := read_file (path format) in
  let*? (state, start) := iolift (recover_loop (Datatypes.S (length bytes)) bytes 0 state) in
  let*? _ := set_len (path format) start in
  let*? _ := sync in
  ioret (Ok state).
End Fold.
End Journal.
