(* ===== verification/JournalFacts.v ===== *)
(** * JournalFacts: the record file under errors and crashes

    Reading back a journal gives the records appended to it; a record that was
    cut short is dropped; and an append that fails or crashes leaves a prefix
    of one record behind the others. *)

From stdpp Require Import base gmap sets list strings.
From Stdlib Require Import ZArith Lia.
From S2P Require Import Prelude Errors Codec Wire WireFacts Wal Disk DiskFacts Journal.

Record format_ok (format : Format) : Prop := {
  fo_magic : length (magic format) = 4%nat;
  fo_version : in_u 8 (version format);
  fo_bytes : 0 <= max_bytes format <= U32_MAX
}.

Section Facts.
Context {R : Type} `{Json R} (format : Format) (Hf : format_ok format).
Implicit Types (ps : list (list byte)) (rs : list R) (d : Dir).

Abbreviation frame := (record_frame format).

Definition jheader (n : Z) : list byte := magic format ++ [to_u8 (version format)] ++ le_bytes 4 n.

Lemma zlen_jheader n : zlen (jheader n) = 9.
Proof. unfold jheader, zlen. rewrite !length_app, length_le_bytes, (fo_magic _ Hf). done. Qed.

Lemma frame_jheader p : frame p = jheader (zlen p) ++ p ++ le_bytes 4 (crc32c p).
Proof. unfold record_frame, jheader. by rewrite <- !app_assoc. Qed.

Lemma zlen_jframe p : zlen (frame p) = zlen p + 13.
Proof. rewrite frame_jheader, !zlen_app, zlen_jheader. unfold zlen at 2. rewrite length_le_bytes. lia. Qed.

(** Past the header of a record of [n] bytes. *)
Lemma read_record_header n rest :
  0 <= n <= max_bytes format ->
  read_record format (jheader n ++ rest) =
    if Z.ltb (zlen rest) (n + 4) then Ok None
    else
      let? fr := slice (jheader n ++ rest) 9 (9 + n + 4) in
      let? stored := slice fr n (zlen fr) in
      let? stored := fixed 4 stored in
      let? payload := slice fr 0 n in
      if negb (Z.eqb (crc32c payload) (le_value stored)) then Err (Io (bad_checksum format))
      else
        let? record := map_err Io (from_slice payload) in
        Ok (Some (record, skipn (Z.to_nat (9 + n + 4)) (jheader n ++ rest))).
Proof.
  intros [Hn Hm]. pose proof (fo_bytes _ Hf) as [_ Hmax]. pose proof (fo_magic _ Hf) as Hml. pose proof (zlen_nonneg rest).
  unfold read_record. rewrite zlen_app, zlen_jheader. rewrite (proj2 (Z.ltb_ge _ 9)) by lia.
  assert (jheader n ++ rest = magic format ++ (to_u8 (version format) :: le_bytes 4 n ++ rest)) as E by (unfold jheader; by rewrite <- !app_assoc).
  rewrite E at 1. rewrite slice_prefix by (unfold zlen; by rewrite Hml). cbn [rbind].
  rewrite E at 1. rewrite index_middle by (unfold zlen; by rewrite Hml). cbn [rbind].
  rewrite bool_decide_eq_true_2 by done. rewrite u8_to_u8, Z.mod_small by (destruct (fo_version _ Hf); done). rewrite Z.eqb_refl. cbn [negb orb].
  assert (slice (E := Error) (jheader n ++ rest) 5 9 = Ok (le_bytes 4 n)) as ->.
  { rewrite E. change (magic format ++ to_u8 (version format) :: ?l) with (magic format ++ [to_u8 (version format)] ++ l).
    rewrite app_assoc. apply slice_middle; [unfold zlen; by rewrite length_app, Hml|unfold zlen; by rewrite length_app, Hml, length_le_bytes]. }
  cbn [rbind]. unfold fixed at 1. rewrite length_le_bytes. cbn [Nat.eqb rbind].
  rewrite (le_value_bytes 4) by (unfold U32_MAX in Hmax; split; [lia|]; change (2 ^ (8 * Z.of_nat 4)) with 4294967296; lia).
  rewrite (proj2 (Z.ltb_ge _ _) Hm).
  replace (9 + zlen rest <? 9 + n + 4) with (zlen rest <? n + 4); [done|].
  destruct (Z.ltb_spec (zlen rest) (n + 4)), (Z.ltb_spec (9 + zlen rest) (9 + n + 4)); lia || done.
Qed.

Lemma read_record_frame p r rest :
  from_slice p = Ok r -> zlen p <= max_bytes format -> read_record format (frame p ++ rest) = Ok (Some (r, rest)).
Proof.
  intros Hr Hp. pose proof (zlen_nonneg p) as H0. set (c := le_bytes 4 (crc32c p)).
  assert (zlen c = 4) as Hc by (unfold c, zlen; by rewrite length_le_bytes).
  rewrite frame_jheader, <- app_assoc, read_record_header by lia. fold c.
  rewrite (proj2 (Z.ltb_ge _ _)) by (rewrite !zlen_app; pose proof (zlen_nonneg rest); lia).
  rewrite slice_middle by (rewrite ?zlen_jheader, ?zlen_app; lia). cbn [rbind].
  rewrite slice_suffix by done. cbn [rbind]. unfold fixed. unfold c at 1. rewrite length_le_bytes. cbn [Nat.eqb rbind].
  rewrite slice_prefix by done. cbn [rbind]. unfold c at 1. rewrite (le_value_bytes 4) by apply crc32c_range. rewrite Z.eqb_refl. cbn [negb].
  rewrite Hr. cbn [map_err rbind]. do 3 f_equal.
  replace (jheader (zlen p) ++ (p ++ c) ++ rest) with ((jheader (zlen p) ++ p ++ c) ++ rest) by (by rewrite !app_assoc).
  assert (length (jheader (zlen p) ++ p ++ c) = Z.to_nat (9 + zlen p + 4)) as <-.
  { rewrite <- (Nat2Z.id (length (jheader (zlen p) ++ p ++ c))). change (Z.of_nat (length ?l)) with (zlen l). rewrite !zlen_app, zlen_jheader. f_equal. lia. }
  apply drop_app_length.
Qed.

Lemma read_record_torn p n :
  zlen p <= max_bytes format -> (n < length (frame p))%nat -> read_record format (firstn n (frame p)) = Ok None.
Proof.
  intros Hp Hn. pose proof (zlen_nonneg p) as H0. pose proof (zlen_jheader (zlen p)) as Hh.
  destruct (decide (n < 9)%nat) as [H9|H9].
  - unfold read_record. rewrite (proj2 (Z.ltb_lt _ _)); [done|]. unfold zlen. rewrite length_firstn. lia.
  - rewrite frame_jheader in *. assert (length (jheader (zlen p)) = 9%nat) as Hl by (unfold zlen at 1 in Hh; lia).
    rewrite firstn_app, Hl. rewrite (firstn_all2 (jheader (zlen p))) by lia.
    rewrite read_record_header by lia. rewrite (proj2 (Z.ltb_lt _ _)); [done|].
    rewrite !length_app, Hl, length_le_bytes in Hn. unfold zlen. rewrite length_firstn, length_app, length_le_bytes. lia.
Qed.

(** ** Journals *)

Definition jlog ps : list byte := concat (map frame ps).

(** [p] is the text of the record [r]. *)
Definition encodes (p : list byte) (r : R) : Prop := to_vec r = Ok p /\ from_slice p = Ok r /\ zlen p <= max_bytes format.

Lemma jlog_snoc ps p : jlog (ps ++ [p]) = jlog ps ++ frame p.
Proof. unfold jlog. rewrite map_app, concat_app. cbn. by rewrite app_nil_r. Qed.

Lemma length_jlog ps : (length ps <= length (jlog ps))%nat.
Proof.
  induction ps as [|p ps IH]; [done|]. unfold jlog in *. cbn. rewrite length_app. pose proof (zlen_jframe p) as Hl.
  pose proof (zlen_nonneg p). unfold zlen in *. lia.
Qed.

Lemma recover_loop_jlog {S} (apply : S -> R -> S) fuel ps rs torn start s :
  Forall2 encodes ps rs -> read_record format torn = Ok None -> (length ps < fuel)%nat ->
  recover_loop format apply fuel (jlog ps ++ torn) start s = Ok (fold_left apply rs s, start + zlen (jlog ps)).
Proof.
  intros Hps Ht. revert fuel start s. induction Hps as [|p r ps rs (_ & Hr & Hp) _ IH]; intros fuel start s Hfuel;
    (destruct fuel as [|fuel]; [cbn in Hfuel; lia|]).
  - cbn [jlog map concat app recover_loop]. rewrite Ht. cbn. by rewrite Z.add_0_r.
  - unfold jlog in *. cbn [map concat recover_loop]. rewrite <- app_assoc, (read_record_frame p r) by done. cbn [rbind].
    rewrite IH by (cbn in Hfuel; lia). cbn [fold_left]. rewrite !zlen_app. do 2 f_equal. lia.
Qed.

(** The journal of [d] is the records [rs] and a torn tail. *)
Definition journal d rs (torn : list byte) : Prop :=
  exists ps, d !! path format = Some (jlog ps ++ torn) /\ Forall2 encodes ps rs /\ read_record format torn = Ok None.

Definition journal_at d rs : Prop := exists torn, journal d rs torn.

Lemma journal_agree d d' rs torn : d' !! path format = d !! path format -> journal d rs torn -> journal d' rs torn.
Proof. intros E (ps & H1 & H2). exists ps. by rewrite E. Qed.

Lemma journal_at_agree d d' rs : d' !! path format = d !! path format -> journal_at d rs -> journal_at d' rs.
Proof. intros E (torn & Hj). exists torn. by eapply journal_agree. Qed.

Lemma journal_empty d : journal (<[path format := []]> d) [] [].
Proof. exists []. split; [by rewrite lookup_insert_eq|]. split; [constructor|]. done. Qed.

(** Reading a journal. *)
Lemma recover_journal_spec {S} (apply : S -> R -> S) (s : S) d rs torn :
  journal d rs torn ->
  specifies (recover_journal format apply s) d
    (fun r d' => except (path format) d d' /\ match r with
       | Ok s' => s' = fold_left apply rs s /\ journal d' rs []
       | Err _ => journal_at d' rs
       | Panic => False
       end)
    (fun d' => except (path format) d d' /\ journal_at d' rs).
Proof.
  intros Hj. pose proof Hj as (ps & Ep & Hps & Ht). assert (journal_at d rs) as Hat by (by exists torn).
  unfold recover_journal. apply spec_sync_then; [done|done|]. apply spec_read_then; [done|done|].
  intros bytes Eb. rewrite Ep in Eb. injection Eb as <-.
  rewrite (recover_loop_jlog apply _ ps rs torn 0 s Hps Ht) by (pose proof (length_jlog ps); rewrite length_app; lia).
  rewrite iotry_ok. rewrite Z.add_0_l. apply spec_set_len_then; [done|done|]. rewrite Ep. cbn [default from_option id].
  assert (firstn (Z.to_nat (zlen (jlog ps))) (jlog ps ++ torn) = jlog ps) as ->.
  { unfold zlen. by rewrite Nat2Z.id, firstn_app, firstn_all, Nat.sub_diag, app_nil_r. }
  set (d' := <[path format := jlog ps]> d). assert (except (path format) d d') as He by (by apply except_insert).
  assert (journal d' rs []) as Hj'.
  { exists ps. split; [|done]. unfold d'. by rewrite lookup_insert_eq, app_nil_r. }
  assert (journal_at d' rs) as Hat' by (by exists []).
  apply spec_sync_then; [done|done|]. by apply spec_ret.
Qed.

Lemma recover_journal_runs {S} (apply : S -> R -> S) (s : S) d rs torn :
  journal d rs torn -> exists d', runs (recover_journal format apply s) d (Ok (fold_left apply rs s)) d'.
Proof.
  intros (ps & Ep & Hps & Ht). eexists. unfold recover_journal. eapply runs_try; [reflexivity|].
  eapply runs_try; [unfold runs, read_file, effect; cbn; rewrite Ep; reflexivity|].
  rewrite (recover_loop_jlog apply _ ps rs torn 0 s Hps Ht) by (pose proof (length_jlog ps); rewrite length_app; lia).
  rewrite iotry_ok. eapply runs_try; [reflexivity|]. eapply runs_try; [reflexivity|]. reflexivity.
Qed.

(** Whatever the file holds, an append returns or fails. *)
Lemma append_record_returns record d : specifies (append_record format record) d (fun r _ => r <> Panic) (fun _ => True).
Proof.
  assert (forall (m : io (Result unit)) d' (k : unit -> io (Result unit)),
    (forall d, specifies m d (fun r _ => r <> Panic) (fun _ => True)) -> (forall d, specifies (k tt) d (fun r _ => r <> Panic) (fun _ => True)) ->
    specifies (iotry m k) d' (fun r _ => r <> Panic) (fun _ => True)) as Htry.
  { intros m d' k Hm Hk. eapply (spec_try _ _ _ (fun _ _ => True)); [|intros [] ? _; apply Hk].
    eapply spec_mono; [apply Hm| |done]. by intros [| |] ? ?. }
  assert (forall bs d', specifies (append (path format) bs) d' (fun r _ => r <> Panic) (fun _ => True)) as Happ.
  { intros. by apply spec_append. }
  unfold append_record. destruct (to_vec record) as [payload|e|] eqn:Ev; [|by apply spec_ret|by destruct (to_vec_total record)].
  cbn [map_err]. rewrite iotry_ok. destruct (_ <? _); [by apply spec_ret|]. destruct (_ <? _); [by apply spec_ret|].
  apply spec_file_len_then; [done|done|]. eapply (spec_bind _ _ _ (fun r _ => r <> Panic)).
  - do 5 (apply Htry; [apply Happ|intros ?]). by apply spec_sync.
  - intros [[]|e|] d' Hr; [by apply spec_ret| |done].
    eapply (spec_bind _ _ _ (fun _ _ => True)); [apply spec_ignore, spec_set_len; done|]. intros _ d2 _.
    eapply (spec_bind _ _ _ (fun _ _ => True)); [apply spec_ignore, spec_sync; done|]. intros _ d3 _. by apply spec_ret.
Qed.

(** Appending a record: it is there, or - on an error or a crash - the journal
    still holds the old records, or already the new one too. *)
Lemma append_record_spec record d rs :
  journal d rs [] -> json_stable record ->
  specifies (append_record format record) d
    (fun r d' => except (path format) d d' /\ match r with
       | Ok _ => journal d' (rs ++ [record]) []
       | Err _ => journal_at d' rs \/ journal_at d' (rs ++ [record])
       | Panic => False
       end)
    (fun d' => except (path format) d d' /\ (journal_at d' rs \/ journal_at d' (rs ++ [record]))).
Proof.
  intros Hj Hstable. pose proof Hj as (ps & Ep & Hps & _). rewrite app_nil_r in Ep.
  assert (journal_at d rs) as Hat by (by exists []).
  unfold append_record. destruct (to_vec record) as [payload|e|] eqn:Ev; [| |by destruct (to_vec_total record)].
  2: { cbn [map_err]. apply spec_ret. split; [done|]. by left. }
  cbn [map_err]. rewrite iotry_ok. destruct (Z.ltb_spec (max_bytes format) (zlen payload)) as [|Hlen]; [apply spec_ret; split; [done|by left]|].
  destruct (Z.ltb_spec U32_MAX (zlen payload)); [apply spec_ret; split; [done|by left]|].
  assert (encodes payload record) as Henc by (split; [done|]; split; [by apply Hstable|done]).
  assert (journal (<[path format := jlog ps ++ frame payload]> d) (rs ++ [record]) []) as Hnew.
  { exists (ps ++ [payload]). rewrite lookup_insert_eq, app_nil_r, jlog_snoc. split; [done|]. split; [|done]. by apply Forall2_app; [|constructor]. }
  assert (forall d', wrote (path format) (jlog ps) (frame payload) d d' -> except (path format) d d' /\ (journal_at d' rs \/ journal_at d' (rs ++ [record]))) as Hw.
  { intros d' Hw. split; [by eapply wrote_except|]. destruct Hw as (l & [k E] & ->). destruct (decide (k = [])) as [->|Hk].
    - right. rewrite app_nil_r in E. subst l. by exists [].
    - left. exists l, ps. rewrite lookup_insert_eq. split; [done|]. split; [done|].
      assert (l = firstn (length l) (frame payload)) as -> by (by rewrite E, firstn_app, firstn_all, Nat.sub_diag, app_nil_r).
      apply read_record_torn; [done|]. rewrite E, length_app. destruct k; [done|]. cbn. lia. }
  apply spec_file_len_then; [by split; [|left]|by split; [|left]|]. rewrite Ep. cbn [default from_option id].
  eapply (spec_bind _ _ _ (fun r d' => match r with
     | Ok _ => d' = <[path format := jlog ps ++ frame payload]> d
     | Err _ => wrote (path format) (jlog ps) (frame payload) d d'
     | Panic => False end)).
  - assert (<[path format := jlog ps ++ []]> d = d) as E0 by (rewrite app_nil_r; by apply insert_id). rewrite <- E0 at 1.
    change (specifies (append_all (path format) [magic format; [to_u8 (version format)]; le_bytes 4 (zlen payload); payload; le_bytes 4 (crc32c payload)] sync)
      (<[path format := jlog ps ++ []]> d) (fun r d' => match r with
        | Ok _ => d' = <[path format := jlog ps ++ frame payload]> d
        | Err _ => wrote (path format) (jlog ps) (frame payload) d d'
        | Panic => False end) (fun d' => except (path format) d d' /\ (journal_at d' rs \/ journal_at d' (rs ++ [record])))).
    eapply (spec_append_all _ _ _ _ _ _ (frame payload)).
    + cbn [app concat]. unfold record_frame. by rewrite app_nil_r.
    + intros d' Hd'. split; [by apply Hw|done].
    + pose proof (wrote_full (path format) (jlog ps) (frame payload) d) as Hfull. apply spec_sync; [by apply Hw|done|done].
  - intros [[]|e|] d' Hr; [apply spec_ret; subst; split; [by apply except_insert|done]| |done].
    eapply (spec_bind _ _ _ (fun _ d' => wrote (path format) (jlog ps) (frame payload) d d')).
    + apply spec_ignore, spec_set_len; [by apply Hw|done|]. destruct Hr as (l & Hl & ->).
      rewrite lookup_insert_eq, insert_insert_eq. cbn [default from_option id]. unfold zlen.
      rewrite Nat2Z.id, firstn_app, firstn_all, Nat.sub_diag, app_nil_r, insert_id by done. by apply wrote_none.
    + intros _ d'' Hd''. eapply (spec_bind _ _ _ (fun _ d' => wrote (path format) (jlog ps) (frame payload) d d')).
      * apply spec_ignore, spec_sync; [by apply Hw|done|done].
      * intros _ d3 Hd3. apply spec_ret. by apply Hw.
Qed.
End Facts.

(** ** A whole file under one checksum, as the checkpoint and the snapshot are *)

Definition sealed_chunks (magic : list byte) (version : Z) (payload : list byte) : list (list byte) :=
  [magic; [to_u8 version]; le_bytes 8 (zlen payload); payload; le_bytes 4 (crc32c payload)].
Definition sealed (magic : list byte) (version : Z) (payload : list byte) : list byte := concat (sealed_chunks magic version payload).

Record sealed_parts (magic : list byte) (version : Z) (payload file : list byte) : Prop := {
  se_len : zlen file = 17 + zlen payload;
  se_magic : forall E, slice (E := E) file 0 4 = Ok magic;
  se_version : forall E, index (E := E) file 4 = Ok (to_u8 version);
  se_length : forall E, slice (E := E) file 5 13 = Ok (le_bytes 8 (zlen payload));
  se_payload : forall E, slice (E := E) file 13 (13 + zlen payload) = Ok payload;
  se_checksum : forall E, slice (E := E) file (13 + zlen payload) (17 + zlen payload) = Ok (le_bytes 4 (crc32c payload))
}.

Lemma sealed_reads magic version payload : zlen magic = 4 -> sealed_parts magic version payload (sealed magic version payload).
Proof.
  intros Hm. pose proof (zlen_nonneg payload). unfold sealed, sealed_chunks. cbn [concat]. rewrite app_nil_r.
  assert (zlen [to_u8 version] = 1) as Hv by done.
  assert (zlen (le_bytes 8 (zlen payload)) = 8) as Hl by (unfold zlen at 1; by rewrite length_le_bytes).
  assert (zlen (le_bytes 4 (crc32c payload)) = 4) as Hc by (unfold zlen at 1; by rewrite length_le_bytes).
  constructor; intros.
  - rewrite !zlen_app. lia.
  - by apply slice_prefix.
  - by apply (index_middle magic (to_u8 version)).
  - rewrite app_assoc. apply slice_middle; rewrite ?zlen_app; lia.
  - rewrite 2!app_assoc. apply (slice_middle _ payload); rewrite ?zlen_app; lia.
  - rewrite 3!app_assoc. apply slice_suffix; rewrite ?zlen_app; lia.
Qed.
