(* ===== verification/RaftLog.v ===== *)
(** * RaftLog: the durable Raft log ([src/src/raft_storage.rs])

    Votes, the commit marker and log entries are records of an append-only
    journal; a purge also writes a checkpoint of the whole state and empties
    the journal.  OpenRaft's votes, log identifiers and entries are parameters,
    with the two accessors the code uses; JSON is the class [Json]. *)

From stdpp Require Import base gmap sets list strings sorting.
From Stdlib Require Import ZArith Lia.
From S2P Require Import Prelude Errors Ranking Collection Codec Wire Disk Journal.

Inductive ShardCommand : Type :=
| UpsertCommand (client_id : string) (request_id : Z) (points : list UpsertPoint)
| DeleteCommand (client_id : string) (request_id : Z) (ids : list string).

Inductive ShardResponse : Type :=
| Applied (sequence : Z)
| Rejected (message : string).

#[global] Instance ShardResponse_eq_dec : EqDecision ShardResponse.
Proof. solve_decision. Defined.

Definition JOURNAL_MAGIC : list byte := bytes_of_string "FVRJ".
Definition CHECKPOINT_MAGIC : list byte := bytes_of_string "FVRC".
Definition JOURNAL_VERSION : Z := 1.
Definition MAX_RECORD_BYTES : Z := 64 * 1024 * 1024.
Definition MAX_CHECKPOINT_BYTES : Z := 512 * 1024 * 1024.

Definition raft_journal : Format :=
  MkFormat "raft.journal" JOURNAL_MAGIC JOURNAL_VERSION MAX_RECORD_BYTES "Raft journal record exceeds size limit"
    "record is too large" "invalid Raft journal header" "Raft journal record exceeds size limit"
    "Raft journal checksum mismatch".

Section RaftLog.
Context {Vote LogId Entry : Type} (log_index : LogId -> Z) (get_log_id : Entry -> LogId).

Inductive JournalRecord : Type :=
| SaveVote (vote : Vote)
| SaveCommitted (committed : option LogId)
| Append (entries : list Entry)
| Truncate (log_id : LogId)
| Purge (log_id : LogId).

Record JournalState : Type := MkState {
  vote : option Vote;
  committed : option LogId;
  last_purged : option LogId;
  entries : gmap Z Entry
}.

Definition default_state : JournalState := MkState None None None ∅.

(** [BTreeMap::split_off(&key)]: what stays, and what is returned. *)
Definition below (key : Z) (m : gmap Z Entry) : gmap Z Entry := base.filter (fun kv : Z * Entry => kv.1 < key) m.
Definition from_key (key : Z) (m : gmap Z Entry) : gmap Z Entry := base.filter (fun kv : Z * Entry => key <= kv.1) m.

Definition entry_index (entry : Entry) : Z := log_index (get_log_id entry).

(** [log_id.index + 1] wraps as in a release build. *)
Definition apply (self : JournalState) (record : JournalRecord) : JournalState :=
  match record with
  | SaveVote vote => MkState (Some vote) (committed self) (last_purged self) (entries self)
  | SaveCommitted committed => MkState (vote self) committed (last_purged self) (entries self)
  | Append new => MkState (vote self) (committed self) (last_purged self)
                    (fold_left (fun m entry => <[entry_index entry := entry]> m) new (entries self))
  | Truncate log_id => MkState (vote self) (committed self) (last_purged self) (below (log_index log_id) (entries self))
  | Purge log_id => MkState (vote self) (committed self) (Some log_id)
                      (from_key (wrap_u 64 (log_index log_id + 1)) (entries self))
  end.

(** ** Reading *)

Definition try_get_log_entries (self : JournalState) (in_range : Z -> bool) : list Entry :=
  (sort_by (cmp_on fst Z.compare) (List.filter (fun kv => in_range kv.1) (map_to_list (entries self)))).*2.

Definition get_log_state (self : JournalState) : option LogId * option LogId :=
  let last := last (sort_by (cmp_on fst Z.compare) (map_to_list (entries self))) in
  (last_purged self,
   match last with Some (_, entry) => Some (get_log_id entry) | None => last_purged self end).

Definition read_vote (self : JournalState) : option Vote := vote self.
Definition read_committed (self : JournalState) : option LogId := committed self.

(** ** The checkpoint file *)

Context `{Json JournalRecord, Json JournalState}.

Definition checkpoint_path : string := "raft.checkpoint".
Definition checkpoint_temporary (pid : Z) : string := ".raft.checkpoint.tmp-" +:+ fmt_int pid.

Definition write_checkpoint (pid : Z) (state : JournalState) : io (Result unit) :=
  let*? payload := iolift (map_err Io (to_vec state)) in
  if Z.ltb MAX_CHECKPOINT_BYTES (zlen payload) then ioret (Err (Io "Raft checkpoint exceeds size limit"))
  else
    let temporary := checkpoint_temporary pid in
    let*? _ := create_truncated temporary in
    let*? _ := append temporary CHECKPOINT_MAGIC in
    let*? _ := append temporary [to_u8 JOURNAL_VERSION] in
    let*? _ := append temporary (le_bytes 8 (zlen payload)) in
    let*? _ := append temporary payload in
    let*? _ := append temporary (le_bytes 4 (crc32c payload)) in
    let*? _ := sync in
    let*? _ := rename temporary checkpoint_path in
    sync.

Definition decode_checkpoint (bytes : list byte) : Result JournalState :=
  let bad_header := Err (Io "invalid Raft checkpoint header") in
  if Z.ltb (zlen bytes) 17 then bad_header else
  let? magic := slice bytes 0 4 in
  if negb (bool_decide (magic = CHECKPOINT_MAGIC)) then bad_header else
  let? version := index bytes 4 in
  if negb (Z.eqb (u8 version) JOURNAL_VERSION) then bad_header else
  let? length := slice bytes 5 13 in
  let? length := fixed 8 length in
  let length := le_value length in
  if Z.ltb MAX_CHECKPOINT_BYTES length || negb (Z.eqb (zlen bytes) (13 + length + 4))
  then Err (Io "invalid Raft checkpoint length") else
  let? payload := slice bytes 13 (13 + length) in
  let? stored := slice bytes (13 + length) (zlen bytes) in
  let? stored := fixed 4 stored in
  if negb (Z.eqb (crc32c payload) (le_value stored)) then Err (Io "Raft checkpoint checksum mismatch")
  else map_err Io (from_slice payload).

Definition read_checkpoint : io (Result (option JournalState)) :=
  let* present := exists_ checkpoint_path in
  if negb present then ioret (Ok None)
  else
    let*? bytes := read_file checkpoint_path in
    let*? state := iolift (decode_checkpoint bytes) in
    ioret (Ok (Some state)).

(** ** The store *)

Definition open : io (Result JournalState) :=
  let*? _ := open_or_create (path raft_journal) in
  let*? checkpoint := read_checkpoint in
  let*? state := recover_journal raft_journal apply (default default_state checkpoint) in
  let*? _ := sync in
  ioret (Ok state).

Inductive StorageKind : Type := VoteStorage | LogStorage.

(** OpenRaft's storage error: what was being written, and the I/O error. *)
Definition StorageResult (A : Type) : Type := result (StorageKind * Error) A.
Definition storage_error {A : Type} (kind : StorageKind) (r : Result A) : StorageResult A := map_err (pair kind) r.

Definition is_purge (record : JournalRecord) : bool := match record with Purge _ => true | _ => false end.

Definition write_record (pid : Z) (self : JournalState) (record : JournalRecord) (kind : StorageKind)
    : io (StorageResult unit * JournalState) :=
  let* appended := append_record raft_journal record in
  match appended with
  | Ok _ =>
      let self := apply self record in
      if is_purge record then
        let* checkpointed := (
          let*? _ := write_checkpoint pid self in
          let*? _ := set_len (path raft_journal) 0 in
          let*? _ := sync in
          sync) in
        ioret (storage_error kind checkpointed, self)
      else ioret (Ok tt, self)
  | _ => ioret (storage_error kind appended, self)
  end.

Definition save_vote (pid : Z) (self : JournalState) (vote : Vote) : io (StorageResult unit * JournalState) :=
  write_record pid self (SaveVote vote) VoteStorage.
Definition save_committed (pid : Z) (self : JournalState) (committed : option LogId) : io (StorageResult unit * JournalState) :=
  write_record pid self (SaveCommitted committed) LogStorage.

(** The result, and whether the callback was told that the entries are durable. *)
Definition append (pid : Z) (self : JournalState) (entries : list Entry) : io (StorageResult unit * bool * JournalState) :=
  let* (result, self) := write_record pid self (Append entries) LogStorage in
  ioret (result, is_ok result, self).
Definition truncate (pid : Z) (self : JournalState) (log_id : LogId) : io (StorageResult unit * JournalState) :=
  write_record pid self (Truncate log_id) LogStorage.
Definition purge (pid : Z) (self : JournalState) (log_id : LogId) : io (StorageResult unit * JournalState) :=
  write_record pid self (Purge log_id) LogStorage.
End RaftLog.

Arguments JournalRecord Vote LogId Entry : clear implicits.
Arguments JournalState Vote LogId Entry : clear implicits.
