(* ===== verification/RaftLogFacts.v ===== *)
(** * RaftLogFacts: the Raft log is durable and its checkpoints are harmless

    A directory's log is its checkpoint with the journal's records applied.
    Applying the journal again to a checkpoint taken after it changes nothing,
    so a crash between the checkpoint and the truncation of the journal is
    invisible. *)

From stdpp Require Import base gmap sets list strings sorting.
From Stdlib Require Import ZArith Lia.
From S2P Require Import Prelude Errors Ranking Collection Codec Wire WireFacts Wal Disk DiskFacts Journal JournalFacts RaftLog.

Lemma raft_journal_ok : format_ok raft_journal.
Proof. constructor; [done|done|]. vm_compute. split; discriminate. Qed.

(** ** Updates that keep or overwrite *)

Definition overwrites {A : Type} (f : A -> A) : Prop := (forall x, f x = x) \/ exists c, forall x, f x = c.

Lemma overwrites_compose {A} (f g : A -> A) : overwrites f -> overwrites g -> overwrites (fun x => g (f x)).
Proof.
  intros [Hf|(c & Hf)] [Hg|(c' & Hg)].
  - left. intros x. by rewrite Hf, Hg.
  - right. exists c'. intros x. by rewrite Hg.
  - right. exists c. intros x. by rewrite Hf, Hg.
  - right. exists c'. intros x. by rewrite Hg.
Qed.

Lemma overwrites_twice {A} (f : A -> A) x : overwrites f -> f (f x) = f x.
Proof. intros [Hf|(c & Hf)]; by rewrite !Hf. Qed.

(** What a list of updates does to a part of the state that each of them keeps
    or overwrites. *)
Lemma fold_overwrites {A B S} (proj : S -> A) (step : S -> B -> S) (act : B -> A -> A) (l : list B) :
  (forall b s, proj (step s b) = act b (proj s)) -> (forall b, overwrites (act b)) ->
  exists f, overwrites f /\ forall s, proj (fold_left step l s) = f (proj s).
Proof.
  intros Hstep Hact. induction l as [|b l (f & Hf & IH)]; [exists id; split; [by left|done]|].
  exists (fun x => f (act b x)). split; [by apply (overwrites_compose (act b) f)|]. intros s. cbn. by rewrite IH, Hstep.
Qed.

Section Facts.
Context {Vote LogId Entry : Type} (log_index : LogId -> Z) (get_log_id : Entry -> LogId).
Context `{Json (JournalRecord Vote LogId Entry), Json (JournalState Vote LogId Entry)}.
Abbreviation apply := (apply log_index get_log_id).
Implicit Types (s : JournalState Vote LogId Entry) (rs : list (JournalRecord Vote LogId Entry)).

Lemma lookup_below key (m : gmap Z Entry) i : below key m !! i = if decide (i < key) then m !! i else None.
Proof.
  unfold below. case_decide as Hi.
  - destruct (m !! i) as [e|] eqn:E; [by apply map_lookup_filter_Some|]. apply map_lookup_filter_None. by left.
  - apply map_lookup_filter_None. right. intros e _. cbn. lia.
Qed.

Lemma lookup_from_key key (m : gmap Z Entry) i : from_key key m !! i = if decide (key <= i) then m !! i else None.
Proof.
  unfold from_key. case_decide as Hi.
  - destruct (m !! i) as [e|] eqn:E; [by apply map_lookup_filter_Some|]. apply map_lookup_filter_None. by left.
  - apply map_lookup_filter_None. right. intros e _. cbn. lia.
Qed.

Definition entry_act (i : Z) (record : JournalRecord Vote LogId Entry) (e : option Entry) : option Entry :=
  match record with
  | Append new => fold_left (fun e entry => if decide (entry_index log_index get_log_id entry = i) then Some entry else e) new e
  | Truncate log_id => if decide (i < log_index log_id) then e else None
  | Purge log_id => if decide (wrap_u 64 (log_index log_id + 1) <= i) then e else None
  | _ => e
  end.

Lemma entry_act_overwrites i record : overwrites (entry_act i record).
Proof.
  destruct record as [|v|new|log_id|log_id]; unfold entry_act; try (by left).
  - destruct (fold_overwrites (fun e : option Entry => e) (fun e entry => if decide (entry_index log_index get_log_id entry = i) then Some entry else e)
      (fun entry e => if decide (entry_index log_index get_log_id entry = i) then Some entry else e) new) as (f & Hf & E); [done| |].
    + intros entry. destruct (decide (entry_index log_index get_log_id entry = i)); [right; by exists (Some entry)|by left].
    + cbv beta in E. destruct Hf as [Hf|(c & Hf)]; [left|right; exists c]; intros x; (etrans; [apply E|apply Hf]).
  - destruct (decide (i < log_index log_id)); [by left|right; by exists None].
  - destruct (decide (wrap_u 64 (log_index log_id + 1) <= i)); [by left|right; by exists None].
Qed.

Lemma entry_act_apply i s record : entries (apply s record) !! i = entry_act i record (entries s !! i).
Proof.
  destruct record as [|v|new|log_id|log_id]; cbn; try done.
  - generalize (entries s) as m. induction new as [|entry new IH]; intros m; [done|]. cbn. rewrite IH. f_equal.
    case_decide as E; [by rewrite E, lookup_insert_eq|by rewrite lookup_insert_ne].
  - by rewrite lookup_below.
  - by rewrite lookup_from_key.
Qed.

(** Applying a journal to a state it already led to changes nothing. *)
Lemma replay_idempotent rs s : fold_left apply rs (fold_left apply rs s) = fold_left apply rs s.
Proof.
  assert (forall {A} (proj : JournalState Vote LogId Entry -> A) (act : JournalRecord Vote LogId Entry -> A -> A),
    (forall r s, proj (apply s r) = act r (proj s)) -> (forall r, overwrites (act r)) ->
    proj (fold_left apply rs (fold_left apply rs s)) = proj (fold_left apply rs s)) as Hproj.
  { intros A proj act H1 H2. destruct (fold_overwrites proj apply act rs H1 H2) as (f & Hf & E). rewrite !E. by apply overwrites_twice. }
  assert (forall s1 s2, vote s1 = vote s2 -> committed s1 = committed s2 -> last_purged s1 = last_purged s2 -> entries s1 = entries s2 -> s1 = s2) as Hext.
  { intros [] [] ; cbn. congruence. }
  apply Hext.
  - apply (Hproj _ vote (fun r v => match r with SaveVote v' => Some v' | _ => v end)); [by intros []|].
    intros []; try (by left). right. by eexists.
  - apply (Hproj _ committed (fun r v => match r with SaveCommitted v' => v' | _ => v end)); [by intros []|].
    intros []; try (by left). right. by eexists.
  - apply (Hproj _ last_purged (fun r v => match r with Purge v' => Some v' | _ => v end)); [by intros []|].
    intros []; try (by left). right. by eexists.
  - apply map_eq. intros i. apply (Hproj _ (fun s => entries s !! i) (entry_act i)); [intros; apply entry_act_apply|].
    apply entry_act_overwrites.
Qed.

(** ** The checkpoint file *)

Definition checkpoint_file (payload : list byte) : list byte := sealed CHECKPOINT_MAGIC JOURNAL_VERSION payload.

Lemma decode_checkpoint_file payload :
  zlen payload <= MAX_CHECKPOINT_BYTES -> decode_checkpoint (Entry := Entry) (checkpoint_file payload) = map_err Io (from_slice payload).
Proof.
  intros Hmax. pose proof (zlen_nonneg payload). unfold decode_checkpoint, checkpoint_file.
  destruct (sealed_reads CHECKPOINT_MAGIC JOURNAL_VERSION payload eq_refl) as [Hz Hm Hv Hl Hp Hc].
  rewrite Hz, (proj2 (Z.ltb_ge _ 17)) by lia. rewrite Hm. cbn [rbind]. rewrite bool_decide_eq_true_2 by done. cbn [negb].
  rewrite Hv. cbn [rbind]. change (negb (u8 (to_u8 JOURNAL_VERSION) =? JOURNAL_VERSION)) with false. cbv iota.
  rewrite Hl. cbn [rbind]. unfold fixed at 1. rewrite length_le_bytes. cbn [Nat.eqb rbind].
  rewrite le_value_bytes.
  2: { unfold MAX_CHECKPOINT_BYTES in Hmax. split; [done|]. change (2 ^ (8 * Z.of_nat 8)) with 18446744073709551616. lia. }
  rewrite (proj2 (Z.ltb_ge _ _) Hmax). replace (17 + zlen payload) with (13 + zlen payload + 4) in * by lia. rewrite Z.eqb_refl. cbn [negb orb].
  rewrite Hp. cbn [rbind]. rewrite Hc. cbn [rbind]. unfold fixed. rewrite length_le_bytes. cbn [Nat.eqb rbind].
  rewrite le_value_bytes by apply crc32c_range. by rewrite Z.eqb_refl.
Qed.

(** ** What a directory holds *)

Definition checkpoint_dir (d : Dir) : Result (option (JournalState Vote LogId Entry)) :=
  match d !! checkpoint_path with None => Ok None | Some bytes => rmap Some (decode_checkpoint bytes) end.

Lemma read_checkpoint_reads d : reads_as (read_checkpoint (Entry := Entry)) d (checkpoint_dir d).
Proof.
  unfold read_checkpoint, checkpoint_dir. apply reads_as_exists. destruct (d !! checkpoint_path) as [bytes|] eqn:E.
  - rewrite bool_decide_eq_true_2 by done. cbn [negb].
    assert (rmap Some (decode_checkpoint bytes) = rbind (ok_or (d !! checkpoint_path) missing)
      (fun bytes => rbind (decode_checkpoint bytes) (fun state => Ok (Some state)))) as -> by (rewrite E; cbn; by destruct (decode_checkpoint bytes)).
    apply reads_as_try; [apply reads_as_file|]. intros bytes' _.
    apply reads_as_try; [apply reads_as_ret|]. intros state _. apply reads_as_ret.
  - rewrite bool_decide_eq_false_2 by (by intros []). apply reads_as_ret.
Qed.

(** [records rs d s]: [d]'s checkpoint with the records [rs] applied is [s]. *)
Definition records d rs s : Prop := exists c, checkpoint_dir d = Ok c /\ s = fold_left apply rs (default default_state c).

(** A directory a restart reads as [s]: the journal may end in a torn record. *)
Definition raft_recoverable (d : Dir) s : Prop :=
  exists rs, (journal_at raft_journal d rs \/ d !! path raft_journal = None /\ rs = []) /\ records d rs s.

(** The directory of an open store in the state [s]. *)
Definition raft_ok (d : Dir) s : Prop := exists rs, journal raft_journal d rs [] /\ records d rs s.

Lemma raft_ok_recoverable d s : raft_ok d s -> raft_recoverable d s.
Proof. intros (rs & Hj & Hs). exists rs. split; [left; by exists []|done]. Qed.

Lemma records_agree d d' rs s : d' !! checkpoint_path = d !! checkpoint_path -> records d rs s -> records d' rs s.
Proof. intros E (c & H1 & H2). exists c. unfold checkpoint_dir. by rewrite E. Qed.

Lemma records_except d d' rs s : except (path raft_journal) d d' -> records d rs s -> records d' rs s.
Proof. intros He. apply records_agree. by apply He. Qed.

Lemma records_snoc d rs s record : records d rs s -> records d (rs ++ [record]) (apply s record).
Proof. intros (c & Hc & ->). exists c. split; [done|]. by rewrite fold_left_app. Qed.

(** The journal and the checkpoint are all that counts. *)
Lemma recoverable_but temporary d d' s :
  temporary <> checkpoint_path -> temporary <> path raft_journal -> except temporary d d' -> raft_recoverable d s -> raft_recoverable d' s.
Proof.
  intros H1 H2 He (rs & Hj & Hs). exists rs. split; [|eapply records_agree; [|exact Hs]; by apply He].
  destruct Hj as [Hj|[Hj ->]]; [left; eapply journal_at_agree; [|exact Hj]; by apply He|right; split; [|done]; by rewrite He].
Qed.

(** ** Opening *)

Definition opened s (r : Result (JournalState Vote LogId Entry)) (d' : Dir) : Prop :=
  match r with Ok s' => s' = s /\ raft_ok d' s | Err _ => raft_recoverable d' s | Panic => False end.

Lemma created_recoverable d s : raft_recoverable d s -> d !! path raft_journal = None -> 
  raft_recoverable (<[path raft_journal := []]> d) s.
Proof.
  intros (rs & Hj & Hs) E. assert (rs = []) as ->.
  { destruct Hj as [(torn & ps & Ep & _)|[_ ->]]; [congruence|done]. }
  exists []. split; [left; exists []; apply journal_empty|]. eapply records_except; [|exact Hs]. by apply except_insert.
Qed.

Lemma open_tail_spec d s :
  raft_recoverable d s -> is_Some (d !! path raft_journal) ->
  specifies (let*? checkpoint := read_checkpoint in
             let*? state := recover_journal raft_journal apply (default default_state checkpoint) in
             let*? _ := sync in ioret (Ok state)) d (opened s) (fun d' => raft_recoverable d' s).
Proof.
  intros Hr [bytes Eb]. pose proof Hr as (rs & [(torn & Hj)|[E _]] & c & Hc & Hs); [|congruence].
  apply (spec_reads _ _ _ _ _ _ (read_checkpoint_reads d)); [done|intros e; done|]. rewrite Hc.
  assert (forall d', except (path raft_journal) d d' -> records d' rs s) as Hrec.
  { intros d' He. eapply records_except; [exact He|]. by exists c. }
  eapply (spec_try _ _ _ (fun s' d' => s' = s /\ raft_ok d' s)).
  - eapply spec_mono; [apply (recover_journal_spec raft_journal raft_journal_ok apply _ d rs torn Hj)| |].
    + intros [s'|e|] d' [He Hd']; [|exists rs; by auto|done]. destruct Hd' as [-> Hd']. split; [done|]. exists rs. by auto.
    + intros d' [He Hd']. exists rs. by auto.
  - intros s' d' [-> Hok]. pose proof (raft_ok_recoverable _ _ Hok). apply spec_sync_then; [done|done|]. by apply spec_ret.
Qed.

Lemma raft_open_spec d s :
  raft_recoverable d s -> specifies (open log_index get_log_id) d (opened s) (fun d' => raft_recoverable d' s).
Proof.
  intros Hr. unfold open. apply spec_open_or_create_then; [done|done| |].
  - intros E. apply open_tail_spec; [by apply created_recoverable|]. rewrite lookup_insert_eq. by eexists.
  - intros E. by apply open_tail_spec.
Qed.

Lemma raft_open_runs d s : raft_recoverable d s -> exists d', runs (open log_index get_log_id) d (Ok s) d'.
Proof.
  intros Hr. set (d1 := match d !! path raft_journal with Some _ => d | None => <[path raft_journal := []]> d end).
  assert (raft_recoverable d1 s) as (rs & Hj & c & Hc & ->).
  { unfold d1. destruct (d !! path raft_journal) eqn:E; [done|by apply created_recoverable]. }
  assert (exists torn, journal raft_journal d1 rs torn) as (torn & Hjt).
  { destruct Hj as [(torn & Hj)|[E _]]; [by exists torn|]. unfold d1 in E. destruct (d !! path raft_journal) eqn:E'; [congruence|].
    by rewrite lookup_insert_eq in E. }
  destruct (recover_journal_runs raft_journal raft_journal_ok apply (default default_state c) d1 rs torn Hjt) as (d2 & Hrun).
  exists d2. unfold open. eapply runs_try; [apply runs_open_or_create|]. fold d1.
  eapply runs_try; [rewrite <- Hc; apply read_checkpoint_reads|].
  eapply runs_try; [exact Hrun|]. eapply runs_try; reflexivity.
Qed.

(** ** Writing *)

Lemma temporary_journal pid : checkpoint_temporary pid <> path raft_journal.
Proof. by unfold checkpoint_temporary, fmt_int. Qed.

Lemma temporary_checkpoint pid : checkpoint_temporary pid <> checkpoint_path.
Proof. by unfold checkpoint_temporary, fmt_int. Qed.

Lemma write_checkpoint_spec pid d rs s :
  journal raft_journal d rs [] -> records d rs s -> json_stable s ->
  specifies (write_checkpoint pid s) d
    (fun r d' => match r with
       | Ok _ => journal raft_journal d' rs [] /\ checkpoint_dir d' = Ok (Some s)
       | Err _ => raft_recoverable d' s
       | Panic => False
       end) (fun d' => raft_recoverable d' s).
Proof.
  intros Hj Hs Hstable. assert (raft_recoverable d s) as Hr by (apply raft_ok_recoverable; by exists rs).
  unfold write_checkpoint. destruct (to_vec s) as [payload|e|] eqn:Ev; [|by apply spec_ret|by destruct (to_vec_total s)].
  cbn [map_err]. rewrite iotry_ok. destruct (Z.ltb_spec MAX_CHECKPOINT_BYTES (zlen payload)) as [|Hlen]; [by apply spec_ret|].
  cbv zeta. set (d' := <[checkpoint_path := checkpoint_file payload]> (base.delete (checkpoint_temporary pid) d)).
  assert (checkpoint_dir d' = Ok (Some s)) as Hc.
  { unfold checkpoint_dir, d'. rewrite lookup_insert_eq, decode_checkpoint_file by done. by rewrite (Hstable _ Ev). }
  assert (journal raft_journal d' rs []) as Hj'.
  { eapply journal_agree; [|exact Hj]. unfold d'. rewrite lookup_insert_ne by done. apply lookup_delete_ne, temporary_journal. }
  assert (raft_recoverable d' s) as Hr'.
  { exists rs. split; [left; by exists []|]. exists (Some s). split; [done|]. destruct Hs as (c & _ & ->). cbn. by rewrite replay_idempotent. }
  apply (spec_replace_file (checkpoint_temporary pid) checkpoint_path (sealed_chunks CHECKPOINT_MAGIC JOURNAL_VERSION payload)).
  - intros d'' He. assert (raft_recoverable d'' s); [|done].
    eapply recoverable_but; [apply temporary_checkpoint|apply temporary_journal|exact He|done].
  - change (<[checkpoint_path := concat (sealed_chunks CHECKPOINT_MAGIC JOURNAL_VERSION payload)]> (base.delete (checkpoint_temporary pid) d)) with d'.
    by apply spec_sync.
Qed.

(** What a write leaves: acknowledged, the new state in memory and on disk;
    refused, one of the two states on disk, and the memory not ahead of it. *)
Definition wrote_record s record (r : StorageResult unit * JournalState Vote LogId Entry) (d' : Dir) : Prop :=
  match r with
  | (Ok _, s') => s' = apply s record /\ raft_ok d' s'
  | (Err _, s') => s' = s /\ (raft_recoverable d' s \/ raft_recoverable d' (apply s record)) \/
                   s' = apply s record /\ raft_recoverable d' s'
  | (Panic, _) => False
  end.

Lemma emptied_ok d d1 rs s :
  journal raft_journal d rs [] -> checkpoint_dir d = Ok (Some s) -> d1 = <[path raft_journal := []]> d -> raft_ok d1 s.
Proof.
  intros Hj Hc ->. exists []. split; [apply journal_empty|]. exists (Some s). split; [|done].
  unfold checkpoint_dir. by rewrite lookup_insert_ne.
Qed.

Lemma write_record_spec pid s record kind d :
  raft_ok d s -> json_stable record -> (is_purge record = true -> json_stable (apply s record)) ->
  specifies (write_record log_index get_log_id pid s record kind) d (wrote_record s record)
    (fun d' => raft_recoverable d' s \/ raft_recoverable d' (apply s record)).
Proof.
  intros (rs & Hj & Hs) Hrec Hstate. set (s' := apply s record) in *.
  assert (forall d', except (path raft_journal) d d' -> journal_at raft_journal d' rs \/ journal_at raft_journal d' (rs ++ [record]) ->
    raft_recoverable d' s \/ raft_recoverable d' s') as Hboth.
  { intros d' He [Hj'|Hj']; [left; exists rs|right; exists (rs ++ [record])]; (split; [by left|]); (eapply records_except; [exact He|]);
      [done|by apply records_snoc]. }
  unfold write_record. eapply spec_bind.
  { eapply spec_mono; [apply (append_record_spec raft_journal raft_journal_ok record d rs Hj Hrec)| |].
    - intros r d' Hr. exact Hr.
    - intros d' [He Hj']. by apply Hboth. }
  intros [[]|e|] d' [He Hr]; [| |done].
  2: { apply spec_ret. left. split; [done|]. by apply Hboth. }
  assert (records d' (rs ++ [record]) s') as Hs' by (eapply records_except; [exact He|by apply records_snoc]). fold s'.
  destruct (is_purge record); [|apply spec_ret; split; [done|by exists (rs ++ [record])]].
  eapply (spec_bind _ _ _ (fun r d'' => match r with Ok _ => raft_ok d'' s' | Err _ => raft_recoverable d'' s' | Panic => False end)).
  - eapply (spec_try _ _ _ (fun _ d'' => journal raft_journal d'' (rs ++ [record]) [] /\ checkpoint_dir d'' = Ok (Some s'))).
    + eapply spec_mono; [by apply (write_checkpoint_spec pid d' (rs ++ [record]) s'); auto|by intros [[]|e|]|by right].
    + intros [] d'' [Hj'' Hc]. assert (raft_recoverable d'' s') as Hr''.
      { exists (rs ++ [record]). split; [left; by exists []|]. exists (Some s'). split; [done|]. destruct Hs' as (c & _ & ->). cbn.
        by rewrite replay_idempotent. }
      apply spec_set_len_then; [by right|done|]. cbn [Z.to_nat firstn].
      assert (raft_ok (<[path raft_journal := []]> d'') s') as Hok by (by eapply emptied_ok).
      pose proof (raft_ok_recoverable _ _ Hok). apply spec_sync_then; [by right|done|]. by apply spec_sync; [right|..].
  - intros [[]|e|] d'' Hd''; [| |done]; apply spec_ret; [done|by right].
Qed.

(** A restart without faults finds the state [s]. *)
Definition restarts (d : Dir) s : Prop := exists w, open log_index get_log_id (MkWorld d []) = Returned (Ok s) w /\ raft_ok (disk w) s.

Lemma recoverable_restarts d s : raft_recoverable d s -> restarts d s.
Proof.
  intros Hr. destruct (raft_open_runs d s Hr) as (d' & E). exists (MkWorld d' []). split; [exact E|].
  pose proof (raft_open_spec d s Hr []) as Hs. unfold runs in E. rewrite E in Hs. by destruct Hs.
Qed.

(** C27 (raft_write_survives). The Raft log is durable and atomic under every
    placement of I/O errors and of a crash: an acknowledged record - a vote, a
    commit marker, entries, a truncation or a purge with its checkpoint - is in
    the state a restart finds; after an error or a crash at any system call a
    restart finds the state without the record or the state with it. *)
Theorem raft_write_survives pid s record kind d script :
  raft_ok d s -> json_stable record -> (is_purge record = true -> json_stable (apply s record)) ->
  match write_record log_index get_log_id pid s record kind (MkWorld d script) with
  | Returned (Ok _, s') w => s' = apply s record /\ raft_ok (disk w) s' /\ restarts (disk w) s'
  | Returned (Err _, s') w => s' = s /\ (restarts (disk w) s \/ restarts (disk w) (apply s record)) \/
                              s' = apply s record /\ restarts (disk w) s'
  | Returned (Panic, _) _ => False
  | Crashed d' => restarts d' s \/ restarts d' (apply s record)
  end.
Proof.
  intros Hok Hr Hs. pose proof (write_record_spec pid s record kind d Hok Hr Hs script) as H'.
  pose proof recoverable_restarts as Hre. pose proof raft_ok_recoverable as Hro.
  destruct (write_record _ _ _ _ _ _ _) as [[[[]|e|] s'] w|d']; cbn in H'; [|naive_solver..].
  destruct H' as [-> H']. auto.
Qed.

(** A checkpoint can be taken at any point of the
    journal without the journal being cut: replaying all of it over the
    checkpoint gives the state the whole journal gives. *)
Theorem raft_replay_idempotent s rs later :
  fold_left apply (rs ++ later) (fold_left apply rs s) = fold_left apply (rs ++ later) s.
Proof. by rewrite !fold_left_app, replay_idempotent. Qed.
End Facts.

(** ** A log on which the theorems can be run *)

Definition demo_index (log_id : byte) : Z := u8 log_id.
Abbreviation DemoRecord := (JournalRecord byte byte byte).
Abbreviation DemoState := (JournalState byte byte byte).

Definition put_option (o : option byte) : list byte := match o with None => [x00] | Some b => [x01; b] end.
Definition get_option (l : list byte) : option (option byte * list byte) :=
  match l with x00 :: l => Some (None, l) | x01 :: b :: l => Some (Some b, l) | _ => None end.

Definition demo_record_text (record : DemoRecord) : list byte :=
  match record with
  | SaveVote v => [x00; v]
  | SaveCommitted c => x01 :: put_option c
  | Append es => x02 :: es
  | Truncate l => [x03; l]
  | Purge l => [x04; l]
  end.

Definition demo_record_of (bytes : list byte) : result string DemoRecord :=
  match bytes with
  | [x00; v] => Ok (SaveVote v)
  | x01 :: l => match get_option l with Some (c, []) => Ok (SaveCommitted c) | _ => Err "option" end
  | x02 :: es => Ok (Append es)
  | [x03; l] => Ok (Truncate l)
  | [x04; l] => Ok (Purge l)
  | _ => Err "record"
  end.

#[export] Instance demo_record_json : Json DemoRecord.
Proof.
  refine {| to_vec := fun r => Ok (demo_record_text r); from_slice := demo_record_of |}; [done|].
  intros bytes. unfold demo_record_of. repeat (case_match; try done).
Defined.

Lemma demo_record_stable (record : DemoRecord) : json_stable record.
Proof. intros bytes [= <-]. by destruct record as [|[]| | |]. Qed.

Definition demo_state_of (bytes : list byte) : result string DemoState :=
  match get_option bytes with
  | Some (v, l) =>
      match get_option l with
      | Some (c, l) =>
          match get_option l with
          | Some (p, es) => Ok (MkState v c p (list_to_map (map (fun e => (u8 e, e)) es)))
          | None => Err "purged"
          end
      | None => Err "committed"
      end
  | None => Err "vote"
  end.

#[export] Instance demo_state_json : Json DemoState.
Proof.
  refine {| to_vec := fun s => Ok (put_option (vote s) ++ put_option (committed s) ++ put_option (last_purged s) ++ (map_to_list (entries s)).*2);
            from_slice := demo_state_of |}; [done|].
  intros bytes. unfold demo_state_of. repeat (case_match; try done).
Defined.

Lemma demo_empty_log : raft_ok demo_index id (<[path raft_journal := []]> ∅) default_state.
Proof. exists []. split; [apply journal_empty|]. by exists None. Qed.

Definition demo_log : DemoState := fold_left (apply demo_index id) [SaveVote x07; Append [x01; x02; x03]; SaveCommitted (Some x02)] default_state.

(** The directory after those three writes. *)
Definition demo_log_dir : Dir :=
  <[path raft_journal := concat (map (fun r => record_frame raft_journal (demo_record_text r))
      [SaveVote x07; Append [x01; x02; x03]; SaveCommitted (Some x02)])]> ∅.

Lemma demo_log_ok : raft_ok demo_index id demo_log_dir demo_log.
Proof.
  exists [SaveVote x07; Append [x01; x02; x03]; SaveCommitted (Some x02)]. split; [|by exists None].
  exists (map demo_record_text [SaveVote x07; Append [x01; x02; x03]; SaveCommitted (Some x02)]). split; [|split; [|done]].
  - unfold demo_log_dir, jlog. by rewrite lookup_insert_eq, app_nil_r, map_map.
  - repeat constructor; try (intros [=]; done); by vm_compute.
Qed.

(** A purge of that log, with its checkpoint. *)
Lemma raft_write_witness :
  match write_record demo_index id 1 demo_log (Purge x01) LogStorage (MkWorld demo_log_dir []) with
  | Returned (Ok _, s') w => s' = apply demo_index id demo_log (Purge x01) /\ raft_ok demo_index id (disk w) s' /\
                             restarts demo_index id (disk w) s'
  | _ => False
  end.
Proof.
  pose proof (raft_write_survives demo_index id 1 demo_log (Purge x01) LogStorage demo_log_dir [] demo_log_ok (demo_record_stable _)
    ltac:(intros _ bytes [= <-]; vm_compute; reflexivity)) as H.
  assert (exists s' w, write_record demo_index id 1 demo_log (Purge x01) LogStorage (MkWorld demo_log_dir []) = Returned (Ok tt, s') w) as (s' & w & E).
  { eexists _, _. vm_compute. reflexivity. }
  rewrite E in H |- *. exact H.
Defined.
