(* ===== verification/RaftStateMachine.v ===== *)
(** * RaftStateMachine: a replica's state machine ([src/src/raft_state_machine.rs])

    Committed entries are decided ([prepare_payload]), journalled with their
    response and replayed ([replay_record]); a snapshot carries the whole state
    and restarts replay the journal over it.  OpenRaft's identifiers,
    memberships and entries are parameters; JSON is the class [Json]. *)

From stdpp Require Import base gmap sets list strings sorting.
From Stdlib Require Import ZArith Lia.
From S2P Require Import Prelude Errors Floats Ranking Metric Filter MetadataIndex Quantize.
From S2P Require Hnsw.
From S2P Require Import RaftLog Collection Codec Wire Disk Journal.
From S2P Require Persistence.

Definition STATE_MAGIC : list byte := bytes_of_string "FVRS".
Definition STATE_VERSION : Z := 1.
Definition MAX_STATE_RECORD_BYTES : Z := 256 * 1024 * 1024.
Definition SNAPSHOT_MAGIC : list byte := bytes_of_string "FVSS".
Definition SNAPSHOT_VERSION : Z := 1.
Definition MIN_REINDEXED_POINTS : Z := 256.
Definition REINDEX_DIRTY_DIVISOR : Z := 5.

Definition state_journal : Format :=
  MkFormat "state.journal" STATE_MAGIC STATE_VERSION MAX_STATE_RECORD_BYTES "state record exceeds size limit"
    "state record is too large" "invalid state journal header" "state record exceeds size limit"
    "state journal checksum mismatch".

(** What an OpenRaft entry carries. *)
Inductive EntryPayload (Membership : Type) : Type :=
| Blank
| Normal (command : ShardCommand)
| MembershipChange (membership : Membership).
Arguments Blank {Membership}.
Arguments Normal {Membership} command.
Arguments MembershipChange {Membership} membership.

Definition command_identity (command : ShardCommand) : string * Z :=
  match command with
  | UpsertCommand client_id request_id _ => (client_id, request_id)
  | DeleteCommand client_id request_id _ => (client_id, request_id)
  end.

(** [BTreeMap<String, BTreeMap<u64, ShardResponse>>] *)
Abbreviation Dedup := (gmap string (gmap Z ShardResponse)).

Definition remembered (dedup : Dedup) (client_id : string) (request_id : Z) : option ShardResponse :=
  dedup !! client_id ≫= fun requests => requests !! request_id.
Definition remember (dedup : Dedup) (client_id : string) (request_id : Z) (response : ShardResponse) : Dedup :=
  <[client_id := <[request_id := response]> (default ∅ (dedup !! client_id))]> dedup.

Section StateMachine.
Context `{FloatEnv} (avx2 : bool).
Context {LogId Membership StoredMembership SnapshotMeta Entry : Type}.
Context (log_index : LogId -> Z) (entry_log_id : Entry -> LogId) (entry_payload : Entry -> EntryPayload Membership).
Context (stored_membership_new : option LogId -> Membership -> StoredMembership) (stored_membership_default : StoredMembership).
Context (snapshot_meta : option LogId -> StoredMembership -> string -> SnapshotMeta).

Inductive AppliedPayload : Type :=
| AppliedBlank
| AppliedCommand (command : ShardCommand) (response : ShardResponse)
| AppliedMembership (membership : Membership).

Record AppliedRecord : Type := MkRecord { record_log_id : LogId; record_payload : AppliedPayload }.

Record StateSnapshot : Type := MkStateSnapshot {
  snap_config : CollectionConfig;
  snap_points : list Point;
  snap_sequence : Z;
  snap_last_applied : option LogId;
  snap_membership : StoredMembership;
  snap_dedup : Dedup
}.

Record StoredSnapshot : Type := MkStoredSnapshot { stored_meta : SnapshotMeta; stored_data : list byte; stored_checksum : option Z }.

(** The five parts [replay_record] borrows. *)
Record Replica : Type := MkReplica {
  collection : Collection;
  last_applied : option LogId;
  membership : StoredMembership;
  dedup : Dedup;
  dirty_ids : gset string
}.

(** [StateInner]; the graph comes with its pool of idle workspaces. *)
Record StateInner : Type := MkInner {
  replica : Replica;
  graph : option (Hnsw.HnswIndex * list Hnsw.BuildWorkspace);
  metadata_index : option MetadataIndex;
  current_snapshot : option StoredSnapshot
}.

(** ** Deciding and replaying entries *)

Definition prepare_payload (inner : Replica) (entry : Entry) : Result (AppliedPayload * ShardResponse) :=
  match entry_payload entry with
  | Blank => Ok (AppliedBlank, Applied (latest_sequence (collection inner)))
  | MembershipChange membership => Ok (AppliedMembership membership, Applied (latest_sequence (collection inner)))
  | Normal command =>
      let '(client_id, request_id) := command_identity command in
      match remembered (dedup inner) client_id request_id with
      | Some response => Ok (AppliedCommand command response, response)
      | None =>
          let? response :=
            match checked_add U64_MAX (latest_sequence (collection inner)) 1 with
            | None => Ok (Rejected "collection sequence overflow")
            | Some sequence =>
                match command with
                | UpsertCommand _ _ points =>
                    match prepare_upsert (collection inner) points sequence with
                    | Ok _ => Ok (Applied sequence)
                    | Err error => Ok (Rejected (to_string error))
                    | Panic => Panic
                    end
                | DeleteCommand _ _ ids =>
                    if bool_decide (ids = []) || existsb (fun id => bool_decide (id = "")) ids
                    then Ok (Rejected "delete IDs must be non-empty")
                    else Ok (Applied sequence)
                end
            end in
          Ok (AppliedCommand command response, response)
      end
  end.

Definition set_collection (self : Replica) (collection : Collection) : Replica :=
  MkReplica collection (last_applied self) (membership self) (dedup self) (dirty_ids self).
Definition touch (self : Replica) (ids : list string) : Replica :=
  MkReplica (collection self) (last_applied self) (membership self) (dedup self) (list_to_set ids ∪ dirty_ids self).
Definition set_dedup (self : Replica) (dedup : Dedup) : Replica :=
  MkReplica (collection self) (last_applied self) (membership self) dedup (dirty_ids self).
Definition set_membership (self : Replica) (membership : StoredMembership) : Replica :=
  MkReplica (collection self) (last_applied self) membership (dedup self) (dirty_ids self).
Definition set_applied (self : Replica) (log_id : LogId) : Replica :=
  MkReplica (collection self) (Some log_id) (membership self) (dedup self) (dirty_ids self).

(** The effect of a command that was answered [Applied]. *)
Definition replay_command (self : Replica) (command : ShardCommand) (sequence : Z) : Result unit * Replica :=
  match command with
  | UpsertCommand _ _ points =>
      let self := touch self (map up_id points) in
      match prepare_upsert (collection self) points sequence with
      | Ok prepared => (Ok tt, set_collection self (apply_prepared_upsert (collection self) prepared sequence))
      | Err e => (Err e, self)
      | Panic => (Panic, self)
      end
  | DeleteCommand _ _ ids =>
      let self := touch self ids in
      (Ok tt, set_collection self (apply_delete_at (collection self) ids sequence))
  end.

Definition replay_record (self : Replica) (record : AppliedRecord) : Result unit * Replica :=
  let '(result, self) :=
    match record_payload record with
    | AppliedBlank => (Ok tt, self)
    | AppliedMembership value => (Ok tt, set_membership self (stored_membership_new (Some (record_log_id record)) value))
    | AppliedCommand command response =>
        let '(client_id, request_id) := command_identity command in
        match remembered (dedup self) client_id request_id with
        | Some _ => (Ok tt, self)
        | None =>
            let '(result, self) :=
              match response with
              | Applied sequence => replay_command self command sequence
              | Rejected _ => (Ok tt, self)
              end in
            match result with
            | Ok _ => (Ok tt, set_dedup self (remember (dedup self) client_id request_id response))
            | _ => (result, self)
            end
        end
    end in
  match result with
  | Ok _ => (Ok tt, set_applied self (record_log_id record))
  | _ => (result, self)
  end.

(** ** Applying committed entries *)

Inductive StorageError : Type :=
| WriteStateMachine (e : Error)
| ReadStateMachine (e : Error)
| ReadSnapshot (e : Error)
| WriteSnapshot (e : Error).
Abbreviation SmResult := (result StorageError).

Context `{Json AppliedRecord, Json StateSnapshot, Json StoredSnapshot, Json (SnapshotMeta * list byte)}.

Definition apply_entry (inner : Replica) (entry : Entry) : io (Result ShardResponse * Replica) :=
  match prepare_payload inner entry with
  | Ok (payload, response) =>
      let record := MkRecord (entry_log_id entry) payload in
      let* appended := append_record state_journal record in
      match appended with
      | Ok _ =>
          let '(result, inner) := replay_record inner record in
          ioret (rmap (fun _ => response) result, inner)
      | Err e => ioret (Err e, inner)
      | Panic => ioret (Panic, inner)
      end
  | Err e => ioret (Err e, inner)
  | Panic => ioret (Panic, inner)
  end.

Fixpoint apply_entries (inner : Replica) (entries : list Entry) (responses : list ShardResponse)
    : io (Result (list ShardResponse) * Replica) :=
  match entries with
  | [] => ioret (Ok responses, inner)
  | entry :: entries' =>
      let* (result, inner) := apply_entry inner entry in
      match result with
      | Ok response => apply_entries inner entries' (responses ++ [response])
      | Err e => ioret (Err e, inner)
      | Panic => ioret (Panic, inner)
      end
  end.

Definition with_replica (self : StateInner) (replica : Replica) : StateInner :=
  MkInner replica (graph self) (metadata_index self) (current_snapshot self).

Definition apply (self : StateInner) (entries : list Entry) : io (SmResult (list ShardResponse) * StateInner) :=
  let* (result, replica) := apply_entries (replica self) entries [] in
  ioret (map_err WriteStateMachine result, with_replica self replica).

Definition applied_state (self : StateInner) : option LogId * StoredMembership :=
  (last_applied (replica self), membership (replica self)).

(** ** Indexes *)

Definition reindex_config : Hnsw.HnswConfig := Hnsw.MkHnswConfig 32 400.

Definition build_indexes (workers : nat) (config : CollectionConfig) (points : list Point)
    : Result (Hnsw.HnswIndex * MetadataIndex) :=
  let? index := Hnsw.build_quantized_prepared avx2 workers (dimension config) (metric config) reindex_config
                  (map (fun point => (pt_id point, pt_vector point)) points) in
  Ok (index, MetadataIndex.build points).

Definition div_ceil (a b : Z) : Z := if Z.eqb (a mod b) 0 then a / b else a / b + 1.

Definition should_rebuild_index (index : bool) (dirty_count point_count : Z) : bool :=
  if Z.ltb dirty_count MIN_REINDEXED_POINTS then false
  else negb index || Z.leb (Z.max (div_ceil point_count REINDEX_DIRTY_DIVISOR) MIN_REINDEXED_POINTS) dirty_count.

Definition install_indexes (self : StateInner) (indexes : Hnsw.HnswIndex * MetadataIndex) : StateInner :=
  let r := replica self in
  MkInner (MkReplica (collection r) (last_applied r) (membership r) (dedup r) ∅) (Some (indexes.1, [])) (Some indexes.2)
    (current_snapshot self).

(** [refresh_index_if_needed] holds the lock while it decides, builds without
    it and takes it again to install, so entries may be applied in between. *)
Definition refresh_plan (self : StateInner) : option (Z * list Point) :=
  let c := collection (replica self) in
  if should_rebuild_index (bool_decide (is_Some (graph self))) (Z.of_nat (size (dirty_ids (replica self)))) (len c)
  then Some (latest_sequence c, snapshot_points c) else None.

Definition refresh_install (self : StateInner) (sequence : Z) (indexes : Hnsw.HnswIndex * MetadataIndex) : StateInner :=
  if Z.eqb (latest_sequence (collection (replica self))) sequence then install_indexes self indexes else self.

(** ** Snapshots *)

Definition encode_state_snapshot (snapshot : StateSnapshot) : Result (list byte) :=
  let? payload := map_err CorruptStorage (to_vec snapshot) in
  Ok (concat [SNAPSHOT_MAGIC; [to_u8 SNAPSHOT_VERSION]; le_bytes 8 (zlen payload); payload; le_bytes 4 (crc32c payload)]).

(** A file without the magic is the JSON of an older version. *)
Definition decode_state_snapshot (bytes : list byte) : Result StateSnapshot :=
  if negb (bool_decide (firstn 4 bytes = SNAPSHOT_MAGIC)) then map_err CorruptStorage (from_slice bytes)
  else
    let bad_header := Err (CorruptStorage "invalid Raft snapshot header") in
    if Z.ltb (zlen bytes) 17 then bad_header else
    let? version := index bytes 4 in
    if negb (Z.eqb (u8 version) SNAPSHOT_VERSION) then bad_header else
    let? length := slice bytes 5 13 in
    let? length := fixed 8 length in
    let length := le_value length in
    let? expected := ok_or (checked_add USIZE_MAX 17 length) (CorruptStorage "Raft snapshot length overflow") in
    if negb (Z.eqb (zlen bytes) expected) then Err (CorruptStorage "truncated Raft snapshot") else
    let? payload := slice bytes 13 (13 + length) in
    let? stored := slice bytes (13 + length) expected in
    let? stored := fixed 4 stored in
    if negb (Z.eqb (crc32c payload) (le_value stored)) then Err (CorruptStorage "Raft snapshot checksum mismatch")
    else map_err CorruptStorage (from_slice payload).

Definition stored_snapshot_checksum (meta : SnapshotMeta) (data : list byte) : result string Z := rmap crc32c (to_vec (meta, data)).

Definition snapshot_path : string := "state.snapshot".
Definition snapshot_temporary (pid : Z) : string := "state.tmp-" +:+ fmt_int pid.

Definition write_snapshot (pid : Z) (snapshot : StoredSnapshot) : io (Result unit) :=
  let*? bytes := iolift (map_err Io (to_vec snapshot)) in
  let*? _ := create_truncated (snapshot_temporary pid) in
  let*? _ := append (snapshot_temporary pid) bytes in
  let*? _ := sync in
  let*? _ := rename (snapshot_temporary pid) snapshot_path in
  sync.

Definition check_stored (bytes : list byte) : Result StoredSnapshot :=
  let? snapshot := map_err CorruptStorage (from_slice bytes) in
  match stored_checksum snapshot with
  | None => Ok snapshot
  | Some stored =>
      let? actual := map_err CorruptStorage (stored_snapshot_checksum (stored_meta snapshot) (stored_data snapshot)) in
      if negb (Z.eqb stored actual) then Err (CorruptStorage "stored Raft snapshot checksum mismatch") else Ok snapshot
  end.

Definition read_snapshot : io (Result (option StoredSnapshot)) :=
  let* present := exists_ snapshot_path in
  if negb present then ioret (Ok None)
  else
    let*? bytes := read_file snapshot_path in
    let*? snapshot := iolift (check_stored bytes) in
    ioret (Ok (Some snapshot)).

Definition take_snapshot (config : CollectionConfig) (r : Replica) : StateSnapshot :=
  MkStateSnapshot config (snapshot_points (collection r)) (latest_sequence (collection r)) (last_applied r) (membership r) (dedup r).

(** [nonce] is the clock's reading; [None] when it is before the epoch. *)
Definition snapshot_id (last_applied : option LogId) (nonce : Z) : string :=
  fmt_int (match last_applied with Some log_id => log_index log_id | None => 0 end) +:+ "-" +:+ fmt_int nonce.

Definition prepare_snapshot (workers : nat) (config : CollectionConfig) (nonce : option Z) (r : Replica)
    : Result (StoredSnapshot * (Hnsw.HnswIndex * MetadataIndex)) :=
  let snapshot := take_snapshot config r in
  let? indexes := build_indexes workers config (snap_points snapshot) in
  let? data := encode_state_snapshot snapshot in
  let? nonce := ok_or nonce (Io "second time provided was later than self") in
  let meta := snapshot_meta (last_applied r) (membership r) (snapshot_id (last_applied r) nonce) in
  let? checksum := map_err Io (stored_snapshot_checksum meta data) in
  Ok (MkStoredSnapshot meta data (Some checksum), indexes).

Definition build_snapshot (pid : Z) (workers : nat) (config : CollectionConfig) (nonce : option Z) (self : StateInner)
    : io (SmResult (SnapshotMeta * list byte) * StateInner) :=
  let* written := (
    let*? (stored, indexes) := iolift (prepare_snapshot workers config nonce (replica self)) in
    let*? _ := write_snapshot pid stored in
    ioret (Ok (stored, indexes))) in
  match written with
  | Ok (stored, indexes) =>
      let self := install_indexes self indexes in
      ioret (Ok (stored_meta stored, stored_data stored),
             MkInner (replica self) (graph self) (metadata_index self) (Some stored))
  | Err e => ioret (Err (WriteSnapshot e), self)
  | Panic => ioret (Panic, self)
  end.

(** The replica a decoded snapshot stands for. *)
Definition restore_replica (config : CollectionConfig) (decoded : StateSnapshot) : Result Replica :=
  let? collection := new config in
  match restore_snapshot collection (snap_points decoded) (snap_sequence decoded) with
  | (Ok _, collection) => Ok (MkReplica collection (snap_last_applied decoded) (snap_membership decoded) (snap_dedup decoded) ∅)
  | (Err e, _) => Err e
  | (Panic, _) => Panic
  end.

Definition lift_error {A B : Type} (error : Error -> StorageError) (r : Result A) (k : A -> io (SmResult B)) : io (SmResult B) :=
  match r with Ok a => k a | Err e => ioret (Err (error e)) | Panic => ioret Panic end.

Definition io_error {A B : Type} (error : Error -> StorageError) (m : io (Result A)) (k : A -> io (SmResult B)) : io (SmResult B) :=
  let* r := m in lift_error error r k.

Definition install_snapshot (pid : Z) (workers : nat) (config : CollectionConfig) (meta : SnapshotMeta) (data : list byte)
    (self : StateInner) : io (SmResult unit * StateInner) :=
  let* installed :=
    lift_error ReadSnapshot (decode_state_snapshot data) (fun decoded =>
    if negb (bool_decide (snap_config decoded = config)) then ioret (Err (ReadSnapshot (Io "snapshot config mismatch"))) else
    lift_error WriteSnapshot (map_err Io (stored_snapshot_checksum meta data)) (fun checksum =>
    let stored := MkStoredSnapshot meta data (Some checksum) in
    io_error WriteSnapshot (write_snapshot pid stored) (fun _ =>
    lift_error ReadStateMachine (build_indexes workers (snap_config decoded) (snap_points decoded)) (fun indexes =>
    lift_error ReadStateMachine (restore_replica (snap_config decoded) decoded) (fun replica =>
    io_error WriteStateMachine (set_len (path state_journal) 0) (fun _ =>
    io_error WriteStateMachine sync (fun _ =>
    io_error WriteStateMachine sync (fun _ =>
    ioret (Ok (MkInner replica (Some (indexes.1, [])) (Some indexes.2) (Some stored))))))))))) in
  match installed with
  | Ok self => ioret (Ok tt, self)
  | Err e => ioret (Err e, self)
  | Panic => ioret (Panic, self)
  end.

Definition get_current_snapshot (self : StateInner) : option (SnapshotMeta * list byte) :=
  stored ← current_snapshot self; Some (stored_meta stored, stored_data stored).

(** ** Opening *)

(** Records the snapshot already covers are skipped. *)
Definition replay_new (r : Replica) (record : AppliedRecord) : Result Replica :=
  match last_applied r with
  | Some applied =>
      if Z.leb (log_index (record_log_id record)) (log_index applied) then Ok r
      else match replay_record r record with (Ok _, r) => Ok r | (Err e, _) => Err e | (Panic, _) => Panic end
  | None => match replay_record r record with (Ok _, r) => Ok r | (Err e, _) => Err e | (Panic, _) => Panic end
  end.

Definition recover_records : io (Result (list AppliedRecord)) :=
  recover_journal state_journal (fun records record => records ++ [record]) [].

Definition open_snapshot (workers : nat) (config : CollectionConfig) (collection : Collection) (stored : option StoredSnapshot)
    : Result StateInner :=
  match stored with
  | None => Ok (MkInner (MkReplica collection None stored_membership_default ∅ ∅) None None None)
  | Some snapshot =>
      let? decoded := decode_state_snapshot (stored_data snapshot) in
      if negb (bool_decide (snap_config decoded = config))
      then Err (CorruptStorage "Raft snapshot collection configuration mismatch")
      else
        let? indexes := build_indexes workers config (snap_points decoded) in
        let? replica := restore_replica config decoded in
        Ok (MkInner replica (Some (indexes.1, [])) (Some indexes.2) stored)
  end.

Definition open (workers : nat) (config : CollectionConfig) : io (Result StateInner) :=
  let*? collection := iolift (new config) in
  let*? stored := read_snapshot in
  let*? inner := iolift (open_snapshot workers config collection stored) in
  let*? _ := open_or_create (path state_journal) in
  let*? records := recover_records in
  let*? replica := iolift (foldM_result replay_new (replica inner) records) in
  let*? _ := sync in
  ioret (Ok (with_replica inner replica)).

(** ** Searching *)

(** A graph hit: [None] when it is dirty or fails the filter. *)
Definition graph_hit (r : Replica) (prepared_query : list Z) (filter : option Filter) (hit : Hnsw.HnswHit)
    : Result (option SearchHit) :=
  let missing := CorruptStorage ("HNSW point " +:+ Hnsw.hit_id hit +:+ " is missing from the Raft state machine") in
  if bool_decide (Hnsw.hit_id hit ∈ dirty_ids r) then Ok None
  else
    let? point := ok_or (get_stored (collection r) (Hnsw.hit_id hit)) missing in
    if negb (matches_opt filter (sp_metadata point)) then Ok None
    else Ok (Some (MkHit (Hnsw.hit_id hit) (score (metric (Collection.config (collection r))) prepared_query (as_slice (sp_vector point)))
                    (sp_metadata point) (sp_sequence point))).

(** The [while] loop, doubling [graph_k] until there are enough hits. *)
Fixpoint graph_loop (fuel : nat) (r : Replica) (index : Hnsw.HnswIndex) (query prepared_query : list Z) (k ef_search : Z)
    (filter : option Filter) (graph_k : Z) (hits : list SearchHit) (pool : list Hnsw.BuildWorkspace)
    : Result (list SearchHit * list Hnsw.BuildWorkspace) :=
  match fuel with
  | O => Panic
  | S fuel' =>
      if Z.leb graph_k 0 then Ok (hits, pool)
      else
        let? (found, pool) := Hnsw.search avx2 index query graph_k (Z.max ef_search graph_k) pool in
        let? found := mapM_result (graph_hit r prepared_query filter) found in
        let hits := omap id found in
        if bool_decide (filter = None) || Z.leb k (zlen hits) || Z.eqb graph_k (Hnsw.len index) then Ok (hits, pool)
        else graph_loop fuel' r index query prepared_query k ef_search filter
               (Z.min (saturating_mul graph_k 2) (Hnsw.len index)) hits pool
  end.

Definition first_graph_k (r : Replica) (index : Hnsw.HnswIndex) (k ef_search : Z) (filter : option Filter) : Z :=
  let rerank_k := if bool_decide (Hnsw.arena_storage (Hnsw.vectors index) = ScalarInt8) then saturating_mul k 4 else k in
  let dirty := Z.of_nat (size (dirty_ids r)) in
  if bool_decide (filter = None) then Z.min (saturating_add rerank_k dirty) (Hnsw.len index)
  else Z.min (saturating_add (Z.max ef_search (saturating_mul rerank_k 8)) dirty) (Hnsw.len index).

(** The search through the graph; [candidates] are the metadata index's. *)
Definition graph_search (r : Replica) (index : Hnsw.HnswIndex) (pool : list Hnsw.BuildWorkspace) (query : list Z) (k : Z)
    (filter : option Filter) (candidates : gset string) (ef_search : Z) : Result (list SearchHit * list Hnsw.BuildWorkspace) :=
  let? prepared_query := prepare (metric (Collection.config (collection r))) query in
  let? (hits, pool) := graph_loop (S (length (Hnsw.nodes index))) r index query prepared_query k ef_search filter
                         (first_graph_k r index k ef_search filter) [] pool in
  let? hits := (if Z.ltb (zlen hits) k && negb (bool_decide (filter = None))
                then let? exact := search_ids (collection r) query k candidates filter in Ok (hits ++ exact)
                else Ok hits) in
  let? pending := search_ids (collection r) query k (dirty_ids r) filter in
  Ok (Persistence.merge_hits (hits ++ pending) k, pool).

Definition use_exact (candidates : gset string) (index : Hnsw.HnswIndex) (k : Z) : bool :=
  let n := Z.of_nat (size candidates) in
  Z.ltb (saturating_mul n 4) (Hnsw.len index) || Z.leb n (Z.max (saturating_mul k 16) 256).

Definition with_graph (self : StateInner) (index : Hnsw.HnswIndex) (pool : list Hnsw.BuildWorkspace) : StateInner :=
  MkInner (replica self) (Some (index, pool)) (metadata_index self) (current_snapshot self).

(** [search_with_ef] under the lock, after the indexes were refreshed. *)
Definition search_locked (self : StateInner) (query : list Z) (k : Z) (filter : option Filter) (ef_search : Z)
    : Result (list SearchHit * StateInner) :=
  let r := replica self in
  match graph self with
  | None => let? hits := Collection.search (collection r) query k filter in Ok (hits, self)
  | Some (index, pool) =>
      match filter with
      | None =>
          let? (hits, pool) := graph_search r index pool query k None ∅ ef_search in
          Ok (hits, with_graph self index pool)
      | Some f =>
          match metadata_index self with
          | None => let? hits := Collection.search (collection r) query k filter in Ok (hits, self)
          | Some metadata_index =>
              let? candidates := candidates metadata_index f in
              let candidates := candidates ∖ dirty_ids r in
              if use_exact candidates index k then
                let? hits := search_ids (collection r) query k candidates filter in
                let? pending := search_ids (collection r) query k (dirty_ids r) filter in
                Ok (Persistence.merge_hits (hits ++ pending) k, self)
              else
                let? (hits, pool) := graph_search r index pool query k filter candidates ef_search in
                Ok (hits, with_graph self index pool)
          end
      end
  end.

(** The search a client sees: other tasks may run - [interleaved] - while the
    indexes are built without the lock. *)
Definition search_with_ef (workers : nat) (config : CollectionConfig) (interleaved : StateInner -> StateInner) (self : StateInner)
    (query : list Z) (k : Z) (filter : option Filter) (ef_search : Z) : Result (list SearchHit * StateInner) :=
  if Z.ltb ef_search k then Err (InvalidQuery "ef_search must be at least k")
  else
    let? self := match refresh_plan self with
                 | None => Ok self
                 | Some (sequence, points) =>
                     let? indexes := build_indexes workers config points in
                     Ok (refresh_install (interleaved self) sequence indexes)
                 end in
    search_locked self query k filter ef_search.

Definition search (workers : nat) (config : CollectionConfig) (interleaved : StateInner -> StateInner) (self : StateInner)
    (query : list Z) (k : Z) (filter : option Filter) : Result (list SearchHit * StateInner) :=
  search_with_ef workers config interleaved self query k filter (Z.max (saturating_mul k 16) 256).

Definition has_approximate_index (self : StateInner) : bool := bool_decide (is_Some (graph self)).
Definition pending_point_count (self : StateInner) : Z := Z.of_nat (size (dirty_ids (replica self))).
Definition applied_index (self : StateInner) : option Z := log_index <$> last_applied (replica self).
Definition len (self : StateInner) : Z := Collection.len (collection (replica self)).
Definition is_empty (self : StateInner) : bool := Collection.is_empty (collection (replica self)).
End StateMachine.

Arguments AppliedPayload Membership : clear implicits.
Arguments AppliedRecord LogId Membership : clear implicits.
Arguments StateSnapshot LogId StoredMembership : clear implicits.
Arguments StoredSnapshot SnapshotMeta : clear implicits.
Arguments Replica LogId StoredMembership : clear implicits.
Arguments StateInner LogId StoredMembership SnapshotMeta : clear implicits.
