(* ===== verification/RaftReplica.v ===== *)
(** * RaftReplica: the state machine against its specification

    [abs_step] is what a replica promises: a command is decided once, from the
    contents and the remembered answers alone, and its answer is remembered.
    The code's decide-journal-replay refines it under every fault, so replicas
    that apply the same entries give the same answers. *)

From stdpp Require Import base gmap sets list strings sorting.
From Stdlib Require Import ZArith Lia.
From S2P Require Import Prelude Errors Floats Ranking Metric Filter MetadataIndex.
From S2P Require Import RaftLog Collection CollectionFacts Codec Wire Disk DiskFacts Journal JournalFacts RaftStateMachine.

Section Spec.
Context `{FloatEnv} {LogId Membership StoredMembership Entry : Type}.
Context (entry_log_id : Entry -> LogId) (entry_payload : Entry -> EntryPayload Membership).
Context (stored_membership_new : option LogId -> Membership -> StoredMembership).

(** ** The specification *)

Record Abstract : Type := MkAbstract {
  abs_contents : gmap string Point;
  abs_sequence : Z;
  abs_answers : Dedup;
  abs_membership : StoredMembership;
  abs_applied : option LogId
}.

(** Why one point is refused. *)
Definition point_refusal (cfg : CollectionConfig) (u : UpsertPoint) : option Error :=
  if negb (Z.eqb (zlen (up_vector u)) (dimension cfg)) then Some (InvalidDimension (dimension cfg) (zlen (up_vector u)))
  else if decide (up_id u = "") then Some (InvalidQuery "point ID must not be empty")
  else match prepare (metric cfg) (up_vector u) with Err e => Some e | _ => None end.

(** The first refusal decides. *)
Definition refusal (cfg : CollectionConfig) (us : list UpsertPoint) : option Error :=
  match us with
  | [] => Some (InvalidQuery "upsert batch must not be empty")
  | _ => head (omap (point_refusal cfg) us)
  end.

Definition put_points (cfg : CollectionConfig) (sequence : Z) (us : list UpsertPoint) (m : gmap string Point) : gmap string Point :=
  fold_left (fun m u => match prepare (metric cfg) (up_vector u) with
                        | Ok v => <[up_id u := MkPoint (up_id u) v (up_metadata u) sequence]> m
                        | _ => m
                        end) us m.

Definition drop_points (ids : list string) (m : gmap string Point) : gmap string Point := fold_left (fun m id => base.delete id m) ids m.

(** The answer to a new command, and the contents after it. *)
Definition decide_command (cfg : CollectionConfig) (a : Abstract) (command : ShardCommand) : ShardResponse * gmap string Point :=
  let next := abs_sequence a + 1 in
  if Z.ltb U64_MAX next then (Rejected "collection sequence overflow", abs_contents a)
  else match command with
  | UpsertCommand _ _ us =>
      match refusal cfg us with
      | Some e => (Rejected (to_string e), abs_contents a)
      | None => (Applied next, put_points cfg next us (abs_contents a))
      end
  | DeleteCommand _ _ ids =>
      if decide (ids = [] \/ "" ∈ ids) then (Rejected "delete IDs must be non-empty", abs_contents a)
      else (Applied next, drop_points ids (abs_contents a))
  end.

Definition abs_step (cfg : CollectionConfig) (a : Abstract) (entry : Entry) : ShardResponse * Abstract :=
  let applied := Some (entry_log_id entry) in
  match entry_payload entry with
  | Blank => (Applied (abs_sequence a), MkAbstract (abs_contents a) (abs_sequence a) (abs_answers a) (abs_membership a) applied)
  | MembershipChange membership =>
      (Applied (abs_sequence a),
       MkAbstract (abs_contents a) (abs_sequence a) (abs_answers a) (stored_membership_new applied membership) applied)
  | Normal command =>
      let '(client_id, request_id) := command_identity command in
      match remembered (abs_answers a) client_id request_id with
      | Some response => (response, MkAbstract (abs_contents a) (abs_sequence a) (abs_answers a) (abs_membership a) applied)
      | None =>
          let '(response, contents) := decide_command cfg a command in
          (response, MkAbstract contents (match response with Applied sequence => sequence | Rejected _ => abs_sequence a end)
             (remember (abs_answers a) client_id request_id response) (abs_membership a) applied)
      end
  end.

Fixpoint abs_run (cfg : CollectionConfig) (a : Abstract) (entries : list Entry) : list ShardResponse * Abstract :=
  match entries with
  | [] => ([], a)
  | entry :: entries' =>
      let '(response, a) := abs_step cfg a entry in
      let '(responses, a) := abs_run cfg a entries' in (response :: responses, a)
  end.

(** ** The code's state, seen abstractly *)

Definition view (r : Replica LogId StoredMembership) : Abstract :=
  MkAbstract (contents (collection r)) (sequence (collection r)) (dedup r) (membership r) (last_applied r).

Lemma put_points_lookup cfg seq us ps m id :
  Forall2 (prepared_as cfg seq) us ps -> put_points cfg seq us m !! id = upserted cfg seq us m id.
Proof.
  intros Hps. unfold upserted, last_upsert, put_points. revert m. induction Hps as [|u p us ps (v & Hv & _) _ IH]; intros m; [done|].
  cbn [fold_left List.filter]. rewrite Hv, IH. destruct (List.filter _ us) as [|u' us'] eqn:E; case_bool_decide as Hu; cbn [last].
  - by rewrite Hv, <- Hu, lookup_insert_eq.
  - by rewrite lookup_insert_ne.
  - change (last (u :: u' :: us')) with (last (u' :: us')). destruct (last (u' :: us')) eqn:El; [done|].
    apply last_None in El. done.
  - destruct (last (u' :: us')) eqn:El; [done|]. apply last_None in El. done.
Qed.

Lemma put_points_prepared c us ps seq :
  Forall2 (prepared_as (config c) seq) us ps ->
  contents (apply_prepared_upsert c ps seq) = put_points (config c) seq us (contents c).
Proof.
  intros Hps. apply map_eq. intros id. rewrite (put_points_lookup _ _ _ _ _ _ Hps). by apply apply_prepared_contents.
Qed.

Lemma drop_points_deleted c ids seq : contents (apply_delete_at c ids seq) = drop_points ids (contents c).
Proof.
  unfold contents, drop_points, apply_delete_at. cbn [points]. generalize (points c) as m.
  induction ids as [|id ids IH]; intros m; [done|]. cbn [fold_left]. by rewrite IH, fmap_delete.
Qed.

Lemma prepare_points_refusal cfg seq us :
  match head (omap (point_refusal cfg) us) with
  | Some e => prepare_points cfg seq us = Err e
  | None => exists ps, prepare_points cfg seq us = Ok ps
  end.
Proof.
  induction us as [|u us IH]; [by exists []|]. cbn [prepare_points].
  assert (omap (point_refusal cfg) (u :: us) = match point_refusal cfg u with Some e => e :: omap (point_refusal cfg) us | None => omap (point_refusal cfg) us end) as -> by done.
  unfold point_refusal at 1.
  destruct (Z.eqb_spec (zlen (up_vector u)) (dimension cfg)); cbn [negb]; [|done]. case_decide; [done|].
  destruct (prepare (metric cfg) (up_vector u)) as [v|x|] eqn:Ev; cbn [rbind head]; [|done|by apply prepare_no_panic in Ev].
  destruct (head (omap (point_refusal cfg) us)) as [x|]; [by rewrite IH|]. destruct IH as [ps ->]. by eexists.
Qed.

Lemma prepare_upsert_refusal c us seq :
  match refusal (config c) us with
  | Some e => prepare_upsert c us seq = Err e
  | None => exists ps, prepare_upsert c us seq = Ok ps
  end.
Proof. destruct us as [|u us]; [done|]. exact (prepare_points_refusal (config c) seq (u :: us)). Qed.

(** ** One entry *)

Abbreviation step r entry := (abs_step (Collection.config (collection r)) (view r) entry).

(** How a replica may move: what changes becomes dirty. *)
Record moved (r r' : Replica LogId StoredMembership) : Prop := {
  mv_ok : coll_ok (collection r');
  mv_config : Collection.config (collection r') = Collection.config (collection r);
  mv_sequence : sequence (collection r) <= sequence (collection r');
  mv_dirty : dirty_ids r ⊆ dirty_ids r';
  mv_contents : forall id, id ∉ dirty_ids r' -> contents (collection r') !! id = contents (collection r) !! id;
  mv_same : sequence (collection r') = sequence (collection r) -> contents (collection r') = contents (collection r)
}.

Lemma moved_refl r : coll_ok (collection r) -> moved r r.
Proof. by constructor. Qed.

Lemma moved_same r r' :
  coll_ok (collection r) -> collection r' = collection r -> dirty_ids r' = dirty_ids r -> moved r r'.
Proof. intros Hc E1 E2. constructor; rewrite ?E1, ?E2; done. Qed.

Lemma moved_trans r1 r2 r3 : moved r1 r2 -> moved r2 r3 -> moved r1 r3.
Proof.
  intros [A1 A2 A3 A4 A5 A6] [B1 B2 B3 B4 B5 B6]. constructor; [done|congruence|lia|set_solver| |].
  - intros id Hid. rewrite B5 by done. apply A5. set_solver.
  - intros E. rewrite B6 by lia. apply A6. lia.
Qed.

Lemma last_upsert_None id us : id ∉ map up_id us -> last_upsert id us = None.
Proof.
  intros Hid. unfold last_upsert. destruct (List.filter _ us) as [|u l] eqn:E; [done|]. destruct Hid.
  assert (In u (List.filter (fun u => bool_decide (up_id u = id)) us)) as (Hu & Hb)%filter_In by (rewrite E; by left).
  apply bool_decide_eq_true in Hb as <-. apply list_elem_of_fmap_2. by apply list_elem_of_In.
Qed.

(** Replaying an accepted command. *)
Lemma replay_command_ok r command response m :
  coll_ok (collection r) -> decide_command (Collection.config (collection r)) (view r) command = (Applied response, m) ->
  exists r', replay_command r command response = (Ok tt, r') /\ moved r r' /\
    view r' = MkAbstract m response (dedup r) (membership r) (last_applied r).
Proof.
  intros Hc. unfold decide_command. cbn [abs_sequence view]. destruct (Z.ltb_spec U64_MAX (sequence (collection r) + 1)) as [|Hs]; [done|].
  destruct command as [client request us|client request ids]; cbn [replay_command].
  - pose proof (prepare_upsert_refusal (collection r) us (sequence (collection r) + 1)) as Hp.
    destruct (refusal _ us) as [e|]; [done|]. destruct Hp as [ps Hp]. intros [= <- <-]. cbn [touch collection]. rewrite Hp.
    eexists. split; [done|]. pose proof Hp as [_ Hps]%prepare_upsert_ok.
    assert (contents (apply_prepared_upsert (collection r) ps (sequence (collection r) + 1)) =
      put_points (Collection.config (collection r)) (sequence (collection r) + 1) us (contents (collection r))) as E by (by apply put_points_prepared).
    split; [|unfold view; f_equal; exact E]. constructor; cbn [collection set_collection touch dirty_ids Collection.config sequence apply_prepared_upsert apply_delete_at].
    + apply apply_prepared_upsert_ok; [done|lia|by eapply prepared_points_ok].
    + done.
    + lia.
    + set_solver.
    + intros id Hid. rewrite (apply_prepared_contents _ us) by done. unfold upserted. rewrite last_upsert_None; [done|].
      intros Hin. apply Hid, elem_of_union_l, elem_of_list_to_set. done.
    + lia.
  - case_decide; [done|]. intros [= <- <-]. cbn [touch collection]. eexists. split; [done|].
    split; [|unfold view; f_equal; apply drop_points_deleted]. constructor; cbn [collection set_collection touch dirty_ids Collection.config sequence apply_prepared_upsert apply_delete_at].
    + apply apply_delete_at_ok; [done|lia].
    + done.
    + lia.
    + set_solver.
    + intros id Hid. rewrite !lookup_contents. cbn. rewrite fold_delete_lookup, decide_False; [done|].
      intros Hin. apply Hid, elem_of_union_l, elem_of_list_to_set. done.
    + lia.
Qed.

Lemma existsb_empty ids : existsb (fun id => bool_decide (id = "")) ids = bool_decide ("" ∈ ids).
Proof.
  apply eq_bool_prop_intro. rewrite bool_decide_spec, Is_true_true, existsb_exists. split.
  - intros (x & Hx & ->%bool_decide_eq_true). by apply list_elem_of_In.
  - intros Hx. exists "". split; [by apply list_elem_of_In|done].
Qed.

(** The code's answer to a new command is the specification's. *)
Lemma decide_new r entry command :
  entry_payload entry = Normal command ->
  remembered (dedup r) (command_identity command).1 (command_identity command).2 = None ->
  prepare_payload entry_payload r entry =
    Ok (AppliedCommand command (decide_command (Collection.config (collection r)) (view r) command).1,
        (decide_command (Collection.config (collection r)) (view r) command).1).
Proof.
  intros Ep Hnew. unfold prepare_payload. rewrite Ep. destruct (command_identity command) as [client request]. cbn [fst snd] in Hnew.
  rewrite Hnew. unfold decide_command, checked_add, latest_sequence. cbn [abs_sequence view].
  destruct (Z.ltb_spec U64_MAX (sequence (collection r) + 1)).
  { rewrite (proj2 (Z.leb_gt _ _)) by done. done. }
  rewrite (proj2 (Z.leb_le _ _)) by done. destruct command as [? ? us|? ? ids].
  - pose proof (prepare_upsert_refusal (collection r) us (sequence (collection r) + 1)) as Hp.
    destruct (refusal _ us) as [e|]; [by rewrite Hp|]. destruct Hp as [ps ->]. done.
  - rewrite existsb_empty. case_bool_decide as He; [rewrite decide_True by (by left); done|].
    case_bool_decide as Hin; [rewrite decide_True by (by right); done|]. rewrite decide_False by (by intros [?|?]). done.
Qed.

(** The record an entry answered with [response] leaves in the journal. *)
Definition record_of (entry : Entry) (response : ShardResponse) : AppliedRecord LogId Membership :=
  MkRecord (entry_log_id entry)
    (match entry_payload entry with
     | Blank => AppliedBlank
     | Normal command => AppliedCommand command response
     | MembershipChange membership => AppliedMembership membership
     end).

(** Deciding an entry and replaying its record is one step of the specification. *)
Lemma entry_step r entry :
  coll_ok (collection r) ->
  let '(response, a) := step r entry in
  prepare_payload entry_payload r entry = Ok (record_payload (record_of entry response), response) /\
  exists r', replay_record stored_membership_new r (record_of entry response) = (Ok tt, r') /\ view r' = a /\ moved r r'.
Proof.
  intros Hc. unfold abs_step, record_of. destruct (entry_payload entry) as [|command|change] eqn:Ep.
  - unfold prepare_payload. rewrite Ep. split; [done|]. eexists. split; [done|]. split; [done|]. by apply moved_same.
  - pose proof (decide_new r entry command Ep) as Hd. cbn [abs_answers view].
    destruct (command_identity command) as [client request] eqn:Ei. cbn [fst snd] in Hd.
    destruct (remembered (dedup r) client request) as [response|] eqn:Er.
    + unfold prepare_payload. rewrite Ep, Ei, Er. split; [done|]. eexists.
      unfold replay_record. cbn [record_payload record_log_id]. rewrite Ei, Er. split; [done|]. split; [done|]. by apply moved_same.
    + specialize (Hd eq_refl). destruct (decide_command _ (view r) command) as [response m] eqn:Edec. cbn [fst] in Hd.
      rewrite Hd. split; [done|]. unfold replay_record. cbn [record_payload record_log_id]. rewrite Ei, Er.
      destruct response as [sequence'|message].
      * destruct (replay_command_ok r command sequence' m Hc Edec) as (r' & -> & Hm & Hv). eexists. split; [done|].
        unfold view in Hv |- *. injection Hv as E1 E2 E3 E4 E5. cbn. rewrite E1, E2, E3, E4. split; [done|]. by destruct Hm.
      * assert (m = contents (collection r)) as ->.
        { unfold decide_command in Edec. repeat case_match; simplify_eq/=; done. }
        eexists. split; [done|]. split; [done|]. by apply moved_same.
  - unfold prepare_payload. rewrite Ep. split; [done|]. eexists. split; [done|]. split; [done|]. by apply moved_same.
Qed.

(** ** Applying entries under faults *)

Context `{Json (AppliedRecord LogId Membership)} {SnapshotMeta : Type}.
Abbreviation apply_entry := (apply_entry entry_log_id entry_payload stored_membership_new).
Abbreviation apply := (RaftStateMachine.apply (SnapshotMeta := SnapshotMeta) entry_log_id entry_payload stored_membership_new).
Abbreviation run r entries := (abs_run (Collection.config (collection r)) (view r) entries).

Lemma apply_entry_spec r entry d :
  coll_ok (collection r) ->
  specifies (apply_entry r entry) d
    (fun o _ => match o with
       | (Ok response, r') => step r entry = (response, view r') /\ moved r r'
       | (Err _, r') => r' = r
       | (Panic, _) => False
       end) (fun _ => True).
Proof.
  intros Hc. unfold RaftStateMachine.apply_entry. pose proof (entry_step r entry Hc) as Hs.
  destruct (step r entry) as [response a]. destruct Hs as (-> & r' & Hr & Hv & Hm).
  eapply spec_bind; [apply append_record_returns|]. intros [[]|e|] d' Hne; [|by apply spec_ret|done].
  change (MkRecord (entry_log_id entry) (record_payload (record_of entry response))) with (record_of entry response).
  rewrite Hr. apply spec_ret. cbn. by rewrite Hv.
Qed.

(** What a list of entries leaves when the last of them may have failed. *)
Definition applied r entries (o : Result (list ShardResponse) * Replica LogId StoredMembership) : Prop :=
  match o with
  | (Ok responses, r') => run r entries = (responses, view r') /\ moved r r'
  | (Err _, r') => exists done rest, entries = done ++ rest /\ (run r done).2 = view r' /\ moved r r'
  | (Panic, _) => False
  end.

Lemma apply_entries_spec r entries acc d :
  coll_ok (collection r) ->
  specifies (apply_entries entry_log_id entry_payload stored_membership_new r entries acc) d
    (fun o _ => match o with
       | (Ok responses, r') => exists new, responses = acc ++ new /\ applied r entries (Ok new, r')
       | _ => applied r entries o
       end) (fun _ => True).
Proof.
  revert r acc d. induction entries as [|entry entries IH]; intros r acc d Hc; cbn [apply_entries].
  { apply spec_ret. exists []. rewrite app_nil_r. split; [done|]. split; [done|by apply moved_refl]. }
  eapply spec_bind; [by apply apply_entry_spec|]. intros [[response|e|] r'] d' Hr; [|apply spec_ret|done].
  2: { subst r'. exists [], (entry :: entries). split; [done|]. split; [done|by apply moved_refl]. }
  destruct Hr as [Hs Hm]. pose proof (mv_config _ _ Hm) as Ec. pose proof (mv_ok _ _ Hm) as Hc'.
  eapply spec_mono; [by apply IH| |done]. cbv beta. unfold applied. rewrite Ec. intros [[responses|e|] r2] d2; cbn [abs_run].
  - intros (new & -> & Hrun & Hm2). exists (response :: new). rewrite <- app_assoc. split; [done|]. rewrite Hs, Hrun.
    split; [done|by eapply moved_trans].
  - intros (prefix & rest & -> & Hrun & Hm2). exists (entry :: prefix), rest. split; [done|]. cbn [abs_run]. rewrite Hs.
    destruct (abs_run _ _ prefix). split; [done|by eapply moved_trans].
  - done.
Qed.

(** C26 (raft_apply_refines). Applying committed entries is the specification,
    whatever I/O errors occur: acknowledged, the responses and the new state
    are those of [abs_run]; after an error, the state is that of the entries
    before the one that failed.  Responses and states are functions of the
    abstract state alone, so replicas that agree keep agreeing. *)
Theorem raft_apply_refines inner entries d script :
  coll_ok (collection (replica inner)) ->
  match apply inner entries (MkWorld d script) with
  | Returned (Ok responses, inner') _ =>
      run (replica inner) entries = (responses, view (replica inner')) /\ moved (replica inner) (replica inner') /\
      inner' = with_replica inner (replica inner')
  | Returned (Err _, inner') _ =>
      exists done rest, entries = done ++ rest /\ (run (replica inner) done).2 = view (replica inner') /\
        moved (replica inner) (replica inner') /\ inner' = with_replica inner (replica inner')
  | Returned (Panic, _) _ => False
  | Crashed _ => True
  end.
Proof.
  intros Hc. pose proof (apply_entries_spec (replica inner) entries [] d Hc script) as Hs. unfold RaftStateMachine.apply, iobind.
  destruct (apply_entries _ _ _ _ _ _ _) as [[[responses|e|] r'] w|d']; cbn; [|naive_solver|done|done].
  destruct Hs as (new & -> & Hrun & Hm). done.
Qed.

(** ** Answers are remembered *)

Lemma remembered_remember answers client request response client' request' :
  remembered (remember answers client request response) client' request' =
    if decide (client = client' /\ request = request') then Some response else remembered answers client' request'.
Proof.
  unfold remembered, remember. destruct (decide (client = client')) as [<-|Hc].
  - rewrite lookup_insert_eq. cbn. destruct (decide (request = request')) as [<-|Hr].
    + by rewrite lookup_insert_eq, decide_True.
    + rewrite lookup_insert_ne, decide_False by naive_solver. by destruct (answers !! client).
  - rewrite lookup_insert_ne, decide_False by naive_solver. done.
Qed.

Lemma step_answers cfg a entry command :
  entry_payload entry = Normal command ->
  remembered (abs_answers (abs_step cfg a entry).2) (command_identity command).1 (command_identity command).2 = Some (abs_step cfg a entry).1.
Proof.
  intros Ep. unfold abs_step. rewrite Ep. destruct (command_identity command) as [client request]. cbn [fst snd].
  destruct (remembered (abs_answers a) client request) eqn:Er; [done|]. destruct (decide_command cfg a command) as [response m].
  cbn. by rewrite remembered_remember, decide_True.
Qed.

Lemma step_remembers cfg a entry client request response :
  remembered (abs_answers a) client request = Some response ->
  remembered (abs_answers (abs_step cfg a entry).2) client request = Some response.
Proof.
  intros Hr. unfold abs_step. destruct (entry_payload entry) as [|command|]; [done| |done].
  destruct (command_identity command) as [client' request']. destruct (remembered (abs_answers a) client' request') eqn:Er; [done|].
  destruct (decide_command cfg a command) as [response' m]. cbn. rewrite remembered_remember. case_decide as E; [|done].
  destruct E as [-> ->]. congruence.
Qed.

Lemma run_remembers cfg a entries client request response :
  remembered (abs_answers a) client request = Some response ->
  remembered (abs_answers (abs_run cfg a entries).2) client request = Some response.
Proof.
  revert a. induction entries as [|entry entries IH]; intros a Hr; [done|]. cbn [abs_run].
  pose proof (step_remembers cfg a entry _ _ _ Hr) as Hs. destruct (abs_step cfg a entry) as [response' a'].
  specialize (IH a' Hs). by destruct (abs_run cfg a' entries).
Qed.

Lemma abs_run_app cfg a xs ys :
  abs_run cfg a (xs ++ ys) =
    let '(rs, a1) := abs_run cfg a xs in let '(rs', a2) := abs_run cfg a1 ys in (rs ++ rs', a2).
Proof.
  revert a. induction xs as [|x xs IH]; intros a; cbn [app abs_run]; [by destruct (abs_run cfg a ys)|].
  destruct (abs_step cfg a x) as [r a']. rewrite IH. destruct (abs_run cfg a' xs) as [rs a1]. by destruct (abs_run cfg a1 ys).
Qed.

(** C25 (raft_exactly_once). A command takes effect once: when a client's
    request is committed again - a retry, possibly with other contents, any
    number of entries later - it is answered with the first answer and the
    points, the sequence, the remembered answers and the membership stay as the
    entries before it left them. *)
Theorem raft_exactly_once inner first between retry command command' d script :
  coll_ok (collection (replica inner)) ->
  entry_payload first = Normal command -> entry_payload retry = Normal command' -> command_identity command' = command_identity command ->
  match apply inner (first :: between ++ [retry]) (MkWorld d script) with
  | Returned (Ok responses, inner') _ =>
      exists response others before,
        run (replica inner) (first :: between) = (response :: others, before) /\ responses = response :: others ++ [response] /\
        view (replica inner') = MkAbstract (abs_contents before) (abs_sequence before) (abs_answers before) (abs_membership before)
                                  (Some (entry_log_id retry))
  | _ => True
  end.
Proof.
  intros Hc Hf Hr Hid. pose proof (apply_entries_spec (replica inner) (first :: between ++ [retry]) [] d Hc script) as Hs.
  unfold RaftStateMachine.apply, iobind. destruct (apply_entries _ _ _ _ _ _ _) as [[[responses|e|] r'] w|d']; try done.
  unfold ioret. cbn [map_err replica with_replica app].
  destruct Hs as (new & -> & Hrun & _). rewrite app_comm_cons, abs_run_app in Hrun. cbn [abs_run] in Hrun |- *.
  pose proof (step_answers (Collection.config (collection (replica inner))) (view (replica inner)) first command Hf) as Ha.
  destruct (step (replica inner) first) as [response a1]. cbn [fst snd] in Ha.
  apply (run_remembers (Collection.config (collection (replica inner))) a1 between) in Ha.
  destruct (abs_run _ a1 between) as [others before]. cbn [snd] in Ha.
  unfold abs_step in Hrun. rewrite Hr in Hrun. rewrite <- Hid in Ha. destruct (command_identity command') as [client request].
  cbn [fst snd] in Ha. rewrite Ha in Hrun.
  apply pair_equal_spec in Hrun as [<- <-]. by exists response, others, before.
Qed.
End Spec.
