(* ===== verification/RaftRecovery.v ===== *)
(** * RaftRecovery: replicas survive crashes

    A directory holds an abstract state when a restart - the snapshot, then the
    journal's records that it does not cover - reads it as that state.
    Applying, taking a snapshot and installing one keep this under every
    fault. *)

From stdpp Require Import base gmap sets list strings sorting.
From Stdlib Require Import ZArith Lia.
From S2P Require Import Prelude Errors Floats Ranking Metric Filter MetadataIndex.
From S2P Require Import RaftLog Collection CollectionFacts Codec Wire WireFacts Disk DiskFacts Journal JournalFacts.
From S2P Require HnswBuild.
From S2P Require Import RaftStateMachine RaftReplica.

Lemma state_journal_ok : format_ok state_journal.
Proof. constructor; [done|done|]. vm_compute. split; discriminate. Qed.

Section Recovery.
Context `{FloatEnv} (avx2 : bool).
Context {LogId Membership StoredMembership SnapshotMeta Entry : Type}.
Context (log_index : LogId -> Z) (entry_log_id : Entry -> LogId) (entry_payload : Entry -> EntryPayload Membership).
Context (stored_membership_new : option LogId -> Membership -> StoredMembership) (stored_membership_default : StoredMembership).
Context (snapshot_meta : option LogId -> StoredMembership -> string -> SnapshotMeta).
Context `{Json (AppliedRecord LogId Membership), Json (StateSnapshot LogId StoredMembership)}.
Context `{Json (StoredSnapshot SnapshotMeta), Json (SnapshotMeta * list byte)}.
Context (workers : nat) (cfg : CollectionConfig).

Abbreviation State := (Abstract (LogId := LogId) (StoredMembership := StoredMembership)).
Abbreviation Rep := (Replica LogId StoredMembership).
Abbreviation step := (abs_step entry_log_id entry_payload stored_membership_new cfg).
Abbreviation run := (abs_run entry_log_id entry_payload stored_membership_new cfg).
Abbreviation record_of := (record_of entry_log_id entry_payload).
Abbreviation replay_record := (replay_record stored_membership_new).
Abbreviation replay_new := (replay_new log_index stored_membership_new).
Abbreviation open_snapshot := (open_snapshot avx2 (SnapshotMeta := SnapshotMeta) stored_membership_default workers cfg (MkCollection cfg ∅ 0)).
Implicit Types (d : Dir) (a : State) (r : Rep) (rs : list (AppliedRecord LogId Membership)).

(** A replica in the abstract state [a]. *)
Definition is_state r a : Prop := view r = a /\ coll_ok (collection r) /\ Collection.config (collection r) = cfg.

(** The restart skips a record whose log index is not above the last applied. *)
Definition covered a (record : AppliedRecord LogId Membership) : Prop :=
  match abs_applied a with Some applied => log_index (record_log_id record) <= log_index applied | None => False end.

Definition in_order a (entry : Entry) : Prop :=
  match abs_applied a with Some applied => log_index applied < log_index (entry_log_id entry) | None => True end.

(** ** What a directory holds *)

Definition snapshot_dir d : Result (option (StoredSnapshot SnapshotMeta)) :=
  match d !! snapshot_path with None => Ok None | Some bytes => rmap Some (check_stored bytes) end.

Definition holds d rs a : Prop :=
  exists stored start r, snapshot_dir d = Ok stored /\ open_snapshot stored = Ok start /\
    foldM_result replay_new (replica start) rs = Ok r /\ is_state r a /\ Forall (covered a) rs.

Definition sm_recoverable d a : Prop :=
  exists rs, (journal_at state_journal d rs \/ d !! path state_journal = None /\ rs = []) /\ holds d rs a.

Definition sm_ok d a : Prop := exists rs, journal state_journal d rs [] /\ holds d rs a.

Lemma sm_ok_recoverable d a : sm_ok d a -> sm_recoverable d a.
Proof. intros (rs & Hj & Hh). exists rs. split; [left; by exists []|done]. Qed.

Lemma sm_holds_agree d d' rs a : d' !! snapshot_path = d !! snapshot_path -> holds d rs a -> holds d' rs a.
Proof. intros E. unfold holds, snapshot_dir. by rewrite E. Qed.

Lemma holds_except d d' rs a : except (path state_journal) d d' -> holds d rs a -> holds d' rs a.
Proof. intros He. apply sm_holds_agree. by apply He. Qed.

Lemma sm_recoverable_but temporary d d' a :
  temporary <> snapshot_path -> temporary <> path state_journal -> except temporary d d' -> sm_recoverable d a -> sm_recoverable d' a.
Proof.
  intros H1' H2' He (rs & Hj & Hs). exists rs. split; [|eapply sm_holds_agree; [|exact Hs]; by apply He].
  destruct Hj as [Hj|[Hj ->]]; [left; eapply journal_at_agree; [|exact Hj]; by apply He|right; split; [|done]; by rewrite He].
Qed.

(** A fresh directory. *)
Lemma fresh_recoverable d :
  coll_ok (MkCollection cfg ∅ 0) -> d !! snapshot_path = None -> d !! path state_journal = None ->
  sm_recoverable d (MkAbstract ∅ 0 ∅ stored_membership_default None).
Proof.
  intros Hc E1 E2. exists []. split; [by right|]. unfold holds, snapshot_dir. rewrite E1.
  eexists None, _, _. split; [done|]. split; [done|]. split; [done|]. split; [|constructor]. by split_and!.
Qed.

(** ** Replaying *)

Lemma is_state_coll r a : is_state r a -> coll_ok (collection r) /\ Collection.config (collection r) = cfg /\ view r = a.
Proof. by intros (? & ? & ?). Qed.

(** Two replicas in one state take the same step. *)
Lemma replay_entry_step r a entry :
  is_state r a -> exists r', replay_record r (record_of entry (step a entry).1) = (Ok tt, r') /\ is_state r' (step a entry).2 /\ moved r r'.
Proof.
  intros (<- & Hc & Ec). pose proof (entry_step entry_log_id entry_payload stored_membership_new r entry Hc) as Hs. rewrite Ec in Hs.
  destruct (step (view r) entry) as [response a']. destruct Hs as (_ & r' & Hr & Hv & Hm). exists r'. split; [done|]. split; [|done].
  split; [done|]. split; [apply Hm|]. by rewrite (mv_config _ _ Hm).
Qed.

Lemma step_applied a entry : abs_applied (step a entry).2 = Some (entry_log_id entry).
Proof.
  unfold abs_step. destruct (entry_payload entry) as [|command|]; [done| |done]. destruct (command_identity command).
  destruct (remembered _ _ _); [done|]. by destruct (decide_command cfg a command).
Qed.

Lemma record_of_log_id entry response : record_log_id (record_of entry response) = entry_log_id entry.
Proof. done. Qed.

(** One more record in the journal is one more step. *)
Lemma holds_step d rs a entry :
  holds d rs a -> in_order a entry -> holds d (rs ++ [record_of entry (step a entry).1]) (step a entry).2.
Proof.
  intros (stored & start & r & Hd & Ho & Hf & Hr & Hcov) Hin. destruct (replay_entry_step r a entry Hr) as (r' & Hrep & Hr' & _).
  exists stored, start, r'. split; [done|]. split; [done|]. split; [|split; [done|]].
  - rewrite foldM_result_app, Hf. cbn [rbind foldM_result]. unfold RaftStateMachine.replay_new. rewrite record_of_log_id.
    rewrite Hrep. destruct Hr as (<- & _). unfold in_order in Hin. cbn [abs_applied view] in Hin.
    destruct (last_applied r); [|done]. by rewrite (proj2 (Z.leb_gt _ _)) by done.
  - apply Forall_app. unfold covered. rewrite step_applied. split; [|constructor; [by rewrite record_of_log_id|constructor]].
    eapply Forall_impl; [exact Hcov|]. intros record. unfold covered, in_order in *. destruct (abs_applied a); [lia|done].
Qed.

(** ** Opening *)

Lemma new_cfg_ok r a : is_state r a -> new cfg = Ok (MkCollection cfg ∅ 0).
Proof. intros (_ & (Hd & _) & E). unfold new. rewrite E in Hd. rewrite (proj2 (Z.eqb_neq _ _)) by lia. done. Qed.

Lemma read_snapshot_reads d : reads_as (read_snapshot (SnapshotMeta := SnapshotMeta)) d (snapshot_dir d).
Proof.
  unfold read_snapshot, snapshot_dir. apply reads_as_exists. destruct (d !! snapshot_path) as [bytes|] eqn:E.
  - rewrite bool_decide_eq_true_2 by done. cbn [negb].
    assert (rmap Some (check_stored bytes) = rbind (ok_or (d !! snapshot_path) missing)
      (fun bytes => rbind (check_stored bytes) (fun snapshot => Ok (Some snapshot)))) as ->
      by (rewrite E; cbn [ok_or rbind]; by destruct (check_stored bytes)).
    apply reads_as_try; [apply reads_as_file|]. intros bytes' _.
    apply reads_as_try; [apply reads_as_ret|]. intros snapshot _. apply reads_as_ret.
  - rewrite bool_decide_eq_false_2 by (by intros []). apply reads_as_ret.
Qed.

Abbreviation open := (open avx2 (SnapshotMeta := SnapshotMeta) log_index stored_membership_new stored_membership_default workers cfg).

Definition opened a (o : Result (StateInner LogId StoredMembership SnapshotMeta)) d : Prop :=
  match o with Ok inner => is_state (replica inner) a /\ sm_ok d a | Err _ => sm_recoverable d a | Panic => False end.

Lemma fold_snoc (rs acc : list (AppliedRecord LogId Membership)) : fold_left (fun records record => records ++ [record]) rs acc = acc ++ rs.
Proof. revert acc. induction rs as [|x rs IH]; intros acc; cbn; [by rewrite app_nil_r|]. by rewrite IH, <- app_assoc. Qed.

Lemma sm_created_recoverable d a : sm_recoverable d a -> d !! path state_journal = None -> sm_recoverable (<[path state_journal := []]> d) a.
Proof.
  intros (rs & Hj & Hs) E. assert (rs = []) as -> by (destruct Hj as [(torn & ps & Ep & _)|[_ ->]]; [congruence|done]).
  exists []. split; [left; exists []; apply journal_empty|]. eapply holds_except; [|exact Hs]. by apply except_insert.
Qed.

(** From the journal's handle to the replayed replica. *)
Lemma sm_open_tail_spec d rs a inner r stored :
  snapshot_dir d = Ok stored -> open_snapshot stored = Ok inner -> foldM_result replay_new (replica inner) rs = Ok r -> is_state r a ->
  Forall (covered a) rs -> (exists torn, journal state_journal d rs torn) ->
  specifies (let*? records := recover_records in
             let*? replica := iolift (foldM_result replay_new (replica inner) records) in
             let*? _ := sync in
             ioret (Ok (with_replica inner replica))) d (opened a) (fun d' => sm_recoverable d' a).
Proof.
  intros Hd Ho Hf Hr Hcov (torn & Hj). assert (forall d', except (path state_journal) d d' -> holds d' rs a) as Hrec.
  { intros d' He. eapply holds_except; [exact He|]. by exists stored, inner, r. }
  eapply (spec_try _ _ _ (fun records d' => records = rs /\ sm_ok d' a)).
  - eapply spec_mono; [apply (recover_journal_spec state_journal state_journal_ok _ _ d rs torn Hj)| |].
    + intros [records|e|] d' [He Hd']; [|exists rs; by auto|done]. destruct Hd' as [-> Hd']. split; [apply fold_snoc|]. exists rs. by auto.
    + intros d' [He Hd']. exists rs. by auto.
  - intros records d' [-> Hok]. rewrite Hf, iotry_ok. pose proof (sm_ok_recoverable _ _ Hok). apply spec_sync_then; [done|done|].
    by apply spec_ret.
Qed.

Lemma sm_open_spec d a : sm_recoverable d a -> specifies open d (opened a) (fun d' => sm_recoverable d' a).
Proof.
  intros Hr. pose proof Hr as (rs & Hj & stored & inner & r & Hd & Ho & Hf & Hst & Hcov).
  unfold RaftStateMachine.open. rewrite (new_cfg_ok r a Hst), iotry_ok.
  apply (spec_reads _ _ _ _ _ _ (read_snapshot_reads d)); [done|intros e; done|]. rewrite Hd, Ho, iotry_ok.
  apply spec_open_or_create_then; [done|done| |]; intros E.
  - destruct (sm_created_recoverable d a Hr E) as (rs' & Hj' & _).
    assert (rs = []) as -> by (destruct Hj as [(torn & ps & Ep & _)|[_ ->]]; [congruence|done]).
    eapply sm_open_tail_spec; [|done|done|done|done|exists []; apply journal_empty]. unfold snapshot_dir. by rewrite lookup_insert_ne.
  - destruct E as [bytes Eb]. destruct Hj as [Hj|[E _]]; [|congruence]. by eapply sm_open_tail_spec.
Qed.

Lemma sm_open_runs d a : sm_recoverable d a -> exists inner d', runs open d (Ok inner) d'.
Proof.
  intros (rs & Hj & stored & inner & r & Hd & Ho & Hf & Hst & Hcov).
  set (d1 := match d !! path state_journal with Some _ => d | None => <[path state_journal := []]> d end).
  assert (exists torn, journal state_journal d1 rs torn) as (torn & Hjt).
  { unfold d1. destruct (d !! path state_journal) eqn:E; destruct Hj as [(torn & Hj)|[E' ->]]; try congruence; [by exists torn| |].
    - destruct Hj as (ps & Ep & _). congruence.
    - exists []. apply journal_empty. }
  destruct (recover_journal_runs state_journal state_journal_ok (fun records record => records ++ [record]) [] d1 rs torn Hjt) as (d2 & Hrun).
  exists (with_replica inner r), d2. unfold RaftStateMachine.open. rewrite (new_cfg_ok r a Hst).
  eapply runs_try; [reflexivity|]. eapply runs_try; [rewrite <- Hd; apply read_snapshot_reads|].
  rewrite Ho. eapply runs_try; [reflexivity|]. eapply runs_try; [apply runs_open_or_create|]. fold d1.
  eapply runs_try; [exact Hrun|]. rewrite fold_snoc. cbn [app]. rewrite Hf. eapply runs_try; [reflexivity|]. eapply runs_try; reflexivity.
Qed.

(** A restart without faults finds the state [a]. *)
Definition restarts d a : Prop :=
  exists inner w, open (MkWorld d []) = Returned (Ok inner) w /\ is_state (replica inner) a /\ sm_ok (disk w) a.

Lemma sm_recoverable_restarts d a : sm_recoverable d a -> restarts d a.
Proof.
  intros Hr. destruct (sm_open_runs d a Hr) as (inner & d' & E). exists inner, (MkWorld d' []). split; [exact E|].
  pose proof (sm_open_spec d a Hr []) as Hs. unfold runs in E. rewrite E in Hs. exact Hs.
Qed.

(** ** Applying *)

Abbreviation apply_entry := (apply_entry entry_log_id entry_payload stored_membership_new).
Abbreviation apply := (RaftStateMachine.apply (SnapshotMeta := SnapshotMeta) entry_log_id entry_payload stored_membership_new).

(** What Raft and JSON promise of the entries to come: they are above the last
    applied one, and their records read back. *)
Fixpoint loggable a (entries : list Entry) : Prop :=
  match entries with
  | [] => True
  | entry :: entries' =>
      in_order a entry /\ json_stable (record_of entry (step a entry).1) /\ loggable (step a entry).2 entries'
  end.

Definition one_applied a entry (o : Result ShardResponse * Rep) d : Prop :=
  match o with
  | (Ok response, r') => step a entry = (response, view r') /\ is_state r' (step a entry).2 /\ sm_ok d (view r')
  | (Err _, r') => is_state r' a /\ (sm_recoverable d a \/ sm_recoverable d (step a entry).2)
  | (Panic, _) => False
  end.

Lemma apply_entry_durable r a entry d :
  is_state r a -> sm_ok d a -> in_order a entry -> json_stable (record_of entry (step a entry).1) ->
  specifies (apply_entry r entry) d (one_applied a entry) (fun d' => sm_recoverable d' a \/ sm_recoverable d' (step a entry).2).
Proof.
  intros Hr (rs & Hj & Hh) Hin Hstable. destruct (replay_entry_step r a entry Hr) as (r' & Hrep & Hr' & _).
  assert (prepare_payload entry_payload r entry = Ok (record_payload (record_of entry (step a entry).1), (step a entry).1)) as Hp.
  { destruct Hr as (<- & Hc & Ec). pose proof (entry_step entry_log_id entry_payload stored_membership_new r entry Hc) as Hs.
    rewrite Ec in Hs. destruct (step (view r) entry). by destruct Hs. }
  assert (forall d', except (path state_journal) d d' -> journal_at state_journal d' rs \/ journal_at state_journal d' (rs ++ [record_of entry (step a entry).1]) ->
    sm_recoverable d' a \/ sm_recoverable d' (step a entry).2) as Hboth.
  { intros d' He [Hj'|Hj']; [left; exists rs|right; eexists]; (split; [by left|]); (eapply holds_except; [exact He|]); [done|by apply holds_step]. }
  unfold RaftStateMachine.apply_entry. rewrite Hp.
  change (MkRecord (entry_log_id entry) (record_payload (record_of entry (step a entry).1))) with (record_of entry (step a entry).1).
  eapply spec_bind.
  { eapply spec_mono; [apply (append_record_spec state_journal state_journal_ok _ d rs Hj Hstable)| |].
    - intros o d' Ho. exact Ho.
    - intros d' [He Hj']. by apply Hboth. }
  intros [[]|e|] d' [He Ho]; [| |done].
  - rewrite Hrep. apply spec_ret. cbn [rmap one_applied]. pose proof Hr' as (Ev & _). rewrite Ev.
    split; [by destruct (step a entry)|]. split; [done|]. eexists. split; [exact Ho|]. eapply holds_except; [exact He|]. by apply holds_step.
  - apply spec_ret. split; [done|]. by apply Hboth.
Qed.

(** The directory is left in the state after some of the entries. *)
Definition left_after a entries (P : State -> Prop) : Prop := exists done rest, entries = done ++ rest /\ P (run a done).2.

Lemma left_after_cons a entry entries P : left_after (step a entry).2 entries P -> left_after a (entry :: entries) P.
Proof.
  intros (done & rest & -> & HP). exists (entry :: done), rest. split; [done|]. cbn [abs_run]. destruct (step a entry) as [response a'].
  cbn [snd] in HP. by destruct (run a' done).
Qed.

Lemma apply_entries_durable r a entries acc d :
  is_state r a -> sm_ok d a -> loggable a entries ->
  specifies (apply_entries entry_log_id entry_payload stored_membership_new r entries acc) d
    (fun o d' => match o with
       | (Ok responses, r') => is_state r' (run a entries).2 /\ sm_ok d' (run a entries).2
       | (Err _, r') => left_after a entries (sm_recoverable d')
       | (Panic, _) => False
       end) (fun d' => left_after a entries (sm_recoverable d')).
Proof.
  revert r a acc d. induction entries as [|entry entries IH]; intros r a acc d Hr Hok Hlog; cbn [apply_entries]; [by apply spec_ret|].
  destruct Hlog as (Hin & Hst & Hlog).
  assert (forall d', sm_recoverable d' a \/ sm_recoverable d' (step a entry).2 -> left_after a (entry :: entries) (sm_recoverable d')) as Hone.
  { intros d' [Hd|Hd]; [by exists [], (entry :: entries)|]. exists [entry], entries. split; [done|]. cbn [abs_run]. by destruct (step a entry). }
  eapply spec_bind; [eapply spec_mono; [by apply apply_entry_durable|intros o d' Ho; exact Ho|apply Hone]|].
  intros [[response|e|] r'] d' Ho; [|apply spec_ret; by apply Hone, Ho|done]. destruct Ho as (Es & Hr' & Hok').
  pose proof Hr' as (Ev & _). rewrite Ev in Hok'. eapply spec_mono; [by apply IH| |].
  - intros [[responses|e|] r2] d2; [|apply left_after_cons|done]. cbn [abs_run]. destruct (step a entry) as [response' a'].
    cbn [snd]. by destruct (run a' entries).
  - intros d2. apply left_after_cons.
Qed.

(** ** Snapshots *)

Lemma decode_encoded snapshot data :
  encode_state_snapshot snapshot = Ok data -> json_stable snapshot -> zlen data <= USIZE_MAX -> decode_state_snapshot data = Ok snapshot.
Proof.
  unfold encode_state_snapshot. intros He Hst Hmax. destruct (to_vec snapshot) as [payload|e|] eqn:Ev; [|done..]. cbn [map_err rbind] in He.
  apply Ok_inj in He as <-. change (zlen (sealed SNAPSHOT_MAGIC SNAPSHOT_VERSION payload) <= USIZE_MAX) in Hmax.
  change (concat _) with (sealed SNAPSHOT_MAGIC SNAPSHOT_VERSION payload). pose proof (zlen_nonneg payload).
  destruct (sealed_reads SNAPSHOT_MAGIC SNAPSHOT_VERSION payload eq_refl) as [Hz Hm Hv Hl Hp Hc]. rewrite Hz in Hmax.
  unfold decode_state_snapshot. assert (firstn 4 (sealed SNAPSHOT_MAGIC SNAPSHOT_VERSION payload) = SNAPSHOT_MAGIC) as -> by done.
  rewrite bool_decide_eq_true_2 by done. cbn [negb]. rewrite Hz, (proj2 (Z.ltb_ge _ 17)) by lia. rewrite Hv. cbn [rbind].
  change (negb (u8 (to_u8 SNAPSHOT_VERSION) =? SNAPSHOT_VERSION)) with false. cbv iota. rewrite Hl. cbn [rbind].
  unfold fixed at 1. rewrite length_le_bytes. cbn [Nat.eqb rbind].
  rewrite le_value_bytes.
  2: { unfold USIZE_MAX, U64_MAX in Hmax. split; [done|]. change (2 ^ (8 * Z.of_nat 8)) with 18446744073709551616. lia. }
  unfold checked_add. rewrite (proj2 (Z.leb_le (17 + zlen payload) _)) by done. cbn [ok_or rbind]. rewrite Z.eqb_refl. cbn [negb].
  rewrite Hp. cbn [rbind]. rewrite Hc. cbn [rbind]. unfold fixed. rewrite length_le_bytes. cbn [Nat.eqb rbind].
  rewrite le_value_bytes by apply crc32c_range. rewrite Z.eqb_refl. cbn [negb]. by rewrite (Hst _ Ev).
Qed.

(** A snapshot is restored as the replica it was taken of. *)
Lemma restore_taken r a :
  is_state r a -> exists r2, restore_replica cfg (take_snapshot cfg r) = Ok r2 /\ is_state r2 a /\ dirty_ids r2 = ∅.
Proof.
  intros Hr. pose proof (new_cfg_ok r a Hr) as En. destruct Hr as (<- & Hc & Ec). unfold restore_replica. rewrite En. cbn [rbind].
  pose proof (snapshot_restored (collection r) (MkCollection cfg ∅ 0) Hc (eq_sym Ec)) as Hs. cbn [snap_points snap_sequence take_snapshot].
  unfold latest_sequence. destruct (restore_snapshot _ _ _) as [res c] eqn:Er. destruct Hs as (-> & E1 & E2 & Hc').
  eexists. split; [done|]. split; [|done]. split; [unfold view; cbn [collection last_applied membership dedup snap_last_applied snap_membership snap_dedup]; by rewrite E1, E2|].
  split; [done|]. cbn [collection]. unfold restore_snapshot, restore_stored_snapshot in Er. repeat case_match; simplify_eq/=; done.
Qed.

(** The file of a stored snapshot reads back. *)
Lemma check_written stored bytes :
  to_vec stored = Ok bytes -> json_stable stored ->
  (exists checksum, stored_snapshot_checksum (stored_meta stored) (stored_data stored) = Ok checksum /\ stored_checksum stored = Some checksum) ->
  check_stored bytes = Ok stored.
Proof.
  intros Ev Hst (checksum & Ec & Es). unfold check_stored. rewrite (Hst _ Ev). cbn [map_err rbind]. rewrite Es, Ec. cbn [map_err rbind].
  by rewrite Z.eqb_refl.
Qed.

(** A snapshot file for the state [a]: decoding, indexing and restoring it
    gives a replica in that state. *)
Definition snapshot_of a (stored : StoredSnapshot SnapshotMeta) : Prop :=
  (exists checksum, stored_snapshot_checksum (stored_meta stored) (stored_data stored) = Ok checksum /\ stored_checksum stored = Some checksum) /\
  exists decoded indexes r, decode_state_snapshot (stored_data stored) = Ok decoded /\ snap_config decoded = cfg /\
    build_indexes avx2 workers cfg (snap_points decoded) = Ok indexes /\ restore_replica cfg decoded = Ok r /\ is_state r a.

Lemma replay_covered r a rs : is_state r a -> Forall (covered a) rs -> foldM_result replay_new r rs = Ok r.
Proof.
  intros (<- & _). induction 1 as [|record rs Hc _ IH]; [done|]. cbn [foldM_result]. unfold RaftStateMachine.replay_new at 1.
  unfold covered in Hc. cbn [abs_applied view] in Hc. destruct (last_applied r); [|done]. by rewrite (proj2 (Z.leb_le _ _) Hc).
Qed.

Lemma holds_snapshot d a stored bytes rs :
  d !! snapshot_path = Some bytes -> to_vec stored = Ok bytes -> json_stable stored -> snapshot_of a stored -> Forall (covered a) rs -> holds d rs a.
Proof.
  intros Ed Ev Hst (Hsum & decoded & indexes & r & Edec & Ecfg & Eidx & Eres & Hr) Hcov.
  exists (Some stored), (MkInner r (Some (indexes.1, [])) (Some indexes.2) (Some stored)), r.
  split; [unfold snapshot_dir; by rewrite Ed, (check_written stored bytes Ev Hst Hsum)|]. split; [|split; [by eapply replay_covered|by split]].
  unfold RaftStateMachine.open_snapshot. rewrite Edec. cbn [rbind]. rewrite bool_decide_eq_true_2 by done. cbn [negb]. rewrite Eidx. cbn [rbind].
  by rewrite Eres.
Qed.

Lemma snapshot_temporary_journal pid : snapshot_temporary pid <> path state_journal.
Proof. by unfold snapshot_temporary, fmt_int. Qed.

Lemma temporary_snapshot pid : snapshot_temporary pid <> snapshot_path.
Proof. by unfold snapshot_temporary, fmt_int. Qed.

(** Writing the file: untouched but for the temporary, or replaced. *)
Lemma write_snapshot_spec pid stored d (C : Dir -> Prop) :
  (forall d', except (snapshot_temporary pid) d d' -> C d') ->
  (forall bytes, to_vec stored = Ok bytes -> C (<[snapshot_path := bytes]> (base.delete (snapshot_temporary pid) d))) ->
  specifies (write_snapshot pid stored) d
    (fun o d' => match o with
       | Ok _ => exists bytes, to_vec stored = Ok bytes /\ d' = <[snapshot_path := bytes]> (base.delete (snapshot_temporary pid) d)
       | Err _ => C d'
       | Panic => False
       end) C.
Proof.
  intros Hbefore Hafter. unfold write_snapshot. destruct (to_vec stored) as [bytes|e|] eqn:Ev; [|apply spec_ret; by apply Hbefore|by destruct (to_vec_total stored)].
  cbn [map_err]. rewrite iotry_ok. specialize (Hafter bytes eq_refl).
  apply (spec_replace_file (snapshot_temporary pid) snapshot_path [bytes]).
  - intros d' He. split; [by apply Hbefore|]. intros _. by apply Hbefore.
  - cbn [concat]. rewrite app_nil_r. apply spec_sync; [done|done|by exists bytes].
Qed.

(** A snapshot file for [a] beside a journal it covers. *)
Lemma published_ok pid d d' a stored bytes rs torn :
  journal state_journal d rs torn -> Forall (covered a) rs -> snapshot_of a stored -> json_stable stored -> to_vec stored = Ok bytes ->
  d' = <[snapshot_path := bytes]> (base.delete (snapshot_temporary pid) d) -> journal state_journal d' rs torn /\ holds d' rs a.
Proof.
  intros Hj Hcov Hs Hst Ev ->. split.
  - eapply journal_agree; [|exact Hj]. rewrite lookup_insert_ne by done. apply lookup_delete_ne, snapshot_temporary_journal.
  - eapply holds_snapshot; [by rewrite lookup_insert_eq|done..].
Qed.

(** ** Taking a snapshot *)

Lemma build_indexes_returns (points : list Point) :
  0 <= dimension cfg -> zlen points <= U32_MAX -> (0 < workers)%nat -> build_indexes avx2 workers cfg points <> Panic.
Proof.
  intros Hd Hn Hw. unfold build_indexes.
  destruct (HnswBuild.build_quantized_ok avx2 (dimension cfg) (metric cfg) reindex_config (map (fun point => (pt_id point, pt_vector point)) points) Hd)
    as (res & Hr & Hout); [unfold zlen in *; by rewrite length_map|]. rewrite (Hr workers Hw). by destruct res.
Qed.

(** What [serde_json] and memory promise of a snapshot of [r]. *)
Record snapshottable (nonce : option Z) r : Prop := {
  sn_points : zlen (snapshot_points (collection r)) <= U32_MAX;
  sn_stable : json_stable (take_snapshot cfg r);
  sn_size : forall data, encode_state_snapshot (take_snapshot cfg r) = Ok data -> zlen data <= USIZE_MAX;
  sn_stored : forall stored indexes, prepare_snapshot avx2 log_index snapshot_meta workers cfg nonce r = Ok (stored, indexes) -> json_stable stored
}.

Lemma prepare_snapshot_ok nonce r a :
  is_state r a -> (0 < workers)%nat -> snapshottable nonce r ->
  match prepare_snapshot avx2 log_index snapshot_meta workers cfg nonce r with
  | Ok (stored, indexes) => snapshot_of a stored /\ decode_state_snapshot (stored_data stored) = Ok (take_snapshot cfg r)
  | Err _ => True
  | Panic => False
  end.
Proof.
  intros Hr Hw [Hn Hst Hsize _]. pose proof Hr as (_ & (Hd & _) & Ec). rewrite Ec in Hd.
  unfold prepare_snapshot. pose proof (build_indexes_returns (snapshot_points (collection r)) ltac:(lia) Hn Hw) as Hb.
  destruct (build_indexes avx2 workers cfg (snap_points (take_snapshot cfg r))) as [indexes|e|] eqn:Ei; [|done..]. cbn [rbind].
  destruct (encode_state_snapshot (take_snapshot cfg r)) as [data|e|] eqn:Ee; cbn [rbind]; [|done|].
  2: { unfold encode_state_snapshot in Ee. pose proof (to_vec_total (take_snapshot cfg r)). by destruct (to_vec (take_snapshot cfg r)). }
  destruct nonce as [nonce|]; cbn [ok_or rbind]; [|done]. set (meta := snapshot_meta _ _ _).
  destruct (stored_snapshot_checksum meta data) as [checksum|e|] eqn:Es; cbn [map_err rbind]; [|done|].
  2: { unfold stored_snapshot_checksum in Es. pose proof (to_vec_total (meta, data)). by destruct (to_vec (meta, data)). }
  pose proof (decode_encoded _ _ Ee Hst (Hsize _ eq_refl)) as Hdec. split; [|done]. split; [by exists checksum|].
  destruct (restore_taken r a Hr) as (r2 & Hres & Hr2 & _). by exists (take_snapshot cfg r), indexes, r2.
Qed.

Lemma build_snapshot_spec pid nonce (inner : StateInner LogId StoredMembership SnapshotMeta) a d :
  is_state (replica inner) a -> sm_ok d a -> (0 < workers)%nat -> snapshottable nonce (replica inner) ->
  specifies (RaftStateMachine.build_snapshot avx2 log_index snapshot_meta pid workers cfg nonce inner) d
    (fun o d' => match o with
       | (Ok (_, data), inner') => is_state (replica inner') a /\ sm_ok d' a /\ decode_state_snapshot data = Ok (take_snapshot cfg (replica inner))
       | (Err _, inner') => inner' = inner /\ sm_recoverable d' a
       | (Panic, _) => False
       end) (fun d' => sm_recoverable d' a).
Proof.
  intros Hr Hok Hw Hsn. pose proof (sm_ok_recoverable _ _ Hok) as Hrec. pose proof Hok as (rs & Hj & Hh).
  pose proof Hh as (_ & _ & _ & _ & _ & _ & _ & Hcov). unfold RaftStateMachine.build_snapshot.
  pose proof (prepare_snapshot_ok nonce (replica inner) a Hr Hw Hsn) as Hp. pose proof (sn_stored _ _ Hsn) as Hstored.
  destruct (prepare_snapshot _ _ _ _ _ _ _) as [[stored indexes]|e|] eqn:Ep; [| |done].
  2: { rewrite iotry_err. eapply spec_bind; [apply (spec_ret _ _ (fun o d' => o = Err e /\ d' = d)); done|].
       intros o d' [-> ->]. by apply spec_ret. }
  destruct Hp as [Hs Hdec]. specialize (Hstored stored indexes eq_refl). rewrite iotry_ok.
  assert (forall bytes, to_vec stored = Ok bytes -> sm_ok (<[snapshot_path := bytes]> (base.delete (snapshot_temporary pid) d)) a) as Hnew.
  { intros bytes Ev. exists rs. by eapply published_ok. }
  eapply (spec_bind _ _ _ (fun o d' => match o with Ok x => x = (stored, indexes) /\ sm_ok d' a | Err _ => sm_recoverable d' a | Panic => False end)).
  - eapply (spec_try _ _ _ (fun _ d' => sm_ok d' a)).
    + eapply spec_mono; [apply (write_snapshot_spec pid stored d (fun d' => sm_recoverable d' a))| |done].
      * intros d' He. eapply sm_recoverable_but; [apply temporary_snapshot|apply snapshot_temporary_journal|exact He|done].
      * intros bytes Ev. by apply sm_ok_recoverable, Hnew.
      * intros [[]|e|] d'; [|done|done]. intros (bytes & Ev & ->). by apply Hnew.
    + intros [] d' Hd'. by apply spec_ret.
  - intros [x|e|] d' Hd'; [|by apply spec_ret|done]. destruct Hd' as [-> Hd']. apply spec_ret.
    split; [|by split]. destruct Hr as (Ev & Hc & Ec). by split_and!.
Qed.

(** ** Installing a snapshot *)

(** The bytes a leader sends: they decode to a snapshot of the state [a]. *)
Definition transfers (data : list byte) a : Prop :=
  exists decoded indexes r, decode_state_snapshot data = Ok decoded /\ snap_config decoded = cfg /\
    build_indexes avx2 workers cfg (snap_points decoded) = Ok indexes /\ restore_replica cfg decoded = Ok r /\ is_state r a.

(** The snapshot is not behind the state [b]. *)
Definition ahead (b a : State) : Prop :=
  match abs_applied b with
  | Some before => exists after, abs_applied a = Some after /\ log_index before <= log_index after
  | None => True
  end.

Lemma covered_ahead b a rs : ahead b a -> Forall (covered b) rs -> Forall (covered a) rs.
Proof.
  intros Ha Hc. eapply Forall_impl; [exact Hc|]. intros record. unfold ahead, covered in *. destruct (abs_applied b); [|done].
  destruct Ha as (after & -> & Hle). lia.
Qed.

Definition installed (b a : State) (inner : StateInner LogId StoredMembership SnapshotMeta)
    (o : result StorageError unit * StateInner LogId StoredMembership SnapshotMeta) d : Prop :=
  match o with
  | (Ok _, inner') => is_state (replica inner') a /\ sm_ok d a
  | (Err _, inner') => inner' = inner /\ (sm_recoverable d b \/ sm_recoverable d a)
  | (Panic, _) => False
  end.

Lemma install_snapshot_spec pid meta data (inner : StateInner LogId StoredMembership SnapshotMeta) (b a : State) d :
  sm_ok d b -> transfers data a -> ahead b a -> (forall checksum, json_stable (MkStoredSnapshot meta data (Some checksum))) ->
  specifies (install_snapshot avx2 pid workers cfg meta data inner) d (installed b a inner) (fun d' => sm_recoverable d' b \/ sm_recoverable d' a).
Proof.
  intros Hok (decoded & indexes & r & Edec & Ecfg & Eidx & Eres & Hr) Hahead Hstable.
  pose proof (sm_ok_recoverable _ _ Hok) as Hrec. pose proof Hok as (rs & Hj & Hh). pose proof Hh as (_ & _ & _ & _ & _ & _ & _ & Hcov).
  apply (covered_ahead b a) in Hcov; [|done]. unfold install_snapshot. rewrite Edec. cbn [lift_error].
  rewrite bool_decide_eq_true_2 by done. cbn [negb].
  assert (forall (o : result StorageError (StateInner LogId StoredMembership SnapshotMeta)) d',
    match o with Ok x => is_state (replica x) a /\ sm_ok d' a | Err _ => sm_recoverable d' b \/ sm_recoverable d' a | Panic => False end ->
    specifies (match o with Ok self => ioret (Ok tt, self) | Err e => ioret (Err e, inner) | Panic => ioret (Panic, inner) end) d' (installed b a inner)
      (fun d' => sm_recoverable d' b \/ sm_recoverable d' a)) as Hend.
  { intros [x|e|] d' Ho; apply spec_ret; [done|by split|done]. }
  eapply spec_bind; [|intros o d' Ho; apply (Hend o d'); exact Ho].
  destruct (stored_snapshot_checksum meta data) as [checksum|e|] eqn:Es; cbn [map_err lift_error].
  2: { apply spec_ret. by left. }
  2: { unfold stored_snapshot_checksum in Es. pose proof (to_vec_total (meta, data)). by destruct (to_vec (meta, data)). }
  set (stored := MkStoredSnapshot meta data (Some checksum)).
  assert (snapshot_of a stored) as Hs by (split; [by exists checksum|by exists decoded, indexes, r]).
  assert (forall bytes, to_vec stored = Ok bytes -> sm_ok (<[snapshot_path := bytes]> (base.delete (snapshot_temporary pid) d)) a) as Hnew.
  { intros bytes Ev. exists rs. eapply published_ok; [exact Hj|exact Hcov|exact Hs|apply Hstable|exact Ev|done]. }
  unfold io_error. eapply spec_bind.
  { apply (write_snapshot_spec pid stored d (fun d' => sm_recoverable d' b \/ sm_recoverable d' a)).
    - intros d' He. left. eapply sm_recoverable_but; [apply temporary_snapshot|apply snapshot_temporary_journal|exact He|done].
    - intros bytes Ev. right. by apply sm_ok_recoverable, Hnew. }
  intros [[]|e|] d' Hd'; cbn [lift_error]; [|apply spec_ret; exact Hd'|done]. destruct Hd' as (bytes & Ev & ->).
  pose proof (Hnew bytes Ev) as Hok'. pose proof (sm_ok_recoverable _ _ Hok') as Hrec'. rewrite Ecfg, Eidx. cbn [lift_error]. rewrite Eres. cbn [lift_error].
  set (d1 := <[snapshot_path := bytes]> (base.delete (snapshot_temporary pid) d)) in *.
  assert (sm_ok (<[path state_journal := []]> d1) a) as Hcut.
  { exists []. split; [apply journal_empty|]. eapply (holds_snapshot _ a stored bytes); [|done|apply Hstable|done|constructor].
    rewrite lookup_insert_ne by done. unfold d1. apply lookup_insert_eq. }
  pose proof (sm_ok_recoverable _ _ Hcut) as Hrcut.
  eapply (spec_bind _ _ _ (fun o d' => match o with Ok _ => d' = <[path state_journal := []]> d1 | Err _ => sm_recoverable d' a | Panic => False end)).
  { apply spec_set_len; [by right|done|]. done. }
  intros [[]|e|] d2 Hd2; cbn [lift_error]; [|apply spec_ret; by right|done]. subst d2.
  eapply (spec_bind _ _ _ (fun o d' => match o with Ok _ => d' = <[path state_journal := []]> d1 | Err _ => sm_recoverable d' a | Panic => False end)).
  { apply spec_sync; [by right|done|done]. }
  intros [[]|e|] d2 Hd2; cbn [lift_error]; [|apply spec_ret; by right|done]. subst d2.
  eapply (spec_bind _ _ _ (fun o d' => match o with Ok _ => d' = <[path state_journal := []]> d1 | Err _ => sm_recoverable d' a | Panic => False end)).
  { apply spec_sync; [by right|done|done]. }
  intros [[]|e|] d2 Hd2; cbn [lift_error]; [|apply spec_ret; by right|done]. subst d2. by apply spec_ret.
Qed.

(** C24 (raft_apply_survives). Applied entries are durable and atomic under every
    placement of I/O errors and of a crash: after an acknowledgement a restart
    finds the state after all of them; after an error or a crash at any system
    call it finds the state after a prefix of them, exactly as the specification
    gives it, remembered answers included. *)
Theorem raft_apply_survives (inner : StateInner LogId StoredMembership SnapshotMeta) a entries d script :
  is_state (replica inner) a -> sm_ok d a -> loggable a entries ->
  match apply inner entries (MkWorld d script) with
  | Returned (Ok _, inner') w => is_state (replica inner') (run a entries).2 /\ sm_ok (disk w) (run a entries).2 /\ restarts (disk w) (run a entries).2
  | Returned (Err _, _) w => left_after a entries (restarts (disk w))
  | Returned (Panic, _) _ => False
  | Crashed d' => left_after a entries (restarts d')
  end.
Proof.
  intros Hr Hok Hlog. pose proof (apply_entries_durable (replica inner) a entries [] d Hr Hok Hlog script) as Hs.
  assert (forall d', left_after a entries (sm_recoverable d') -> left_after a entries (restarts d')) as Hre.
  { intros d' (done & rest & E & Hd). exists done, rest. split; [exact E|]. by apply sm_recoverable_restarts. }
  unfold RaftStateMachine.apply, iobind. destruct (apply_entries _ _ _ _ _ _ _) as [[[responses|e|] r'] w|d']; unfold ioret; cbn [map_err replica with_replica]; auto.
  destruct Hs as [Hr' Hok']. split; [done|]. split; [done|]. by apply sm_recoverable_restarts, sm_ok_recoverable.
Qed.

(** C39 (raft_snapshot_survives). Taking a snapshot is invisible and crash-safe:
    at every fault or crash a restart finds the same state - from the old
    snapshot and the journal, or from the new one, which covers the journal
    that is kept - and the bytes offered to other replicas decode to the
    replica's state. *)
Theorem raft_snapshot_survives pid nonce (inner : StateInner LogId StoredMembership SnapshotMeta) a d script :
  is_state (replica inner) a -> sm_ok d a -> (0 < workers)%nat -> snapshottable nonce (replica inner) ->
  match RaftStateMachine.build_snapshot avx2 log_index snapshot_meta pid workers cfg nonce inner (MkWorld d script) with
  | Returned (Ok (_, data), inner') w =>
      is_state (replica inner') a /\ sm_ok (disk w) a /\ restarts (disk w) a /\
      decode_state_snapshot data = Ok (take_snapshot cfg (replica inner))
  | Returned (Err _, inner') w => inner' = inner /\ restarts (disk w) a
  | Returned (Panic, _) _ => False
  | Crashed d' => restarts d' a
  end.
Proof.
  intros Hr Hok Hw Hsn. pose proof (build_snapshot_spec pid nonce inner a d Hr Hok Hw Hsn script) as Hs.
  destruct (RaftStateMachine.build_snapshot _ _ _ _ _ _ _ _ _) as [[[[meta data]|e|] inner'] w|d']; [| |done|].
  - destruct Hs as (H1' & H2' & H3'). split_and!; [done|done|by apply sm_recoverable_restarts, sm_ok_recoverable|done].
  - destruct Hs as [-> Hs]. split; [done|by apply sm_recoverable_restarts].
  - by apply sm_recoverable_restarts.
Qed.

(** C40 (raft_install_survives). Installing a snapshot that is not behind brings
    the replica to the sender's state, atomically: acknowledged, the state is
    in memory and a restart finds it; after an error or a crash a restart finds
    the old state or the new one - also between the snapshot's rename and the
    truncation of the journal, whose records the snapshot covers. *)
Theorem raft_install_survives pid meta data (inner : StateInner LogId StoredMembership SnapshotMeta) (b a : State) d script :
  sm_ok d b -> transfers data a -> ahead b a -> (forall checksum, json_stable (MkStoredSnapshot meta data (Some checksum))) ->
  match install_snapshot avx2 pid workers cfg meta data inner (MkWorld d script) with
  | Returned (Ok _, inner') w => is_state (replica inner') a /\ sm_ok (disk w) a /\ restarts (disk w) a
  | Returned (Err _, inner') w => inner' = inner /\ (restarts (disk w) b \/ restarts (disk w) a)
  | Returned (Panic, _) _ => False
  | Crashed d' => restarts d' b \/ restarts d' a
  end.
Proof.
  intros Hok Ht Ha Hst. pose proof (install_snapshot_spec pid meta data inner b a d Hok Ht Ha Hst script) as Hs.
  pose proof sm_recoverable_restarts as Hre. pose proof sm_ok_recoverable as Hro.
  destruct (install_snapshot _ _ _ _ _ _ _ _) as [[[[]|e|] inner'] w|d']; [| |done|].
  - destruct Hs as [H1' H2']. auto.
  - destruct Hs as [-> Hs]. split; [done|]. destruct Hs; auto.
  - destruct Hs; auto.
Qed.
End Recovery.
