(* ===== verification/RaftSearch.v ===== *)
(** * RaftSearch: what a replica's searches return

    The indexes of a replica describe its points outside the dirty set.  A
    search merges what they propose with an exact scan of the dirty points, so
    every hit is live and scored exactly, whatever entries were applied while
    the indexes were rebuilt without the lock. *)

From stdpp Require Import base gmap sets list strings sorting.
From Stdlib Require Import ZArith Lia.
From S2P Require Import Prelude Errors Floats Ranking Metric Filter MetadataIndex Quantize.
From S2P Require Hnsw HnswFacts HnswSearch HnswBuild.
From S2P Require Import RaftLog Collection CollectionFacts Codec Wire Disk DiskFacts SegmentRoundtrip QueryFacts.
From S2P Require Import RaftStateMachine RaftReplica RaftRecovery.

Section Search.
Context `{FloatEnv} (avx2 : bool).
Context {LogId StoredMembership SnapshotMeta : Type}.
Context (workers : nat) (cfg : CollectionConfig).

Abbreviation Rep := (Replica LogId StoredMembership).
Abbreviation Inner := (StateInner LogId StoredMembership SnapshotMeta).
Abbreviation cts r := (contents (collection r)).
Implicit Types (r : Rep) (inner : Inner).

(** ** What the indexes describe *)

Record describes (index : Hnsw.HnswIndex) (mi : option MetadataIndex) (base : list Point) (m : gmap string Point) (dirty : gset string) : Prop := {
  ds_base : points_wf base;
  ds_count : zlen base <= U32_MAX;
  ds_graph : HnswFacts.graph_wf index;
  ds_ids : Hnsw.ids index = map pt_id base;
  ds_dimension : Hnsw.graph_dimension index = dimension cfg;
  ds_metric : Hnsw.graph_metric index = metric cfg;
  ds_metadata : mi = Some (build base);
  ds_live : forall id p, id ∉ dirty -> m !! id = Some p <-> p ∈ base /\ pt_id p = id
}.

Definition tracked inner : Prop :=
  match graph inner with
  | None => True
  | Some (index, pool) =>
      Forall HnswSearch.ws_valid pool /\
      exists base, describes index (metadata_index inner) base (cts (replica inner)) (dirty_ids (replica inner))
  end.

(** Metadata values are in the range of their Rust types. *)
Definition values_ok (m : gmap string Point) : Prop :=
  map_Forall (fun _ p => metadata_typed (pt_metadata p)) m.

Record replica_ok inner : Prop := {
  ro_coll : coll_ok (collection (replica inner));
  ro_config : Collection.config (collection (replica inner)) = cfg;
  ro_values : values_ok (cts (replica inner));
  ro_count : zlen (snapshot_points (collection (replica inner))) <= U32_MAX;
  ro_tracked : tracked inner
}.

(** Applying entries only makes points dirty. *)
Lemma moved_tracked inner r' : tracked inner -> moved (replica inner) r' -> tracked (with_replica inner r').
Proof.
  unfold tracked, with_replica. cbn [graph replica metadata_index]. destruct (graph inner) as [[index pool]|]; [|done].
  intros [Hpool (base & Hd)] Hm. split; [done|]. exists base. destruct Hd. constructor; try done.
  intros id p Hid. rewrite (mv_contents _ _ Hm) by done. apply ds_live0. pose proof (mv_dirty _ _ Hm). set_solver.
Qed.

Lemma snapshot_describes c :
  coll_ok c -> values_ok (contents c) -> points_wf (snapshot_points c).
Proof.
  intros Hc Hv. split; [by apply NoDup_snapshot_ids|]. intros p fd v Hp%elem_of_snapshot E; [|done]. exact (Hv _ p Hp fd v E).
Qed.

Lemma built_describes c indexes :
  coll_ok c -> Collection.config c = cfg -> values_ok (contents c) -> zlen (snapshot_points c) <= U32_MAX -> (0 < workers)%nat ->
  build_indexes avx2 workers cfg (snapshot_points c) = Ok indexes ->
  describes indexes.1 (Some indexes.2) (snapshot_points c) (contents c) ∅.
Proof.
  intros Hc Ec Hv Hn Hw. unfold build_indexes. pose proof Hc as (Hd & _). rewrite Ec in Hd.
  destruct (HnswBuild.build_quantized_ok avx2 (dimension cfg) (metric cfg) reindex_config (map (fun point => (pt_id point, pt_vector point)) (snapshot_points c)))
    as (res & Hr & Hout); [lia|unfold zlen in *; by rewrite length_map|]. rewrite (Hr workers Hw). destruct res as [g|e|]; [|done..].
  cbn [rbind]. intros [= <-]. destruct Hout as [_ Hout]. destruct Hout. constructor; try done.
  - by apply snapshot_describes.
  - cbn [fst]. rewrite io_ids. unfold HnswBuild.stored_points. by rewrite !map_map.
  - intros id p _. rewrite elem_of_snapshot by done. split; [|by intros [? <-]]. intros Hp.
    pose proof (contents_ids c Hc id p Hp) as E. cbn in E. by rewrite E.
Qed.

(** Fresh indexes describe every point. *)
Lemma install_tracked inner indexes base :
  describes indexes.1 (Some indexes.2) base (cts (replica inner)) ∅ -> tracked (install_indexes inner indexes).
Proof. intros Hd. unfold tracked, install_indexes. cbn. split; [constructor|]. by exists base. Qed.

(** What other tasks may do while the lock is not held. *)
Definition evolves inner inner' : Prop :=
  replica_ok inner' /\
  (sequence (collection (replica inner')) = sequence (collection (replica inner)) -> cts (replica inner') = cts (replica inner)).

Lemma moved_evolves inner r' :
  replica_ok inner -> moved (replica inner) r' -> values_ok (cts r') -> zlen (snapshot_points (collection r')) <= U32_MAX ->
  evolves inner (with_replica inner r').
Proof.
  intros [] Hm Hv Hn. split; [|apply (mv_same _ _ Hm)]. constructor; cbn [replica with_replica]; try done; [apply Hm| |by apply moved_tracked].
  by rewrite (mv_config _ _ Hm).
Qed.

(** Installing indexes built without the lock is safe. *)
Lemma refresh_ok inner inner' sequence points indexes :
  replica_ok inner -> evolves inner inner' -> (0 < workers)%nat -> refresh_plan inner = Some (sequence, points) ->
  build_indexes avx2 workers cfg points = Ok indexes ->
  replica_ok (refresh_install inner' sequence indexes) /\ view (replica (refresh_install inner' sequence indexes)) = view (replica inner').
Proof.
  intros [] [Hok' Hsame] Hw Hplan Hb. unfold refresh_plan in Hplan. destruct (should_rebuild_index _ _ _); [|done]. injection Hplan as <- <-.
  unfold refresh_install, latest_sequence. destruct (Z.eqb_spec (Collection.sequence (collection (replica inner'))) (Collection.sequence (collection (replica inner)))) as [E|]; [|done].
  specialize (Hsame E). split; [|done]. destruct Hok'. constructor; try done. eapply install_tracked. rewrite Hsame. by apply built_describes.
Qed.

(** ** One search through the graph *)

Context (q query : list Z) (k ef : Z).
Context (Hk : 0 < k <= ef) (Hquery : zlen query = dimension cfg) (Hq : prepare (metric cfg) query = Ok q).

Abbreviation live r f := (live_match (collection r) (dirty_ids r) q f).

Lemma graph_hit_live r f hit base (index : Hnsw.HnswIndex) mi :
  coll_ok (collection r) -> Collection.config (collection r) = cfg -> describes index mi base (cts r) (dirty_ids r) ->
  Hnsw.hit_id hit ∈ Hnsw.ids index ->
  exists o, graph_hit r q f hit = Ok o /\ (forall h, o = Some h -> live r f h /\ hit_id h = Hnsw.hit_id hit).
Proof.
  intros Hc Ec Hd Hin. unfold graph_hit. case_bool_decide as Hdirty; [by exists None|].
  rewrite (ds_ids _ _ _ _ _ Hd) in Hin. apply list_elem_of_fmap in Hin as (p & Ep & Hp).
  assert (cts r !! Hnsw.hit_id hit = Some p) as Hl by (apply (ds_live _ _ _ _ _ Hd); [done|]; by split).
  rewrite lookup_contents in Hl. apply fmap_Some in Hl as (p0 & E0 & ->). unfold get_stored. rewrite E0. cbn [ok_or rbind].
  destruct (matches_opt f (sp_metadata p0)) eqn:Ef; cbn [negb]; [|by exists None]. eexists. split; [done|]. intros h [= <-]. split; [|done].
  exists (to_owned_point p0). cbn [hit_id]. rewrite lookup_contents, E0. split; [done|]. split; [done|]. split; [done|].
  unfold scored. cbn. by rewrite Ep, Ec.
Qed.

Lemma graph_hits_live r f base (index : Hnsw.HnswIndex) mi found :
  coll_ok (collection r) -> Collection.config (collection r) = cfg -> describes index mi base (cts r) (dirty_ids r) ->
  Forall (fun hit => Hnsw.hit_id hit ∈ Hnsw.ids index) found -> NoDup (map Hnsw.hit_id found) ->
  exists os, mapM_result (graph_hit r q f) found = Ok os /\ Forall (live r f) (omap id os) /\ NoDup (map hit_id (omap id os)) /\
    map hit_id (omap id os) ⊆ map Hnsw.hit_id found.
Proof.
  intros Hc Ec Hd. induction 1 as [|hit found Hin _ IH]; intros Hn; [exists []; split; [done|]; split; [constructor|]; split; [constructor|done]|].
  cbn [map] in Hn. apply NoDup_cons in Hn as [Hni Hn]. destruct (IH Hn) as (os & Eos & Hos & Hnos & Hsub).
  destruct (graph_hit_live r f hit base index mi Hc Ec Hd Hin) as (o & Eo & Ho). exists (o :: os). cbn [mapM_result]. rewrite Eo. cbn [rbind].
  rewrite Eos. cbn [rbind]. split; [done|]. destruct o as [h|]; cbn; [|split; [done|]; split; [done|]; set_solver].
  destruct (Ho h eq_refl) as [Hh Eh]. split; [by constructor|]. split; [|rewrite Eh; set_solver]. constructor; [|done]. rewrite Eh. set_solver.
Qed.

Definition found_ok r f hits : Prop := Forall (live r f) hits /\ NoDup (map hit_id hits).

(** The doubling loop ends: [graph_k] grows until it is the whole graph. *)
Lemma graph_loop_ok fuel r f base (index : Hnsw.HnswIndex) mi graph_k hits pool :
  coll_ok (collection r) -> Collection.config (collection r) = cfg -> describes index mi base (cts r) (dirty_ids r) ->
  Forall HnswSearch.ws_valid pool -> found_ok r f hits -> 0 <= graph_k <= Hnsw.len index -> Hnsw.len index - graph_k < Z.of_nat fuel ->
  exists hits' pool', graph_loop avx2 fuel r index query q k ef f graph_k hits pool = Ok (hits', pool') /\
    Forall HnswSearch.ws_valid pool' /\ found_ok r f hits'.
Proof.
  intros Hc Ec Hd. revert graph_k hits pool. induction fuel as [|fuel IH]; intros graph_k hits pool Hpool Hhits Hg Hf; [lia|].
  cbn [graph_loop]. destruct (Z.leb_spec graph_k 0); [by exists hits, pool|].
  destruct (HnswSearch.hnsw_search_sound avx2 index query graph_k (Z.max ef graph_k) q) as (found & Hs & _ & Hnf & _ & Htrue);
    [apply Hd|lia|by rewrite (ds_dimension _ _ _ _ _ Hd)|by rewrite (ds_metric _ _ _ _ _ Hd)|].
  destruct (Hs pool Hpool) as (pool' & Hpool' & ->). cbn [rbind].
  destruct (graph_hits_live r f base index mi found Hc Ec Hd) as (os & -> & Hos & Hnos & _); [|done|].
  { eapply Forall_impl; [exact Htrue|]. intros hit (i & v & Hi & _). by eapply list_elem_of_lookup_2. }
  cbn [rbind]. destruct (bool_decide _ || _ || _) eqn:Estop; [by exists (omap id os), pool'|].
  apply orb_false_iff in Estop as [_ Hne%Z.eqb_neq].
  assert (Hnsw.len index <= USIZE_MAX) as Hmax.
  { pose proof (ds_count _ _ _ _ _ Hd). pose proof (HnswFacts.wf_ids index (ds_graph _ _ _ _ _ Hd)) as Hl.
    rewrite (ds_ids _ _ _ _ _ Hd), length_map in Hl. unfold Hnsw.len, zlen, U32_MAX, USIZE_MAX, U64_MAX in *. lia. }
  unfold saturating_mul. apply IH; [done|by split|lia|lia].
Qed.

Lemma first_graph_k_range r (index : Hnsw.HnswIndex) f : 0 <= first_graph_k r index k ef f <= Hnsw.len index.
Proof.
  assert (0 <= Hnsw.len index) by (unfold Hnsw.len; apply zlen_nonneg). unfold first_graph_k, saturating_mul, saturating_add, USIZE_MAX, U64_MAX.
  destruct (bool_decide (f = None)), (bool_decide (Hnsw.arena_storage _ = _)); lia.
Qed.

Lemma validated c : Collection.config c = cfg -> validate_query c query k = Ok q.
Proof. intros Ec. unfold validate_query. rewrite (proj2 (Z.eqb_neq k 0)) by lia. rewrite Ec, Hquery, Z.eqb_refl. exact Hq. Qed.

(** What the index answers for a filter, and what that is worth. *)
Definition answers r f (candidates : gset string) : Prop :=
  candidates ## dirty_ids r /\
  forall id p, cts r !! id = Some p -> matches_opt f (pt_metadata p) = true -> id ∈ candidates ∪ dirty_ids r.

Lemma answers_exact r f candidates :
  coll_ok (collection r) -> answers r f candidates ->
  exact_hits cfg (restrict (candidates ∪ dirty_ids r) (cts r)) q k f = exact_hits cfg (cts r) q k f.
Proof.
  intros Hc [_ Ha]. pose proof (contents_ids _ Hc) as Hid. apply exact_hits_perm; [by apply restrict_ids|]. by apply selected_restrict.
Qed.

Lemma exact_full r f found hits :
  coll_ok (collection r) -> Collection.config (collection r) = cfg -> found_ok r f hits -> k <= zlen hits ->
  hits ⊆ map (scored cfg q) (selected (restrict found (cts r)) f) -> zlen (exact_hits cfg (restrict found (cts r)) q k f) = k.
Proof.
  intros Hc Ec [_ Hn] Hlen Hsub. pose proof (contents_ids _ Hc) as Hid. unfold exact_hits. rewrite zlen_truncate_sort by lia.
  assert (length hits <= length (map (scored cfg q) (selected (restrict found (cts r)) f)))%nat as Hl
    by (apply submseteq_length, NoDup_submseteq; [by eapply NoDup_fmap_1|exact Hsub]).
  unfold zlen in *. lia.
Qed.

(** The answer of a search, exact over [found] and the dirty points. *)
Definition answer r f (found : gset string) (hits : list SearchHit) : Prop :=
  hits = exact_hits cfg (restrict (found ∪ dirty_ids r) (cts r)) q k f.

Lemma graph_search_ok r f base (index : Hnsw.HnswIndex) mi pool candidates :
  coll_ok (collection r) -> Collection.config (collection r) = cfg -> describes index mi base (cts r) (dirty_ids r) ->
  Forall HnswSearch.ws_valid pool -> (f <> None -> answers r f candidates) ->
  exists found hits pool', graph_search avx2 r index pool query k f candidates ef = Ok (hits, pool') /\ Forall HnswSearch.ws_valid pool' /\
    answer r f found hits /\ (f <> None -> zlen hits < k -> hits = exact_hits cfg (cts r) q k f).
Proof.
  intros Hc Ec Hd Hpool Hans. pose proof (contents_ids _ Hc) as Hid. unfold graph_search. rewrite Ec, Hq. cbn [rbind].
  destruct (graph_loop_ok (S (length (Hnsw.nodes index))) r f base index mi (first_graph_k r index k ef f) [] pool) as (hits & pool' & -> & Hpool' & Hl & Hn);
    [done..|split; constructor|apply first_graph_k_range| |].
  { pose proof (first_graph_k_range r index f). unfold Hnsw.len, zlen in *. lia. }
  cbn [rbind]. rewrite !search_ids_exact, (validated _ Ec), Ec by (done || lia). cbn [rbind].
  destruct (live_hits_part (collection r) (dirty_ids r) q f k hits Hid Hl) as (Hdisj & Hpart & Hall). rewrite Ec in Hpart, Hall.
  destruct ((zlen hits <? k) && negb (bool_decide (f = None))) eqn:Efill; cbn [rbind].
  - apply andb_prop in Efill as [_ Ef%negb_true_iff%bool_decide_eq_false]. destruct (Hans Ef) as [Hcd Hcm].
    eexists candidates, _, pool'. split; [done|]. split; [done|]. unfold answer. rewrite (merge_exact_part _ _ _ _ _ _ candidates); [|done|done|set_solver|].
    + split; [done|]. intros _ _. by apply answers_exact.
    + intros h [Hh|Hh]%elem_of_app; [|by apply exact_hits_part in Hh]. rewrite Forall_forall in Hl. destruct (Hl h Hh) as (p & Hp & Hnd & Hm & E).
      apply elem_of_scored; [by apply restrict_ids|]. exists p. rewrite lookup_restrict, decide_True; [by rewrite <- Ec|]. pose proof (Hcm _ p Hp Hm). set_solver.
  - eexists _, _, pool'. split; [done|]. split; [done|]. unfold answer. rewrite (merge_exact_part cfg q k f (cts r) hits (list_to_set (map hit_id hits)));
      [|done|done|exact Hpart|exact Hall]. split; [done|]. intros Ef Hlt. apply andb_false_iff in Efill as [Hge%Z.ltb_ge|Hf].
    + exfalso. rewrite (exact_full r f _ hits) in Hlt; [lia|done|done|by split|done|]. intros h Hh. apply Hall in Hh.
      apply elem_of_scored in Hh as (p & Hp & Hm & E); [|by apply restrict_ids]. apply elem_of_scored; [by apply restrict_ids|]. exists p. split; [|done].
      rewrite lookup_restrict in *. case_decide; [|done]. rewrite decide_True by set_solver. done.
    + apply negb_false_iff, bool_decide_eq_true in Hf. done.
Qed.
(** ** The whole search *)

Definition filter_ok (f : option Filter) : Prop := match f with Some f => filter_wf f | None => True end.

(** Few points satisfy the filter, or the answer is short. *)
Definition selective (m : gmap string Point) (f : option Filter) (hits : list SearchHit) : Prop :=
  f <> None /\ (zlen hits < k \/ zlen (selected m f) <= Z.max (saturating_mul k 16) 256).

Definition answered inner f (hits : list SearchHit) : Prop :=
  let m := cts (replica inner) in
  exists found, let part := restrict (found ∪ dirty_ids (replica inner)) m in
    hits = exact_hits cfg part q k f /\ is_best_k cfg part q k f hits /\
    (graph inner = None \/ selective m f hits -> hits = exact_hits cfg m q k f).

Lemma answered_part inner f found hits :
  coll_ok (collection (replica inner)) -> answer (replica inner) f found hits ->
  (graph inner = None \/ selective (cts (replica inner)) f hits -> hits = exact_hits cfg (cts (replica inner)) q k f) ->
  answered inner f hits.
Proof.
  intros Hc -> Hs. exists found. split; [done|]. split; [|done]. apply exact_hits_best; [|lia]. by apply restrict_ids, contents_ids.
Qed.

Lemma answered_exact inner f : coll_ok (collection (replica inner)) -> answered inner f (exact_hits cfg (cts (replica inner)) q k f).
Proof.
  intros Hc. eapply (answered_part _ _ (dom (cts (replica inner)))); [done| |done]. unfold answer. rewrite restrict_all; [done|].
  intros id p Hp. apply elem_of_union_l. by eapply elem_of_dom_2.
Qed.

(** The candidates: the satisfying points outside the dirty set. *)
Lemma candidates_describe r f index mi base m :
  describes index (Some mi) base m (dirty_ids r) -> filter_wf f -> m = cts r ->
  exists s, candidates mi f = Ok s /\ answers r (Some f) (s ∖ dirty_ids r) /\
    forall id, id ∈ s ∖ dirty_ids r -> exists p, m !! id = Some p /\ matches f (pt_metadata p) = true.
Proof.
  intros Hd Hf Em. pose proof (ds_metadata _ _ _ _ _ Hd) as E. injection E as ->.
  destruct (candidates_answer base (ds_base _ _ _ _ _ Hd) f Hf) as (s & Es & Hs). exists s. split; [done|]. subst m.
  pose proof (ds_live _ _ _ _ _ Hd) as Hlive. split; [split; [set_solver|]|].
  - intros id p Hp Hm. destruct (decide (id ∈ dirty_ids r)) as [?|Hid]; [set_solver|]. apply elem_of_union_l, elem_of_difference. split; [|done].
    apply Hs. apply Hlive in Hp as [Hp Ei]; [|done]. by exists p.
  - intros id [Hin Hid]%elem_of_difference. apply Hs in Hin as (p & Hp & Ei & Hm). exists p. split; [|done]. by apply Hlive.
Qed.

Lemma few_candidates m f (candidates : gset string) :
  ids_match m -> (forall id, id ∈ candidates -> exists p, m !! id = Some p /\ matches_opt f (pt_metadata p) = true) ->
  Z.of_nat (size candidates) <= zlen (selected m f).
Proof.
  intros Hm Hc. unfold zlen. apply inj_le. rewrite <- (length_map pt_id).
  change (length (elements candidates) <= length (map pt_id (selected m f)))%nat.
  apply submseteq_length, NoDup_submseteq; [apply NoDup_elements|]. intros id Hid%elem_of_elements. destruct (Hc id Hid) as (p & Hp & Hf).
  pose proof (Hm id p Hp) as E. cbn in E. apply list_elem_of_fmap. exists p. split; [done|]. apply elem_of_selected; [done|]. by rewrite E.
Qed.

Lemma search_locked_ok inner f :
  replica_ok inner -> filter_ok f ->
  exists hits inner', search_locked avx2 inner query k f ef = Ok (hits, inner') /\ replica inner' = replica inner /\
    replica_ok inner' /\ answered inner' f hits.
Proof.
  intros Hok Hf. pose proof Hok as [Hc Ec Hv Hn Ht]. pose proof (contents_ids _ Hc) as Hid. unfold search_locked.
  assert (forall f, Collection.search (collection (replica inner)) query k f = Ok (exact_hits cfg (cts (replica inner)) q k f)) as Hscan.
  { intros f'. rewrite search_exact_hits, (validated _ Ec), Ec by (done || lia). done. }
  unfold tracked in Ht. destruct (graph inner) as [[index pool]|] eqn:Eg.
  2: { rewrite Hscan. cbn [rbind]. eexists _, inner. split; [done|]. split; [done|]. split; [done|]. by apply answered_exact. }
  destruct Ht as [Hpool (base & Hd)].
  assert (forall pool', Forall HnswSearch.ws_valid pool' -> replica_ok (with_graph inner index pool')) as Hgraph.
  { intros pool' Hp. destruct Hok. constructor; try done. split; [done|]. by exists base. }
  destruct f as [f|].
  - pose proof (ds_metadata _ _ _ _ _ Hd) as Em. rewrite Em. destruct (candidates_describe (replica inner) f index (build base) base _ ltac:(by rewrite <- Em) Hf eq_refl)
      as (s & -> & Hans & Hall). cbn [rbind]. set (cands := s ∖ dirty_ids (replica inner)) in *.
    destruct (use_exact cands index k) eqn:Eu.
    + rewrite !search_ids_exact, (validated _ Ec), Ec by (done || lia). cbn [rbind]. eexists _, inner. split; [done|]. split; [done|]. split; [done|].
      rewrite (merge_exact_part _ _ _ _ _ _ cands); [|done|apply Hans|done|apply exact_hits_part]. rewrite answers_exact by done. by apply answered_exact.
    + destruct (graph_search_ok (replica inner) (Some f) base index (Some (build base)) pool cands Hc Ec) as (found & hits & pool' & -> & Hpool' & Ha & Hex);
        [by rewrite <- Em|done|done|]. cbn [rbind]. eexists _, (with_graph inner index pool'). split; [done|]. split; [done|]. split; [by apply Hgraph|].
      apply (answered_part _ _ found); [done|exact Ha|]. intros [Hx|(_ & [Hlt|Hsel])]; [done|by apply Hex|]. exfalso.
      pose proof (few_candidates _ (Some f) cands Hid Hall). apply orb_false_iff in Eu as [_ Eu%Z.leb_gt]. cbn [replica with_graph] in Hsel. lia.
  - destruct (graph_search_ok (replica inner) None base index (metadata_index inner) pool ∅ Hc Ec Hd Hpool ltac:(done)) as (found & hits & pool' & -> & Hpool' & Ha & _).
    cbn [rbind]. eexists _, (with_graph inner index pool'). split; [done|]. split; [done|]. split; [by apply Hgraph|].
    apply (answered_part _ _ found); [done|exact Ha|]. by intros [Hx|[? _]].
Qed.

(** The state that answers: other tasks run only while indexes are rebuilt. *)
Definition current inner (interleaved : Inner -> Inner) : Inner := match refresh_plan inner with None => inner | Some _ => interleaved inner end.

End Search.
