(* ===== verification/RaftDemo.v ===== *)
(** * RaftDemo: a replica on which the state machine's theorems are run

    OpenRaft's types are bytes, and the JSON of the values used is a concrete
    function; other values are refused. *)

From stdpp Require Import base gmap sets list strings sorting.
From Stdlib Require Import ZArith Lia.
From S2P Require Import Prelude Errors Floats Ranking Metric Filter MetadataIndex.
From S2P Require Hnsw.
From S2P Require Import RaftLog Collection CollectionFacts Codec Wire WireFacts Disk DiskFacts Journal JournalFacts.
From S2P Require Import RaftStateMachine RaftReplica RaftRecovery RaftSearch.

(** ** A concrete JSON *)

Definition small (z : Z) : bool := Z.leb 0 z && Z.ltb z 256.

(** A string behind its length, and back. *)
Definition put_text (s : string) (rest : list byte) : list byte := to_u8 (str_len s) :: bytes_of_string s ++ rest.
Definition get_text (bytes : list byte) : option (string * list byte) :=
  match bytes with
  | n :: l => Some (string_of_bytes (firstn (Z.to_nat (u8 n)) l), skipn (Z.to_nat (u8 n)) l)
  | [] => None
  end.

Definition record_text (record : AppliedRecord byte byte) : result string (list byte) :=
  match record_payload record with
  | AppliedBlank => Ok [record_log_id record; x00]
  | AppliedMembership m => Ok [record_log_id record; x01; m]
  | AppliedCommand (DeleteCommand client request [id]) (Applied sequence) =>
      Ok (record_log_id record :: x02 :: to_u8 request :: to_u8 sequence :: put_text client (put_text id []))
  | _ => Err "unsupported"
  end.

Definition record_of_text (bytes : list byte) : result string (AppliedRecord byte byte) :=
  match bytes with
  | [log_id; x00] => Ok (MkRecord log_id AppliedBlank)
  | [log_id; x01; m] => Ok (MkRecord log_id (AppliedMembership m))
  | log_id :: x02 :: request :: sequence :: l =>
      match get_text l with
      | Some (client, l) =>
          match get_text l with
          | Some (id, _) => Ok (MkRecord log_id (AppliedCommand (DeleteCommand client (u8 request) [id]) (Applied (u8 sequence))))
          | None => Err "id"
          end
      | None => Err "client"
      end
  | _ => Err "record"
  end.

#[export] Instance demo_applied_json : Json (AppliedRecord byte byte).
Proof.
  refine {| to_vec := record_text; from_slice := record_of_text |}.
  - intros record. unfold record_text. repeat (case_match; try done).
  - intros bytes. unfold record_of_text. repeat (case_match; try done).
Defined.

(** Snapshots of an empty collection without remembered answers. *)
Definition snapshot_text (s : StateSnapshot byte byte) : result string (list byte) :=
  if bool_decide (snap_config s = demo_config) && bool_decide (snap_points s = []) && bool_decide (snap_dedup s = ∅)
  then Ok (to_u8 (snap_sequence s) :: snap_membership s :: match snap_last_applied s with Some l => [l] | None => [] end)
  else Err "unsupported".

Definition snapshot_of_text (bytes : list byte) : result string (StateSnapshot byte byte) :=
  match bytes with
  | [seq; m] => Ok (MkStateSnapshot demo_config [] (u8 seq) None m ∅)
  | [seq; m; l] => Ok (MkStateSnapshot demo_config [] (u8 seq) (Some l) m ∅)
  | _ => Err "snapshot"
  end.

#[export] Instance demo_snapshot_json : Json (StateSnapshot byte byte).
Proof.
  refine {| to_vec := snapshot_text; from_slice := snapshot_of_text |}.
  - intros s. unfold snapshot_text. by destruct (_ && _).
  - intros bytes. unfold snapshot_of_text. repeat (case_match; try done).
Defined.

Definition stored_text (s : StoredSnapshot byte) : result string (list byte) :=
  match stored_checksum s with
  | None => Ok (stored_meta s :: x00 :: stored_data s)
  | Some c => if Z.leb 0 c && Z.ltb c (2 ^ 32) then Ok (stored_meta s :: x01 :: le_bytes 4 c ++ stored_data s) else Err "checksum"
  end.

Definition stored_of_text (bytes : list byte) : result string (StoredSnapshot byte) :=
  match bytes with
  | m :: x00 :: data => Ok (MkStoredSnapshot m data None)
  | m :: x01 :: l => Ok (MkStoredSnapshot m (skipn 4 l) (Some (le_value (firstn 4 l))))
  | _ => Err "stored"
  end.

#[export] Instance demo_stored_json : Json (StoredSnapshot byte).
Proof.
  refine {| to_vec := stored_text; from_slice := stored_of_text |}.
  - intros s. unfold stored_text. by repeat case_match.
  - intros bytes. unfold stored_of_text. repeat (case_match; try done).
Defined.

Lemma demo_stored_stable (s : StoredSnapshot byte) : json_stable s.
Proof.
  intros bytes. cbn. unfold stored_text. destruct s as [m data [c|]]; cbn; [|by intros [= <-]].
  destruct (Z.leb_spec 0 c), (Z.ltb_spec c (2 ^ 32)); try done. intros E%Ok_inj. subst bytes. cbn [andb].
  pose proof (le_value_bytes 4 c (conj H H0)) as Hv. unfold le_bytes, stored_of_text in *. cbn [app firstn skipn] in *. cbn [le_bytes] in Hv.
  change (Z.to_nat 0) with 0%nat. change (firstn 0 data) with (@nil byte). rewrite Hv. done.
Qed.

#[export] Instance demo_meta_json : Json (byte * list byte).
Proof.
  refine {| to_vec := fun p => Ok (p.1 :: p.2); from_slice := fun bytes => match bytes with m :: d => Ok (m, d) | [] => Err "meta" end |}; [done|].
  by intros [].
Defined.

(** ** A replica *)

Definition demo_id (e : byte * EntryPayload byte) : byte := e.1.
Definition demo_payload (e : byte * EntryPayload byte) : EntryPayload byte := e.2.
Definition demo_membership (_ : option byte) (m : byte) : byte := m.
Definition demo_meta (_ : option byte) (m : byte) (_ : string) : byte := m.

Definition demo_command (request : Z) : ShardCommand := DeleteCommand "c" request ["a"].
(** A blank entry, a deletion, a membership change and the deletion again. *)
Definition demo_first : list (byte * EntryPayload byte) := [(x01, Blank); (x02, MembershipChange x09)].
Definition demo_entries : list (byte * EntryPayload byte) :=
  [(x03, Normal (demo_command 7)); (x04, MembershipChange x08); (x05, Normal (demo_command 7))].

Abbreviation demo_state := (Abstract (LogId := byte) (StoredMembership := byte)).
Definition demo_start : demo_state := MkAbstract ∅ 0 ∅ x00 None.
Definition demo_later : demo_state := MkAbstract ∅ 0 ∅ x09 (Some x02).
Definition demo_replica (a : demo_state) : Replica byte byte := MkReplica demo_empty (abs_applied a) (abs_membership a) ∅ ∅.
Definition demo_inner (a : demo_state) : StateInner byte byte byte := MkInner (demo_replica a) None None None.
Definition demo_fresh : Dir := <[path state_journal := []]> ∅.

Abbreviation demo_ok := (@sm_ok x86_64_env true byte byte byte byte u8 demo_membership x00 demo_applied_json demo_snapshot_json demo_stored_json demo_meta_json 1 demo_config).
Abbreviation demo_is := (@is_state byte byte demo_config).

Lemma demo_start_is : demo_is (demo_replica demo_start) demo_start.
Proof. split; [done|]. split; [apply demo_empty_ok|done]. Qed.

Lemma demo_later_is : demo_is (demo_replica demo_later) demo_later.
Proof. split; [done|]. split; [apply demo_empty_ok|done]. Qed.

Lemma demo_start_ok : demo_ok demo_fresh demo_start.
Proof.
  exists []. split; [apply journal_empty|]. exists None, (demo_inner demo_start), (demo_replica demo_start).
  split; [done|]. split; [done|]. split; [done|]. split; [apply demo_start_is|constructor].
Qed.

Lemma demo_loggable entries :
  entries = demo_entries \/ entries = demo_first ->
  @loggable x86_64_env byte byte byte (byte * EntryPayload byte) u8 demo_id demo_payload demo_membership demo_applied_json demo_config demo_start entries.
Proof.
  intros [-> | ->]; repeat (split; [done|]; split; [intros bytes; vm_compute; by intros [= <-]|]); done.
Qed.

Lemma raft_apply_refines_witness :
  match @RaftStateMachine.apply x86_64_env byte byte byte byte (byte * EntryPayload byte) demo_id demo_payload demo_membership demo_applied_json
      (demo_inner demo_start) demo_entries (MkWorld demo_fresh []) with
  | Returned (Ok responses, inner') _ =>
      @abs_run x86_64_env byte byte byte (byte * EntryPayload byte) demo_id demo_payload demo_membership demo_config demo_start demo_entries
        = (responses, view (replica inner')) /\ responses = [Applied 1; Applied 1; Applied 1]
  | _ => False
  end.
Proof.
  pose proof (@raft_apply_refines x86_64_env byte byte byte (byte * EntryPayload byte) demo_id demo_payload demo_membership demo_applied_json byte
    (demo_inner demo_start) demo_entries demo_fresh [] demo_empty_ok) as H.
  assert (exists inner w, @RaftStateMachine.apply x86_64_env byte byte byte byte (byte * EntryPayload byte) demo_id demo_payload demo_membership demo_applied_json
      (demo_inner demo_start) demo_entries (MkWorld demo_fresh []) = Returned (Ok [Applied 1; Applied 1; Applied 1], inner) w) as (inner & w & E).
  { eexists _, _. vm_compute. reflexivity. }
  rewrite E in H |- *. destruct H as (H & _). split; [exact H|reflexivity].
Defined.

Lemma raft_exactly_once_witness :
  match @RaftStateMachine.apply x86_64_env byte byte byte byte (byte * EntryPayload byte) demo_id demo_payload demo_membership demo_applied_json
      (demo_inner demo_start) demo_entries (MkWorld demo_fresh []) with
  | Returned (Ok responses, inner') _ => exists response others, responses = response :: others ++ [response] /\ abs_applied (view (replica inner')) = Some x05
  | _ => False
  end.
Proof.
  pose proof (@raft_exactly_once x86_64_env byte byte byte (byte * EntryPayload byte) demo_id demo_payload demo_membership demo_applied_json byte
    (demo_inner demo_start) (x03, Normal (demo_command 7)) [(x04, MembershipChange x08)] (x05, Normal (demo_command 7)) (demo_command 7) (demo_command 7)
    demo_fresh [] demo_empty_ok eq_refl eq_refl eq_refl) as H.
  change ((x03, Normal (demo_command 7)) :: [(x04, MembershipChange x08)] ++ [(x05, Normal (demo_command 7))]) with demo_entries in H.
  assert (exists inner w, @RaftStateMachine.apply x86_64_env byte byte byte byte (byte * EntryPayload byte) demo_id demo_payload demo_membership demo_applied_json
      (demo_inner demo_start) demo_entries (MkWorld demo_fresh []) = Returned (Ok [Applied 1; Applied 1; Applied 1], inner) w) as (inner & w & E).
  { eexists _, _. vm_compute. reflexivity. }
  rewrite E in H |- *. destruct H as (response & others & before & _ & E' & Hv). exists response, others. split; [exact E'|]. by rewrite Hv.
Defined.

(** A deletion, a membership change and the retried deletion survive. *)
Lemma raft_apply_survives_witness :
  exists responses inner w,
    @RaftStateMachine.apply x86_64_env byte byte byte byte (byte * EntryPayload byte) demo_id demo_payload demo_membership demo_applied_json
      (demo_inner demo_start) demo_entries (MkWorld demo_fresh []) = Returned (Ok responses, inner) w /\
    demo_ok (disk w) (@abs_run x86_64_env byte byte byte (byte * EntryPayload byte) demo_id demo_payload demo_membership demo_config demo_start demo_entries).2.
Proof.
  pose proof (@raft_apply_survives x86_64_env true byte byte byte byte (byte * EntryPayload byte) u8 demo_id demo_payload demo_membership x00
    demo_applied_json demo_snapshot_json demo_stored_json demo_meta_json 1 demo_config
    (demo_inner demo_start) demo_start demo_entries demo_fresh [] demo_start_is demo_start_ok (demo_loggable demo_entries (or_introl eq_refl))) as H.
  assert (exists inner w, @RaftStateMachine.apply x86_64_env byte byte byte byte (byte * EntryPayload byte) demo_id demo_payload demo_membership demo_applied_json
      (demo_inner demo_start) demo_entries (MkWorld demo_fresh []) = Returned (Ok [Applied 1; Applied 1; Applied 1], inner) w) as (inner & w & E).
  { eexists _, _. vm_compute. reflexivity. }
  rewrite E in H. destruct H as (_ & Hok & _). exists [Applied 1; Applied 1; Applied 1], inner, w. split; [exact E|exact Hok].
Defined.

(** What a replica in the state [a] sends. *)
Definition demo_data (a : demo_state) : list byte :=
  match @encode_state_snapshot byte byte demo_snapshot_json (take_snapshot demo_config (demo_replica a)) with Ok data => data | _ => [] end.

Lemma demo_encodes : @encode_state_snapshot byte byte demo_snapshot_json (take_snapshot demo_config (demo_replica demo_start)) = Ok (demo_data demo_start).
Proof. by vm_compute. Qed.

Lemma demo_snapshottable : @snapshottable x86_64_env true byte byte byte u8 demo_meta demo_snapshot_json demo_stored_json demo_meta_json 1 demo_config (Some 5) (demo_replica demo_start).
Proof.
  constructor.
  - by vm_compute.
  - intros bytes [= <-]. by vm_compute.
  - intros data E. rewrite demo_encodes in E. apply Ok_inj in E as <-. by vm_compute.
  - intros stored indexes _. apply demo_stored_stable.
Qed.

Lemma raft_snapshot_witness :
  exists meta data inner w,
    @RaftStateMachine.build_snapshot x86_64_env true byte byte byte u8 demo_meta demo_snapshot_json demo_stored_json demo_meta_json 4 1 demo_config (Some 5)
      (demo_inner demo_start) (MkWorld demo_fresh []) = Returned (Ok (meta, data), inner) w /\
    demo_ok (disk w) demo_start /\ @decode_state_snapshot byte byte demo_snapshot_json data = Ok (take_snapshot demo_config (demo_replica demo_start)).
Proof.
  pose proof (@raft_snapshot_survives x86_64_env true byte byte byte byte u8 demo_membership x00 demo_meta
    demo_applied_json demo_snapshot_json demo_stored_json demo_meta_json 1 demo_config 4 (Some 5)
    (demo_inner demo_start) demo_start demo_fresh [] demo_start_is demo_start_ok (Nat.lt_0_succ 0) demo_snapshottable) as H.
  assert (exists meta data inner w, @RaftStateMachine.build_snapshot x86_64_env true byte byte byte u8 demo_meta demo_snapshot_json demo_stored_json demo_meta_json
      4 1 demo_config (Some 5) (demo_inner demo_start) (MkWorld demo_fresh []) = Returned (Ok (meta, data), inner) w) as (meta & data & inner & w & E).
  { eexists _, _, _, _. vm_compute. reflexivity. }
  rewrite E in H. destruct H as (_ & Hok & _ & Hd). exists meta, data, inner, w. split; [exact E|]. split; [exact Hok|exact Hd].
Defined.

Lemma demo_transfers : @transfers x86_64_env true byte byte demo_snapshot_json 1 demo_config (demo_data demo_later) demo_later.
Proof.
  eexists _, _, (demo_replica demo_later). split; [vm_compute; reflexivity|]. split; [done|]. split; [vm_compute; reflexivity|].
  split; [vm_compute; reflexivity|apply demo_later_is].
Qed.

Lemma raft_install_witness :
  exists inner w,
    @RaftStateMachine.install_snapshot x86_64_env true byte byte byte demo_snapshot_json demo_stored_json demo_meta_json 4 1 demo_config x09 (demo_data demo_later)
      (demo_inner demo_start) (MkWorld demo_fresh []) = Returned (Ok tt, inner) w /\ demo_ok (disk w) demo_later.
Proof.
  pose proof (@raft_install_survives x86_64_env true byte byte byte byte u8 demo_membership x00
    demo_applied_json demo_snapshot_json demo_stored_json demo_meta_json 1 demo_config 4 x09 (demo_data demo_later)
    (demo_inner demo_start) demo_start demo_later demo_fresh [] demo_start_ok demo_transfers I (fun checksum => demo_stored_stable _)) as H.
  assert (exists inner w, @RaftStateMachine.install_snapshot x86_64_env true byte byte byte demo_snapshot_json demo_stored_json demo_meta_json
      4 1 demo_config x09 (demo_data demo_later) (demo_inner demo_start) (MkWorld demo_fresh []) = Returned (Ok tt, inner) w) as (inner & w & E).
  { eexists _, _. vm_compute. reflexivity. }
  rewrite E in H. destruct H as (_ & Hok & _). exists inner, w. split; [exact E|exact Hok].
Defined.

(** ** Searching a replica that holds two points *)

Definition demo_held : StateInner byte byte byte := MkInner (MkReplica demo None x00 ∅ ∅) None None None.
Definition demo_indexes : Result (Hnsw.HnswIndex * MetadataIndex) := @build_indexes x86_64_env true 1 demo_config (snapshot_points demo).
(** With the indexes just built; without any if the build failed. *)
Definition demo_indexed : StateInner byte byte byte := match demo_indexes with Ok indexes => install_indexes demo_held indexes | _ => demo_held end.

Lemma demo_values : values_ok (contents demo).
Proof. apply (bool_decide_unpack _). by vm_compute. Qed.

Lemma demo_indexed_ok : @replica_ok x86_64_env byte byte byte demo_config demo_indexed /\ is_Some (graph demo_indexed).
Proof.
  pose proof (@built_describes x86_64_env true 1 demo_config demo) as Hb. split; [|vm_compute; by eexists].
  assert (zlen (snapshot_points demo) <= U32_MAX) as Hn by (vm_compute; discriminate).
  unfold demo_indexed, demo_indexes. destruct (@build_indexes x86_64_env true 1 demo_config (snapshot_points demo)) as [indexes|e|].
  - specialize (Hb indexes CollectionFacts.demo_ok eq_refl demo_values Hn (Nat.lt_0_succ 0) eq_refl).
    constructor; [apply CollectionFacts.demo_ok|done|apply demo_values|done|by eapply install_tracked].
  - constructor; [apply CollectionFacts.demo_ok|done|apply demo_values|done|done].
  - constructor; [apply CollectionFacts.demo_ok|done|apply demo_values|done|done].
Qed.

Lemma demo_ks : 0 < 1 <= 256.
Proof. lia. Qed.

