(* ===== verification/Distributed.v ===== *)
(** * Distributed: the client of a replicated, sharded collection
    ([src/src/distributed.rs])

    Every shard is a Raft group behind a list of addresses.  A request becomes
    one task per shard; tasks try their addresses in turn and run concurrently,
    so a run is given by a schedule: which task takes its next step, and when
    the caller collects a finished one.  The HTTP client and the servers behind
    it are the parameter [post]. *)

From stdpp Require Import base gmap sets list strings sorting.
From Stdlib Require Import Ascii ZArith Lia.
From S2P Require Import RaftLog.
From S2P Require Import Prelude Errors Floats Ranking Metric Filter MetadataIndex Collection CollectionFacts Sharding.

Record ReplicaSet : Type := MkReplicaSet { addresses : list string }.

Record DistributedSearchResult : Type := MkSearchResult { hits : list SearchHit; min_applied_index : option Z }.

(** The HTTP client itself is the parameter [post]. *)
Record DistributedCollection : Type := MkDistributed { token : string; shards : list ReplicaSet }.

(** [src/src/raft_node.rs]: what a shard answers to a query. *)
Record ShardSearchResult : Type := MkShardResult { shard_hits : list SearchHit; applied_index : option Z }.

Record QueryRequest : Type := MkQuery { query_vector : list Z; query_k : Z; query_filter : option Filter; query_ef_search : Z }.

Definition with_http_client (shards : list ReplicaSet) (token : string) : Result DistributedCollection :=
  if bool_decide (shards = []) || existsb (fun shard => bool_decide (addresses shard = [])) shards
  then Err (InvalidConfig "distributed collections require at least one replica per shard")
  else if decide (token = "") then Err (InvalidConfig "Raft peer token must not be empty")
  else Ok (MkDistributed token shards).

Definition shard_count (self : DistributedCollection) : Z := zlen (shards self).

(** ** One task: [send_to_leader] *)

(** [str::trim_end_matches('/')] *)
Fixpoint trim_slashes (s : string) : string :=
  match s with
  | EmptyString => EmptyString
  | String c s' =>
      match trim_slashes s' with
      | EmptyString => if decide (c = "/"%char) then EmptyString else String c EmptyString
      | trimmed => String c trimmed
      end
  end.

Definition url (address path : string) : string :=
  (if String.prefix "http://" address || String.prefix "https://" address then trim_slashes address
   else "http://" +:+ trim_slashes address) +:+ path.

(** What an HTTP exchange gives: a successful status with its decoded body or a
    decoding error, another status, or no response. *)
Inductive Reply (Response : Type) : Type :=
| Success (body : Response + string)
| HttpStatus (status : string)
| NoResponse (error : string).
Arguments Success {_} _.
Arguments HttpStatus {_} _.
Arguments NoResponse {_} _.

(** [format!("{failures:?}")], for printable characters. *)
Definition debug_string (s : string) : string :=
  let escape := fix escape (s : string) : string :=
    match s with
    | EmptyString => EmptyString
    | String c s' => (if decide (c = "034"%char \/ c = "\"%char) then String "\" (String c EmptyString) else String c EmptyString) +:+ escape s'
    end in
  String "034" (escape s) +:+ String "034" EmptyString.
Definition debug_failures (failures : gmap string string) : string :=
  "{" +:+ String.concat ", " (map (fun kv => debug_string kv.1 +:+ ": " +:+ debug_string kv.2) (btree_iter failures)) +:+ "}".

Section Tasks.
Context {World Req Response : Type} (post : string -> string -> Req -> World -> Reply Response * World).

(** A task waits on its remaining addresses, has finished, or was collected. *)
Inductive Progress : Type :=
| Waiting (remaining : list string) (failures : gmap string string)
| Finished (result : Result Response)
| Collected.

Record Task : Type := MkTask { task_shard : nat; task_request : Req; task_progress : Progress }.

(** The next turn of [send_to_leader]'s loop. *)
Definition attempt (token path : string) (task : Task) (w : World) : Task * World :=
  let continue progress := MkTask (task_shard task) (task_request task) progress in
  match task_progress task with
  | Waiting [] failures =>
      (continue (Finished (Err (Concurrency ("no leader reachable for shard " +:+ fmt_int (Z.of_nat (task_shard task))
         +:+ ": " +:+ debug_failures failures)))), w)
  | Waiting (address :: remaining) failures =>
      let '(reply, w) := post token (url address path) (task_request task) w in
      match reply with
      | Success (inl response) => (continue (Finished (Ok response)), w)
      | Success (inr error) => (continue (Finished (Err (Concurrency error))), w)
      | HttpStatus status => (continue (Waiting remaining (<[address := "HTTP " +:+ status]> failures)), w)
      | NoResponse error => (continue (Waiting remaining (<[address := error]> failures)), w)
      end
  | _ => (task, w)
  end.

(** ** The join set *)

(** The runtime runs task [i], or the caller's [join_next] returns it. *)
Inductive Event : Type :=
| Run (i : nat)
| Join (i : nat).

Definition collected (task : Task) : bool := match task_progress task with Collected => true | _ => false end.

(** [None]: not returned yet.  An error returns at once and aborts the tasks
    that are still running. *)
Fixpoint join_set (token path : string) (schedule : list Event) (tasks : list Task) (responses : list (nat * Response)) (w : World)
    : option (Result (list (nat * Response))) * World :=
  if forallb collected tasks then (Some (Ok responses), w)
  else
    match schedule with
    | [] => (None, w)
    | Run i :: schedule' =>
        match tasks !! i with
        | Some task =>
            let '(task, w) := attempt token path task w in
            join_set token path schedule' (<[i := task]> tasks) responses w
        | None => join_set token path schedule' tasks responses w
        end
    | Join i :: schedule' =>
        match tasks !! i with
        | Some (MkTask shard request (Finished result)) =>
            match result with
            | Ok response =>
                join_set token path schedule' (<[i := MkTask shard request Collected]> tasks) (responses ++ [(shard, response)]) w
            | Err e => (Some (Err e), w)
            | Panic => (Some Panic, w)
            end
        | _ => join_set token path schedule' tasks responses w
        end
    end.

(** [tasks.spawn] for each request. *)
Definition spawn (self : DistributedCollection) (requests : list (nat * Req)) : Result (list Task) :=
  mapM_result (fun '(shard, request) =>
    match shards self !! shard with
    | Some replicas => Ok (MkTask shard request (Waiting (addresses replicas) ∅))
    | None => Panic
    end) requests.

Definition run_tasks (self : DistributedCollection) (path : string) (schedule : list Event) (requests : list (nat * Req)) (w : World)
    : option (Result (list (nat * Response))) * World :=
  match spawn self requests with
  | Ok tasks => join_set (token self) path schedule tasks [] w
  | Err e => (Some (Err e), w)
  | Panic => (Some Panic, w)
  end.
End Tasks.
Arguments Task : clear implicits.
Arguments Progress : clear implicits.

(** ** Requests *)

(** The batches that are not empty, with their shards. *)
Definition nonempty_batches {A : Type} (batches : list (list A)) : list (nat * list A) :=
  List.filter (fun sb => negb (Nat.eqb (length sb.2) 0)) (imap pair batches).

Section Requests.
Context {World : Type}.
Context (post_write : string -> string -> ShardCommand -> World -> Reply ShardResponse * World).
Context (post_query : string -> string -> QueryRequest -> World -> Reply ShardSearchResult * World).

Definition by_shard (a b : nat * ShardResponse) : comparison := Nat.compare a.1 b.1.

Definition write_commands (self : DistributedCollection) (schedule : list Event) (commands : list (nat * ShardCommand)) (w : World)
    : option (Result (list (nat * ShardResponse))) * World :=
  let '(result, w) := run_tasks post_write self "/v1/raft/write" schedule commands w in
  (option_map (rmap (sort_by by_shard)) result, w).

Definition upsert (self : DistributedCollection) (schedule : list Event) (client_id : string) (request_id : Z) (points : list UpsertPoint) (w : World)
    : option (Result (list (nat * ShardResponse))) * World :=
  if bool_decide (points = []) then (Some (Err (InvalidQuery "upsert batch must not be empty")), w)
  else
    match route up_id (shard_count self) points with
    | Ok batches =>
        let commands := map (fun sb => (sb.1, UpsertCommand client_id request_id sb.2)) (nonempty_batches batches) in
        write_commands self schedule commands w
    | Err e => (Some (Err e), w)
    | Panic => (Some Panic, w)
    end.

Definition delete (self : DistributedCollection) (schedule : list Event) (client_id : string) (request_id : Z) (ids : list string) (w : World)
    : option (Result (list (nat * ShardResponse))) * World :=
  if bool_decide (ids = []) || existsb (fun id => bool_decide (id = "")) ids
  then (Some (Err (InvalidQuery "delete IDs must be non-empty")), w)
  else
    match route (fun id => id) (shard_count self) ids with
    | Ok batches =>
        let commands := map (fun sb => (sb.1, DeleteCommand client_id request_id sb.2)) (nonempty_batches batches) in
        write_commands self schedule commands w
    | Err e => (Some (Err e), w)
    | Panic => (Some Panic, w)
    end.

(** The shards' answers, in the order in which they were collected. *)
Definition merge_results (k : Z) (results : list ShardSearchResult) : DistributedSearchResult :=
  let '(all, least, reported) :=
    fold_left (fun '(all, least, reported) result =>
      let '(least, reported) :=
        match applied_index result with
        | Some index => (Some (match least with Some current => Z.min current index | None => index end), reported)
        | None => (least, false)
        end in
      (all ++ shard_hits result, least, reported)) results ([], None, true) in
  MkSearchResult (truncate k (sort_by hit_cmp all)) (if reported then least else None).

Definition search_result_with_ef (self : DistributedCollection) (schedule : list Event) (vector : list Z) (k : Z) (filter : option Filter)
    (ef_search : Z) (stale : bool) (w : World) : option (Result DistributedSearchResult) * World :=
  if Z.eqb k 0 then (Some (Err (InvalidQuery "k must be greater than zero")), w)
  else if Z.ltb ef_search k then (Some (Err (InvalidQuery "ef_search must be at least k")), w)
  else
    let path := if stale then "/v1/raft/query/stale" else "/v1/raft/query" in
    let requests := map (fun shard => (shard, MkQuery vector k filter ef_search)) (seq 0 (length (shards self))) in
    let '(result, w) := run_tasks post_query self path schedule requests w in
    (option_map (rmap (fun results => merge_results k (map snd results))) result, w).

Definition search_with_ef (self : DistributedCollection) (schedule : list Event) (vector : list Z) (k : Z) (filter : option Filter)
    (ef_search : Z) (w : World) : option (Result (list SearchHit)) * World :=
  let '(result, w) := search_result_with_ef self schedule vector k filter ef_search false w in
  (option_map (rmap hits) result, w).

Definition search (self : DistributedCollection) (schedule : list Event) (vector : list Z) (k : Z) (filter : option Filter) (w : World)
    : option (Result (list SearchHit)) * World :=
  search_with_ef self schedule vector k filter (Z.max (saturating_mul k 16) 256) w.
End Requests.
