(* ===== verification/DistributedFacts.v ===== *)
(** * DistributedFacts: what a distributed request does to the shards

    Schedules, lost replies and the requests of other clients are arbitrary.
    A write is decided at most once per shard, over any number of attempts, and
    exactly once when an attempt succeeds; a query merges the shards' answers
    whatever order they come in. *)

From stdpp Require Import base gmap sets list strings sorting.
From Stdlib Require Import ZArith Lia.
From S2P Require Import RaftLog.
From S2P Require Import Prelude Errors Floats Ranking Metric Filter MetadataIndex Collection CollectionFacts Sharding ShardingFacts.
From S2P Require Import Codec Wire Disk Journal RaftStateMachine RaftReplica Distributed.

(** ** Joining tasks *)

Section Joining.
Context {World Req Response : Type} (post : string -> string -> Req -> World -> Reply Response * World).
Context (self : DistributedCollection) (path : string).
Implicit Types (w : World) (tasks : list (Task Req Response)) (responses : list (nat * Response)).

(** [untouched w w' s]: from [w] to [w'], shard [s] saw nothing of the request;
    [done w w' s q r]: it handled [q], with the answer [r]. *)
Context (untouched : World -> World -> nat -> Prop) (done : World -> World -> nat -> Req -> Response -> Prop).
Context (concerns : nat -> Req -> Prop).

Record exchange : Prop := {
  ex_refl : forall w s, untouched w w s;
  ex_trans : forall w1 w2 w3 s, untouched w1 w2 s -> untouched w2 w3 s -> untouched w1 w3 s;
  ex_before : forall w1 w2 w3 s q r, untouched w1 w2 s -> done w2 w3 s q r -> done w1 w3 s q r;
  ex_after : forall w1 w2 w3 s q r, done w1 w2 s q r -> untouched w2 w3 s -> done w1 w3 s q r;
  ex_again : forall w1 w2 w3 s q r r', concerns s q -> done w1 w2 s q r -> done w2 w3 s q r' -> done w1 w3 s q r';
  ex_post : forall s replicas address q w, shards self !! s = Some replicas -> address ∈ addresses replicas -> concerns s q ->
    let '(reply, w') := post (token self) (url address path) q w in
    (forall t, t <> s -> untouched w w' t) /\
    match reply with
    | Success (inl r) => done w w' s q r
    | _ => untouched w w' s \/ exists r, done w w' s q r
    end
}.

Context (Hex : exchange).

Definition at_most_once w w' s q : Prop := untouched w w' s \/ exists r, done w w' s q r.

Lemma at_most_once_untouched w1 w2 w3 s q : at_most_once w1 w2 s q -> untouched w2 w3 s -> at_most_once w1 w3 s q.
Proof.
  intros [Hu|[r Hd]] H; [left; by eapply (ex_trans Hex)|right; exists r; by eapply (ex_after Hex)].
Qed.

Lemma at_most_once_done w1 w2 w3 s q r : concerns s q -> at_most_once w1 w2 s q -> done w2 w3 s q r -> done w1 w3 s q r.
Proof. intros Hc [Hu|[r' Hd]] H; [by eapply (ex_before Hex)|by eapply (ex_again Hex)]. Qed.

Lemma at_most_once_trans w1 w2 w3 s q : concerns s q -> at_most_once w1 w2 s q -> at_most_once w2 w3 s q -> at_most_once w1 w3 s q.
Proof.
  intros Hc H1 [H2|[r H2]]; [by eapply at_most_once_untouched|]. right. exists r. by eapply at_most_once_done.
Qed.

Definition task_ok w0 w responses (task : Task Req Response) : Prop :=
  let s := task_shard task in let q := task_request task in
  (exists replicas, shards self !! s = Some replicas /\
     match task_progress task with Waiting remaining _ => remaining ⊆ addresses replicas | _ => True end) /\
  concerns s q /\
  match task_progress task with
  | Finished (Ok r) => done w0 w s q r
  | Finished Panic => False
  | Collected => exists r, (s, r) ∈ responses /\ done w0 w s q r
  | _ => at_most_once w0 w s q
  end.

Lemma attempt_ok w0 w responses task :
  task_ok w0 w responses task ->
  let '(task', w') := attempt post (token self) path task w in
  task_shard task' = task_shard task /\ task_request task' = task_request task /\ collected task' = collected task /\
  task_ok w0 w' responses task' /\ forall t, t <> task_shard task -> untouched w w' t.
Proof.
  destruct task as [s q progress]. intros ((replicas & Hs & Hsub) & Hq & Hp). cbn [task_shard task_request task_progress] in *.
  assert (forall w t, t <> s -> untouched w w t) as Hrefl by (intros; apply (ex_refl Hex)).
  unfold attempt. cbn [task_shard task_request task_progress]. destruct progress as [[|address remaining] failures|result|].
  - split_and!; try reflexivity; [|apply Hrefl]. split; [by exists replicas|by split].
  - pose proof (ex_post Hex s replicas address q w Hs (Hsub address ltac:(left)) Hq) as Hpost.
    destruct (post _ _ _ _) as [reply w']. destruct Hpost as [Hother Hself].
    assert (remaining ⊆ addresses replicas) as Hrest by set_solver.
    destruct reply as [[r|e]|status|e]; (split_and!; [reflexivity..| |exact Hother]); (split; [by exists replicas|split; [exact Hq|]]); cbn.
    + by eapply at_most_once_done.
    + by eapply at_most_once_trans.
    + by eapply at_most_once_trans.
    + by eapply at_most_once_trans.
  - split_and!; try reflexivity; [|apply Hrefl]. split; [by exists replicas|by split].
  - split_and!; try reflexivity; [|apply Hrefl]. split; [by exists replicas|by split].
Qed.

Lemma task_ok_untouched w0 w w' responses responses' task :
  responses ⊆ responses' -> untouched w w' (task_shard task) -> task_ok w0 w responses task -> task_ok w0 w' responses' task.
Proof.
  intros Hsub Hu (Hs & Hq & Hp). split; [exact Hs|]. split; [exact Hq|].
  destruct (task_progress task) as [remaining failures|[r|e|]|]; [by eapply at_most_once_untouched|by eapply (ex_after Hex)
    |by eapply at_most_once_untouched|exact Hp|]. destruct Hp as (r & Hr & Hd). exists r. split; [by apply Hsub|by eapply (ex_after Hex)].
Qed.

(** The responses are those of the collected tasks. *)
Definition collected_shard (task : Task Req Response) : option nat := if collected task then Some (task_shard task) else None.
Definition gathered tasks responses : Prop := map fst responses ≡ₚ omap collected_shard tasks.

Definition joined w0 w tasks responses : Prop :=
  NoDup (map task_shard tasks) /\ Forall (task_ok w0 w responses) tasks /\ gathered tasks responses /\
  forall t, t ∉ map task_shard tasks -> untouched w0 w t.

(** What the caller gets, and what the shards saw. *)
Definition outcome w0 (requests : list (nat * Req)) (r : option (Result (list (nat * Response))) * World) : Prop :=
  (forall t, t ∉ map fst requests -> untouched w0 r.2 t) /\
  match r.1 with
  | Some (Ok responses) => map fst responses ≡ₚ map fst requests /\
      forall s q, (s, q) ∈ requests -> exists a, (s, a) ∈ responses /\ done w0 r.2 s q a
  | Some Panic => False
  | _ => forall s q, (s, q) ∈ requests -> at_most_once w0 r.2 s q
  end.

Definition requests_of tasks : list (nat * Req) := map (fun task => (task_shard task, task_request task)) tasks.

Lemma task_ok_most w0 w responses task : task_ok w0 w responses task -> at_most_once w0 w (task_shard task) (task_request task).
Proof.
  intros (_ & _ & Hp). destruct (task_progress task) as [remaining failures|[r|e|]|]; [exact Hp|right; by exists r|exact Hp|done|].
  destruct Hp as (r & _ & Hd). right. by exists r.
Qed.

Lemma shards_of_requests tasks : map fst (requests_of tasks) = map task_shard tasks.
Proof. unfold requests_of. by rewrite map_map. Qed.

Lemma map_replace {A B} (f : A -> B) (l : list A) i x y : l !! i = Some x -> f y = f x -> map f (<[i := y]> l) = map f l.
Proof.
  intros Hi E. change (f <$> <[i := y]> l = f <$> l). rewrite list_fmap_insert, E. apply list_insert_id. by rewrite list_lookup_fmap, Hi.
Qed.

Lemma omap_replace {A B} (f : A -> option B) (l : list A) i x y :
  l !! i = Some x -> f x = None -> omap f (<[i := y]> l) ≡ₚ option_list (f y) ++ omap f l.
Proof.
  revert i. induction l as [|z l IH]; intros [|i] Hi Hx; [done|done| |].
  - injection Hi as ->. cbn. rewrite Hx. by destruct (f y).
  - simpl in Hi. csimpl. destruct (f z); rewrite (IH i Hi Hx); [|done]. by rewrite Permutation_middle.
Qed.

Lemma omap_same {A B} (f : A -> option B) (l : list A) i x y : l !! i = Some x -> f y = f x -> omap f (<[i := y]> l) = omap f l.
Proof.
  revert i. induction l as [|z l IH]; intros [|i] Hi Hx; [done|done| |].
  - injection Hi as ->. cbn. by rewrite Hx.
  - simpl in Hi. csimpl. by rewrite (IH i Hi Hx).
Qed.

Lemma omap_all tasks : forallb collected tasks = true -> omap collected_shard tasks = map task_shard tasks.
Proof.
  induction tasks as [|task tasks IH]; [done|]. cbn. unfold collected_shard at 1. intros [-> H]%andb_prop. by rewrite IH.
Qed.

Lemma NoDup_shards_lookup tasks i j t1 t2 :
  NoDup (map task_shard tasks) -> tasks !! i = Some t1 -> tasks !! j = Some t2 -> task_shard t1 = task_shard t2 -> i = j.
Proof.
  intros Hn H1 H2 E. eapply (NoDup_lookup (map task_shard tasks)); [exact Hn| |]; rewrite list_lookup_fmap; [by rewrite H1|by rewrite H2, E].
Qed.

(** Replacing one task by its next state. *)
Lemma joined_replace w0 w w' tasks responses responses' i task task' :
  joined w0 w tasks responses -> tasks !! i = Some task -> task_shard task' = task_shard task -> task_request task' = task_request task ->
  responses ⊆ responses' -> task_ok w0 w' responses' task' -> (forall t, t <> task_shard task -> untouched w w' t) ->
  gathered (<[i := task']> tasks) responses' ->
  joined w0 w' (<[i := task']> tasks) responses' /\ requests_of (<[i := task']> tasks) = requests_of tasks.
Proof.
  intros (Hn & Hall & _ & Hout) Hi Es Eq Hsub Hok Hother Hg.
  assert (map task_shard (<[i := task']> tasks) = map task_shard tasks) as Em by (by eapply map_replace).
  split; [|by eapply map_replace; [exact Hi|cbn; by rewrite Es, Eq]].
  split; [by rewrite Em|]. split; [|split; [exact Hg|]].
  - apply Forall_lookup. intros j t. rewrite list_lookup_insert_Some. intros [(<- & <- & _)|[Hne Ht]]; [exact Hok|].
    eapply task_ok_untouched; [exact Hsub| |by eapply Forall_lookup in Hall]. apply Hother. intros E. apply Hne. symmetry. by eapply NoDup_shards_lookup.
  - intros t Ht. rewrite Em in Ht. eapply (ex_trans Hex); [by apply Hout|]. apply Hother. intros ->. apply Ht. eapply list_elem_of_fmap_2, list_elem_of_lookup_2, Hi.
Qed.

Lemma join_set_outcome w0 schedule tasks responses w :
  joined w0 w tasks responses -> outcome w0 (requests_of tasks) (join_set post (token self) path schedule tasks responses w).
Proof.
  revert tasks responses w. induction schedule as [|event schedule IH]; intros tasks responses w Hj.
  all: assert (forall r, (forall rs, r <> Some (Ok rs)) -> r <> Some Panic -> outcome w0 (requests_of tasks) (r, w)) as Hearly by
    (intros r Hr Hp; destruct Hj as (_ & Hall & _ & Hout); split; [by rewrite shards_of_requests|]; cbn [fst snd];
     assert (forall s q, (s, q) ∈ requests_of tasks -> at_most_once w0 w s q) as Hm by
       (intros s q (task & [= -> ->] & Ht)%list_elem_of_fmap; eapply task_ok_most; eapply Forall_forall in Hall; [exact Hall|exact Ht]);
     destruct r as [[rs|e|]|]; [by destruct (Hr rs)|exact Hm|done|exact Hm]).
  all: cbn [join_set]; destruct (forallb collected tasks) eqn:Eall.
  1, 3: destruct Hj as (_ & Hall & Hg & Hout); split; [by rewrite shards_of_requests|]; cbn [fst snd];
    rewrite forallb_forall in Eall; split; [rewrite shards_of_requests; unfold gathered in Hg; by rewrite Hg, omap_all by (by apply forallb_forall)|];
    intros s q (task & [= -> ->] & Ht)%list_elem_of_fmap; eapply Forall_forall in Hall as (_ & _ & Hp); [|exact Ht];
    apply list_elem_of_In, Eall in Ht; unfold collected in Ht; destruct (task_progress task); done.
  - by apply Hearly.
  - destruct event as [i|i]; (destruct (tasks !! i) as [task|] eqn:Hi; [|by apply IH]).
    + pose proof (Forall_lookup_1 _ _ _ _ (proj1 (proj2 Hj)) Hi) as Hok. pose proof (attempt_ok w0 w responses task Hok) as Ha.
      destruct (attempt post (token self) path task w) as [task' w']. destruct Ha as (Es & Eq & Ec & Hok' & Hother).
      destruct (joined_replace w0 w w' tasks responses responses i task task' Hj Hi Es Eq) as [Hj' <-]; [done..| |by apply IH].
      destruct Hj as (_ & _ & Hg & _). unfold gathered in *. by rewrite (omap_same _ _ _ task) by (done || by unfold collected_shard; rewrite Ec, Es).
    + destruct task as [s q [remaining failures|[r|e|]|]]; try (by apply IH); pose proof (Forall_lookup_1 _ _ _ _ (proj1 (proj2 Hj)) Hi) as Hok.
      * destruct (joined_replace w0 w w tasks responses (responses ++ [(s, r)]) i _ (MkTask s q Collected) Hj Hi eq_refl eq_refl) as [Hj' <-].
        -- set_solver.
        -- destruct Hok as (Hs & Hq & Hd). split; [exact Hs|]. split; [exact Hq|]. exists r. split; [set_solver|exact Hd].
        -- intros t _. apply (ex_refl Hex).
        -- destruct Hj as (_ & _ & Hg & _). unfold gathered in *. by rewrite map_app, Hg, (omap_replace _ _ _ _ _ Hi), Permutation_app_comm.
        -- by apply IH.
      * by apply Hearly.
      * by destruct Hok as (_ & _ & ?).
Qed.

(** ** Every run ends *)

Definition cost (task : Task Req Response) : nat :=
  match task_progress task with Waiting remaining _ => length remaining + 2 | Finished _ => 1 | Collected => 0 end.
Definition costs tasks : nat := list_sum (map cost tasks).

Lemma costs_replace tasks i task task' : tasks !! i = Some task -> (cost task' < cost task)%nat -> (costs (<[i := task']> tasks) < costs tasks)%nat.
Proof.
  unfold costs. revert i. induction tasks as [|t tasks IH]; intros [|i] Hi Hc; [done|done| |].
  - injection Hi as ->. change (cost task' + list_sum (map cost tasks) < cost task + list_sum (map cost tasks))%nat. lia.
  - specialize (IH i Hi Hc). change (cost t + list_sum (map cost (<[i := task']> tasks)) < cost t + list_sum (map cost tasks))%nat. lia.
Qed.

Lemma attempt_cost token task w : (forall r, task_progress task <> Finished r) -> collected task = false -> (cost (attempt post token path task w).1 < cost task)%nat.
Proof.
  destruct task as [s q [[|address remaining] failures|r|]]; unfold attempt, cost; cbn; intros Hr Hc; [lia| |by destruct (Hr r)|done].
  destruct (post _ _ _ _) as [[[r|e]|status|e] w']; cbn; lia.
Qed.

(** From any point, running and collecting the tasks that are left returns. *)
Lemma join_set_finishes tasks responses w :
  exists more, is_Some (join_set post (token self) path more tasks responses w).1.
Proof.
  remember (costs tasks) as n eqn:En. revert tasks responses w En. induction n as [n IH] using lt_wf_ind. intros tasks responses w ->.
  destruct (forallb collected tasks) eqn:Eall; [exists []; cbn; rewrite Eall; by eexists|].
  assert (exists i task, tasks !! i = Some task /\ collected task = false) as (i & task & Hi & Hc).
  { clear IH. induction tasks as [|t tasks IH]; [done|]. cbn in Eall. destruct (collected t) eqn:Et; [|by exists 0%nat, t].
    destruct (IH Eall) as (i & task & Hi). by exists (S i), task. }
  destruct (task_progress task) as [remaining failures|r|] eqn:Ep.
  - pose proof (attempt_cost (token self) task w ltac:(intros r E; congruence) Hc) as Hlt. destruct (attempt post (token self) path task w) as [task' w'] eqn:Ea.
    destruct (IH _ (costs_replace tasks i task task' Hi Hlt) (<[i := task']> tasks) responses w' eq_refl) as [more Hm].
    exists (Run i :: more). cbn [join_set]. by rewrite Eall, Hi, Ea.
  - destruct r as [r|e|]; [|exists [Join i]; cbn [join_set]; rewrite Eall, Hi; destruct task as [s q progress]; cbn in Ep; subst progress; by eexists..].
    destruct (IH (costs (<[i := MkTask (task_shard task) (task_request task) Collected]> tasks))
      ltac:(eapply costs_replace; [exact Hi|unfold cost; cbn; rewrite Ep; lia]) _ (responses ++ [(task_shard task, r)]) w eq_refl) as [more Hm].
    exists (Join i :: more). cbn [join_set]. rewrite Eall, Hi. destruct task as [s q progress]. cbn in Ep. subst progress. exact Hm.
  - unfold collected in Hc. by rewrite Ep in Hc.
Qed.

Lemma join_set_returns schedule tasks responses w :
  exists more, is_Some (join_set post (token self) path (schedule ++ more) tasks responses w).1.
Proof.
  revert tasks responses w. induction schedule as [|event schedule IH]; intros tasks responses w; [apply join_set_finishes|].
  cbn [app join_set]. destruct (forallb collected tasks); [exists []; by eexists|].
  destruct event as [i|i]; (destruct (tasks !! i) as [task|]; [|apply IH]).
  - destruct (attempt _ _ _ _ _). apply IH.
  - destruct task as [s q [remaining failures|[r|e|]|]]; try apply IH; exists []; by eexists.
Qed.

(** ** From requests to answers *)

Definition admissible (requests : list (nat * Req)) : Prop :=
  NoDup (map fst requests) /\ forall s q, (s, q) ∈ requests -> is_Some (shards self !! s) /\ concerns s q.

Lemma spawn_ok requests :
  (forall s q, (s, q) ∈ requests -> is_Some (shards self !! s)) ->
  exists tasks : list (Task Req Response), spawn self requests = Ok tasks /\ requests_of tasks = requests /\
    Forall (fun task => exists replicas, shards self !! task_shard task = Some replicas /\ task_progress task = Waiting (addresses replicas) ∅) tasks.
Proof.
  induction requests as [|[s q] requests IH]; intros Hv; [by exists []|].
  destruct IH as (tasks & Et & Er & Hall); [intros s' q' Hin; apply (Hv s' q'); by right|].
  destruct (Hv s q ltac:(left)) as [replicas Hs]. eexists. unfold spawn in *. cbn [mapM_result]. rewrite Hs. cbn [rbind]. rewrite Et. cbn [rbind].
  split; [reflexivity|]. split; [unfold requests_of in *; cbn; by rewrite Er|]. constructor; [by exists replicas|done].
Qed.

Lemma run_tasks_outcome schedule requests w : admissible requests -> outcome w requests (run_tasks post self path schedule requests w).
Proof.
  intros [Hn Hv]. destruct (spawn_ok requests) as (tasks & Et & Er & Hall); [intros s q Hin; by apply (Hv s q)|].
  unfold run_tasks. rewrite Et. pose proof (shards_of_requests tasks) as Esh. rewrite Er in Esh. rewrite <- Er at 1. apply join_set_outcome. split; [by rewrite <- Esh|].
  rewrite Forall_forall in Hall. split; [|split].
  - apply Forall_forall. intros task Ht. destruct (Hall task Ht) as (replicas & Hs & Hp).
    destruct (Hv (task_shard task) (task_request task)) as [_ Hc]; [rewrite <- Er; by apply (list_elem_of_fmap_2 (fun task => (task_shard task, task_request task)))|].
    split; [exists replicas; rewrite Hp; by split|]. split; [exact Hc|]. rewrite Hp. left. apply (ex_refl Hex).
  - unfold gathered. cbn. assert (omap collected_shard tasks = []) as ->; [|reflexivity].
    clear - Hall. induction tasks as [|task tasks IH]; [done|]. csimpl. destruct (Hall task ltac:(left)) as (replicas & _ & Hp).
    unfold collected_shard at 1, collected. rewrite Hp. apply IH. intros t Ht. apply Hall. by right.
  - intros t _. apply (ex_refl Hex).
Qed.

(** Every answer is that of its shard. *)
Lemma outcome_answers w w' requests responses :
  NoDup (map fst requests) -> outcome w requests (Some (Ok responses), w') ->
  forall s a, (s, a) ∈ responses -> exists q, (s, q) ∈ requests /\ done w w' s q a.
Proof.
  intros Hn [_ [Hp Hall]] s a Ha. cbn in Hall. assert (s ∈ map fst requests) as Hs by (rewrite <- Hp; by apply (list_elem_of_fmap_2 fst) in Ha).
  apply list_elem_of_fmap in Hs as ([s' q] & -> & Hq). exists q. split; [exact Hq|]. destruct (Hall s' q Hq) as (a' & Ha' & Hd).
  assert (a' = a) as <-; [|exact Hd]. cbn [fst] in Ha. apply list_elem_of_lookup in Ha as [x Hx], Ha' as [y Hy]. assert (x = y) as ->; [|congruence].
  eapply (NoDup_lookup (map fst responses)); [by rewrite Hp| |]; change (map fst ?l) with (fst <$> l); rewrite list_lookup_fmap; [by rewrite Hx|by rewrite Hy].
Qed.

Lemma run_tasks_returns schedule requests w :
  (forall s q, (s, q) ∈ requests -> is_Some (shards self !! s)) ->
  exists more, is_Some (run_tasks post self path (schedule ++ more) requests w).1.
Proof.
  intros Hv. destruct (spawn_ok requests Hv) as (tasks & Et & _). unfold run_tasks. rewrite Et. apply join_set_returns.
Qed.
End Joining.

(** ** Sorting by shard *)

Lemma nat_total : TotalCmp Nat.compare.
Proof.
  constructor; intros x y; [apply Nat.compare_antisym|]. intros z Hxy Hyz.
  destruct (Nat.compare_spec x z), (Nat.compare_spec x y), (Nat.compare_spec y z); (done || lia).
Qed.

Lemma sort_shards {A} (responses : list (nat * A)) ts :
  map fst responses ≡ₚ ts -> StronglySorted lt ts -> map fst (sort_by (cmp_on fst Nat.compare) responses) = ts.
Proof.
  intros Hp Hs. pose proof nat_total. assert (forall l, separates Nat.compare l) as Hsep by (intros l x y _ _; apply Nat.compare_eq).
  rewrite map_sort_by, (sort_by_perm_eq Nat.compare _ ts) by done.
  apply sort_by_id; [done| |done]. clear - Hs. induction Hs as [|x l Hs IH Hx]; constructor; [done|].
  eapply Forall_impl; [exact Hx|]. intros y Hxy. unfold le_by. by apply Nat.compare_le_iff, Nat.lt_le_incl.
Qed.

Lemma seq_strongly start m : StronglySorted lt (seq start m).
Proof.
  revert start. induction m as [|m IH]; intros start; cbn; constructor; [apply IH|]. apply Forall_forall. intros y Hy%list_elem_of_In%in_seq. lia.
Qed.

(** ** Writes *)

(** A shard, as the specification of a replica: the commands it decided. *)
Abbreviation Shard := (Abstract (LogId := unit) (StoredMembership := unit)).

Section Writes.
Context `{FloatEnv} (cfg : CollectionConfig).

Definition serve (a : Shard) (command : ShardCommand) : ShardResponse * Shard :=
  abs_step (Membership := unit) (fun _ : ShardCommand => tt) Normal (fun _ m => m) cfg a command.
Definition serve_all (a : Shard) (commands : list ShardCommand) : Shard :=
  (abs_run (Membership := unit) (fun _ : ShardCommand => tt) Normal (fun _ m => m) cfg a commands).2.

Lemma serve_all_cons a command commands : serve_all a (command :: commands) = serve_all (serve a command).2 commands.
Proof. unfold serve_all, serve. cbn [abs_run]. destruct (abs_step _ _ _ _ _ _) as [r a']. cbn. by destruct (abs_run _ _ _ _ _ _). Qed.

Lemma serve_all_app a xs ys : serve_all a (xs ++ ys) = serve_all (serve_all a xs) ys.
Proof. revert a. induction xs as [|x xs IH]; intros a; [done|]. cbn [app]. by rewrite !serve_all_cons, IH. Qed.

Lemma serve_all_remembers a commands client request response :
  remembered (abs_answers a) client request = Some response -> remembered (abs_answers (serve_all a commands)) client request = Some response.
Proof. apply run_remembers. Qed.


(** Other clients' requests. *)
Definition foreign (id : string * Z) (commands : list ShardCommand) : Prop := Forall (fun command => command_identity command <> id) commands.

Context {World : Type} (post : string -> string -> ShardCommand -> World -> Reply ShardResponse * World).
Context (state : World -> nat -> Shard) (id : string * Z).

(** Shard [s] decided only other clients' requests. *)
Definition pending (w w' : World) (s : nat) : Prop := exists others, foreign id others /\ state w' s = serve_all (state w s) others.

(** Shard [s] decided [command] once among other clients' requests, and [r] is
    its answer there. *)
Definition decided (w w' : World) (s : nat) (command : ShardCommand) (r : ShardResponse) : Prop :=
  exists before after, foreign id before /\ foreign id after /\
    r = (serve (serve_all (state w s) before) command).1 /\ state w' s = serve_all (state w s) (before ++ command :: after).

(** What the shards behind the addresses promise: they decide what they are
    sent, at some point among other clients' requests, and answer it - unless
    the request or its answer is lost. *)
Definition replicated (self : DistributedCollection) : Prop :=
  forall s replicas address command w,
    shards self !! s = Some replicas -> address ∈ addresses replicas -> command_identity command = id ->
    let '(reply, w') := post (token self) (url address "/v1/raft/write") command w in
    (forall t, t <> s -> pending w w' t) /\
    match reply with
    | Success (inl r) => decided w w' s command r
    | _ => pending w w' s \/ exists r, decided w w' s command r
    end.

Lemma serve_applied a command : abs_applied (serve a command).2 = Some tt.
Proof.
  unfold serve, abs_step. destruct (command_identity command) as [client request]. destruct (remembered _ client request); [done|].
  by destruct (decide_command cfg a command).
Qed.

Lemma serve_all_applied a commands : abs_applied a = Some tt -> abs_applied (serve_all a commands) = Some tt.
Proof. revert a. induction commands as [|command commands IH]; intros a Ha; [done|]. rewrite serve_all_cons. apply IH, serve_applied. Qed.

Lemma serve_answers a command : remembered (abs_answers (serve a command).2) (command_identity command).1 (command_identity command).2 = Some (serve a command).1.
Proof. unfold serve. by apply step_answers. Qed.

(** A command that was answered before changes nothing. *)
Lemma serve_again a command r :
  abs_applied a = Some tt -> remembered (abs_answers a) (command_identity command).1 (command_identity command).2 = Some r -> serve a command = (r, a).
Proof.
  intros Ha Hr. unfold serve, abs_step. destruct (command_identity command) as [client request]. cbn [fst snd] in Hr. rewrite Hr.
  f_equal. destruct a as [m n answers [] applied]. cbn in *. by subst applied.
Qed.

Lemma serve_all_again a before command after more :
  serve_all (serve_all a (before ++ command :: after)) more = serve_all a (before ++ command :: after ++ more).
Proof. by rewrite <- serve_all_app, <- app_assoc. Qed.

Lemma decided_again w1 w2 w3 s command r r' :
  decided w1 w2 s command r -> decided w2 w3 s command r' -> decided w1 w3 s command r' /\ r' = r.
Proof.
  intros (b & f & Hb & Hf & Er & E2) (b' & f' & Hb' & Hf' & Er' & E3). set (at_ := serve_all (state w1 s) b) in *.
  assert (serve (serve_all (state w2 s) b') command = (r, serve_all (state w2 s) b')) as Hagain.
  { rewrite E2, serve_all_app. apply serve_again.
    - apply serve_all_applied. rewrite serve_all_cons. apply serve_all_applied, serve_applied.
    - apply serve_all_remembers. rewrite serve_all_cons. apply serve_all_remembers. fold at_. rewrite Er. apply serve_answers. }
  rewrite Hagain in Er'. cbn [fst] in Er'. split; [|done]. subst r'. exists b, (f ++ b' ++ f'). split; [done|].
  split; [by repeat apply Forall_app_2|]. split; [exact Er|]. rewrite E3, serve_all_app, serve_all_cons, Hagain. cbn [snd].
  by rewrite E2, <- !serve_all_app, <- app_assoc.
Qed.

Lemma writes_exchange self :
  replicated self -> exchange post self "/v1/raft/write" pending decided (fun _ command => command_identity command = id).
Proof.
  intros Hrep. constructor.
  - intros w s. exists []. split; [constructor|done].
  - intros w1 w2 w3 s (x & Hx & E2) (y & Hy & E3). exists (x ++ y). split; [by apply Forall_app_2|]. by rewrite serve_all_app, <- E2.
  - intros w1 w2 w3 s q r (x & Hx & E2) (b & f & Hb & Hf & Er & E3). exists (x ++ b), f. split; [by apply Forall_app_2|]. split; [done|].
    rewrite serve_all_app, <- E2. split; [done|]. by rewrite <- app_assoc, serve_all_app, <- E2.
  - intros w1 w2 w3 s q r (b & f & Hb & Hf & Er & E2) (x & Hx & E3). exists b, (f ++ x). split; [done|]. split; [by apply Forall_app_2|].
    split; [done|]. by rewrite <- serve_all_again, <- E2.
  - intros w1 w2 w3 s q r r' _ H1 H2. by eapply decided_again.
  - intros s replicas address q w Hs Ha Hq. by eapply Hrep.
Qed.

(** ** Upserts and deletions *)

Context (self : DistributedCollection) (Hrep : replicated self) (Hshards : shards self <> []).
Let n : Z := zlen (shards self).

Lemma shards_positive : 0 < n.
Proof. unfold n, zlen. destruct (shards self); [done|]. cbn [length]. lia. Qed.

(** The shards that get a part of a batch, in order. *)
Definition targets {A : Type} (id_of : A -> string) (items : list A) : list nat :=
  List.filter (fun s => negb (Nat.eqb (length (batch_of id_of n items s)) 0)) (seq 0 (Z.to_nat n)).

Lemma filter_map {A B} (f : A -> B) (p : B -> bool) (l : list A) : List.filter p (map f l) = map f (List.filter (fun x => p (f x)) l).
Proof. induction l as [|x l IH]; [done|]. cbn. destruct (p (f x)); cbn; by rewrite IH. Qed.

Lemma imap_seq {A} (f : nat -> A) k start : imap (fun i x => (i + start, x)%nat) (map f (seq start k)) = map (fun s => (s, f s)) (seq start k).
Proof.
  revert start. induction k as [|k IH]; intros start; [done|]. cbn [seq map]. rewrite imap_cons. f_equal. rewrite <- IH.
  apply imap_ext. intros i x _. cbn. f_equal. lia.
Qed.

Lemma batches_targets {A} (id_of : A -> string) items :
  nonempty_batches (map (batch_of id_of n items) (seq 0 (Z.to_nat n))) = map (fun s => (s, batch_of id_of n items s)) (targets id_of items).
Proof.
  unfold nonempty_batches, targets.
  rewrite <- (filter_map (fun s => (s, batch_of id_of n items s)) (fun sb => negb (Nat.eqb (length sb.2) 0))). f_equal. rewrite <- imap_seq. apply imap_ext. intros i x _. by rewrite Nat.add_0_r.
Qed.

(** What is promised of one batch of commands, a command per shard. *)
Definition once (w0 : World) (command_of : nat -> ShardCommand) (targets : list nat)
    (r : option (Result (list (nat * ShardResponse))) * World) : Prop :=
  (forall s, s ∉ targets -> pending w0 r.2 s) /\
  match r.1 with
  | Some (Ok responses) => Forall2 (fun s answer => answer.1 = s /\ decided w0 r.2 s (command_of s) answer.2) targets responses
  | Some Panic => False
  | _ => forall s, s ∈ targets -> at_most_once pending decided w0 r.2 s (command_of s)
  end.

Lemma write_commands_once schedule command_of ts w :
  StronglySorted lt ts -> (forall s, s ∈ ts -> is_Some (shards self !! s) /\ command_identity (command_of s) = id) ->
  once w command_of ts (write_commands post self schedule (map (fun s => (s, command_of s)) ts) w).
Proof.
  intros Hsort Hts. set (commands := map (fun s => (s, command_of s)) ts).
  assert (map fst commands = ts) as Ef by (unfold commands; rewrite map_map; apply map_id).
  assert (NoDup ts) as Hn.
  { clear - Hsort. induction Hsort as [|x l Hs IH Hx]; constructor; [|done]. intros Hin. eapply Forall_forall in Hx; [|exact Hin]. cbn in Hx. lia. }
  assert (forall s, s ∈ ts -> (s, command_of s) ∈ commands) as Hin by (intros s Hs; by apply (list_elem_of_fmap_2 (fun s => (s, command_of s)))).
  assert (admissible self (fun _ command => command_identity command = id) commands) as Hadm.
  { split; [by rewrite Ef|]. intros s q (s' & [= -> ->] & Hs)%list_elem_of_fmap. by apply Hts. }
  pose proof (run_tasks_outcome post self "/v1/raft/write" _ _ _ (writes_exchange self Hrep) schedule commands w Hadm) as Hout.
  unfold write_commands. destruct (run_tasks _ _ _ _ _ _) as [result w']. pose proof (outcome_answers pending decided w w' commands) as Hans.
  rewrite Ef in Hans. destruct Hout as [Hother Hr]. cbn [fst snd] in *. rewrite Ef in Hother. split; [exact Hother|]. cbn [fst snd].
  destruct result as [[responses|e|]|]; cbn [option_map rmap]; [|intros s Hs; by apply Hr, Hin|done|intros s Hs; by apply Hr, Hin].
  specialize (Hans responses Hn). destruct Hr as [Hp Hall]. pose proof Hp as Hp'. rewrite Ef in Hp'. pose proof (sort_shards responses ts Hp' Hsort) as Esort.
  change by_shard with (cmp_on (@fst nat ShardResponse) Nat.compare).
  apply Forall2_same_length_lookup_2; [by rewrite <- Esort, length_map|]. intros i s answer Hi Ha.
  assert (answer.1 = s) as Es by (rewrite <- Esort in Hi; change (map fst ?l) with (fst <$> l) in Hi; rewrite list_lookup_fmap, Ha in Hi; by injection Hi).
  split; [done|]. apply list_elem_of_lookup_2 in Ha. rewrite elem_of_sort_by in Ha. destruct answer as [s' a]. cbn [fst snd] in *. subst s'.
  destruct (Hans ltac:(split; [by rewrite Ef|by split]) s a Ha) as (q & (s' & [= -> ->] & _)%list_elem_of_fmap & Hd). exact Hd.
Qed.

Lemma targets_sorted {A} (id_of : A -> string) items : StronglySorted lt (targets id_of items).
Proof.
  unfold targets. induction (seq_strongly 0 (Z.to_nat n)) as [|x l Hl IH Hx]; cbn; [constructor|]. destruct (negb _); [|done]. constructor; [done|].
  apply Forall_forall. intros y [Hy _]%list_elem_of_In%filter_In. eapply Forall_forall in Hx; [exact Hx|]. by apply list_elem_of_In.
Qed.

Lemma targets_valid {A} (id_of : A -> string) items s : s ∈ targets id_of items -> is_Some (shards self !! s).
Proof. intros [Hs _]%list_elem_of_In%filter_In. apply in_seq in Hs. apply lookup_lt_is_Some. unfold n, zlen in Hs. lia. Qed.

Lemma Forall2_within {A B} (P Q : A -> B -> Prop) l k : Forall2 P l k -> (forall x y, x ∈ l -> P x y -> Q x y) -> Forall2 Q l k.
Proof. induction 1 as [|x y l k Hxy _ IH]; intros HPQ; constructor; [apply HPQ; [left|done]|]. apply IH. intros x' y' Hx. apply HPQ. by right. Qed.

(** Once over several calls. *)
Definition attempted (w0 w : World) (command_of : nat -> ShardCommand) (ts : list nat) : Prop :=
  (forall s, s ∉ ts -> pending w0 w s) /\ forall s, s ∈ ts -> at_most_once pending decided w0 w s (command_of s).

Lemma once_attempted w0 command_of ts r : once w0 command_of ts r -> attempted w0 r.2 command_of ts.
Proof.
  intros [Hout Hr]. split; [exact Hout|]. intros s Hs. destruct r as [[[responses|e|]|] w]; cbn in *; [|by apply Hr|done|by apply Hr].
  apply list_elem_of_lookup in Hs as [i Hi]. destruct (Forall2_lookup_l _ _ _ _ _ Hr Hi) as (answer & _ & _ & Hd). right. by exists answer.2.
Qed.

Lemma once_earlier w0 w1 command_of ts r :
  (forall s, s ∈ ts -> command_identity (command_of s) = id) -> attempted w0 w1 command_of ts -> once w1 command_of ts r -> once w0 command_of ts r.
Proof.
  intros Hid [Hout Hts] [Hout' Hr]. pose proof (writes_exchange self Hrep) as Hex.
  split; [intros s Hs; eapply (ex_trans _ _ _ _ _ _ Hex); [by apply Hout|by apply Hout']|].
  destruct r as [[[responses|e|]|] w2]; cbn [fst snd] in *; [|intros s Hs; eapply (at_most_once_trans _ _ _ _ _ _ Hex); [by apply Hid|by apply Hts|by apply Hr]
    |done|intros s Hs; eapply (at_most_once_trans _ _ _ _ _ _ Hex); [by apply Hid|by apply Hts|by apply Hr]].
  eapply Forall2_within; [exact Hr|]. intros s answer Hs [Es Hd]. split; [exact Es|]. eapply (at_most_once_done _ _ _ _ _ _ Hex); [by apply Hid|by apply Hts|exact Hd].
Qed.

(** Calling again, with any schedule, keeps the promise relative to the first call. *)
Lemma once_retried (call : list Event -> World -> option (Result (list (nat * ShardResponse))) * World) command_of ts w0 earlier schedule :
  (forall s, s ∈ ts -> command_identity (command_of s) = id) -> (forall schedule w, once w command_of ts (call schedule w)) ->
  once w0 command_of ts (call schedule (fold_left (fun w schedule => (call schedule w).2) earlier w0)).
Proof.
  intros Hid Hcall. eapply once_earlier; [exact Hid| |apply Hcall]. assert (attempted w0 w0 command_of ts) as H0.
  { pose proof (writes_exchange self Hrep) as Hex. split; intros s Hs; [|left]; apply (ex_refl _ _ _ _ _ _ Hex). }
  revert H0. generalize w0 at 2 4. induction earlier as [|schedule' earlier IH]; intros w Hw; [exact Hw|]. cbn [fold_left]. apply IH.
  apply once_attempted. eapply once_earlier; [exact Hid|exact Hw|apply Hcall].
Qed.

(** Every call can still return, whatever happened. *)
Lemma distributed_write_returns points schedule w :
  exists more, is_Some (upsert post self (schedule ++ more) id.1 id.2 points w).1.
Proof.
  unfold upsert. case_bool_decide; [exists []; by eexists|]. change (shard_count self) with n. rewrite route_ok by apply shards_positive.
  rewrite batches_targets, map_map. unfold write_commands.
  set (requests := map _ (targets _ _)). destruct (run_tasks_returns post self "/v1/raft/write" schedule requests w) as [more Hm].
  - intros s q (s' & [= -> ->] & Hs)%list_elem_of_fmap. by eapply targets_valid.
  - exists more. destruct (run_tasks _ _ _ _ _ _) as [r w']. destruct Hm as [x E]. cbn in E |- *. rewrite E. by eexists.
Qed.
(** C29 (distributed_upsert_once). Retrying a distributed upsert is safe. Take any
    number of calls with one client and request identifier - whatever their
    schedules, lost requests, lost answers and errors, and whatever other
    clients write meanwhile. Every shard has decided its part of the batch at
    most once since the first call, and no shard anything else of it; when the
    last call succeeds, each shard that holds a part decided it exactly once,
    and the answers are those decisions, in shard order.  A call never panics
    and can always still return. *)
Theorem distributed_upsert_once points earlier schedule w0 :
  points <> [] ->
  let upsert_ schedule w := upsert post self schedule id.1 id.2 points w in
  once w0 (fun s => UpsertCommand id.1 id.2 (batch_of up_id n points s)) (targets up_id points)
    (upsert_ schedule (fold_left (fun w schedule => (upsert_ schedule w).2) earlier w0)) /\
  forall w, exists more, is_Some (upsert_ (schedule ++ more) w).1.
Proof.
  intros Hp upsert_. split; [|intros w; apply distributed_write_returns]. assert (forall s, command_identity (UpsertCommand id.1 id.2 (batch_of up_id n points s)) = id) as Hid by (intros s; by destruct id).
  apply once_retried; [done|]. intros schedule' w. unfold upsert_, upsert. rewrite bool_decide_eq_false_2 by done.
  change (shard_count self) with n. rewrite route_ok by apply shards_positive. rewrite batches_targets, map_map.
  apply write_commands_once; [apply targets_sorted|]. intros s Hs. split; [by eapply targets_valid|apply Hid].
Qed.

(** The same of distributed deletions. *)
Theorem distributed_delete_once ids earlier schedule w0 :
  ids <> [] -> "" ∉ ids ->
  let delete_ schedule w := delete post self schedule id.1 id.2 ids w in
  once w0 (fun s => DeleteCommand id.1 id.2 (batch_of (fun x => x) n ids s)) (targets (fun x => x) ids)
    (delete_ schedule (fold_left (fun w schedule => (delete_ schedule w).2) earlier w0)).
Proof.
  intros Hne Hempty delete_. assert (forall s, command_identity (DeleteCommand id.1 id.2 (batch_of (fun x => x) n ids s)) = id) as Hid by (intros s; by destruct id).
  apply once_retried; [done|]. intros schedule' w. unfold delete_, delete. rewrite bool_decide_eq_false_2 by done. rewrite existsb_empty.
  rewrite bool_decide_eq_false_2 by done. cbn [orb]. change (shard_count self) with n. rewrite route_ok by apply shards_positive.
  rewrite batches_targets, map_map. apply write_commands_once; [apply targets_sorted|]. intros s Hs. split; [by eapply targets_valid|apply Hid].
Qed.

End Writes.

(** ** Queries *)

Section Queries.
Context `{FloatEnv} (cfg : CollectionConfig).

(** Contents that are only read, as shards. *)
#[local] Instance read_store : ShardStore (gmap string Point) := {|
  sh_config _ := cfg; sh_contents m := m; sh_ok := ids_match; sh_exact _ _ := False;
  sh_upsert m _ := (Err (InvalidQuery "read only"), m); sh_delete m _ := (Err (InvalidQuery "read only"), m);
  sh_search _ _ _ _ _ := Err (InvalidQuery "read only"); sh_flush m := (Err (InvalidQuery "read only"), m); sh_len _ := Err (InvalidQuery "read only")
|}.
#[local] Instance read_laws : ShardLaws (gmap string Point).
Proof. by constructor. Qed.

Context {World : Type} (post : string -> string -> QueryRequest -> World -> Reply ShardSearchResult * World).
Context (self : DistributedCollection) (Hshards : shards self <> []).
Context (q vector : list Z) (k : Z) (f : option Filter) (ef : Z) (Hk : 0 < k <= ef).
Let n : Z := zlen (shards self).

(** An answer of shard [s]: the exact best [k] of points placed on it. *)
Definition answers (s : nat) (m : gmap string Point) (result : ShardSearchResult) : Prop :=
  ids_match m /\ (forall id p, m !! id = Some p -> shard_of n id = s) /\ shard_hits result = exact_hits cfg m q k f.

(** What the shards promise: whatever replica answers, and whenever, it
    answers from points it holds. *)
Definition queried (path : string) : Prop :=
  forall s replicas address w, shards self !! s = Some replicas -> address ∈ addresses replicas ->
    match (post (token self) (url address path) (MkQuery vector k f ef) w).1 with
    | Success (inl result) => exists m, answers s m result
    | _ => True
    end.

Lemma queries_exchange path :
  queried path -> exchange post self path (fun _ _ _ => True) (fun _ _ s _ r => exists m, answers s m r) (fun _ request => request = MkQuery vector k f ef).
Proof.
  intros Hq. constructor; try done. intros s replicas address ? w Hs Ha ->. pose proof (Hq s replicas address w Hs Ha) as H1.
  destruct (post _ _ _ _) as [[[r|e]|status|e] w']; (split; [done|]); [exact H1|by left..].
Qed.

(** The smallest reported index, when all were reported. *)
Definition least_index (results : list ShardSearchResult) (index : option Z) : Prop :=
  match index with
  | Some i => (exists r, r ∈ results /\ applied_index r = Some i) /\ forall r, r ∈ results -> exists j, applied_index r = Some j /\ i <= j
  | None => exists r, r ∈ results /\ applied_index r = None
  end.

Lemma merge_results_spec (results : list ShardSearchResult) :
  results <> [] -> exists index, merge_results k results = MkSearchResult (truncate k (sort_by hit_cmp (concat (map shard_hits results)))) index /\ least_index results index.
Proof.
  intros Hne. unfold merge_results.
  set (step := fun '(all, least, reported) result => _).
  assert (exists least reported, fold_left step results ([], None, true) = (concat (map shard_hits results), least, reported) /\
    (reported = false -> exists r, r ∈ results /\ applied_index r = None) /\
    (reported = true -> forall r, r ∈ results -> exists i j, applied_index r = Some j /\ least = Some i /\ i <= j) /\
    (forall i, least = Some i -> exists r, r ∈ results /\ applied_index r = Some i)) as (least & reported & -> & H1 & H2 & H3).
  { clear Hne. induction results as [|result results IH] using rev_ind; [exists None, true; split_and!; [done|done|set_solver|done]|].
    destruct IH as (least & reported & E & H1 & H2 & H3). rewrite fold_left_app, E. cbn [fold_left]. unfold step at 1.
    rewrite map_app, concat_app. cbn [map concat]. rewrite app_nil_r.
    destruct (applied_index result) as [index|] eqn:Ei.
    - eexists _, reported. split; [reflexivity|]. split; [intros Hr; destruct (H1 Hr) as (r & ? & ?); exists r; set_solver|]. split.
      + intros Hr r [Hin| ->%list_elem_of_singleton]%elem_of_app.
        * destruct (H2 Hr r Hin) as (i & j & Ej & -> & Hij). eexists _, j. split; [done|]. split; [reflexivity|lia].
        * eexists _, index. split; [done|]. split; [reflexivity|]. destruct least; lia.
      + intros i [= <-]. destruct least as [current|]; [|exists result; split; [set_solver|done]].
        destruct (Z.min_spec current index) as [[_ ->]|[_ ->]]; [|exists result; split; [set_solver|done]].
        destruct (H3 current eq_refl) as (r & ? & ?). exists r. set_solver.
    - exists least, false. split; [reflexivity|]. split; [intros _; exists result; set_solver|]. split; [done|].
      intros i Hi. destruct (H3 i Hi) as (r & ? & ?). exists r. set_solver. }
  eexists. split; [reflexivity|]. destruct reported; [|by apply H1]. destruct results as [|r results]; [done|].
  destruct (H2 eq_refl r ltac:(left)) as (i & j & _ & -> & _). split; [by apply H3|]. intros r' Hr'.
  destruct (H2 eq_refl r' Hr') as (i' & j' & Ej' & [= <-] & Hle). by exists j'.
Qed.

Lemma Forall_choose {A B} (P : A -> B -> Prop) l : (forall x, x ∈ l -> exists y, P x y) -> exists ys, Forall2 P l ys.
Proof.
  induction l as [|x l IH]; intros Hl; [by exists []|]. destruct (Hl x ltac:(left)) as [y Hy]. destruct IH as [ys Hys]; [intros z Hz; apply Hl; by right|].
  exists (y :: ys). by constructor.
Qed.

(** The points the shards answered from: shard [s] from the [s]-th. *)
Definition answered_from (results : list ShardSearchResult) (ms : list (gmap string Point)) : Prop :=
  length ms = length (shards self) /\
  exists in_order, in_order ≡ₚ results /\ forall s r m, in_order !! s = Some r -> ms !! s = Some m -> answers s m r.

Lemma merged_exact (responses : list (nat * ShardSearchResult)) :
  map fst responses ≡ₚ seq 0 (length (shards self)) -> (forall s r, (s, r) ∈ responses -> exists m, answers s m r) ->
  exists ms, answered_from (map snd responses) ms /\ ids_match (⋃ ms) /\
    truncate k (sort_by hit_cmp (concat (map shard_hits (map snd responses)))) = exact_hits cfg (⋃ ms) q k f.
Proof.
  intros Hp Hans. set (sorted := sort_by (cmp_on fst Nat.compare) responses).
  assert (map fst sorted = seq 0 (length (shards self))) as Es by (apply sort_shards; [done|apply seq_strongly]).
  assert (sorted ≡ₚ responses) as Hsp by apply sort_by_perm.
  destruct (Forall_choose (fun sr m => answers sr.1 m sr.2) sorted) as [ms Hms]; [intros [s r] Hin; apply Hans; by rewrite <- Hsp|].
  assert (forall s r m, sorted.*2 !! s = Some r -> ms !! s = Some m -> answers s m r) as Hat.
  { intros s r m Hr Hm. apply list_lookup_fmap_Some in Hr as ([s' r'] & -> & Hr). destruct (Forall2_lookup_lr _ _ _ _ _ _ Hms Hr Hm) as (H1 & H2 & H3).
    assert (s' = s) as ->; [|done]. assert (map fst sorted !! s = Some s') as E by (change (map fst ?l) with (fst <$> l); by rewrite list_lookup_fmap, Hr).
    rewrite Es in E. apply lookup_seq in E as [E _]. done. }
  assert (length sorted.*2 = length (shards self)) as Hlen by (rewrite length_fmap, <- (length_map fst), Es; apply length_seq).
  pose proof (Forall2_length _ _ _ Hms) as Hl2. rewrite length_fmap in Hlen.
  assert (sharded_ok (MkSharded cfg ms)) as Hok.
  { assert (zlen ms = n) as Ez by (unfold n, zlen; lia). split; [cbn [Sharding.shards]; rewrite Ez; by apply shards_positive|]. cbn [Sharding.shards]. rewrite Ez.
    intros i m Hm. assert (is_Some (sorted.*2 !! i)) as [r Hr] by (apply lookup_lt_is_Some; rewrite length_fmap; apply lookup_lt_Some in Hm; lia).
    destruct (Hat i r m Hr Hm) as (H1 & H2 & _). by split_and!. }
  pose proof (merge_exact (MkSharded cfg ms) q k f Hok ltac:(lia)) as Hmerge. unfold sharded_contents in Hmerge. cbn [Sharding.shards sharded_config] in Hmerge.
  pose proof (sharded_ids _ Hok) as Hid. unfold sharded_contents in Hid. cbn [Sharding.shards] in Hid. rewrite map_id in Hid, Hmerge.
  exists ms. split; [split; [lia|]; exists sorted.*2; split; [by apply (fmap_Permutation snd)|exact Hat]|]. split; [exact Hid|]. rewrite <- Hmerge. unfold compare_hits. f_equal.
  assert (map shard_hits sorted.*2 = map (fun m => exact_hits cfg m q k f) ms) as Eh.
  { clear - Hms. induction Hms as [|[s r] m l ms (_ & _ & E) _ IH]; [done|]. cbn in *. by rewrite E, IH. }
  symmetry. apply sort_by_perm_eq; [apply _| |].
  - eapply separates_sub; [|apply (selected_separates cfg q _ f Hid)]. intros h (i & l & Hi & Hl)%elem_of_concat_lookup.
    apply list_lookup_fmap_Some in Hi as (m & -> & Hm). apply elem_of_truncate in Hl. rewrite elem_of_sort_by in Hl.
    apply list_elem_of_fmap in Hl as (p & -> & Hsel). apply (list_elem_of_fmap_2 (scored cfg q)).
    pose proof (sharded_selected_perm (MkSharded cfg ms) f Hok) as Hperm. unfold sharded_contents in Hperm. cbn [Sharding.shards] in Hperm.
    rewrite map_id in Hperm. rewrite Hperm. apply elem_of_concat_lookup. exists i, (selected m f). split; [|done]. by apply list_lookup_fmap_Some; exists m.
  - change (map (fun s => exact_hits cfg (sh_contents s) q k f) ms) with (map (fun m => exact_hits cfg m q k f) ms). rewrite <- Eh.
    rewrite <- !flat_map_concat_map. by apply Permutation_flat_map, (fmap_Permutation snd).
Qed.

End Queries.
