(* ===== verification/DistributedDemo.v ===== *)
(** * DistributedDemo: two shards behind an unreliable network

    Shard 0 answers at one address. Shard 1 has two: a request to the first is
    decided but its answer is lost, the second answers. *)

From stdpp Require Import base gmap sets list strings.
From Stdlib Require Import ZArith Lia.
From S2P Require Import RaftLog.
From S2P Require Import Prelude Errors Floats Ranking Metric Filter MetadataIndex Collection CollectionFacts Sharding ShardingFacts.
From S2P Require Import RaftStateMachine RaftReplica Distributed DistributedFacts.

#[local] Existing Instance x86_64_env.

Definition demo_world : Type := Shard * Shard.
Definition empty_shard : Shard := MkAbstract ∅ 0 ∅ tt None.
Definition shard_state (w : demo_world) (s : nat) : Shard := match s with O => w.1 | 1%nat => w.2 | _ => empty_shard end.

Definition demo_post (token url : string) (command : ShardCommand) (w : demo_world) : Reply ShardResponse * demo_world :=
  if decide (url = "http://a:1/v1/raft/write") then
    let '(r, a) := serve demo_config w.1 command in (Success (inl r), (a, w.2))
  else if decide (url = "http://b:1/v1/raft/write") then
    let '(_, a) := serve demo_config w.2 command in (NoResponse "operation timed out", (w.1, a))
  else if decide (url = "https://b:2/v1/raft/write") then
    let '(r, a) := serve demo_config w.2 command in (Success (inl r), (w.1, a))
  else (NoResponse "connection refused", w).

Definition demo_distributed : DistributedCollection := MkDistributed "secret" [MkReplicaSet ["a:1"]; MkReplicaSet ["b:1/"; "https://b:2"]].
Definition demo_request : string * Z := ("client", 1).

Lemma served_alone (w w' : demo_world) s command :
  shard_state w' s = (serve demo_config (shard_state w s) command).2 ->
  decided demo_config shard_state demo_request w w' s command (serve demo_config (shard_state w s) command).1.
Proof.
  intros E. exists [], []. split; [constructor|]. split; [constructor|]. split; [done|]. rewrite E. cbn [app]. by rewrite serve_all_cons.
Qed.

Lemma unchanged (w w' : demo_world) s : shard_state w' s = shard_state w s -> pending demo_config shard_state demo_request w w' s.
Proof. intros E. exists []. split; [constructor|done]. Qed.

Lemma demo_replicated : replicated demo_config demo_post shard_state demo_request demo_distributed.
Proof.
  intros s replicas address command w Hs Ha _. unfold demo_post. destruct s as [|[|s]]; [| |done]; injection Hs as <-; cbn [addresses] in Ha.
  - apply list_elem_of_singleton in Ha as ->. rewrite decide_True by done. pose proof (served_alone w ((serve demo_config w.1 command).2, w.2) 0 command eq_refl) as Hd.
    change (shard_state w 0) with w.1 in Hd. destruct (serve demo_config w.1 command) as [r a].
    split; [intros [|[|t]] Ht; [done|by apply unchanged..]|exact Hd].
  - pose proof (served_alone w (w.1, (serve demo_config w.2 command).2) 1 command eq_refl) as Hd. change (shard_state w 1) with w.2 in Hd.
    assert (address = "b:1/" \/ address = "https://b:2") as [-> | ->] by set_solver.
    + rewrite decide_False, decide_True by done. destruct (serve demo_config w.2 command) as [r a].
      split; [intros [|[|t]] Ht; [by apply unchanged|done|by apply unchanged]|]. right. by exists r.
    + rewrite !decide_False, decide_True by done. destruct (serve demo_config w.2 command) as [r a].
      split; [intros [|[|t]] Ht; [by apply unchanged|done|by apply unchanged]|exact Hd].
Qed.

Definition demo_points : list UpsertPoint := [MkUpsert "a" [1065353216; 0] ∅; MkUpsert "b" [0; 1073741824] ∅; MkUpsert "c" [0; 1065353216] ∅].
Definition demo_start : demo_world := (empty_shard, empty_shard).

(** The first call is abandoned after the lost answer, the second succeeds. *)
Definition demo_abandoned : list Event := [Run 1; Run 0].
Definition demo_completed : list Event := [Run 1; Run 0; Run 1; Join 1; Join 0].

Lemma distributed_upsert_witness :
  let upsert_ schedule w := upsert demo_post demo_distributed schedule "client" 1 demo_points w in
  let result := upsert_ demo_completed (fold_left (fun w schedule => (upsert_ schedule w).2) [demo_abandoned] demo_start) in
  result.1 = Some (Ok [(0%nat, Applied 1); (1%nat, Applied 1)]) /\
  once demo_config shard_state demo_request demo_start (fun s => UpsertCommand "client" 1 (batch_of up_id 2 demo_points s)) [0%nat; 1%nat] result.
Proof.
  intros upsert_ result. split; [vm_compute; reflexivity|].
  assert (shards demo_distributed <> []) as Hs by discriminate. assert (demo_points <> []) as Hp by discriminate.
  exact (proj1 (distributed_upsert_once demo_config demo_post shard_state demo_request demo_distributed demo_replicated Hs demo_points [demo_abandoned] demo_completed demo_start Hp)).
Defined.

Lemma distributed_delete_witness :
  let delete_ schedule w := delete demo_post demo_distributed schedule "client" 1 ["b"] w in
  let result := delete_ demo_completed (fold_left (fun w schedule => (delete_ schedule w).2) [demo_abandoned] demo_start) in
  once demo_config shard_state demo_request demo_start (fun s => DeleteCommand "client" 1 (batch_of (fun x => x) 2 ["b"] s)) [1%nat] result.
Proof.
  intros delete_ result. assert (shards demo_distributed <> []) as Hs by discriminate. assert (["b"] <> []) as Hp by discriminate.
  assert ("" ∉ ["b"]) as He by (apply (bool_decide_unpack _); vm_compute; exact I).
  exact (distributed_delete_once demo_config demo_post shard_state demo_request demo_distributed demo_replicated Hs ["b"] [demo_abandoned] demo_completed demo_start Hp He).
Defined.

(** ** A search of two shards that hold one point each *)

Definition held (s : nat) : gmap string Point :=
  match s with O => {["a" := MkPoint "a" [1065353216; 0] ∅ 1]} | _ => {["b" := MkPoint "b" [0; 1073741824] ∅ 2]} end.

Definition demo_query (token url : string) (request : QueryRequest) (w : unit) : Reply ShardSearchResult * unit :=
  let answer s index := Success (inl (MkShardResult (exact_hits demo_config (held s) (query_vector request) (query_k request) (query_filter request)) (Some index))) in
  if decide (url = "http://a:1/v1/raft/query") then (answer 0%nat 7, w)
  else if decide (url = "https://b:2/v1/raft/query") then (answer 1%nat 5, w)
  else (HttpStatus "503 Service Unavailable", w).

Lemma held_placed s : (s < 2)%nat -> ids_match (held s) /\ forall id p, held s !! id = Some p -> shard_of 2 id = s.
Proof.
  intros Hs. assert (s = 0%nat \/ s = 1%nat) as [-> | ->] by lia; (split; [apply map_Forall_singleton; done|]);
    intros id p Hp; unfold held in Hp; apply lookup_singleton_Some in Hp as [<- _]; by vm_compute.
Qed.

Lemma demo_queried : queried demo_config demo_query demo_distributed [0; 1065353216] [0; 1065353216] 2 None 256 "/v1/raft/query".
Proof.
  intros s replicas address w Hs Ha. unfold demo_query. destruct s as [|[|s]]; [| |done]; injection Hs as <-; cbn [addresses] in Ha.
  - apply list_elem_of_singleton in Ha as ->. rewrite decide_True by done. exists (held 0). destruct (held_placed 0) as [H1 H2]; [lia|]. by split_and!.
  - assert (address = "b:1/" \/ address = "https://b:2") as [-> | ->] by set_solver; [by rewrite !decide_False by done|].
    rewrite decide_False, decide_True by done. exists (held 1). destruct (held_placed 1) as [H1 H2]; [lia|]. by split_and!.
Qed.

