(* ===== verification/RaftNode.v ===== *)
(** * RaftNode: one replica as a network node ([src/src/raft_node.rs])

    The identity file of a node, how it opens its directory, its requests to
    peers, and its HTTP routes.  The consensus itself is the openraft library:
    its calls are the parameters [Consensus], acting on a state that holds the
    replica's state machine. *)

From Stdlib Require Import Ascii.
From stdpp Require Import base gmap sets list strings sorting.
From Stdlib Require Import ZArith Lia.
From S2P Require Import RaftStateMachine RaftLog.
From S2P Require Import Prelude Errors Floats Ranking Metric Filter MetadataIndex Collection Codec Wire Disk DiskFacts Journal Persistence Environment Distributed.
From S2P Require Server.

(** ** The node's identity *)

(** [str::trim]: the encodings of the white space of Unicode. *)
Definition whitespace : list (list byte) :=
  map (map to_u8) [[9]; [10]; [11]; [12]; [13]; [32]; [194; 133]; [194; 160]; [225; 154; 128]; [226; 128; 128]; [226; 128; 129]; [226; 128; 130];
    [226; 128; 131]; [226; 128; 132]; [226; 128; 133]; [226; 128; 134]; [226; 128; 135]; [226; 128; 136]; [226; 128; 137]; [226; 128; 138];
    [226; 128; 168]; [226; 128; 169]; [226; 128; 175]; [226; 129; 159]; [227; 128; 128]].

Fixpoint strip_bytes (prefix bytes : list byte) : option (list byte) :=
  match prefix, bytes with
  | [], _ => Some bytes
  | a :: prefix', b :: bytes' => if decide (a = b) then strip_bytes prefix' bytes' else None
  | _ :: _, [] => None
  end.
Definition strip_any (prefixes : list (list byte)) (bytes : list byte) : option (list byte) :=
  fold_left (fun found prefix => match found with Some _ => found | None => strip_bytes prefix bytes end) prefixes None.
Fixpoint trim_start (prefixes : list (list byte)) (fuel : nat) (bytes : list byte) : list byte :=
  match fuel with
  | O => bytes
  | S fuel' => match strip_any prefixes bytes with Some rest => trim_start prefixes fuel' rest | None => bytes end
  end.
Definition trim (bytes : list byte) : list byte :=
  let started := trim_start whitespace (length bytes) bytes in
  reverse (trim_start (map reverse whitespace) (length started) (reverse started)).

(** What [u64::from_str] says of text that is not a number. *)
Fixpoint digits_error (max acc : Z) (s : string) : string :=
  match s with
  | EmptyString => ""
  | String c s' =>
      match digit c with
      | None => "invalid digit found in string"
      | Some d => if Z.ltb max (acc * 10 + d) then "number too large to fit in target type" else digits_error max (acc * 10 + d) s'
      end
  end.
Definition parse_error (max : Z) (s : string) : string :=
  match s with
  | EmptyString => "cannot parse integer from empty string"
  | String "+" EmptyString => "invalid digit found in string"
  | String "+" digits => digits_error max 0 digits
  | digits => digits_error max 0 digits
  end.

(** [fs::read_to_string] *)
Definition read_to_string (path : string) : io (Result (list byte)) :=
  let*? bytes := read_file path in
  ioret (if utf8_valid bytes then Ok bytes else Err (Io "stream did not contain valid UTF-8")).

Definition persist_node_id (pid id : Z) : io (Result unit) :=
  let*? _ := sync in
  let* present := exists_ "node.id" in
  if present : bool then
    let*? stored := read_to_string "node.id" in
    let stored := string_of_bytes (trim stored) in
    match parse_unsigned U64_MAX stored with
    | None => ioret (Err (CorruptStorage (parse_error U64_MAX stored)))
    | Some stored =>
        if Z.eqb stored id then ioret (Ok tt)
        else ioret (Err (CorruptStorage ("Raft node ID changed from " +:+ fmt_int stored +:+ " to " +:+ fmt_int id)))
    end
  else
    let temporary := ".node.id.tmp-" +:+ fmt_int pid in
    let*? _ := create_truncated temporary in
    let*? _ := append temporary (bytes_of_string (fmt_int id +:+ String "010" EmptyString)) in
    let*? _ := sync in
    let*? _ := rename temporary "node.id" in
    sync.

(** ** Requests to peers *)

Definition MAX_CLIENT_BODY_BYTES : Z := 64 * 1024 * 1024.
Definition MAX_IN_FLIGHT_CLIENT_OPERATIONS : Z := 256.

(** [admission]: the permits nobody holds. *)
Record HttpRaftNetwork : Type := MkNetwork { network_token : string; admission : Z; blocked : gset Z; blocked_poisoned : bool }.

Definition with_client (token : string) : Result HttpRaftNetwork :=
  if String.eqb token "" then Err (InvalidConfig "Raft peer token must not be empty")
  else Ok (MkNetwork token MAX_IN_FLIGHT_CLIENT_OPERATIONS ∅ false).

Definition set_blocked (self : HttpRaftNetwork) (target : Z) (block : bool) : Result HttpRaftNetwork :=
  if blocked_poisoned self then Err (Concurrency "Raft network fault lock is poisoned")
  else Ok (MkNetwork (network_token self) (admission self) (if block then {[target]} ∪ blocked self else blocked self ∖ {[target]}) (blocked_poisoned self)).

(** [RPCError] *)
Inductive RpcError (Remote : Type) : Type :=
| Unreachable (error : string)
| NetworkError (error : string)
| RemoteError (target : Z) (error : Remote).
Arguments Unreachable {_} _.
Arguments NetworkError {_} _.
Arguments RemoteError {_} _ _.

(** What the HTTP client makes of a request: no answer, a status that is not a
    success, or a success whose body is decoded. *)
Inductive Exchange (Body : Type) : Type :=
| Failed (connecting : bool) (error : string)
| Refused (status : string)
| Answered (body : Body + string).
Arguments Failed {_} _ _.
Arguments Refused {_} _.
Arguments Answered {_} _.

Section Send.
Context {World Req Resp Remote : Type} (post : string -> string -> Req -> World -> Exchange (Resp + Remote) * World).

Definition send (self : HttpRaftNetwork) (target : Z) (addr path : string) (request : Req) (w : World) : (Resp + RpcError Remote) * World :=
  if blocked_poisoned self then (inr (NetworkError "Raft network fault lock is poisoned"), w)
  else if bool_decide (target ∈ blocked self) then (inr (Unreachable ("peer " +:+ fmt_int target +:+ " is blocked by fault injection")), w)
  else
    let '(exchange, w) := post (network_token self) (url addr path) request w in
    (match exchange with
     | Failed true error => inr (Unreachable error)
     | Failed false error => inr (NetworkError error)
     | Refused status => inr (NetworkError ("peer returned HTTP " +:+ status))
     | Answered (inr error) => inr (NetworkError error)
     | Answered (inl (inl response)) => inl response
     | Answered (inl (inr error)) => inr (RemoteError target error)
     end, w).
(** A peer's connection: what it is asked, each at its path. *)
Record HttpRaftConnection : Type := MkConnection { connection_network : HttpRaftNetwork; target : Z; address : string }.
Definition new_client (self : HttpRaftNetwork) (target : Z) (addr : string) : HttpRaftConnection := MkConnection self target addr.

Definition append_entries (self : HttpRaftConnection) (request : Req) (w : World) : (Resp + RpcError Remote) * World :=
  send (connection_network self) (target self) (address self) "/internal/raft/append" request w.
Definition install_snapshot (self : HttpRaftConnection) (request : Req) (w : World) : (Resp + RpcError Remote) * World :=
  send (connection_network self) (target self) (address self) "/internal/raft/snapshot" request w.
Definition vote (self : HttpRaftConnection) (request : Req) (w : World) : (Resp + RpcError Remote) * World :=
  send (connection_network self) (target self) (address self) "/internal/raft/vote" request w.
End Send.

(** ** Opening a node *)

Record RaftNode : Type := MkNode { node_id : Z; network : HttpRaftNetwork; node_token : string; collection_config : CollectionConfig }.

(** The node's directory, and in it those of the log and of the state machine. *)
Record NodeDisk : Type := MkNodeDisk { own : Dir; log : Dir; state : Dir }.

(** A computation on one of the three. *)
Definition part {A : Type} (get : NodeDisk -> Dir) (put : Dir -> NodeDisk -> NodeDisk) (m : io A) : io_of NodeDisk A := fun w =>
  match m (MkWorld (get (disk w)) (script w)) with
  | Returned a w' => Returned a (MkWorld (put (disk w') (disk w)) (script w'))
  | Crashed d => Crashed (put d (disk w))
  end.
Definition in_own {A : Type} : io A -> io_of NodeDisk A := part own (fun d disk => MkNodeDisk d (log disk) (state disk)).
Definition in_log {A : Type} : io A -> io_of NodeDisk A := part log (fun d disk => MkNodeDisk (own disk) d (state disk)).
Definition in_state {A : Type} : io A -> io_of NodeDisk A := part state (fun d disk => MkNodeDisk (own disk) (log disk) d).

Section Open.
Context `{FloatEnv} (avx2 : bool).
Context {Vote LogId Membership StoredMembership SnapshotMeta Entry RaftConfig R : Type}.
Context (log_index : LogId -> Z) (get_log_id : Entry -> LogId) (stored_membership_default : StoredMembership).
Context (stored_membership_new : option LogId -> Membership -> StoredMembership).
Context `{Json (JournalRecord Vote LogId Entry), Json (JournalState Vote LogId Entry)}.
Context `{Json (AppliedRecord LogId Membership), Json (StateSnapshot LogId StoredMembership), Json (StoredSnapshot SnapshotMeta), Json (SnapshotMeta * list byte)}.
(** [Config::validate] and [Raft::new]: the consensus is given the node's id,
    its network and the two stores, and may write to these. *)
Context (validate : RaftConfig -> result string RaftConfig).
Context (raft_new : Z -> RaftConfig -> HttpRaftNetwork -> JournalState Vote LogId Entry -> StateInner LogId StoredMembership SnapshotMeta ->
         io_of NodeDisk (result string R)).

Definition open_with_http_client (pid : Z) (workers : nat) (id : Z) (collection_config : CollectionConfig) (peer_token : string) (raft_config : RaftConfig)
    : io_of NodeDisk (Result (RaftNode * R)) :=
  let*? _ := in_own (persist_node_id pid id) in
  let*? network := iolift (with_client peer_token) in
  let*? log_store := in_log (RaftLog.open log_index get_log_id) in
  let*? state_machine := in_state (RaftStateMachine.open avx2 (SnapshotMeta := SnapshotMeta) log_index stored_membership_new stored_membership_default workers collection_config) in
  let*? config := iolift (map_err InvalidConfiguration (validate raft_config)) in
  let* raft := raft_new id config network log_store state_machine in
  ioret (let? raft := map_err Concurrency raft in Ok (MkNode id network peer_token collection_config, raft)).

(** The client is built first ([crate::build_http_client]). *)
Definition open (build_http_client : Result unit) (pid : Z) (workers : nat) (id : Z) (collection_config : CollectionConfig) (peer_token : string)
    (raft_config : RaftConfig) : io_of NodeDisk (Result (RaftNode * R)) :=
  let*? _ := iolift build_http_client in
  open_with_http_client pid workers id collection_config peer_token raft_config.
End Open.

(** ** The node *)

(** The calls of the consensus library on the state [R] of the replica and its
    peers; an error is its text. *)
Class Consensus (R : Type) := {
  LogId : Type; StoredMembership : Type; SnapshotMeta : Type;
  log_index : LogId -> Z;
  machine : R -> StateInner LogId StoredMembership SnapshotMeta;
  set_machine : StateInner LogId StoredMembership SnapshotMeta -> R -> R;
  raft_initialize : gmap Z string -> R -> result string unit * R;
  raft_client_write : ShardCommand -> R -> result string ShardResponse * R;
  raft_add_learner : Z -> string -> bool -> R -> result string unit * R;
  raft_change_membership : gset Z -> bool -> R -> result string unit * R;
  raft_ensure_linearizable : R -> result string unit * R;
  VoteRequest : Type; VoteResponse : Type; raft_vote : VoteRequest -> R -> VoteResponse * R;
  AppendRequest : Type; AppendResponse : Type; raft_append_entries : AppendRequest -> R -> AppendResponse * R;
  SnapshotRequest : Type; SnapshotResponse : Type; raft_install_snapshot : SnapshotRequest -> R -> SnapshotResponse * R;
  RaftMetrics : Type;
  raft_metrics : R -> RaftMetrics;
  raft_running : R -> bool
}.

Section Node.
Context `{FloatEnv} (avx2 : bool) (workers : nat) {R : Type} `{Consensus R}.
(** Entries are applied between reading the index and the search, and while
    the search rebuilds its index. *)
Context (applies : R -> R).
Context (interleaved : StateInner LogId StoredMembership SnapshotMeta -> StateInner LogId StoredMembership SnapshotMeta).

Definition concurrency {A : Type} (r : result string A) : Result A := map_err Concurrency r.

Definition set_peer_blocked (self : RaftNode) (target : Z) (blocked : bool) : Result RaftNode :=
  let? network := set_blocked (network self) target blocked in
  Ok (MkNode (node_id self) network (node_token self) (collection_config self)).

Definition initialize (self : RaftNode) (members : gmap Z string) (r : R) : Result unit * R :=
  let '(result, r) := raft_initialize members r in (concurrency result, r).

Definition limit_reached {A : Type} : Result A := Err (ResourceExhausted "Raft client operation limit reached").

Definition write (self : RaftNode) (command : ShardCommand) (r : R) : Result ShardResponse * R :=
  if Z.eqb (admission (network self)) 0 then (limit_reached, r)
  else let '(result, r) := raft_client_write command r in (concurrency result, r).

Definition add_learner (self : RaftNode) (id : Z) (address : string) (r : R) : Result unit * R :=
  let '(result, r) := raft_add_learner id address true r in (concurrency result, r).

Definition change_membership (self : RaftNode) (voters : gset Z) (retain : bool) (r : R) : Result unit * R :=
  let '(result, r) := raft_change_membership voters retain r in (concurrency result, r).

Definition search_indexed (self : RaftNode) (query : list Z) (k : Z) (filter : option Filter) (ef_search : Z) (linearizable : bool) (r : R)
    : Result ShardSearchResult * R :=
  if Z.eqb (admission (network self)) 0 then (limit_reached, r)
  else
    let '(confirmed, r) := if linearizable then raft_ensure_linearizable r else (Ok tt, r) in
    match confirmed with
    | Ok _ =>
        let index := RaftStateMachine.applied_index log_index (machine r) in
        let r := applies r in
        match RaftStateMachine.search_with_ef avx2 workers (collection_config self) interleaved (machine r) query k filter ef_search with
        | Ok (hits, state) => (Ok (MkShardResult hits index), set_machine state r)
        | Err e => (Err e, r)
        | Panic => (Panic, r)
        end
    | Err error => (Err (Concurrency error), r)
    | Panic => (Panic, r)
    end.

Definition search_with_ef (self : RaftNode) (query : list Z) (k : Z) (filter : option Filter) (ef_search : Z) (r : R) : Result (list SearchHit) * R :=
  let '(result, r) := search_indexed self query k filter ef_search true r in
  (let? found := result in Ok (shard_hits found), r).

Definition default_ef (k : Z) : Z := Z.max (saturating_mul k 16) 256.
Definition search (self : RaftNode) (query : list Z) (k : Z) (filter : option Filter) (r : R) : Result (list SearchHit) * R :=
  search_with_ef self query k filter (default_ef k) r.

Definition local_len (r : R) : Z := RaftStateMachine.len (machine r).

(** ** Routes *)

Definition constant_time_equal := Server.constant_time_equal.
(** [header]: the header as text, when it is there and is text. *)
Definition authorized (header : option string) (token : string) : bool :=
  match header with Some provided => constant_time_equal (bytes_of_string provided) (bytes_of_string token) | None => false end.

Record QueryRequest : Type := MkRaftQuery { query_vector : list Z; query_k : Z; query_filter : option Filter; query_ef_search : option Z }.

Inductive Request : Type :=
| InitializeCluster (members : gmap Z string)
| ClientWrite (command : ShardCommand)
| LinearizableQuery (request : QueryRequest)
| StaleQuery (request : QueryRequest)
| AddLearner (id : Z) (address : string)
| ChangeMembership (voters : gset Z) (retain_removed_as_learners : bool)
| RaftStatus
| Health
| Ready
| Vote (request : VoteRequest)
| Append (request : AppendRequest)
| Snapshot (request : SnapshotRequest).

Inductive Answer : Type :=
| NoContent
| Written (response : ShardResponse)
| Found (result : ShardSearchResult)
| Metrics (metrics : RaftMetrics)
| Status (code : Z)
| Voted (response : VoteResponse)
| Appended (response : AppendResponse)
| Installed (response : SnapshotResponse)
| Failure (code : Z) (error : string).

Definition error_status (error : Error) : Z :=
  match error with
  | InvalidConfig _ | InvalidConfiguration _ | InvalidDimension _ _ | InvalidQuery _ | InvalidVector _ => 400
  | ResourceExhausted _ => 429
  | _ => 503
  end.
Definition api_error (error : Error) : Answer := Failure (error_status error) (to_string error).
Definition unauthorized : Answer := Failure 401 "unauthorized".

(** What a handler answers; without the token it refuses and does nothing. *)
Definition Handled : Type := (result unit Answer * R)%type.
Definition guarded (self : RaftNode) (header : option string) (refusal : Answer) (r : R) (k : Handled) : Handled :=
  if negb (authorized header (node_token self)) then (Ok refusal, r) else k.
Definition responding {A : Type} (answer : A -> Answer) (outcome : Result A * R) : Handled :=
  (match outcome.1 with Ok value => Ok (answer value) | Err error => Ok (api_error error) | Panic => Panic end, outcome.2).

Definition initialize_cluster (self : RaftNode) (header : option string) (members : gmap Z string) (r : R) : Handled :=
  guarded self header unauthorized r (responding (fun _ => NoContent) (initialize self members r)).
Definition client_write (self : RaftNode) (header : option string) (command : ShardCommand) (r : R) : Handled :=
  guarded self header unauthorized r (responding Written (write self command r)).

Definition effective_ef (request : QueryRequest) : Z := match query_ef_search request with Some ef => ef | None => default_ef (query_k request) end.
Definition linearizable_query (self : RaftNode) (header : option string) (request : QueryRequest) (r : R) : Handled :=
  guarded self header unauthorized r (responding Found
    (search_indexed self (query_vector request) (query_k request) (query_filter request) (effective_ef request) true r)).
Definition stale_query (self : RaftNode) (header : option string) (request : QueryRequest) (r : R) : Handled :=
  guarded self header unauthorized r (responding Found
    (search_indexed self (query_vector request) (query_k request) (query_filter request) (effective_ef request) false r)).

Definition add_learner_handler (self : RaftNode) (header : option string) (id : Z) (address : string) (r : R) : Handled :=
  guarded self header unauthorized r (responding (fun _ => NoContent) (add_learner self id address r)).
Definition change_membership_handler (self : RaftNode) (header : option string) (voters : gset Z) (retain : bool) (r : R) : Handled :=
  guarded self header unauthorized r (responding (fun _ => NoContent) (change_membership self voters retain r)).
Definition raft_status (self : RaftNode) (header : option string) (r : R) : Handled :=
  guarded self header unauthorized r (Ok (Metrics (raft_metrics r)), r).
Definition ready (r : R) : Handled := (Ok (Status (if raft_running r then 200 else 503)), r).

Definition peer {A : Type} (answer : A -> Answer) (outcome : A * R) : Handled := (Ok (answer outcome.1), outcome.2).
Definition vote_handler (self : RaftNode) (header : option string) (request : VoteRequest) (r : R) : Handled :=
  guarded self header (Status 401) r (peer Voted (raft_vote request r)).
Definition append_handler (self : RaftNode) (header : option string) (request : AppendRequest) (r : R) : Handled :=
  guarded self header (Status 401) r (peer Appended (raft_append_entries request r)).
Definition snapshot_handler (self : RaftNode) (header : option string) (request : SnapshotRequest) (r : R) : Handled :=
  guarded self header (Status 401) r (peer Installed (raft_install_snapshot request r)).

Definition raft_router (self : RaftNode) (header : option string) (request : Request) (r : R) : Handled :=
  match request with
  | Vote request => vote_handler self header request r
  | Append request => append_handler self header request r
  | Snapshot request => snapshot_handler self header request r
  | InitializeCluster members => initialize_cluster self header members r
  | ClientWrite command => client_write self header command r
  | LinearizableQuery request => linearizable_query self header request r
  | StaleQuery request => stale_query self header request r
  | AddLearner id address => add_learner_handler self header id address r
  | ChangeMembership voters retain => change_membership_handler self header voters retain r
  | RaftStatus => raft_status self header r
  | Health => (Ok (Status 200), r)
  | Ready => ready r
  end.
End Node.
