(* ===== verification/RaftNodeFacts.v ===== *)
(** * RaftNodeFacts: a node keeps its identity, and its token guards it *)

From Stdlib Require Import Ascii.
From stdpp Require Import base gmap sets list strings sorting pretty.
From Stdlib Require Import ZArith Lia.
From S2P Require Import RaftStateMachine RaftLog.
From S2P Require Import Prelude Errors Floats Metric Filter Collection Codec Disk DiskFacts ManifestFacts Environment Distributed RaftNode.
From S2P Require ServerFacts.

(** ** Reading back the identity *)

Definition digit_byte (b : byte) : bool := Z.leb 48 (u8 b) && Z.leb (u8 b) 57.

Lemma utf8_ascii l : Forall (fun b => u8 b <= 127) l -> utf8_valid l = true.
Proof.
  induction 1 as [|b l Hb _ IH]; [done|]. cbn [utf8_valid]. unfold in_range8 at 1. pose proof (u8_range b).
  by rewrite (proj2 (Z.leb_le _ _)), (proj2 (Z.leb_le _ _)) by lia.
Qed.

Lemma digits_bytes s : digits_only s = true -> Forall (fun b => digit_byte b = true) (bytes_of_string s).
Proof.
  induction s as [|c s IH]; [constructor|]. cbn [digits_only]. intros [Hc Hs]%andb_true_iff. rewrite bytes_of_string_cons. constructor; [|by apply IH].
  unfold digit_byte. rewrite u8_byte_of_ascii. unfold digit in Hc. by destruct (Z.leb 48 _ && _).
Qed.

Lemma strip_any_None prefixes bytes : Forall (fun p => strip_bytes p bytes = None) prefixes -> strip_any prefixes bytes = None.
Proof. unfold strip_any. induction 1 as [|p prefixes Hp _ IH]; [done|]. cbn [fold_left]. by rewrite Hp. Qed.

(** No digit begins or ends the encoding of white space. *)
Definition starts_apart (prefix : list byte) : bool := match prefix with b :: _ => negb (digit_byte b) | [] => false end.
Lemma strip_digit prefixes b bytes :
  forallb starts_apart prefixes = true -> digit_byte b = true -> strip_any prefixes (b :: bytes) = None.
Proof.
  intros Hp Hb. apply strip_any_None, Forall_forall. intros p Hin. apply list_elem_of_In in Hin. rewrite forallb_forall in Hp. specialize (Hp p Hin).
  destruct p as [|a p]; [done|]. cbn in *. rewrite decide_False; [done|]. intros ->. by rewrite Hb in Hp.
Qed.

Lemma trim_digits l : l <> [] -> Forall (fun b => digit_byte b = true) l -> trim (l ++ [x0a]) = l.
Proof.
  intros Hne Hd. unfold trim.
  assert (trim_start whitespace (length (l ++ [x0a])) (l ++ [x0a]) = l ++ [x0a]) as ->.
  { destruct l as [|b l]; [done|]. apply Forall_cons in Hd as [Hb _]. cbn [app length trim_start]. rewrite strip_digit by (reflexivity || done). done. }
  rewrite reverse_app, length_app. cbn [length reverse rev_append app]. rewrite Nat.add_1_r. cbn [trim_start].
  assert (forall rest, strip_any (map reverse whitespace) (x0a :: rest) = Some rest) as E by reflexivity.
  change (reverse [x0a] ++ reverse l) with (x0a :: reverse l). rewrite E.
  assert (reverse l <> []) as Hr by (intros Hr; apply (f_equal reverse) in Hr; by rewrite reverse_involutive in Hr).
  assert (Forall (fun b => digit_byte b = true) (reverse l)) as Hdr by (by apply Forall_reverse).
  assert (trim_start (map reverse whitespace) (length l) (reverse l) = reverse l) as ->; [|apply reverse_involutive].
  destruct (reverse l) as [|b l'] eqn:El; [done|]. apply Forall_cons in Hdr as [Hb _]. destruct l as [|c l]; [done|]. cbn [length trim_start].
  by rewrite strip_digit.
Qed.

Lemma fmt_int_nonempty z : fmt_int z <> "".
Proof.
  unfold fmt_int. destruct z as [|p|p]; [done| |done]. change (pretty (Z.pos p)) with (pretty (N.pos p)). unfold pretty, pretty_N.
  rewrite decide_False by done. rewrite pretty_N_go_step by lia. intros E. apply (f_equal String.length) in E. revert E.
  generalize (pretty_N_char (N.pos p mod 10)) as c. intros c E.
  assert (forall x s, (String.length s <= String.length (pretty_N_go x s))%nat) as Hl.
  { intros x. induction (N.lt_wf_0 x) as [x _ IH]. intros s. destruct (decide (x = 0%N)) as [->|Hx]; [by rewrite pretty_N_go_0|].
    rewrite pretty_N_go_step by lia. etransitivity; [|apply IH, N.div_lt; lia]. cbn. lia. }
  pose proof (Hl (N.pos p / 10)%N (String c "")) as H1. cbn in H1, E. lia.
Qed.

(** The contents of the identity file. *)
Definition id_file (id : Z) : list byte := bytes_of_string (fmt_int id +:+ String "010" EmptyString).

Lemma bytes_of_string_app a b : bytes_of_string (a +:+ b) = bytes_of_string a ++ bytes_of_string b.
Proof. induction a as [|c a IH]; [done|]. change (String c a +:+ b) with (String c (a +:+ b)). rewrite !bytes_of_string_cons, IH. done. Qed.

Lemma id_file_trim id : 0 <= id -> string_of_bytes (trim (id_file id)) = fmt_int id.
Proof.
  intros Hid. unfold id_file. rewrite bytes_of_string_app. change (bytes_of_string (String "010" EmptyString)) with [x0a].
  rewrite trim_digits; [apply string_of_bytes_of_string| |by apply digits_bytes, fmt_int_digits].
  pose proof (fmt_int_nonempty id). by destruct (fmt_int id).
Qed.

Lemma id_file_utf8 id : 0 <= id -> utf8_valid (id_file id) = true.
Proof.
  intros Hid. apply utf8_ascii. unfold id_file. rewrite bytes_of_string_app, Forall_app. split; [|by repeat constructor].
  eapply Forall_impl; [apply digits_bytes, fmt_int_digits, Hid|]. unfold digit_byte. intros b [_ Hb%Z.leb_le]%andb_true_iff. lia.
Qed.

(** ** One start of a node *)

Definition node_id_free (d : Dir) : Prop := d !! "node.id" = None.
Definition node_id_is (id : Z) (d : Dir) : Prop := d !! "node.id" = Some (id_file id).

Lemma persist_first pid id d :
  node_id_free d ->
  specifies (persist_node_id pid id) d
    (fun r d' => match r with Ok _ => node_id_is id d' | Err _ => node_id_free d' \/ node_id_is id d' | Panic => False end)
    (fun d' => node_id_free d' \/ node_id_is id d').
Proof.
  intros Hd. unfold persist_node_id. apply spec_sync_then; [by left|by left|].
  eapply spec_bind; [apply (spec_exists _ "node.id" d (fun b d' => b = false /\ d' = d)); by rewrite Hd|]. intros b d' [-> ->].
  set (temporary := ".node.id.tmp-" +:+ fmt_int pid).
  assert (forall bytes, node_id_free (<[temporary := bytes]> d)) as Hf by (intros; unfold node_id_free; by rewrite lookup_insert_ne).
  apply spec_create_truncated_then; [by left|by left|].
  assert (forall b1 b2, node_id_free (appended temporary b1 (<[temporary := b2]> d))) as Ha by (intros; unfold appended; rewrite insert_insert_eq; apply Hf).
  apply spec_append_then; [intros; by left|intros; by left|]. apply spec_sync_then; [by left|by left|].
  apply spec_rename_then; [by left|by left|]. intros bytes Eb. rewrite lookup_appended, lookup_insert_eq in Eb. injection Eb as <-.
  assert (forall rest : Dir, node_id_is id (<["node.id" := id_file id]> rest)) as Hi by (intros; unfold node_id_is; apply lookup_insert_eq).
  apply spec_sync; [by right|by right|apply Hi].
Qed.

Lemma persist_again pid id id0 d :
  0 <= id0 <= U64_MAX -> node_id_is id0 d ->
  specifies (persist_node_id pid id) d (fun r d' => d' = d /\ (forall x, r = Ok x -> id = id0) /\ r <> Panic) (fun d' => d' = d).
Proof.
  intros Hid Hd. unfold persist_node_id. apply spec_sync_then; [done|done|].
  eapply spec_bind; [apply (spec_exists _ "node.id" d (fun b d' => b = true /\ d' = d)); by rewrite Hd|]. intros b d' [-> ->].
  eapply (spec_try _ _ _ (fun bytes d' => bytes = id_file id0 /\ d' = d)).
  - unfold read_to_string. eapply (spec_try _ _ _ (fun bytes d' => bytes = id_file id0 /\ d' = d)).
    + by apply (spec_read _ "node.id" d (id_file id0)).
    + intros bytes d' [-> ->]. apply spec_ret. by rewrite id_file_utf8 by lia.
  - intros bytes d' [-> ->]. rewrite id_file_trim, parse_fmt_int by lia. destruct (Z.eqb_spec id0 id); apply spec_ret; by split_and!.
Qed.

(** Starts of the node, one after the other, each with its process, the id it
    is given and its faults; the ids of those that succeed. *)
Definition left_by (outcome : Outcome (Result unit)) : Dir := match outcome with Returned _ w => disk w | Crashed d => d end.
Definition succeeded (id : Z) (outcome : Outcome (Result unit)) : list Z := match outcome with Returned (Ok _) _ => [id] | _ => [] end.

Inductive starts : Dir -> list Z -> Dir -> Prop :=
| starts_none d : starts d [] d
| starts_next d pid id s ids d' :
    0 <= id <= U64_MAX ->
    let outcome := persist_node_id pid id (MkWorld d s) in
    starts (left_by outcome) ids d' -> starts d (succeeded id outcome ++ ids) d'.

Lemma starts_fixed d ids d' id0 : 0 <= id0 <= U64_MAX -> node_id_is id0 d -> starts d ids d' -> Forall (fun id => id = id0) ids.
Proof.
  intros Hid Hd Hs. induction Hs as [d|d pid id s ids d' Hr outcome Hs IH]; [constructor|].
  pose proof (persist_again pid id id0 d Hid Hd s) as Hp. fold outcome in Hp. destruct outcome as [r w|d1]; cbn [left_by succeeded] in *.
  - destruct Hp as (E & Hok & _). rewrite E in *. destruct r as [x|e|]; cbn [app]; [constructor; [by eapply Hok|by apply IH]|by apply IH..].
  - subst d1. by apply IH.
Qed.

Lemma starts_keep d ids d' id0 : starts d ids d' -> 0 <= id0 <= U64_MAX -> node_id_is id0 d -> node_id_is id0 d'.
Proof.
  intros Hs Hid. induction Hs as [d|d pid id s ids d' Hr outcome Hs IH]; [done|]. intros Hd. apply IH.
  pose proof (persist_again pid id id0 d Hid Hd s) as Hp. fold outcome in Hp. destruct outcome; cbn in *; [by destruct Hp as (-> & _)|by subst].
Qed.

Definition identity (ids : list Z) (d : Dir) (id : Z) : Prop := 0 <= id <= U64_MAX /\ node_id_is id d /\ Forall (fun id' => id' = id) ids.

Lemma starts_identity d ids d' :
  node_id_free d -> starts d ids d' -> (node_id_free d' /\ ids = []) \/ exists id, identity ids d' id.
Proof.
  intros Hd Hs. induction Hs as [d|d pid id s ids d' Hr outcome Hs IH]; [by left|].
  pose proof (persist_first pid id d Hd s) as Hp. fold outcome in Hp.
  assert (node_id_is id (left_by outcome) -> exists id0, identity (succeeded id outcome ++ ids) d' id0) as Hsome.
  { intros Hi. exists id. split; [done|]. split; [by eapply starts_keep|]. apply Forall_app. split; [|by eapply starts_fixed]. destruct outcome as [[]|]; by repeat constructor. }
  destruct outcome as [[x|e|] w|d1]; cbn [left_by succeeded app] in *; [right; by apply Hsome| |done|].
  all: destruct Hp as [Hf|Hi]; [by apply IH|right; by apply Hsome].
Qed.

Lemma persist_runs pid id d : 0 <= id <= U64_MAX -> node_id_is id d -> runs (persist_node_id pid id) d (Ok tt) d.
Proof.
  intros Hid Hd. assert (runs (read_to_string "node.id") d (Ok (id_file id)) d) as Hread.
  { eapply (runs_try _ _ _ (id_file id) d); [unfold runs, read_file, effect; cbn [script disk]; by rewrite Hd|]. by rewrite id_file_utf8 by lia. }
  unfold persist_node_id. eapply runs_try; [done|]. unfold runs, iobind, exists_. cbn [disk].
  rewrite bool_decide_eq_true_2 by (by rewrite Hd).
  rewrite (runs_step _ _ _ _ _ Hread), id_file_trim, parse_fmt_int by lia. by rewrite Z.eqb_refl.
Qed.

(** A node's directory belongs to one identity: whatever
    fails or wherever the process dies in any start, all starts that succeed
    were given the same id; without faults every further start with that id
    succeeds; and no start panics. *)
Theorem node_identity d ids d' :
  node_id_free d -> starts d ids d' ->
  (forall a b, a ∈ ids -> b ∈ ids -> a = b) /\
  (forall id pid, id ∈ ids -> exists w, persist_node_id pid id (MkWorld d' []) = Returned (Ok tt) w) /\
  forall id pid s, match persist_node_id pid id (MkWorld d' s) with Returned Panic _ => False | _ => True end.
Proof.
  intros Hd Hs. destruct (starts_identity d ids d' Hd Hs) as [[Hf ->]|(id0 & Hid & Hi & Hall)].
  - split; [by intros a b Ha%elem_of_nil|]. split; [by intros id pid Ha%elem_of_nil|]. intros id pid s.
    pose proof (persist_first pid id d' Hf s) as Hp. by destruct (persist_node_id pid id _) as [[]|].
  - rewrite Forall_forall in Hall. split; [intros a b Ha Hb; by rewrite (Hall a Ha), (Hall b Hb)|]. split.
    + intros id pid Hin. rewrite (Hall id Hin). exists (MkWorld d' []). by apply persist_runs.
    + intros id pid s. pose proof (persist_again pid id id0 d' Hid Hi s) as Hp. destruct (persist_node_id pid id _) as [[]|]; [done..| |done]. by destruct Hp as (_ & _ & ?).
Qed.

(** Two starts: the first dies in the write of the file, the second succeeds. *)
Lemma node_identity_witness :
  exists d', starts ∅ [7] d' /\ exists w, persist_node_id 2 7 (MkWorld d' []) = Returned (Ok tt) w.
Proof.
  assert (exists d', starts ∅ [7] d') as (d' & Hs).
  { eexists. change [7] with (succeeded 7 (persist_node_id 1 7 (MkWorld ∅ [Proceed; Proceed; Crashes 1])) ++ succeeded 7 (persist_node_id 2 7 (MkWorld (left_by (persist_node_id 1 7 (MkWorld ∅ [Proceed; Proceed; Crashes 1]))) [])) ++ []).
    apply starts_next; [vm_compute; split; discriminate|]. apply starts_next; [vm_compute; split; discriminate|]. constructor. }
  exists d'. split; [exact Hs|]. destruct (node_identity ∅ [7] d' (lookup_empty "node.id") Hs) as (_ & Hrun & _). apply Hrun. by left.
Defined.

(** ** Authorization *)

Definition public `{Consensus R} (request : RaftNode.Request) : bool := match request with RaftNode.Health | RaftNode.Ready => true | _ => false end.
Definition of_peer `{Consensus R} (request : RaftNode.Request) : bool := match request with RaftNode.Vote _ | RaftNode.Append _ | RaftNode.Snapshot _ => true | _ => false end.

(** A request to a node - of a client or of a
    peer - whose token header is not exactly the node's token is answered 401
    and reaches neither the consensus nor the state machine. *)
Theorem raft_unauthorized_untouched `{FloatEnv} avx2 workers `{Consensus R} (applies : R -> R)
    (interleaved : StateInner LogId StoredMembership SnapshotMeta -> StateInner LogId StoredMembership SnapshotMeta) (self : RaftNode) header (request : RaftNode.Request) (r : R) :
  header <> Some (node_token self) -> public request = false ->
  raft_router avx2 workers applies interleaved self header request r =
    (Ok (if of_peer request then Status 401 else Failure 401 "unauthorized"), r).
Proof.
  intros Hh Hp. assert (authorized header (node_token self) = false) as E.
  { unfold authorized, RaftNode.constant_time_equal. destruct header as [provided|]; [|done]. apply not_true_iff_false.
    intros Ec%ServerFacts.constant_time_equal_spec%ServerFacts.bytes_of_string_inj. by subst. }
  destruct request; try discriminate Hp; cbn -[authorized];
    unfold initialize_cluster, client_write, linearizable_query, stale_query, add_learner_handler, change_membership_handler, raft_status,
      vote_handler, append_handler, snapshot_handler, guarded; by rewrite E.
Qed.

(** A consensus of one replica that refuses everything. *)
Definition demo_machine : StateInner Z unit unit :=
  MkInner (MkReplica (MkCollection (MkConfig 2 Cosine) ∅ 0) None tt ∅ ∅) None None None.
#[local] Instance demo_consensus : Consensus (StateInner Z unit unit) :=
  {| LogId := Z; StoredMembership := unit; SnapshotMeta := unit; log_index := fun i => i; machine := fun r => r; set_machine := fun s _ => s;
     raft_initialize := fun _ r => (Err "not a leader", r); raft_client_write := fun _ r => (Err "not a leader", r);
     raft_add_learner := fun _ _ _ r => (Err "not a leader", r); raft_change_membership := fun _ _ r => (Err "not a leader", r);
     raft_ensure_linearizable := fun r => (Err "not a leader", r);
     VoteRequest := unit; VoteResponse := unit; raft_vote := fun _ r => (tt, r);
     AppendRequest := unit; AppendResponse := unit; raft_append_entries := fun _ r => (tt, r);
     SnapshotRequest := unit; SnapshotResponse := unit; raft_install_snapshot := fun _ r => (tt, r);
     RaftMetrics := unit; raft_metrics := fun _ => tt; raft_running := fun _ => true |}.
Definition demo_node : RaftNode := MkNode 1 (MkNetwork "secret" 256 ∅ false) "secret" (MkConfig 2 Cosine).

Lemma raft_unauthorized_witness :
  raft_router (H := x86_64_env) true 2 (fun r => r) (fun s => s) demo_node (Some "secreT") (ClientWrite (DeleteCommand "client" 1 ["a"])) demo_machine =
    (Ok (Failure 401 "unauthorized"), demo_machine).
Proof.
  apply (@raft_unauthorized_untouched x86_64_env true 2 (StateInner Z unit unit) demo_consensus (fun r => r) (fun s => s) demo_node (Some "secreT"));
    [discriminate|reflexivity].
Defined.
