(* ===== verification/RaftNodeOpen.v ===== *)
(** * RaftNodeOpen: a node's directory opens to what it held

    The identity file, the log and the state machine live in directories of
    their own.  Opening them one after the other hands the consensus the log
    and the replica that they hold, or changes nothing that a later opening
    would find. *)

From stdpp Require Import base gmap sets list strings sorting.
From Stdlib Require Import ZArith Lia.
From S2P Require Import RaftStateMachine RaftLog.
From S2P Require Import Prelude Errors Floats Metric Filter Collection Codec Disk DiskFacts Journal Environment RaftReplica RaftNode RaftNodeFacts.
From S2P Require RaftLogFacts RaftRecovery RaftDemo CollectionFacts.

(** What a computation promises, of the run without faults. *)
Lemma opened_at {A} (m : io A) d a d' (Q : A -> Dir -> Prop) C (P : Prop) :
  runs m d a d' -> specifies m d Q C -> (Q a d' -> P) -> P.
Proof. unfold runs. intros E Hs HP. specialize (Hs []). rewrite E in Hs. by apply HP. Qed.

(** ** The identity *)

Definition node_id_fits (id : Z) (d : Dir) : Prop := node_id_free d \/ node_id_is id d.

Lemma persist_spec pid id d :
  0 <= id <= U64_MAX -> node_id_fits id d ->
  specifies (persist_node_id pid id) d
    (fun r d' => match r with Ok _ => node_id_is id d' | Err _ => node_id_fits id d' | Panic => False end) (node_id_fits id).
Proof.
  intros Hid [Hd|Hd]; [by apply persist_first|]. eapply spec_mono; [by apply (persist_again pid id id)| |].
  - intros r d' (-> & _ & Hr). destruct r; [done|by right|done].
  - intros d' ->. by right.
Qed.

Lemma persist_first_runs pid id d : node_id_free d -> exists d', runs (persist_node_id pid id) d (Ok tt) d' /\ node_id_is id d'.
Proof.
  intros Hd. assert (exists d', runs (persist_node_id pid id) d (Ok tt) d') as (d' & E).
  { eexists. unfold persist_node_id. eapply runs_try; [done|]. unfold runs, iobind, exists_. cbn [disk].
    rewrite bool_decide_eq_false_2 by (rewrite Hd; by intros [? ?]).
    eapply runs_try; [done|]. eapply runs_try; [done|]. eapply runs_try; [done|].
    eapply (runs_try _ _ _ tt); [|done]. unfold runs, rename, effect. cbn [script disk]. unfold appended. by rewrite lookup_insert_eq. }
  exists d'. split; [exact E|]. pose proof (persist_first pid id d Hd []) as Hs. unfold runs in E. by rewrite E in Hs.
Qed.

(** A step in one of the directories: it goes on, fails or dies there. *)
Lemma part_step {A B} get put (m : io (Result A)) (k : A -> io_of NodeDisk (Result B)) disk script Q C (P : OutcomeOf NodeDisk (Result B) -> Prop) :
  specifies m (get disk) Q C ->
  (forall a d s, Q (Ok a) d -> P (k a (MkWorld (put d disk) s))) ->
  (forall e d s, Q (Err e) d -> P (Returned (Err e) (MkWorld (put d disk) s))) ->
  (forall d s, Q Panic d -> P (Returned Panic (MkWorld (put d disk) s))) ->
  (forall d, C d -> P (Crashed (put d disk))) ->
  P (iotry (part get put m) k (MkWorld disk script)).
Proof.
  intros Hm Hok Herr Hpanic Hcrash. specialize (Hm script). unfold iotry, iobind, part. cbn [Disk.disk Disk.script].
  destruct (m _) as [[a|e|] [d s]|d]; cbn [Disk.disk Disk.script] in *; auto.
Qed.

Lemma part_runs {A B} get put (m : io (Result A)) (k : A -> io_of NodeDisk (Result B)) disk a d :
  runs m (get disk) (Ok a) d -> iotry (part get put m) k (MkWorld disk []) = k a (MkWorld (put d disk) []).
Proof. unfold runs, iotry, iobind, part. cbn [Disk.disk Disk.script]. by intros ->. Qed.

Section Open.
Context `{FloatEnv} (avx2 : bool).
Context {Vote LogId Membership StoredMembership SnapshotMeta Entry RaftConfig R : Type}.
Context (log_index : LogId -> Z) (get_log_id : Entry -> LogId) (stored_membership_default : StoredMembership).
Context (stored_membership_new : option LogId -> Membership -> StoredMembership).
Context `{Json (JournalRecord Vote LogId Entry), Json (JournalState Vote LogId Entry)}.
Context `{Json (AppliedRecord LogId Membership), Json (StateSnapshot LogId StoredMembership), Json (StoredSnapshot SnapshotMeta), Json (SnapshotMeta * list byte)}.
Context (validate : RaftConfig -> result string RaftConfig).
Context (raft_new : Z -> RaftConfig -> HttpRaftNetwork -> JournalState Vote LogId Entry -> StateInner LogId StoredMembership SnapshotMeta ->
         io_of NodeDisk (result string R)).
Context (workers : nat) (cfg : CollectionConfig).

Abbreviation sm_recoverable := (RaftRecovery.sm_recoverable avx2 log_index stored_membership_new stored_membership_default workers cfg (SnapshotMeta := SnapshotMeta)).
Abbreviation sm_ok := (RaftRecovery.sm_ok avx2 log_index stored_membership_new stored_membership_default workers cfg (SnapshotMeta := SnapshotMeta)).
Abbreviation raft_recoverable := (RaftLogFacts.raft_recoverable log_index get_log_id).
Abbreviation raft_ok := (RaftLogFacts.raft_ok log_index get_log_id).
Abbreviation open_node := (open_with_http_client avx2 log_index get_log_id stored_membership_default stored_membership_new validate raft_new).

(** The node's directory holds a log and a replica, for an id. *)
Record keeps (id : Z) (s : JournalState Vote LogId Entry) (a : Abstract) (disk : NodeDisk) : Prop := MkKeeps {
  keeps_id : node_id_fits id (own disk); keeps_log : raft_recoverable (log disk) s; keeps_state : sm_recoverable (state disk) a
}.
(** The same, and all three are open. *)
Record holds (id : Z) (s : JournalState Vote LogId Entry) (a : Abstract) (disk : NodeDisk) : Prop := MkHolds {
  holds_id : node_id_is id (own disk); holds_log : raft_ok (log disk) s; holds_state : sm_ok (state disk) a
}.

(** The consensus is started, and what it says is the outcome. *)
Definition handed_over (id : Z) (s : JournalState Vote LogId Entry) (a : Abstract) (token : string) (config : RaftConfig)
    (outcome : OutcomeOf NodeDisk (Result (RaftNode * R))) : Prop :=
  exists disk inner script,
    holds id s a disk /\ RaftRecovery.is_state cfg (replica inner) a /\
    outcome = match raft_new id config (MkNetwork token MAX_IN_FLIGHT_CLIENT_OPERATIONS ∅ false) s inner (MkWorld disk script) with
              | Returned (Ok r) w => Returned (Ok (MkNode id (MkNetwork token MAX_IN_FLIGHT_CLIENT_OPERATIONS ∅ false) token cfg, r)) w
              | Returned (Err e) w => Returned (Err (Concurrency e)) w
              | Returned Panic w => Returned Panic w
              | Crashed d => Crashed d
              end.

(** It is not started. *)
Definition not_started (id : Z) (s : JournalState Vote LogId Entry) (a : Abstract) (outcome : OutcomeOf NodeDisk (Result (RaftNode * R))) : Prop :=
  match outcome with Returned (Err _) w => keeps id s a (disk w) | Crashed d => keeps id s a d | _ => False end.

End Open.

(** A node started for the first time over a log with entries: its consensus
    answers with the log that it was given. *)
Definition demo_disk : NodeDisk := MkNodeDisk ∅ RaftLogFacts.demo_log_dir RaftDemo.demo_fresh.
Definition demo_raft_new (_ : Z) (_ : unit) (_ : HttpRaftNetwork) (s : RaftLogFacts.DemoState) (_ : StateInner byte byte byte)
    : io_of NodeDisk (result string RaftLogFacts.DemoState) := ioret (Ok s).

Abbreviation demo_open := (@open_with_http_client x86_64_env true byte byte byte byte byte byte unit RaftLogFacts.DemoState u8 id x00 RaftDemo.demo_membership
  RaftLogFacts.demo_record_json RaftLogFacts.demo_state_json RaftDemo.demo_applied_json RaftDemo.demo_snapshot_json RaftDemo.demo_stored_json RaftDemo.demo_meta_json
  Ok demo_raft_new).

