(* ===== verification/Bench.v ===== *)
(** * Bench: the benchmarks ([src/src/bin/focal-bench.rs],
    [src/src/bin/focal-distributed-bench.rs], [src/src/bin/focal-persistence-bench.rs])

    What the benchmarks compute: their settings, their vectors, the work they
    give the library, and the recall they report.  Clocks, printed lines and
    the order in which concurrent queries are answered are left to the caller.
    Then what they measure against: the scan of the distributed benchmark, which
    keeps a buffer of [k] points and replaces its worst, finds the exact best
    [k]; its batches cover the points; and both local benchmarks run. *)

From Stdlib Require Import Ascii.
From stdpp Require Import base gmap sets list strings sorting.
From Stdlib Require Import ZArith Lia.
From S2P Require Import Prelude Errors Floats Ranking Filter Metric MetadataIndex Quantize Collection Disk Persistence Manifest Environment.
From S2P Require Import CollectionFacts Tls Startup.
From S2P Require Hnsw RaftNode RaftLog Distributed.

(** ** Texts *)

(** [str::split] on an ASCII character, and [str::trim]. *)
Fixpoint split (separator : ascii) (s : string) : list string :=
  match s with
  | EmptyString => [EmptyString]
  | String c s' =>
      if Ascii.eqb c separator then EmptyString :: split separator s'
      else match split separator s' with part :: parts => String c part :: parts | [] => [String c EmptyString] end
  end.
Definition trim (s : string) : string := string_of_bytes (RaftNode.trim (bytes_of_string s)).

(** [format!("{index:09}")] and [format!("{index:012}")] *)
Definition padded (width : nat) (index : Z) : string := String.concat "" (repeat "0" (width - String.length (fmt_int index))) +:+ fmt_int index.

(** [env::args().nth(position)]; the text must be a number. *)
Definition argument (args : list string) (position : nat) (default : Z) : BoxResult Z :=
  match args !! position with
  | Some value => match parse_unsigned USIZE_MAX value with Some n => Ok n | None => Panic end
  | None => Ok default
  end.

(** ** Vectors *)

Section Vectors.
Context `{FloatEnv}.

Definition wrapping_mul (a b : Z) : Z := wrap_u 64 (a * b).
Definition wrapping_add (a b : Z) : Z := wrap_u 64 (a + b).

(** [Generator::value]: the number and the next state. *)
Definition value (state : Z) : Z * Z :=
  let state := wrapping_add (wrapping_mul state 6364136223846793005) 1442695040888963407 in
  let unit := fdiv fmt32 (of_int fmt32 (Z.shiftr state 40)) (of_int fmt32 (2 ^ 24)) in
  (fsub fmt32 (fmul fmt32 unit (of_int fmt32 2)) (of_int fmt32 1), state).

Fixpoint generated (dimension : nat) (state : Z) : list Z * Z :=
  match dimension with
  | O => ([], state)
  | S dimension' =>
      let '(component, state) := value state in
      let '(components, state) := generated dimension' state in
      (component :: components, state)
  end.

Fixpoint generated_points (indices : list Z) (dimension : nat) (state : Z) : list (string * list Z) * Z :=
  match indices with
  | [] => ([], state)
  | index :: indices' =>
      let '(components, state) := generated dimension state in
      let '(points, state) := generated_points indices' dimension state in
      (("point-" +:+ padded 9 index, components) :: points, state)
  end.

(** The vectors of the distributed benchmark: an xorshift generator. *)
Definition xorshift (state : Z) : Z :=
  let state := Z.lxor state (wrap_u 64 (Z.shiftl state 13)) in
  let state := Z.lxor state (Z.shiftr state 7) in
  Z.lxor state (wrap_u 64 (Z.shiftl state 17)).
Fixpoint components (dimension : nat) (state : Z) : list Z :=
  match dimension with
  | O => []
  | S dimension' =>
      let state := xorshift state in
      fdiv fmt32 (fadd fmt32 (of_int fmt32 (Z.shiftr state 40)) (of_int fmt32 1)) (of_int fmt32 (2 ^ 24)) :: components dimension' state
  end.
Definition vector (seed dimension : Z) : list Z := components (Z.to_nat dimension) (Z.max seed 1).

(** ** The exact answer of the distributed benchmark *)

Definition norm (v : list Z) : Z := fsqrt fmt32 (fsum fmt32 (map (fun x => fmul fmt32 x x) v)).
Definition products (left right : list Z) : Z := fsum fmt32 (zip_with (fmul fmt32) left right).

Definition exact_score (metric : Metric) (query : list Z) (query_norm : Z) (point : list Z) : Z :=
  match metric with
  | DotProduct => products query point
  | Cosine => fdiv fmt32 (products query point) (fmul fmt32 query_norm (norm point))
  | Euclidean => fneg fmt32 (fsum fmt32 (zip_with (fun left right => let difference := fsub fmt32 left right in fmul fmt32 difference difference) query point))
  end.

(** [min_by]: the first of the least. *)
Definition min_by {A : Type} (cmp : A -> A -> comparison) (l : list A) : option A :=
  match l with
  | [] => None
  | x :: l => Some (fold_left (fun best y => match cmp best y with Gt => y | _ => best end) l x)
  end.

(** The order of the scan: lower scores first, then later points. *)
Definition worse : Z * Z -> Z * Z -> comparison :=
  then_with (cmp_on snd (total_cmp fmt32)) (cmp_rev (cmp_on fst Z.compare)).

Definition scan_point (k : Z) (scored : list (Z * Z)) (entry : Z * Z) : BoxResult (list (Z * Z)) :=
  if Z.ltb (zlen scored) k then Ok (scored ++ [entry])
  else
    match min_by (fun a b => worse a.2 b.2) (imap pair scored) with
    | None => Panic (* "k is positive" *)
    | Some (worst_position, (worst_id, worst_score)) =>
        if fgtb fmt32 entry.2 worst_score || feqb fmt32 entry.2 worst_score && Z.ltb entry.1 worst_id
        then Ok (<[worst_position := entry]> scored) else Ok scored
    end.

Definition best_first : Z * Z -> Z * Z -> comparison := cmp_rev worse.
Definition scores (query : list Z) (point_count dimension : Z) (metric : Metric) : list (Z * Z) :=
  map (fun index => (index, exact_score metric query (norm query) (vector (index + 1) dimension))) (seqZ 0 point_count).

Definition exact_ids (query : list Z) (point_count dimension k : Z) (metric : Metric) : BoxResult (gset string) :=
  let? scored := foldM_result (scan_point k) [] (scores query point_count dimension metric) in
  Ok (list_to_set (map (fun entry => "bench-" +:+ padded 12 entry.1) (truncate k (sort_by best_first scored)))).

(** [latencies] are sorted; no latency is a panic. *)
Definition percentile (latencies : list Z) (percentile : Z) : BoxResult Z :=
  if Z.ltb (zlen latencies - 1) 0 then Panic
  else Prelude.index latencies (Z.max 0 (to_int fmt64 64 (fround fmt64 (fmul fmt64 (of_int fmt64 (zlen latencies - 1)) percentile)))).
End Vectors.

(** ** [focal-bench] *)

Section FocalBench.
Context `{FloatEnv} (avx2 : bool) (workers : nat) (var_os : string -> option EnvValue) (args : list string).

Definition storages : BoxResult (list HnswVectorStorage) :=
  match var_os "FOCAL_BENCH_STORAGE" with
  | Some (Utf8 value) =>
      if String.eqb value "int8" then Ok [ScalarInt8]
      else if String.eqb value "f32" then Ok [StoreF32]
      else if String.eqb value "both" then Ok [StoreF32; ScalarInt8]
      else Err (Message "FOCAL_BENCH_STORAGE must be 'f32', 'int8', or 'both'")
  | None => Ok [StoreF32]
  | Some NotUtf8 => Err (NotUnicode "FOCAL_BENCH_STORAGE")
  end.

Definition parse_usize (text : string) : BoxResult Z := ok_or (parse_unsigned USIZE_MAX text) ParseInt.

Definition ef_search_values (default : Z) : BoxResult (list Z) :=
  match var_os "FOCAL_BENCH_EF_SWEEP" with
  | None => Ok [default]
  | Some NotUtf8 => Err (Message "FOCAL_BENCH_EF_SWEEP must be valid UTF-8")
  | Some (Utf8 values) =>
      let? parsed := mapM_result (fun value => parse_usize (trim value)) (split "," values) in
      if bool_decide (parsed = []) || existsb (Z.eqb 0) parsed then Err (Message "FOCAL_BENCH_EF_SWEEP must contain positive integers")
      else Ok parsed
  end.

(** The queries: points, each component moved a little; [index % point_count]. *)
Fixpoint moved (v : list Z) (state : Z) : list Z * Z :=
  match v with
  | [] => ([], state)
  | x :: v' =>
      let '(r, state) := value state in
      let '(moved_rest, state) := moved v' state in
      (fadd fmt32 x (fmul fmt32 r (fdiv fmt32 (of_int fmt32 1) (of_int fmt32 100))) :: moved_rest, state)
  end.
Fixpoint queries (indices : list Z) (points : list (string * list Z)) (state : Z) : BoxResult (list (list Z) * Z) :=
  match indices with
  | [] => Ok ([], state)
  | index :: indices' =>
      let? point := Prelude.index points (index mod zlen points) in
      let '(query, state) := moved point.2 state in
      let? (rest, state) := queries indices' points state in
      Ok (query :: rest, state)
  end.

(** How many of the expected identifiers were found. *)
Definition matches (exact_results : list (list string)) (approximate_results : list (gset string)) : Z :=
  foldr Z.add 0 (zip_with (fun expected actual => zlen (List.filter (fun id => bool_decide (id ∈ actual)) expected)) exact_results approximate_results).
Definition recall (matched query_count k : Z) : Z := fdiv fmt64 (of_int fmt64 matched) (of_int fmt64 (query_count * k)).

(** One line of the report: storage, [ef_search] and recall. *)
Record Measurement : Type := MkMeasurement { measured_storage : HnswVectorStorage; measured_ef : Z; measured_recall : Z }.

(** A pool of idle workspaces is kept between the searches of an index. *)
Fixpoint approximate_results (index : Hnsw.HnswIndex) (pool : list Hnsw.BuildWorkspace) (queries : list (list Z)) (k ef_search : Z)
    : Result (list (gset string) * list Hnsw.BuildWorkspace) :=
  match queries with
  | [] => Ok ([], pool)
  | query :: queries' =>
      let? (hits, pool) := Hnsw.search avx2 index query k (Z.max ef_search k) pool in
      let? (rest, pool) := approximate_results index pool queries' k ef_search in
      Ok (list_to_set (map Hnsw.hit_id hits) :: rest, pool)
  end.

Fixpoint sweep (storage : HnswVectorStorage) (index : Hnsw.HnswIndex) (pool : list Hnsw.BuildWorkspace) (queries : list (list Z))
    (exact_results : list (list string)) (k : Z) (ef_values : list Z) : Result (list Measurement) :=
  match ef_values with
  | [] => Ok []
  | ef_search :: ef_values' =>
      let? (found, pool) := approximate_results index pool queries k ef_search in
      let? rest := sweep storage index pool queries exact_results k ef_values' in
      Ok (MkMeasurement storage ef_search (recall (matches exact_results found) (zlen queries) k) :: rest)
  end.

Definition focal_bench : BoxResult (list Measurement) :=
  let? point_count := argument args 1 10000 in
  let? dimension := argument args 2 128 in
  let? query_count := argument args 3 100 in
  let? ef_search := argument args 4 96 in
  let? m := argument args 5 (Hnsw.m Hnsw.default_config) in
  let? ef_construction := argument args 6 (Hnsw.ef_construction Hnsw.default_config) in
  let? ef_values := ef_search_values ef_search in
  let? storages := storages in
  let k := Z.min 10 point_count in
  if Z.eqb point_count 0 || Z.eqb dimension 0 || Z.eqb query_count 0
  then Err (Message "point count, dimension, and query count must be positive")
  else
    let '(points, state) := generated_points (seqZ 0 point_count) (Z.to_nat dimension) 0x5eedf0ca1ace0001 in
    let? (queries, _) := queries (seqZ 0 query_count) points state in
    let? exact := boxed (new (MkConfig dimension Cosine)) in
    let '(upserted, exact) := Collection.upsert exact (map (fun p => MkUpsert p.1 p.2 ∅) points) in
    let? _ := boxed upserted in
    let? exact_results := boxed (mapM_result (fun query => rmap (map hit_id) (Collection.search exact query k None)) queries) in
    let? lines := mapM_result (fun storage => boxed (
      let? index := Hnsw.build_with_storage avx2 workers dimension Cosine (Hnsw.MkHnswConfig m ef_construction) storage points in
      sweep storage index [] queries exact_results k ef_values)) storages in
    Ok (concat lines).
End FocalBench.

(** ** [focal-persistence-bench] *)

Section PersistenceBench.
Context `{FloatEnv} (avx2 : bool) (workers : nat) (pid : Z) (var_os : string -> option EnvValue) (lock : LockOutcome).

Definition segment_size (sequence : Z) : io (Result Z) :=
  effect unchanged (fun d => (ok_or (zlen <$> d !! segment_name sequence) missing, d)).

(** The sizes of the two segments; the assertions at the end panic. *)
Definition run (point_count dimension delta_count : Z) (temporaries : string * string) : io (BoxResult (Z * Z)) :=
  let config := MkConfig dimension Cosine in
  let upserts (points : list (string * list Z)) := map (fun p => MkUpsert p.1 p.2 ∅) points in
  let '(points, state) := generated_points (seqZ 0 point_count) (Z.to_nat dimension) 0x5eedf0cadeadbeef in
  boxtry (Environment.open avx2 var_os config Sync lock) (fun collection =>
  let* (upserted, collection) := Persistence.upsert collection (upserts points) in
  boxtry (ioret upserted) (fun _ =>
  let* (flushed, collection) := flush avx2 workers pid temporaries.1 collection in
  boxtry (ioret flushed) (fun _ =>
  boxtry (segment_size 1) (fun full_size =>
  let full_stats := index_stats collection in
  let '(changes, _) := generated_points (seqZ 0 delta_count) (Z.to_nat dimension) state in
  let* (upserted, collection) := Persistence.upsert collection (upserts changes) in
  boxtry (ioret upserted) (fun _ =>
  let* (flushed, collection) := flush avx2 workers pid temporaries.2 collection in
  boxtry (ioret flushed) (fun _ =>
  boxtry (segment_size 2) (fun delta_size =>
  let delta_stats := index_stats collection in
  if Z.eqb (mapped_points full_stats) point_count && Z.eqb (mapped_points delta_stats) point_count && Z.eqb (owned_vector_bytes delta_stats) 0
  then ioret (Ok (full_size, delta_size)) else ioret Panic))))))).

Definition persistence_bench (args : list string) (temporaries : string * string) : io (BoxResult (Z * Z)) :=
  match (let? point_count := argument args 1 100000 in
         let? dimension := argument args 2 128 in
         let? delta_count := argument args 3 ((point_count + 99) / 100) in
         if Z.eqb point_count 0 || Z.eqb dimension 0 || Z.eqb delta_count 0 || Z.ltb point_count delta_count
         then Err (Message "counts and dimension must be positive; delta count cannot exceed points")
         else Ok (point_count, dimension, delta_count)) with
  | Ok (point_count, dimension, delta_count) => run point_count dimension delta_count temporaries
  | Err e => ioret (Err e)
  | Panic => ioret Panic
  end.
End PersistenceBench.

(** ** [focal-distributed-bench] *)

Section DistributedBench.
Import Distributed.
Context `{FloatEnv} `{TlsLibrary} (files : string -> string + list byte) (var_os : string -> option EnvValue).

Definition number (name : string) (default : Z) : BoxResult Z :=
  match var_os name with Some (Utf8 text) => parse_usize text | _ => Ok default end.

Definition replica_sets (specification : string) : BoxResult (list ReplicaSet) :=
  let shards := map (fun shard => MkReplicaSet (List.filter (fun address => negb (String.eqb address "")) (map trim (split "," shard))))
    (split ";" specification) in
  if bool_decide (shards = []) || existsb (fun shard => bool_decide (addresses shard = [])) shards
  then Err (Message "FOCAL_SHARDS must contain semicolon-separated shards and comma-separated replicas")
  else Ok shards.

Record BenchSettings : Type := MkBenchSettings {
  bench_shards : list ReplicaSet; bench_token : string; bench_dimension : Z; bench_points : Z; batch_points : Z; query_count : Z;
  bench_k : Z; bench_ef : Z; concurrency : Z; recall_queries : Z; bench_metric : Metric
}.

Definition bench_settings : BoxResult BenchSettings :=
  let? specification := required var_os "FOCAL_SHARDS" in
  let? shards := replica_sets specification in
  let? token := required var_os "FOCAL_RAFT_TOKEN" in
  let? dimension := number "FOCAL_DIMENSION" 128 in
  let? point_count := number "FOCAL_BENCH_POINTS" 10000 in
  let? batch_points := number "FOCAL_BENCH_BATCH_POINTS" 1000 in
  let? query_count := number "FOCAL_BENCH_QUERIES" 100 in
  let? k := number "FOCAL_BENCH_K" 10 in
  let? ef_search := number "FOCAL_BENCH_EF_SEARCH" (Z.max (saturating_mul k 16) 256) in
  let? concurrency := number "FOCAL_BENCH_CONCURRENCY" 1 in
  let? recall_queries := number "FOCAL_BENCH_RECALL_QUERIES" (Z.min query_count 10) in
  let? metric := metric_setting var_os in
  if Z.eqb dimension 0 || Z.eqb point_count 0 || Z.eqb batch_points 0 || Z.eqb query_count 0 || Z.eqb k 0
     || Z.ltb ef_search k || Z.eqb concurrency 0 || Z.ltb query_count recall_queries
  then Err (Message "benchmark dimensions and counts must be positive")
  else Ok (MkBenchSettings shards token dimension point_count batch_points query_count k ef_search concurrency recall_queries metric).

Definition bench_collection (settings : BenchSettings) : BoxResult DistributedCollection :=
  let? client := boxed (build_http_client files (client_tls var_os)) in
  boxed (with_http_client (bench_shards settings) (bench_token settings)).

(** The batches: their numbers, and the points from one start to the next. *)
Definition batches (settings : BenchSettings) : list (Z * (Z * Z)) :=
  map (fun batch => let start := batch * batch_points settings in
                    (batch, (start, Z.min (saturating_add start (batch_points settings)) (bench_points settings))))
    (seqZ 0 ((bench_points settings + batch_points settings - 1) / batch_points settings)).

Definition bench_id (index : Z) : string := "bench-" +:+ padded 12 index.
Definition bench_point (dimension index : Z) : UpsertPoint := MkUpsert (bench_id index) (vector (index + 1) dimension) ∅.

Context {World : Type} (post_write : string -> string -> RaftLog.ShardCommand -> World -> Reply RaftLog.ShardResponse * World).
Context (post_query : string -> string -> QueryRequest -> World -> Reply ShardSearchResult * World).

(** A call may be abandoned; its [schedule] is an argument. *)
Fixpoint ingest (settings : BenchSettings) (collection : DistributedCollection) (request_id : Z) (schedule : Z -> list Event)
    (work : list (Z * (Z * Z))) (w : World) : option (BoxResult unit) * World :=
  match work with
  | [] => (Some (Ok tt), w)
  | (batch_index, (start, end_)) :: work' =>
      match checked_add U64_MAX request_id batch_index with
      | None => (Some (Err (Message "benchmark request ID overflow")), w)
      | Some request =>
          let points := map (bench_point (bench_dimension settings)) (seqZ start (end_ - start)) in
          match Distributed.upsert post_write collection (schedule batch_index) "focal-distributed-bench" request points w with
          | (Some (Ok _), w) => ingest settings collection request_id schedule work' w
          | (Some (Err e), w) => (Some (Err (Library e)), w)
          | (Some Panic, w) => (Some Panic, w)
          | (None, w) => (None, w)
          end
      end
  end.

(** The warm-up query, and the queries one after the other: the default
    concurrency is one. *)
Definition ask (settings : BenchSettings) (collection : DistributedCollection) (schedule : list Event) (index : Z) (complaint : string) (w : World)
    : option (BoxResult DistributedSearchResult) * World :=
  let query := vector (bench_points settings + index + 1) (bench_dimension settings) in
  match search_result_with_ef post_query collection schedule query (bench_k settings) None (bench_ef settings) false w with
  | (Some (Ok result), w) => (Some (if bool_decide (hits result = []) then Err (Message complaint) else Ok result), w)
  | (Some (Err e), w) => (Some (Err (Library e)), w)
  | (Some Panic, w) => (Some Panic, w)
  | (None, w) => (None, w)
  end.

Fixpoint ask_all (settings : BenchSettings) (collection : DistributedCollection) (schedule : Z -> list Event) (indices : list Z)
    (answered : list (Z * DistributedSearchResult)) (w : World) : option (BoxResult (list (Z * DistributedSearchResult))) * World :=
  match indices with
  | [] => (Some (Ok answered), w)
  | index :: indices' =>
      match ask settings collection (schedule index) index "query unexpectedly returned no results" w with
      | (Some (Ok result), w) => ask_all settings collection schedule indices' (answered ++ [(index, result)]) w
      | (Some (Err e), w) => (Some (Err e), w)
      | (Some Panic, w) => (Some Panic, w)
      | (None, w) => (None, w)
      end
  end.

(** The recall of the first queries, and the least applied index reported. *)
Definition recalled (settings : BenchSettings) (answered : list (Z * DistributedSearchResult)) : BoxResult Z :=
  let counted := List.filter (fun answer => Z.ltb answer.1 (recall_queries settings)) answered in
  foldM_result (fun total answer =>
    let query := vector (bench_points settings + answer.1 + 1) (bench_dimension settings) in
    let? exact := exact_ids query (bench_points settings) (bench_dimension settings) (bench_k settings) (bench_metric settings) in
    Ok (total + zlen (List.filter (fun hit => bool_decide (hit_id hit ∈ exact)) (hits answer.2)))) 0 counted.
Definition bench_recall (settings : BenchSettings) (answered : list (Z * DistributedSearchResult)) : BoxResult Z :=
  let? found := recalled settings answered in
  Ok (if Z.eqb (recall_queries settings) 0 then 0 else recall found (recall_queries settings) (bench_k settings)).
Definition least_applied (answered : list (Z * DistributedSearchResult)) : option Z :=
  fold_left (fun least answer => match min_applied_index answer.2 with
    | Some index => Some (match least with Some current => Z.min current index | None => index end)
    | None => least
    end) answered None.

Definition distributed_bench (settings : BenchSettings) (collection : DistributedCollection) (request_id : Z)
    (writes queries : Z -> list Event) (warm_up : list Event) (w : World) : option (BoxResult (Z * option Z)) * World :=
  match ingest settings collection request_id writes (batches settings) w with
  | (Some (Ok _), w) =>
      match ask settings collection warm_up 0 "warm-up query unexpectedly returned no results" w with
      | (Some (Ok _), w) =>
          match ask_all settings collection queries (seqZ 0 (query_count settings)) [] w with
          | (Some answered, w) => (Some (let? answered := answered in let? recall := bench_recall settings answered in Ok (recall, least_applied answered)), w)
          | (None, w) => (None, w)
          end
      | (Some (Err e), w) => (Some (Err e), w)
      | (Some Panic, w) => (Some Panic, w)
      | (None, w) => (None, w)
      end
  | (Some (Err e), w) => (Some (Err e), w)
  | (Some Panic, w) => (Some Panic, w)
  | (None, w) => (None, w)
  end.
End DistributedBench.

(** ** The least of a list *)

Section MinBy.
Context {A : Type} (cmp : A -> A -> comparison) `{!TotalCmp cmp}.

Lemma fold_min_least l x :
  let m := fold_left (fun best y => match cmp best y with Gt => y | _ => best end) l x in
  m ∈ x :: l /\ forall y, y ∈ x :: l -> cmp m y <> Gt.
Proof.
  revert x. induction l as [|y l IH]; intros x; cbn [fold_left].
  { split; [left|]. intros y [->|[]%not_elem_of_nil]%elem_of_cons. by rewrite cmp_refl. }
  destruct (IH (match cmp x y with Gt => y | _ => x end)) as [Hin Hle]. split.
  - apply elem_of_cons in Hin as [->|Hin]; [destruct (cmp x y); [left|left|right; left]|by do 2 right].
  - assert (forall z, z ∈ x :: [y] -> cmp (match cmp x y with Gt => y | _ => x end) z <> Gt) as H0.
    { intros z. rewrite elem_of_cons, list_elem_of_singleton. destruct (cmp x y) eqn:E; intros [-> | ->]; rewrite ?cmp_refl; try done; try congruence.
      rewrite (cmp_antisym cmp x y), E. done. }
    intros z Hz. assert (z ∈ x :: [y] \/ z ∈ l) as [Hz'|Hz'].
    { apply elem_of_cons in Hz as [->|Hz]; [left; left|]. apply elem_of_cons in Hz as [->|Hz]; [left; right; left|by right]. }
    + eapply (cmp_trans cmp); [apply Hle; left|by apply H0].
    + apply Hle. by right.
Qed.

Lemma min_by_least l m : min_by cmp l = Some m -> m ∈ l /\ forall y, y ∈ l -> cmp m y <> Gt.
Proof. destruct l as [|x l]; [done|]. intros [= <-]. apply fold_min_least. Qed.
End MinBy.

(** ** The scan *)

#[global] Instance worse_total : TotalCmp worse.
Proof. unfold worse. apply _. Qed.
#[global] Instance best_first_total : TotalCmp best_first.
Proof. unfold best_first. apply _. Qed.

(** A score that the two comparisons of the code order alike: not a NaN, and
    not the negative zero. *)
Definition plain_score (s : Z) : Prop := in_u 32 s /\ is_nan fmt32 s = false /\ (magnitude fmt32 s = 0 -> s = 0).

Lemma plain_compare a b : plain_score a -> plain_score b -> fcompare fmt32 a b = Some (total_cmp fmt32 a b).
Proof.
  intros (Ha & Na & Za) (Hb & Nb & Zb). apply fcompare_total_cmp; [apply wf_fmt32|done..|].
  destruct (decide (magnitude fmt32 a = 0 /\ magnitude fmt32 b = 0)) as [[Ea Eb]|]; [right|by left]. by rewrite (Za Ea), (Zb Eb).
Qed.

Lemma replaces_iff x w : plain_score x.2 -> plain_score w.2 -> w.1 < x.1 ->
  fgtb fmt32 x.2 w.2 || feqb fmt32 x.2 w.2 && Z.ltb x.1 w.1 = bool_decide (best_first x w = Lt).
Proof.
  intros Hx Hw Hi. rewrite (proj2 (Z.ltb_ge x.1 w.1)) by lia. rewrite andb_false_r, orb_false_r.
  unfold fgtb, fltb. rewrite plain_compare by done. unfold best_first, cmp_rev, worse, then_with, cmp_on, cmp_rev.
  rewrite (proj2 (Z.compare_gt_iff x.1 w.1)) by lia. destruct (total_cmp fmt32 w.2 x.2); by rewrite ?bool_decide_true by done.
Qed.

Lemma scan_full k s buffer x w :
  StronglySorted (le_by best_first) s -> buffer ≡ₚ take k s -> (0 < k <= length s)%nat -> last (take k s) = Some w ->
  (forall y, y ∈ s -> y.1 < x.1 /\ plain_score y.2) -> (forall y z, y ∈ s -> z ∈ s -> y.1 = z.1 -> y = z) -> plain_score x.2 ->
  exists buffer', scan_point (Z.of_nat k) buffer x = Ok buffer' /\ buffer' ≡ₚ take k (insert_by best_first x s).
Proof.
  intros Hs Hb Hk Hw Hy Hu Hx. unfold scan_point. assert (length buffer = k) as Hl by (rewrite Hb, length_take; lia).
  rewrite (proj2 (Z.ltb_ge _ _)) by (unfold zlen; lia).
  destruct (min_by _ _) as [[p w']|] eqn:Em.
  2: { destruct buffer; [cbn in Hl; lia|done]. }
  apply (min_by_least (cmp_on snd worse)) in Em as [Hin Hle]. apply elem_of_lookup_imap in Hin as (p' & y & [= <- <-] & Hp).
  assert (w' ∈ take k s) as Hw' by (rewrite <- Hb; by eapply list_elem_of_lookup_2).
  assert (w ∈ take k s) as Hwin by (apply last_Some in Hw as [l ->]; set_solver).
  assert (w' = w) as ->.
  { apply Hu; [by eapply elem_of_take_list|by eapply elem_of_take_list|].
    assert (worse w' w <> Gt) as H1.
    { rewrite <- Hb in Hwin. apply list_elem_of_lookup in Hwin as [q Hq]. apply (Hle (q, w)). apply elem_of_lookup_imap. by exists q, w. }
    assert (worse w w' <> Gt) as H2 by (apply (last_sorted_ge best_first w' (take k s) w); [by apply sorted_take|done|done]).
    rewrite (cmp_antisym worse) in H2. destruct (worse w' w) eqn:E; [|done|done].
    unfold worse, then_with, cmp_on, cmp_rev in E. destruct (total_cmp _ _ _); [|done|done]. by apply Z.compare_eq_iff in E. }
  assert (w ∈ s) as Hws by by eapply elem_of_take_list. destruct (Hy w Hws) as [Hi Hpw].
  pose proof (replaces_iff x w Hx Hpw Hi) as Hr. destruct w as [worst_id worst_score]. cbn [fst snd] in Hr. rewrite Hr.
  rewrite (take_insert_by best_first k x s Hs). rewrite decide_False by lia. rewrite Hw. case_bool_decide as Hc; [|exists buffer; split; [done|]; by destruct (best_first x (worst_id, worst_score))].
  rewrite Hc. eexists. split; [done|]. rewrite insert_by_perm.
  pose proof (list_elem_of_split_length _ _ _ Hp) as (l1 & l2 & -> & ->).
  rewrite insert_app_r_alt, Nat.sub_diag by done. cbn [insert list_insert]. rewrite <- Permutation_middle. constructor. apply (Permutation_cons_inv (a := (worst_id, worst_score))).
  rewrite Permutation_middle, Hb. apply last_Some in Hw as [l El]. pose proof (removelast_take k s ltac:(lia)) as Er. rewrite El, removelast_last in Er.
  rewrite El, <- Er. symmetry. apply Permutation_cons_append.
Qed.

Lemma scan_short k s buffer x :
  buffer ≡ₚ take k s -> (length s < k)%nat ->
  exists buffer', scan_point (Z.of_nat k) buffer x = Ok buffer' /\ buffer' ≡ₚ take k (insert_by best_first x s).
Proof.
  intros Hb Hk. rewrite take_ge in Hb by lia. exists (buffer ++ [x]). unfold scan_point.
  assert (length buffer = length s) as Hl by by rewrite Hb.
  rewrite (proj2 (Z.ltb_lt _ _)) by (unfold zlen; lia). split; [done|].
  rewrite take_ge by (rewrite insert_by_perm; cbn; lia). rewrite insert_by_perm, Hb. symmetry. apply Permutation_cons_append.
Qed.

(** Points with increasing numbers. *)
Definition numbered (l : list (Z * Z)) : Prop := StronglySorted (fun a b => a.1 < b.1) l.

Lemma numbered_snoc l x : numbered (l ++ [x]) -> numbered l /\ forall y, y ∈ l -> y.1 < x.1.
Proof.
  intros H. split; [by apply StronglySorted_app_1_l in H|]. intros y Hy.
  apply (StronglySorted_app_1_elem_of (fun a b => a.1 < b.1) l [x] y x); [done|done|left].
Qed.

Lemma numbered_unique l y z : numbered l -> y ∈ l -> z ∈ l -> y.1 = z.1 -> y = z.
Proof.
  induction 1 as [|x l Hl IH Hx]; [by intros ?%not_elem_of_nil|]. rewrite Forall_forall in Hx.
  intros [->|Hy]%elem_of_cons [->|Hz]%elem_of_cons E; [done| | |by apply IH].
  - specialize (Hx z Hz). lia.
  - specialize (Hx y Hy). lia.
Qed.

Lemma scan_best k l :
  (0 < k)%nat -> numbered l -> Forall (fun e => plain_score e.2) l ->
  exists buffer, foldM_result (scan_point (Z.of_nat k)) [] l = Ok buffer /\ buffer ≡ₚ take k (sort_by best_first l).
Proof.
  intros Hk. induction l as [|x l IH] using rev_ind; intros Hn Hp; [exists []; split; [done|]; by destruct k|].
  apply Forall_app in Hp as [Hp Hx]. apply Forall_cons in Hx as [Hx _]. destruct (numbered_snoc l x Hn) as [Hnl Hlt].
  destruct (IH Hnl Hp) as (buffer & E & Hb). rewrite foldM_result_app, E. cbn [rbind foldM_result]. rewrite sort_by_snoc.
  set (s := sort_by best_first l) in *. assert (forall y, y ∈ s <-> y ∈ l) as Hs by (intros y; apply elem_of_sort_by).
  assert (exists buffer', scan_point (Z.of_nat k) buffer x = Ok buffer' /\ buffer' ≡ₚ take k (insert_by best_first x s)) as (buffer' & -> & Hb').
  2: { by exists buffer'. }
  destruct (decide (length s < k)%nat) as [Hlen|Hlen]; [by apply scan_short|].
  destruct (last (take k s)) as [w|] eqn:Ew; [|apply last_None, (f_equal length) in Ew; rewrite length_take in Ew; cbn in Ew; lia].
  eapply scan_full; [apply sort_by_sorted, _|done|lia|exact Ew| | |done].
  - intros y Hy%Hs. split; [by apply Hlt|]. eapply Forall_forall in Hp; [exact Hp|done].
  - intros y z Hy%Hs Hz%Hs. by apply (numbered_unique l).
Qed.

Lemma numbered_seq (f : Z -> Z) start n : numbered (map (fun i => (i, f i)) (seqZ start n)).
Proof.
  unfold seqZ. generalize (Z.to_nat n) as m. intros m. revert start. induction m as [|m IH]; intros start; [constructor|].
  cbn [seq fmap list_fmap map]. constructor.
  - specialize (IH (start + 1)). rewrite <- fmap_S_seq. change (S <$> seq 0 m) with (map S (seq 0 m)). rewrite !map_map in *.
    erewrite map_ext; [exact IH|]. intros i. cbn. f_equal; [|f_equal]; lia.
  - apply Forall_forall. intros y. rewrite list_elem_of_In, in_map_iff. intros (i & <- & (j & <- & Hj)%in_map_iff).
    apply in_seq in Hj. cbn. lia.
Qed.

(** The scan of [exact_ids] never panics, and keeps the best [k] points, the
    earlier of two with equal scores. *)
Theorem exact_ids_best `{FloatEnv} query point_count dimension k metric :
  0 < k -> Forall (fun e => plain_score e.2) (scores query point_count dimension metric) ->
  exact_ids query point_count dimension k metric =
    Ok (list_to_set (map (fun e => bench_id e.1) (truncate k (sort_by best_first (scores query point_count dimension metric))))).
Proof.
  intros Hk Hp. unfold exact_ids. set (l := scores _ _ _ _) in *.
  destruct (scan_best (Z.to_nat k) l) as (buffer & E & Hb); [lia|apply (numbered_seq (fun index => _))|done|].
  rewrite Z2Nat.id in E by lia. rewrite E. cbn [rbind]. f_equal. change (fun entry : Z * Z => "bench-" +:+ padded 12 entry.1) with (fun e : Z * Z => bench_id e.1).
  apply leibniz_equiv. intros id. rewrite !elem_of_list_to_set, !list_elem_of_In, !in_map_iff. setoid_rewrite <- list_elem_of_In.
  assert (forall e, e ∈ truncate k (sort_by best_first buffer) <-> e ∈ truncate k (sort_by best_first l)) as He; [|by setoid_rewrite He].
  intros e. unfold truncate. rewrite (take_ge (sort_by best_first buffer)); [by rewrite elem_of_sort_by, Hb|].
  rewrite length_sort_by, Hb, length_take. lia.
Qed.

(** ** The batches *)

Definition batch_indices (batch : Z * (Z * Z)) : list Z := seqZ batch.2.1 (batch.2.2 - batch.2.1).

Lemma batches_prefix n batch total :
  0 < batch -> 0 <= total -> Z.of_nat n * batch <= total + batch - 1 ->
  concat (map (fun i => seqZ (i * batch) (Z.min (i * batch + batch) total - i * batch)) (seqZ 0 (Z.of_nat n)))
    = seqZ 0 (Z.min (Z.of_nat n * batch) total).
Proof.
  intros Hb Ht. induction n as [|n IH]; intros Hn; [by rewrite Z.min_l by lia|].
  rewrite seqZ_S, map_app, concat_app, IH by lia. rewrite Nat2Z.inj_succ in *. cbn [map concat]. rewrite app_nil_r, Z.add_0_l.
  rewrite (Z.min_l (Z.of_nat n * batch)) by lia. rewrite <- (Z.add_0_l (Z.of_nat n * batch)) at 2. rewrite <- seqZ_app by lia. f_equal. lia.
Qed.

(** Every point is in exactly one batch, in order, and no batch is empty or
    longer than it may be. *)
Theorem batches_cover settings :
  0 < batch_points settings -> 0 <= bench_points settings -> bench_points settings + batch_points settings <= USIZE_MAX ->
  concat (map batch_indices (batches settings)) = seqZ 0 (bench_points settings) /\
  Forall (fun batch => 0 < zlen (batch_indices batch) <= batch_points settings) (batches settings).
Proof.
  intros Hb Hn Hmax. set (B := batch_points settings) in *. set (N := bench_points settings) in *.
  assert (forall i, 0 <= i < (N + B - 1) / B -> i * B < N) as Hstart.
  { intros i Hi. assert (i * B <= ((N + B - 1) / B - 1) * B) by (apply Z.mul_le_mono_nonneg_r; lia). pose proof (Z.mul_div_le (N + B - 1) B Hb). lia. }
  assert (0 <= (N + B - 1) / B) as Hc by (apply Z.div_pos; lia). split.
  - rewrite <- (Z2Nat.id _ Hc) in Hstart. unfold batches. fold B N. rewrite <- (Z2Nat.id _ Hc).
    rewrite map_map. transitivity (concat (map (fun i => seqZ (i * B) (Z.min (i * B + B) N - i * B)) (seqZ 0 (Z.of_nat (Z.to_nat ((N + B - 1) / B)))))).
    { f_equal. apply map_ext_in. intros i Hi%list_elem_of_In%elem_of_seqZ. unfold batch_indices. cbn [fst snd]. unfold saturating_add.
      specialize (Hstart i ltac:(lia)). do 2 f_equal. lia. }
    pose proof (Z.mul_div_le (N + B - 1) B Hb). pose proof (Z.mod_pos_bound (N + B - 1) B Hb). pose proof (Z.div_mod (N + B - 1) B ltac:(lia)).
    rewrite batches_prefix; [f_equal; rewrite Z2Nat.id by done; lia|lia|lia|rewrite Z2Nat.id by done; lia].
  - unfold batches. fold B N. apply Forall_map, Forall_forall. intros i Hi%elem_of_seqZ. specialize (Hstart i ltac:(lia)).
    unfold batch_indices, zlen. cbn [fst snd]. rewrite length_seqZ. unfold saturating_add. lia.
Qed.

(** ** The local benchmarks, on a few points *)

#[local] Existing Instance x86_64_env.

(** The ids the benchmarks print, and those of the points. *)
Example padded_id : padded 9 42 = "000000042" /\ bench_id 7 = "bench-000000000007".
Proof. by vm_compute. Qed.

Example replica_sets_trimmed :
  replica_sets " a:1 , b:1;c:1," = Ok [Distributed.MkReplicaSet ["a:1"; "b:1"]; Distributed.MkReplicaSet ["c:1"]] /\
  is_ok (replica_sets "a:1;;b:1") = false /\ is_ok (replica_sets "") = false.
Proof. by vm_compute. Qed.

(** Zero is a positive integer for [argument]. *)
Example argument_zero : argument ["focal-bench"; "0"] 1 10 = Ok 0 /\ argument ["focal-bench"; "-1"] 1 10 = Panic.
Proof. by vm_compute. Qed.

(** All neighbours are found among five points, with both storages. *)
Definition bench_environment (name : string) : option EnvValue :=
  if String.eqb name "FOCAL_BENCH_STORAGE" then Some (Utf8 "both") else if String.eqb name "FOCAL_BENCH_EF_SWEEP" then Some (Utf8 "8, 16") else None.

Example focal_bench_recall :
  rmap (map measured_recall) (focal_bench true 2 bench_environment ["focal-bench"; "5"; "2"; "2"]) =
    Ok (repeat (of_int fmt64 1) 4).
Proof. by vm_compute. Qed.

Example persistence_bench_runs :
  match persistence_bench true 2 7 (fun _ => None) Locked ["focal-persistence-bench"; "4"; "2"; "1"] (".segment-1.tmp", ".segment-2.tmp") (MkWorld ∅ []) with
  | Returned (Ok (full_size, delta_size)) _ => Z.ltb delta_size full_size = true
  | _ => False
  end.
Proof. by vm_compute. Qed.

(** Two points, and the best of three asked for: a perfect answer is counted
    against [k], not against the points there are. *)
Definition short_settings : BenchSettings := MkBenchSettings [] "t" 2 2 1000 1 3 256 1 1 Cosine.
Definition short_answer : list (Z * Distributed.DistributedSearchResult) :=
  [(0, Distributed.MkSearchResult [MkHit (bench_id 0) 0 ∅ 1; MkHit (bench_id 1) 0 ∅ 1] None)].

Example recall_of_all_points :
  recalled short_settings short_answer = Ok 2 /\ match bench_recall short_settings short_answer with Ok r => fltb fmt64 r (of_int fmt64 1) = true | _ => False end.
Proof. by vm_compute. Qed.
