(* ===== verification/Testing.v ===== *)
(** * Testing: tests as programs

    The unit tests beside the code are translated like the code: a test is a
    program over a disk that calls the operations of the model, in the test's
    order, and stops where an [unwrap] meets an error or an assertion fails.
    That a test passes is then an equation, checked by running the model.  The
    machine is the one of [x86_64_env], without I/O errors. *)

From stdpp Require Import base gmap list strings.
From Stdlib Require Import ZArith Lia.
From S2P Require Import Prelude Errors Floats Ranking Filter Metric Collection Disk.

Definition test (D A : Type) : Type := D -> option (A * D).

#[global] Instance test_ret {D} : MRet (test D) := fun A a d => Some (a, d).
#[global] Instance test_bind {D} : MBind (test D) := fun A B k m d =>
  match m d with Some (a, d') => k a d' | None => None end.

Section Steps.
Context {D : Type}.

(** A call on the disk, without faults. *)
Definition call {A : Type} (m : io_of D A) : test D A := fun d =>
  match m (MkWorld d []) with Returned a w => Some (a, disk w) | Crashed _ => None end.
(** [unwrap], [unwrap_err] and [assert!] *)
Definition value {A : Type} (r : Result A) : test D A := fun d => match r with Ok a => Some (a, d) | _ => None end.
Definition error {A : Type} (r : Result A) : test D Error := fun d => match r with Err e => Some (e, d) | _ => None end.
Definition assert (b : bool) : test D unit := fun d => if b then Some (tt, d) else None.
Definition unwrap {A : Type} (m : io_of D (Result A)) : test D A := r ← call m; value r.
Definition unwrap_err {A : Type} (m : io_of D (Result A)) : test D Error := r ← call m; error r.
(** A call on an object: its result, and the object after it. *)
Definition method {A S : Type} (m : io_of D (Result A * S)) : test D (A * S) := '(r, s) ← call m; a ← value r; mret (a, s).
Definition pure_method {A S : Type} (m : Result A * S) : test D (A * S) := a ← value m.1; mret (a, m.2).
(** A loop. *)
Fixpoint for_in {A S : Type} (items : list A) (body : S -> A -> test D S) (s : S) : test D S :=
  match items with [] => mret s | item :: items' => s' ← body s item; for_in items' body s' end.

Definition reading : test D D := fun d => Some (d, d).
Definition changing (f : D -> D) : test D unit := fun d => Some (tt, f d).
Definition passes (t : test D unit) (d : D) : bool := match t d with Some _ => true | None => false end.
End Steps.

(** A test of pure code. *)
Definition passes_pure (t : test unit unit) : bool := passes t tt.

(** ** Literals and views *)

(** The [f32] and [f64] nearest to [numerator / denominator]. *)
Definition f32 (numerator : Z) : Z := @of_int x86_64_env fmt32 numerator.
Definition f64 (numerator : Z) : Z := @of_int x86_64_env fmt64 numerator.
Definition f32_ratio (numerator denominator : Z) : Z := @fdiv x86_64_env fmt32 (f32 numerator) (f32 denominator).

Definition hit_ids (hits : list SearchHit) : list string := map hit_id hits.
Definition close (tolerance a b : Z) : bool := fltb fmt32 (fabs fmt32 (@fsub x86_64_env fmt32 a b)) tolerance.

(** [matches!(error, Error::CorruptStorage(_))] and the like. *)
Definition is_corrupt (e : Error) : bool := match e with CorruptStorage _ => true | _ => false end.
Definition is_invalid_config (e : Error) : bool := match e with InvalidConfig _ => true | _ => false end.
Definition is_invalid_configuration (e : Error) : bool := match e with InvalidConfiguration _ => true | _ => false end.
Definition is_invalid_dimension (e : Error) : bool := match e with InvalidDimension _ _ => true | _ => false end.
Definition is_invalid_query (e : Error) : bool := match e with InvalidQuery _ => true | _ => false end.
Definition is_concurrency (e : Error) : bool := match e with Concurrency _ => true | _ => false end.
