(* ===== verification/CoreTests.v ===== *)
(** * CoreTests: the unit tests of [src/src/collection.rs],
    [src/src/metadata_index.rs] and [src/src/hnsw.rs] *)

From stdpp Require Import base gmap sets list strings.
From Stdlib Require Import ZArith Lia.
From S2P Require Import Prelude Errors Floats Ranking Filter MetadataIndex Metric Collection Testing.
From S2P Require Quantize Hnsw HnswCodec.

#[local] Existing Instance x86_64_env.

Module collection.
Definition point (id : string) (vector : list Z) (tenant : string) (price : Z) : UpsertPoint :=
  MkUpsert id vector {["tenant" := Keyword tenant; "price" := Integer price]}.

Definition cosine_search_normalizes_and_orders_results : test unit unit :=
  collection ← value (new (MkConfig 2 Cosine));
  '(_, collection) ← pure_method (upsert collection
    [point "north" [f32 0; f32 8] "a" 10; point "east" [f32 2; f32 0] "a" 20; point "diagonal" [f32 1; f32 1] "b" 30]);
  hits ← value (search collection [f32 0; f32 3] 2 None);
  _ ← assert (bool_decide (hit_ids hits = ["north"; "diagonal"]));
  first ← value (index hits 0);
  assert (close (f32_ratio 1 1000000) (hit_score first) (f32 1)).

Definition filters_are_applied_before_ranking : test unit unit :=
  collection ← value (new (MkConfig 2 DotProduct));
  '(_, collection) ← pure_method (upsert collection
    [point "wrong-tenant" [f32 10; f32 0] "b" 5; point "too-cheap" [f32 9; f32 0] "a" 3; point "match" [f32 8; f32 0] "a" 12]);
  let filter := FAnd [FEq "tenant" (Keyword "a"); FRange "price" (Some (f64 10)) None] in
  hits ← value (search collection [f32 1; f32 0] 10 (Some filter));
  assert (bool_decide (hit_ids hits = ["match"])).

Definition invalid_batch_is_atomic : test unit unit :=
  collection ← value (new (MkConfig 2 Euclidean));
  let '(result, collection) := upsert collection [point "valid" [f32 1; f32 2] "a" 1; MkUpsert "invalid" [f32 1] ∅] in
  e ← error result;
  _ ← assert (is_invalid_dimension e);
  _ ← assert (is_empty collection);
  assert (Z.eqb (latest_sequence collection) 0).

Definition updates_and_deletes_advance_sequence : test unit unit :=
  collection ← value (new (MkConfig 2 Euclidean));
  '(first, collection) ← pure_method (upsert collection [point "p" [f32 1; f32 1] "a" 1]);
  _ ← assert (Z.eqb first 1);
  '(second, collection) ← pure_method (upsert collection [point "p" [f32 2; f32 2] "b" 2]);
  _ ← assert (Z.eqb second 2);
  let '(found, collection) := get collection "p" in
  _ ← assert (bool_decide (pt_sequence <$> found = Some 2));
  '(third, collection) ← pure_method (delete collection ["p"]);
  _ ← assert (Z.eqb third 3);
  assert (bool_decide ((get collection "p").1 = None)).

Definition ties_are_stable_by_point_id : test unit unit :=
  collection ← value (new (MkConfig 2 DotProduct));
  '(_, collection) ← pure_method (upsert collection [point "b" [f32 1; f32 0] "a" 1; point "a" [f32 1; f32 0] "a" 1]);
  hits ← value (search collection [f32 1; f32 0] 2 None);
  assert (bool_decide (hit_ids hits = ["a"; "b"])).

Definition tests : list (test unit unit) :=
  [cosine_search_normalizes_and_orders_results; filters_are_applied_before_ranking; invalid_batch_is_atomic;
   updates_and_deletes_advance_sequence; ties_are_stable_by_point_id].

Example collection_tests_pass : forallb passes_pure tests = true.
Proof. vm_compute. reflexivity. Qed.
End collection.

Module metadata_index.
Definition point (id tenant : string) (price : Z) (enabled : bool) : StoredPoint :=
  MkStored id (Owned [f32 1]) {["tenant" := Keyword tenant; "price" := Integer price; "enabled" := Boolean enabled]} 1 None.

Definition combines_equality_range_and_boolean_expressions : test unit unit :=
  let points := [point "a" "one" 5 true; point "b" "one" 15 false; point "c" "two" 25 true] in
  let index := build points in
  let filter := FAnd [FEq "tenant" (Keyword "one"); FRange "price" (Some (f64 10)) (Some (f64 20)); FNot (FEq "enabled" (Boolean true))] in
  found ← value (candidates index filter);
  _ ← assert (bool_decide (found = {["b"]}));
  nothing ← value (candidates index (FRange "price" (Some (f64 20)) (Some (f64 10))));
  assert (bool_decide (nothing = ∅)).

Example metadata_index_test_passes : passes_pure combines_equality_range_and_boolean_expressions = true.
Proof. vm_compute. reflexivity. Qed.
End metadata_index.

(** The tests on fixed vectors; the others take their vectors from the sine and
    cosine of the platform, or measure recall on hundreds of them. *)
Module hnsw.
Import Quantize Hnsw HnswCodec Testing.

Abbreviation htest := (test unit unit).
Definition metrics : list Metric := [Cosine; DotProduct; Euclidean].
Definition searching (index : HnswIndex) (query : list Z) (k ef_search : Z) : test unit (list HnswHit) :=
  found ← value (search true index query k ef_search []); mret found.1.
(** [hits[0].id == id] *)
Definition first_is (id : string) (hits : list HnswHit) : bool := bool_decide (hit_id <$> head hits = Some id).

Definition finds_nearest_points_for_all_metrics : htest :=
  for_in metrics (fun _ metric =>
    index ← value (build true 2 2 metric (MkHnswConfig 8 32) [("a", [f32 1; f32 0]); ("b", [f32 0; f32 1]); ("c", [f32 (-1); f32 0])]);
    hits ← searching index [f32_ratio 9 10; f32_ratio 1 10] 2 8;
    assert (first_is "a" hits)) tt.

Definition validates_configuration_and_queries : htest :=
  _ ← assert (negb (is_ok (build true 2 2 Cosine (MkHnswConfig 1 10) [])));
  index ← value (build true 2 2 Cosine default_config []);
  _ ← assert (negb (is_ok (search true index [f32 1] 1 10 [])));
  assert (negb (is_ok (search true index [f32 1; f32 0] 10 9 []))).

Definition construction_and_ties_are_deterministic : htest :=
  let build (_ : unit) := build true 2 2 DotProduct default_config [("b", [f32 1; f32 0]); ("a", [f32 1; f32 0])] in
  index ← value (build tt);
  first ← searching index [f32 1; f32 0] 2 16;
  index ← value (build tt);
  second ← searching index [f32 1; f32 0] 2 16;
  _ ← assert (forallb (fun '(a, b) => String.eqb (hit_id a) (hit_id b) && Z.eqb (hit_score a) (hit_score b)) (zip first second)
              && Nat.eqb (length first) (length second));
  assert (first_is "a" first).

Definition tenths (l : list Z) : list Z := map (fun n => f32_ratio n 10) l.

Definition quantized_search_supports_every_metric_and_zero_vectors : htest :=
  for_in metrics (fun _ metric =>
    let input := [("a", tenths [100; 2; -1; 0]); ("b", tenths [1; 90; 2; 0]); ("c", tenths [-80; 1; 0; 0])] ++
      (if decide (metric = Cosine) then [] else [("zero", tenths [0; 0; 0; 0])]) in
    index ← value (build_quantized true 2 4 metric (MkHnswConfig 8 32) input);
    hits ← searching index (tenths [90; 1; 0; 0]) 2 8;
    _ ← assert (first_is "a" hits);
    assert (forallb (fun hit => is_finite fmt32 (hit_score hit)) hits)) tt.

(** The scale of the only node is overwritten with a NaN. *)
Definition decoder_rejects_corrupt_quantization_parameters : htest :=
  index ← value (build_quantized true 2 2 DotProduct default_config [("a", [f32 1; f32 2])]);
  encoded ← value (encode_into index);
  e ← error (decode true (firstn 44 encoded ++ le_bytes 4 (nan_bits fmt32) ++ skipn 48 encoded));
  assert (is_corrupt e).

(** [as i16 as i8] of a number below 255 *)
Definition codes (factor period : Z) (extremes : list Z) (length : Z) : list Z :=
  map (fun index => default (wrap_i 8 ((index * factor) mod 255)) (extremes !! Z.to_nat (index mod period))) (seqZ 0 length).

Definition simd_matches_portable (length : Z) : htest :=
  let left := codes 37 5 [-127; 127; -1; 1] length in
  let right := codes 53 7 [127; -127; 1; -1] length in
  let expected := quantized_integer_dot_portable left right in
  _ ← assert (Z.eqb (quantized_integer_dot true left right) expected);
  assert (Z.eqb (quantized_integer_dot_avx2 left right) expected).

Definition simd_integer_dot_matches_portable_at_boundaries_and_extremes : htest :=
  for_in [0; 1; 3; 15; 16; 17; 31; 32; 33; 127; 128; 129; 4096] (fun _ length => simd_matches_portable length) tt.

Definition tests : list htest :=
  [finds_nearest_points_for_all_metrics; validates_configuration_and_queries; construction_and_ties_are_deterministic;
   quantized_search_supports_every_metric_and_zero_vectors; decoder_rejects_corrupt_quantization_parameters].

Example hnsw_tests_pass : forallb passes_pure tests = true.
Proof. vm_compute. reflexivity. Qed.

(** The sums of the two loops are the integer dot product: no length up to
    65,536 is special. *)
Lemma codes_ok_codes factor period extremes length : codes_ok extremes -> codes_ok (codes factor period extremes length).
Proof.
  intros He. apply Forall_map, Forall_forall. intros index _. destruct (extremes !! _) as [x|] eqn:Ex; [by eapply Forall_lookup_1|].
  cbn [default]. generalize ((index * factor) mod 255). intros z. unfold code_ok, in_i, wrap_i. change (2 ^ 8) with 256. change (2 ^ (8 - 1)) with 128.
  pose proof (Z.mod_pos_bound z 256 ltac:(lia)). destruct (Z.ltb_spec (z mod 256) 128); lia.
Qed.

Lemma simd_matches length d : 0 <= length <= 65536 -> simd_matches_portable length d = Some (tt, d).
Proof.
  intros Hl. unfold simd_matches_portable. set (left := codes 37 _ _ _). set (right := codes 53 _ _ _).
  assert (codes_ok left) as H1 by (apply codes_ok_codes; repeat constructor; done).
  assert (codes_ok right) as H2 by (apply codes_ok_codes; repeat constructor; done).
  assert (zlen left = length) as H3 by (unfold left, codes, zlen; rewrite length_map, length_seqZ; lia).
  assert (Datatypes.length left = Datatypes.length right) as H4 by (unfold left, right, codes; by rewrite !length_map).
  assert (quantized_integer_dot true left right = quantized_integer_dot_avx2 left right) as ->.
  { unfold quantized_integer_dot. destruct (Z.leb_spec (zlen left) 65536); [done|lia]. }
  rewrite portable_idot, avx2_idot by (done || lia). unfold mbind, test_bind, assert. by rewrite Z.eqb_refl.
Qed.

Lemma simd_test_passes : passes_pure simd_integer_dot_matches_portable_at_boundaries_and_extremes = true.
Proof. unfold passes_pure, passes. by cbn [for_in simd_integer_dot_matches_portable_at_boundaries_and_extremes mbind test_bind]; rewrite ?simd_matches by lia. Qed.
End hnsw.
