(* ===== verification/PersistenceTests.v ===== *)
(** * PersistenceTests: the unit tests of [src/src/persistence.rs]

    The directory of a test starts empty, or as the disk the test is given.
    Dropping a handle releases its lock, which is the argument of [open]; the
    name of a prepared segment is the argument of [flush]. *)

From stdpp Require Import base gmap sets list strings.
From Stdlib Require Import ZArith Lia.
From S2P Require Import Prelude Errors Floats Ranking Filter MetadataIndex Metric Quantize Hnsw HnswCodec.
From S2P Require Import Collection Codec Wire WireFacts HnswBuild Disk Segment SegmentFacts Manifest Persistence Tree Testing.

#[local] Existing Instance x86_64_env.

Abbreviation ptest := (test Dir).

Definition config : CollectionConfig := MkConfig 2 Cosine.
Definition point (id : string) (vector : list Z) : UpsertPoint := MkUpsert id vector {["kind" := Keyword "test"]}.

(** [PersistentCollection::open(&directory, config(), Durability::Sync)] *)
Definition opening (config : CollectionConfig) (lock : LockOutcome) : io (Result PersistentCollection) :=
  open_with_cuda true config Sync Disabled lock.
Definition open_ : ptest PersistentCollection := unwrap (opening config Locked).
Definition upsert_ (self : PersistentCollection) (points : list UpsertPoint) : ptest (Z * PersistentCollection) := method (upsert self points).
Definition delete_ (self : PersistentCollection) (ids : list string) : ptest (Z * PersistentCollection) := method (delete self ids).
Definition flush_ (self : PersistentCollection) : ptest (Z * PersistentCollection) := method (flush true 2 7 ".segment-flush.tmp" self).
Definition search_ (self : PersistentCollection) (query : list Z) (k : Z) (filter : option Filter) : ptest (list SearchHit) :=
  found ← value (search true self query k filter); mret found.1.
Definition search_with_ef_ (self : PersistentCollection) (query : list Z) (k : Z) (filter : option Filter) (ef : Z) : ptest (list SearchHit) :=
  found ← value (search_with_ef true self query k filter ef); mret found.1.
(** [collection.collection().get(id)], and [get_stored] *)
Definition got (self : PersistentCollection) (id : string) : option Point := (get (inner self) id).1.
Definition holds (self : PersistentCollection) (id : string) : bool := bool_decide (is_Some (got self id)).
Definition stored (self : PersistentCollection) (id : string) : ptest StoredPoint := value (ok_or (get_stored (inner self) id) (NotFound id)).
Definition size_of (name : string) : ptest Z := d ← reading; bytes ← value (ok_or (d !! name) missing); mret (zlen bytes).
Definition exists_in (name : string) : ptest bool := d ← reading; mret (bool_decide (is_Some (d !! name))).
(** A byte of a file overwritten. *)
Definition corrupt (name : string) (position : nat) (byte : Z) : ptest unit :=
  changing (fun d => alter (fun bytes => <[position := to_u8 byte]> bytes) name d).
Definition last_index (self : PersistentCollection) : ptest HnswIndex :=
  value (ok_or (is_index <$> last (indexes self)) (NotFound "index")).

Definition required_cuda_rejects_a_non_cuda_build : ptest unit :=
  e ← unwrap_err (open_with_cuda true config Sync Required Locked);
  assert (is_invalid_configuration e).

Definition committed_mutations_survive_restart : ptest unit :=
  collection ← open_;
  '(_, collection) ← upsert_ collection [point "keep" [f32 1; f32 0]; point "remove" [f32 0; f32 1]];
  _ ← delete_ collection ["remove"];
  collection ← open_;
  _ ← assert (Z.eqb (latest_sequence collection) 2);
  _ ← assert (holds collection "keep");
  assert (negb (holds collection "remove")).

Definition incomplete_final_frame_is_discarded : ptest unit :=
  collection ← open_;
  _ ← upsert_ collection [point "safe" [f32 1; f32 0]];
  valid_length ← size_of "write.wal";
  _ ← unwrap (append "write.wal" (bytes_of_string "FVWL" ++ [to_u8 0x40; to_u8 0x00]));
  collection ← open_;
  _ ← assert (Z.eqb (latest_sequence collection) 1);
  length ← size_of "write.wal";
  assert (Z.eqb length valid_length).

Definition checksum_corruption_is_rejected : ptest unit :=
  collection ← open_;
  _ ← upsert_ collection [point "p" [f32 1; f32 0]];
  _ ← corrupt "write.wal" 12 0xff;
  e ← unwrap_err (opening config Locked);
  assert (is_corrupt e).

Definition persisted_configuration_cannot_change : ptest unit :=
  _ ← open_;
  e ← unwrap_err (opening (MkConfig 3 Cosine) Locked);
  assert (is_invalid_config e).

Definition rejects_a_second_writer_for_the_same_directory : ptest unit :=
  _ ← open_;
  e ← unwrap_err (opening config WouldBlock);
  _ ← assert (is_concurrency e);
  reopened ← call (opening config Locked);
  assert (is_ok reopened).

Definition crc32c_matches_standard_check_value : ptest unit :=
  assert (Z.eqb (crc32c (bytes_of_string "123456789")) 0xe3069283).

Definition flush_checkpoints_wal_and_recovers_segment : ptest unit :=
  collection ← open_;
  '(_, collection) ← upsert_ collection [point "a" [f32 1; f32 0]; point "b" [f32 0; f32 1]];
  _ ← assert (negb (has_approximate_index collection));
  '(flushed, collection) ← flush_ collection;
  _ ← assert (Z.eqb flushed 1);
  _ ← assert (has_approximate_index collection);
  let stats := index_stats collection in
  _ ← assert (Z.eqb (mapped_points stats) 2);
  _ ← assert (Z.eqb (owned_points stats) 0);
  _ ← assert (Z.eqb (owned_vector_bytes stats) 0);
  length ← size_of "write.wal";
  _ ← assert (Z.eqb length 0);
  collection ← open_;
  _ ← assert (Z.eqb (latest_sequence collection) 1);
  _ ← assert (Z.eqb (len collection) 2);
  _ ← assert (has_approximate_index collection);
  _ ← assert (Z.eqb (mapped_points (index_stats collection)) 2);
  hits ← search_with_ef_ collection [f32 1; f32 0] 2 None 16;
  _ ← assert (bool_decide (head (hit_ids hits) = Some "a"));
  segment ← exists_in "segment-00000000000000000001.fvs";
  assert segment.

Definition backup_copies_a_complete_base_and_delta_chain : test Tree unit :=
  let directory := Live "delta-backup-source" in let backup := Saved "delta-backup-destination" in
  _ ← unwrap (create_dir directory);
  collection ← unwrap (within directory (opening config Locked));
  '(_, collection) ← method (within directory (upsert collection [point "a" [f32 1; f32 0]]));
  '(_, collection) ← method (within directory (flush true 2 7 ".segment-1.tmp" collection));
  '(_, collection) ← method (within directory (upsert collection [point "a" [f32 0; f32 1]]));
  '(_, collection) ← method (within directory (upsert collection [point "b" [f32 1; f32 0]]));
  _ ← method (within directory (flush true 2 7 ".segment-2.tmp" collection));
  _ ← unwrap (copy_collection_directory "/tmp" "7" directory backup);
  restored ← unwrap (within backup (opening config Locked));
  _ ← assert (Z.eqb (latest_sequence restored) 3);
  _ ← assert (Z.eqb (len restored) 2);
  _ ← assert (bool_decide (pt_vector <$> got restored "a" = Some [f32 0; f32 1]));
  assert (Z.eqb (mapped_points (index_stats restored)) 2).

(** A manifest of the first version, with one segment. *)
Definition legacy_manifest (sequence : Z) (name : string) : Result (list byte) :=
  let? listed := put_string name in
  let manifest := MANIFEST_MAGIC ++ [to_u8 FORMAT_VERSION] ++ le_bytes 8 sequence ++ listed in
  Ok (manifest ++ le_bytes 4 (crc32c manifest)).

Definition legacy_single_segment_manifest_remains_readable : ptest unit :=
  collection ← open_;
  '(_, collection) ← upsert_ collection [point "a" [f32 1; f32 0]];
  '(sequence, _) ← flush_ collection;
  manifest ← unwrap read_manifest;
  name ← value (ok_or (manifest ≫= fun manifest => head (man_segments manifest)) (NotFound "segment"));
  legacy ← value (legacy_manifest sequence name);
  _ ← changing (<["MANIFEST" := legacy]>);
  collection ← open_;
  _ ← assert (Z.eqb (latest_sequence collection) sequence);
  assert (holds collection "a").

Definition legacy_v2_full_segment_remains_readable : ptest unit :=
  _ ← open_;
  let point := MkStored "legacy" (Owned [f32 1; f32 0]) ∅ 1 None in
  index ← value (build_quantized_prepared true 2 2 Cosine default_config [(sp_id point, as_slice (sp_vector point))]);
  graph ← value (encode_into index);
  points ← value (put_count 1);
  id ← value (put_string (sp_id point));
  metadata ← value (put_count 0);
  graph_length ← value (put_count (zlen graph));
  let bytes := SEGMENT_MAGIC ++ [to_u8 LEGACY_SEGMENT_VERSION; to_u8 (metric_tag Cosine)] ++ le_bytes 8 2 ++ le_bytes 8 1
    ++ points ++ id ++ le_bytes 8 (sp_sequence point) ++ bytes_of_f32s (as_slice (sp_vector point)) ++ metadata ++ graph_length ++ graph in
  _ ← changing (<["segment-00000000000000000001.fvs" := bytes ++ le_bytes 4 (crc32c bytes)]>);
  manifest ← value (legacy_manifest 1 "segment-00000000000000000001.fvs");
  _ ← changing (<["MANIFEST" := manifest]>);
  collection ← open_;
  _ ← assert (bool_decide (pt_vector <$> got collection "legacy" = Some [f32 1; f32 0]));
  legacy ← stored collection "legacy";
  _ ← assert (negb (is_memory_mapped (sp_vector legacy)));
  first ← value (Prelude.index (indexes collection) 0);
  assert (vectors_are_memory_mapped (is_index first)).

Definition flush_persists_a_quantized_graph : ptest unit :=
  collection ← open_;
  '(_, collection) ← upsert_ collection [point "a" [f32 1; f32 0]; point "b" [f32 0; f32 1]];
  '(_, collection) ← flush_ collection;
  index ← last_index collection;
  _ ← assert (bool_decide (arena_storage (vectors index) = ScalarInt8));
  collection ← open_;
  index ← last_index collection;
  _ ← assert (bool_decide (arena_storage (vectors index) = ScalarInt8));
  assert (vectors_are_memory_mapped index).

Definition quantized_candidates_are_reranked_with_full_precision : ptest unit :=
  collection ← unwrap (opening (MkConfig 4 DotProduct) Locked);
  '(_, collection) ← upsert_ collection
    [MkUpsert "a-worse" [f32 0; f32 1; f32_ratio 1 2; f32 0] ∅; MkUpsert "z-better" [f32 0; f32 1; f32_ratio 503 1000; f32 0] ∅];
  '(_, collection) ← flush_ collection;
  hits ← search_with_ef_ collection [f32 0; f32 0; f32 1; f32 0] 1 None 8;
  first ← value (Prelude.index hits 0);
  _ ← assert (String.eqb (hit_id first) "z-better");
  assert (feqb fmt32 (hit_score first) (f32_ratio 503 1000)).

Definition mutations_after_flush_replay_over_segment : ptest unit :=
  collection ← open_;
  '(_, collection) ← upsert_ collection [point "a" [f32 1; f32 0]];
  '(_, collection) ← flush_ collection;
  _ ← assert (has_approximate_index collection);
  '(_, collection) ← upsert_ collection [point "b" [f32 0; f32 1]];
  _ ← assert (has_approximate_index collection);
  '(_, collection) ← delete_ collection ["a"];
  hits ← search_ collection [f32 0; f32 1] 2 None;
  _ ← assert (bool_decide (hit_ids hits = ["b"]));
  collection ← open_;
  _ ← assert (Z.eqb (latest_sequence collection) 3);
  _ ← assert (has_approximate_index collection);
  _ ← assert (negb (holds collection "a"));
  _ ← assert (holds collection "b");
  hits ← search_ collection [f32 0; f32 1] 2 None;
  assert (bool_decide (hit_ids hits = ["b"])).

Definition repeated_flush_compacts_immutable_segments : ptest unit :=
  collection ← open_;
  '(_, collection) ← upsert_ collection [point "a" [f32 1; f32 0]];
  '(_, collection) ← flush_ collection;
  collection ← for_in (seqZ 2 8) (fun collection sequence =>
    '(_, collection) ← upsert_ collection [point ("p" +:+ fmt_int sequence) [f32 0; f32 1]];
    '(_, collection) ← flush_ collection;
    mret collection) collection;
  _ ← assert (Z.eqb (zlen (indexes collection)) 1);
  first_segment ← exists_in "segment-00000000000000000001.fvs";
  _ ← assert (negb first_segment);
  compacted_segment ← exists_in "segment-00000000000000000009.fvs";
  _ ← assert compacted_segment;
  collection ← open_;
  _ ← assert (Z.eqb (len collection) 9);
  assert (Z.eqb (zlen (indexes collection)) 1).

Definition immutable_deltas_suppress_stale_updates_and_tombstones_after_restart : ptest unit :=
  collection ← open_;
  '(_, collection) ← upsert_ collection [point "updated" [f32 1; f32 0]; point "deleted" [f32 1; f32 0]];
  '(_, collection) ← flush_ collection;
  '(_, collection) ← upsert_ collection [point "updated" [f32 0; f32 1]];
  '(_, collection) ← delete_ collection ["deleted"];
  '(_, collection) ← flush_ collection;
  _ ← assert (Z.eqb (zlen (indexes collection)) 2);
  collection ← open_;
  _ ← assert (Z.eqb (zlen (indexes collection)) 2);
  hits ← search_ collection [f32 1; f32 0] 10 None;
  _ ← assert (bool_decide (hit_ids hits = ["updated"]));
  first ← value (Prelude.index hits 0);
  assert (fltb fmt32 (fabs fmt32 (hit_score first)) (f32_ratio 1 1000000)).

(** [write] of [Crc32cWriter], chunk by chunk; the test writes 65,537 bytes. *)
Definition streaming_checksum_matches_chunked_writes : ptest unit :=
  let bytes := firstn (Z.to_nat 65537) (concat (repeat (map to_u8 (seqZ 0 256)) 257)) in
  let output := write_all writer_new (chunks (length bytes) 37 bytes) in
  let (written, checksum) := writer_finish output in
  _ ← assert (bool_decide (written = bytes));
  assert (Z.eqb checksum (crc32c bytes)).

Definition abandoned_prepared_flush_removes_its_temporary_segment : ptest unit :=
  collection ← open_;
  '(_, collection) ← upsert_ collection [point "a" [f32 1; f32 0]];
  prepared ← unwrap (build_flush true 2 ".segment-1.tmp" (flush_snapshot collection));
  written ← exists_in (temporary_segment prepared);
  _ ← assert written;
  _ ← call (ignore (remove_file (temporary_segment prepared)));
  left ← exists_in (temporary_segment prepared);
  assert (negb left).

Definition segment_corruption_is_rejected : ptest unit :=
  collection ← open_;
  '(_, collection) ← upsert_ collection [point "a" [f32 1; f32 0]];
  _ ← flush_ collection;
  _ ← corrupt "segment-00000000000000000001.fvs" 20 0xff;
  e ← unwrap_err (opening config Locked);
  assert (is_corrupt e).

Definition filtered_search_stays_correct_with_loaded_graph : ptest unit :=
  collection ← open_;
  '(_, collection) ← upsert_ collection [point "a" [f32 1; f32 0]; point "b" [f32_ratio 9 10; f32_ratio 1 10]];
  '(_, collection) ← flush_ collection;
  hits ← search_with_ef_ collection [f32 1; f32 0] 2 (Some (FEq "kind" (Keyword "does-not-match"))) 16;
  assert (bool_decide (hits = [])).

Definition updated_point_does_not_leak_stale_graph_vector : ptest unit :=
  collection ← open_;
  '(_, collection) ← upsert_ collection [point "a" [f32 1; f32 0]; point "b" [f32 0; f32 1]];
  '(_, collection) ← flush_ collection;
  '(_, collection) ← upsert_ collection [point "a" [f32 (-1); f32 0]];
  hits ← search_ collection [f32 1; f32 0] 2 None;
  assert (bool_decide (hit_ids hits = ["b"; "a"])).

Definition tagged (id tenant : string) (vector : list Z) : UpsertPoint :=
  MkUpsert id vector {["tenant" := Keyword tenant; "price" := Integer (if String.eqb id "a" then 10 else 20)]}.

Definition metadata_index_merges_changed_payloads_correctly : ptest unit :=
  collection ← open_;
  '(_, collection) ← upsert_ collection [tagged "a" "one" [f32 1; f32 0]; tagged "b" "two" [f32 0; f32 1]];
  '(_, collection) ← flush_ collection;
  '(_, collection) ← upsert_ collection [tagged "a" "two" [f32 1; f32 0]];
  hits ← search_ collection [f32 1; f32 0] 10 (Some (FEq "tenant" (Keyword "one")));
  _ ← assert (bool_decide (hits = []));
  let new_tenant_with_range := FAnd [FEq "tenant" (Keyword "two"); FRange "price" (Some (f64 10)) (Some (f64 21))] in
  hits ← search_ collection [f32 1; f32 0] 10 (Some new_tenant_with_range);
  assert (bool_decide (hit_ids hits = ["a"; "b"])).

Definition flush_snapshot_preserves_writes_that_arrive_during_build : ptest unit :=
  collection ← open_;
  '(_, collection) ← upsert_ collection [point "a" [f32 1; f32 0]];
  let snapshot := flush_snapshot collection in
  '(_, collection) ← upsert_ collection [point "b" [f32 0; f32 1]];
  prepared ← unwrap (build_flush true 2 ".segment-1.tmp" snapshot);
  '(published, _) ← method (publish_flush true 7 collection prepared);
  _ ← assert (Z.eqb published 1);
  length ← size_of "write.wal";
  _ ← assert (Z.ltb 0 length);
  reopened ← open_;
  _ ← assert (Z.eqb (latest_sequence reopened) 2);
  _ ← assert (holds reopened "a");
  assert (holds reopened "b").

Definition old_flush_does_not_replace_a_newer_same_id_vector : ptest unit :=
  collection ← open_;
  '(_, collection) ← upsert_ collection [point "a" [f32 1; f32 0]];
  let snapshot := flush_snapshot collection in
  '(_, collection) ← upsert_ collection [point "a" [f32 0; f32 1]];
  prepared ← unwrap (build_flush true 2 ".segment-1.tmp" snapshot);
  '(_, collection) ← method (publish_flush true 7 collection prepared);
  _ ← assert (bool_decide (pt_vector <$> got collection "a" = Some [f32 0; f32 1]));
  current ← stored collection "a";
  _ ← assert (negb (is_memory_mapped (sp_vector current)));
  reopened ← open_;
  assert (bool_decide (pt_vector <$> got reopened "a" = Some [f32 0; f32 1])).

Definition stale_flush_cannot_replace_a_newer_manifest : ptest unit :=
  collection ← open_;
  '(_, collection) ← upsert_ collection [point "a" [f32 1; f32 0]];
  stale ← unwrap (build_flush true 2 ".segment-1.tmp" (flush_snapshot collection));
  '(_, collection) ← upsert_ collection [point "b" [f32 0; f32 1]];
  '(_, collection) ← flush_ collection;
  '(published, _) ← method (publish_flush true 7 collection stale);
  _ ← assert (Z.eqb published 2);
  reopened ← open_;
  _ ← assert (Z.eqb (latest_sequence reopened) 2);
  assert (Z.eqb (len reopened) 2).

Definition every_torn_wal_suffix_recovers_to_an_atomic_boundary : ptest unit :=
  collection ← open_;
  _ ← upsert_ collection [point "safe" [f32 1; f32 0]];
  source ← reading;
  wal ← value (ok_or (source !! "write.wal") missing);
  metadata ← value (ok_or (source !! "collection.meta") missing);
  for_in (seqZ 0 (zlen wal + 1)) (fun _ cut =>
    _ ← changing (fun _ => {["collection.meta" := metadata; "write.wal" := firstn (Z.to_nat cut) wal]});
    collection ← open_;
    assert (Z.eqb (latest_sequence collection) (if Z.eqb cut (zlen wal) then 1 else 0))) tt.

(** [format!("p{index:03}")] *)
Definition id3 (index : Z) : string := "p" +:+ (if Z.ltb index 10 then "00" else if Z.ltb index 100 then "0" else "") +:+ fmt_int index.

(** The test takes 100 points. *)
Definition routine_flush_writes_only_changed_points (count : Z) : ptest unit :=
  let updated := id3 (count / 2) in
  collection ← open_;
  '(_, collection) ← upsert_ collection (map (fun index => point (id3 index) [f32 1; f32 0]) (seqZ 0 count));
  '(_, collection) ← flush_ collection;
  full_size ← size_of "segment-00000000000000000001.fvs";
  '(_, collection) ← upsert_ collection [point updated [f32 0; f32 1]];
  '(_, collection) ← flush_ collection;
  delta_size ← size_of "segment-00000000000000000002.fvs";
  _ ← assert (Z.ltb (delta_size * 4) full_size);
  let stats := index_stats collection in
  _ ← assert (Z.eqb (mapped_points stats) count);
  _ ← assert (Z.eqb (owned_points stats) 0);
  _ ← assert (Z.eqb (owned_vector_bytes stats) 0);
  reopened ← open_;
  _ ← assert (Z.eqb (mapped_points (index_stats reopened)) count);
  assert (bool_decide (pt_vector <$> got reopened updated = Some [f32 0; f32 1])).

(** The generator of the test, and its bytes. *)
Definition next_state (state : Z) : Z := wrap_u 64 (wrap_u 64 (state * 6364136223846793005) + 1).
Fixpoint random_bytes (length : nat) (state : Z) : list byte * Z :=
  match length with
  | O => ([], state)
  | S length' =>
      let state := next_state state in
      let '(bytes, state') := random_bytes length' state in
      (to_u8 (wrap_u 8 (Z.shiftr state 32)) :: bytes, state')
  end.

Definition decodes_random (state length : Z) : ptest Z :=
  let '(bytes, state) := random_bytes (Z.to_nat length) state in
  _ ← assert (match decode_segment true bytes with Panic => false | _ => true end);
  mret state.

(** The test takes the 2,048 lengths below 2,048; a panic is a value of the model. *)
Definition malformed_segment_inputs_never_panic (lengths : Z) : ptest unit :=
  _ ← for_in (seqZ 0 lengths) decodes_random 0x8badf00ddeadbeef;
  mret tt.

Definition tests : list (ptest unit) :=
  [required_cuda_rejects_a_non_cuda_build; committed_mutations_survive_restart; incomplete_final_frame_is_discarded;
   checksum_corruption_is_rejected; persisted_configuration_cannot_change; rejects_a_second_writer_for_the_same_directory;
   crc32c_matches_standard_check_value; flush_checkpoints_wal_and_recovers_segment;
   legacy_single_segment_manifest_remains_readable; legacy_v2_full_segment_remains_readable; flush_persists_a_quantized_graph;
   quantized_candidates_are_reranked_with_full_precision; mutations_after_flush_replay_over_segment;
   repeated_flush_compacts_immutable_segments; immutable_deltas_suppress_stale_updates_and_tombstones_after_restart;
   abandoned_prepared_flush_removes_its_temporary_segment; segment_corruption_is_rejected;
   filtered_search_stays_correct_with_loaded_graph; updated_point_does_not_leak_stale_graph_vector;
   metadata_index_merges_changed_payloads_correctly; flush_snapshot_preserves_writes_that_arrive_during_build;
   old_flush_does_not_replace_a_newer_same_id_vector; stale_flush_cannot_replace_a_newer_manifest;
   every_torn_wal_suffix_recovers_to_an_atomic_boundary; routine_flush_writes_only_changed_points 10].

Example persistence_tests_pass : forallb (fun t => passes t ∅) tests = true.
Proof. vm_compute. reflexivity. Qed.

Example backup_test_passes : passes backup_copies_a_complete_base_and_delta_chain ∅ = true.
Proof. vm_compute. reflexivity. Qed.

(** The two tests over many bytes follow from the theorems. *)
Lemma streaming_test_passes d : passes streaming_checksum_matches_chunked_writes d = true.
Proof.
  unfold passes, streaming_checksum_matches_chunked_writes. set (bytes := firstn _ _).
  assert (forall l : list byte, writer_finish (write_all writer_new (chunks (length l) 37 l)) = (l, crc32c l)) as ->.
  { intros l. rewrite (proj1 (crc_writer_streams _)), chunks_concat; [done|lia|lia]. }
  unfold mbind, test_bind, assert. rewrite bool_decide_true by done. by rewrite Z.eqb_refl.
Qed.

Lemma decodes_random_goes_on state length d : exists state', decodes_random state length d = Some (state', d).
Proof.
  unfold decodes_random, mbind, test_bind. destruct (random_bytes _ _) as [bytes state'].
  pose proof (segment_decode_total true bytes false) as Ht. unfold decode_segment, mret, test_ret, assert.
  cbn iota in Ht. destruct (decode_segment_inner _ _ _); [by exists state'..|done].
Qed.

Lemma malformed_test_passes lengths d : passes (malformed_segment_inputs_never_panic lengths) d = true.
Proof.
  unfold passes, malformed_segment_inputs_never_panic, mbind, test_bind.
  enough (forall l state, exists state', for_in l decodes_random state d = Some (state', d)) as He.
  { destruct (He (seqZ 0 lengths) 0x8badf00ddeadbeef) as [state' ->]. done. }
  induction l as [|length l IH]; intros state; [by exists state|]. cbn [for_in]. unfold mbind, test_bind.
  destruct (decodes_random_goes_on state length d) as [state1 ->]. apply IH.
Qed.
