(* ===== verification/ServiceTests.v ===== *)
(** * ServiceTests: the unit tests of the database, its server and the parts
    around it ([src/src/cuda.rs], [src/src/sharding.rs], [src/src/concurrent.rs],
    [src/src/database.rs], [src/src/server.rs], [src/src/raft_storage.rs]) *)

From stdpp Require Import base gmap sets list strings.
From Stdlib Require Import ZArith Lia.
From S2P Require Import Prelude Errors Floats Ranking Filter Metric Collection Disk Persistence Environment Tree Testing.
From S2P Require Wire Journal RaftLog RaftLogFacts.
From S2P Require Cuda CudaFacts Sharding ShardingFacts Concurrent Database DatabaseFacts Api ApiFacts Server.

#[local] Existing Instance x86_64_env.

Definition plain (id : string) (vector : list Z) : UpsertPoint := MkUpsert id vector ∅.
Definition no_settings : string -> option EnvValue := fun _ => None.
Definition unlocked : string -> LockOutcome := fun _ => Locked.

Module cuda.
Import Cuda.
#[local] Existing Instance CudaFacts.demo_device.

Definition top_k_is_score_first_and_id_stable : test unit unit :=
  let hits := select_top_k [MkCudaHit "z" (f32 2); MkCudaHit "low" (f32 1); MkCudaHit "a" (f32 2)] 2 in
  assert (bool_decide (map cuda_id hits = ["a"; "z"])).

(** Of [src/src/persistence.rs], built with the feature. *)
Definition preferred_cuda_leaves_small_collections_on_cpu : test Dir unit :=
  let cuda := MkCuda Preferred 0 10000 in
  collection ← unwrap (open_with_cuda true (MkConfig 2 Cosine) Sync cuda Locked);
  _ ← assert (negb (has_cuda_index collection));
  assert (bool_decide (mode (cuda_config collection) = mode cuda) && Z.eqb (device (cuda_config collection)) (device cuda)
          && Z.eqb (min_vectors (cuda_config collection)) (min_vectors cuda)).

Example cuda_tests_pass :
  passes_pure top_k_is_score_first_and_id_stable && passes preferred_cuda_leaves_small_collections_on_cpu ∅ = true.
Proof. vm_compute. reflexivity. Qed.
End cuda.

Module sharding.
Import Sharding ShardingFacts.

Definition config : CollectionConfig := MkConfig 2 DotProduct.
Definition point (id : string) (vector : list Z) : UpsertPoint := MkUpsert id vector {["tenant" := Keyword "a"]}.
(** New shards, in memory. *)
Definition opening (shard_count : Z) : Result (ShardedCollection Collection) :=
  open (fun _ config => new config) "sharding" config shard_count.

Definition routing_is_stable : test unit unit :=
  _ ← assert (Z.eqb (stable_hash (bytes_of_string "hello")) 0xa430d84680aabd0b);
  collection ← value (opening 7);
  shard ← value (shard_for_id collection "point-42");
  assert (Z.eqb shard 0).

(** Up to the restart. *)
Definition merges_global_top_k_and_survives_restart : test unit unit :=
  collection ← value (opening 4);
  '(_, collection) ← pure_method (upsert collection
    [point "a" [f32 1; f32 0]; point "b" [f32 4; f32 0]; point "c" [f32 3; f32 0]; point "d" [f32 2; f32 0]]);
  hits ← value (search collection [f32 1; f32 0] 3 None 64);
  assert (bool_decide (hit_ids hits = ["b"; "c"; "d"])).

Definition validates_complete_request_before_mutating_any_shard : test unit unit :=
  collection ← value (opening 3);
  let '(result, collection) := upsert collection [point "valid" [f32 1; f32 0]; MkUpsert "bad" [f32 1] ∅] in
  e ← error result;
  _ ← assert (is_invalid_dimension e);
  count ← value (len collection);
  assert (Z.eqb count 0).

Example sharding_tests_pass :
  forallb passes_pure [routing_is_stable; merges_global_top_k_and_survives_restart; validates_complete_request_before_mutating_any_shard] = true.
Proof. vm_compute. reflexivity. Qed.
End sharding.

Module concurrent.
Import Concurrent.

Definition config : CollectionConfig := MkConfig 2 Cosine.
Definition opening : test Dir SharedCollection := unwrap (open true no_settings config Sync Locked).
Definition found_something (answer : Answer) : bool :=
  match answer with Hits (Ok (_ :: _)) => true | _ => false end.

(** The test starts four readers of [searches] = 50 searches and writes
    [writes] = 20 points itself, its thread being the last; the scheduler is an
    argument. *)
Definition supports_concurrent_readers_and_writer (searches writes : nat) (schedule : list nat) : test Dir unit :=
  collection ← opening;
  '(_, collection) ← method (upsert collection [plain "seed" [f32 1; f32 0]]);
  let reader := MkThread (repeat (Search [f32 1; f32 0] 5 None) searches) Idle [] false in
  let writer := MkThread (map (fun index => Upsert [plain ("p-" +:+ fmt_int index) [f32 1; f32 (index + 1)]]) (seqZ 0 (Z.of_nat writes))) Idle [] false in
  system ← call (run true 2 7 (MkSystem collection (repeat reader 4 ++ [writer])) schedule);
  _ ← assert (forallb (fun thread => bool_decide (calls thread = [])) (threads system));
  _ ← assert (forallb (fun thread => forallb found_something (answers thread)) (firstn 4 (threads system)));
  latest ← value (latest_sequence (shared system));
  assert (Z.eqb latest (Z.of_nat writes + 1)).

Definition background_flusher_checkpoints_at_threshold : test Dir unit :=
  collection ← opening;
  flusher ← value (start_background_flush 5 2 [".segment-1.tmp"; ".segment-2.tmp"; ".segment-3.tmp"]);
  '(_, collection) ← method (upsert collection [plain "a" [f32 1; f32 0]; plain "b" [f32 0; f32 1]]);
  system ← call (run true 2 7 (MkSystem collection [flusher]) (repeat 0%nat 5));
  pending ← value (pending_point_count (shared system));
  _ ← assert (Z.eqb pending 0);
  indexed ← value (has_approximate_index (shared system));
  _ ← assert indexed;
  flusher ← value (ok_or (threads system !! 0%nat) (NotFound "flusher"));
  _ ← value (stop flusher);
  reopened ← opening;
  hits ← value (search true reopened [f32 1; f32 0] 2 None).1;
  assert (Z.eqb (zlen hits) 2).

(** Round robin, and the writer first and last. *)
Definition schedules (searches writes : nat) : list (list nat) :=
  let readers := concat (repeat (seq 0 4) searches) in
  [concat (repeat (seq 0 5) (max searches writes)); repeat 4 writes ++ readers; readers ++ repeat 4 writes]%nat.

Example concurrent_tests_pass :
  forallb (fun schedule => passes (supports_concurrent_readers_and_writer 2 3 schedule) ∅) (schedules 2 3) &&
  passes background_flusher_checkpoints_at_threshold ∅ = true.
Proof. vm_compute. reflexivity. Qed.
End concurrent.

Module database.
Import Database.
Definition no_timeouts : string -> list string := fun _ => [].
Definition opening (config : DatabaseConfig) : test Tree Database := unwrap (open true no_settings unlocked no_timeouts "/tmp/focal" config).
Definition creating (self : Database) (name : string) (config : CollectionConfig) := create_collection true no_settings unlocked no_timeouts self name config.
Definition is_already_exists (e : Error) : bool := match e with AlreadyExists _ => true | _ => false end.

Definition creates_lists_and_rediscovers_collections : test Tree unit :=
  let config := MkDatabaseConfig (db_durability default_config) (flush_interval default_config) 100 in
  database ← opening config;
  '(_, database) ← method (creating database "articles" (MkConfig 3 Cosine));
  listed ← value (list_collections database);
  _ ← assert (bool_decide (summary_name <$> head listed = Some "articles"));
  again ← call (creating database "articles" (MkConfig 3 Cosine));
  e ← error again.1;
  _ ← assert (is_already_exists e);
  reopened ← opening config;
  articles ← value (collection reopened "articles");
  found ← value (Concurrent.config articles);
  assert (Z.eqb (dimension found) 3).

Definition rejects_path_like_collection_names : test Tree unit :=
  database ← opening default_config;
  assert (negb (is_ok (collection database "../escape"))).

Definition backs_up_and_restores_a_collection : test Tree unit :=
  database ← opening default_config;
  '(_, database) ← method (creating database "original" (MkConfig 2 Cosine));
  '(_, database) ← method (on_collection database "original" (fun original => Concurrent.upsert original [plain "doc" [f32 1; f32 0]]));
  '(sequence, database) ← method (backup_collection true 2 7 database "original" "backup-1" ".segment-1.tmp" "1");
  _ ← assert (Z.eqb sequence 1);
  backups ← unwrap list_backups;
  _ ← assert (bool_decide (backups = ["backup-1"]));
  '(_, database) ← method (on_collection database "original" (fun original => Concurrent.delete original ["doc"]));
  '(restored, _) ← method (restore_collection true no_settings unlocked no_timeouts database "backup-1" "restored" "2");
  latest ← value (Concurrent.latest_sequence restored);
  _ ← assert (Z.eqb latest 1);
  hits ← value (Concurrent.search true restored [f32 1; f32 0] 1 None).1;
  assert (bool_decide (hit_ids hits = ["doc"])).

Example database_tests_pass :
  forallb (fun t => passes t ∅) [creates_lists_and_rediscovers_collections; rejects_path_like_collection_names; backs_up_and_restores_a_collection] = true.
Proof. vm_compute. reflexivity. Qed.
End database.

Module server.
Import Api Server.
#[local] Existing Instance ApiFacts.demo_json.

Definition is_resource_exhausted (e : Error) : bool := match e with ResourceExhausted _ => true | _ => false end.
(** [str::contains] *)
Fixpoint contains (s part : string) : bool :=
  String.prefix part s || match s with EmptyString => false | String _ s' => contains s' part end.

Definition bearer_comparison_checks_contents_and_length : test unit unit :=
  let secret := bytes_of_string "secret" in
  _ ← assert (constant_time_equal secret (bytes_of_string "secret"));
  _ ← assert (negb (constant_time_equal secret (bytes_of_string "secrex")));
  assert (negb (constant_time_equal secret (bytes_of_string "secret-long"))).

Definition rejects_deep_filters_and_complex_metadata : test unit unit :=
  let filter := Nat.iter 33 ApiNot ApiMatchAll in
  e ← error (into_filter filter 0);
  _ ← assert (is_resource_exhausted e);
  assert (negb (is_ok (metadata_value (JObject [("nested", Bool true)])))).

(** A request through the router: its answer, and the state after it. *)
Definition oneshot (state : AppState) (token : option string) (request : Request) : test Tree (Response * AppState) :=
  method (observe true 2 7 no_settings unlocked database.no_timeouts "task failed" state ((fun token => "Bearer " +:+ token) <$> token) request).
Definition text (body : Body) : string := match body with TextBody text => text | _ => "" end.
Definition first_id (body : Body) : option string := match body with QueryBody hits => response_id <$> head hits | _ => None end.

Definition authenticated_http_workflow_creates_upserts_and_queries : test Tree unit :=
  database ← database.opening (Database.MkDatabaseConfig Sync 60000000000 1000);
  state ← value (router database (MkServerConfig (Some "secret") (16 * 1024 * 1024) 1000 1000 4096 4096 64));
  let create := CreateCollection "articles" (MkCreate 2 ApiCosine) in
  '(unauthorized, state) ← oneshot state None create;
  _ ← assert (Z.eqb (status unauthorized) 401);
  '(created, state) ← oneshot state (Some "secret") create;
  _ ← assert (Z.eqb (status created) 201);
  '(upserted, state) ← oneshot state (Some "secret") (UpsertPoints "articles" [MkApiPoint "doc-1" [f32 1; f32 0] {["tenant" := JString "acme"]}]);
  _ ← assert (Z.eqb (status upserted) 200);
  '(queried, state) ← oneshot state (Some "secret") (Query "articles" (MkQuery [f32 1; f32 0] 1 (Some (ApiEq "tenant" (JString "acme"))) None) 5);
  _ ← assert (Z.eqb (status queried) 200);
  _ ← assert (bool_decide (first_id (body queried) = Some "doc-1"));
  '(backup, state) ← oneshot state (Some "secret") (BackupCollection "articles" "snapshot-1" ".segment-1.tmp" "1");
  _ ← assert (Z.eqb (status backup) 201);
  '(restore, state) ← oneshot state (Some "secret") (RestoreCollection "snapshot-1" "articles-copy" "2");
  _ ← assert (Z.eqb (status restore) 201);
  '(restored_query, state) ← oneshot state (Some "secret") (Query "articles-copy" (MkQuery [f32 1; f32 0] 1 None None) 5);
  _ ← assert (Z.eqb (status restored_query) 200);
  '(metrics, _) ← oneshot state None Metrics;
  _ ← assert (contains (text (body metrics)) "focal_queries_total 2");
  _ ← assert (contains (text (body metrics)) "focal_backups_total 1");
  assert (contains (text (body metrics)) "focal_restores_total 1").

Example server_tests_pass :
  passes_pure bearer_comparison_checks_contents_and_length && passes_pure rejects_deep_filters_and_complex_metadata &&
  passes authenticated_http_workflow_creates_upserts_and_queries ∅ = true.
Proof. vm_compute. reflexivity. Qed.
End server.

(** The log of Raft, on the small log of [RaftLogFacts]: a vote, a log identifier
    and an entry are bytes, and so is their encoding. *)
Module raft_storage.
Import Journal RaftLog RaftLogFacts.

Definition opening : io (Result DemoState) := open demo_index id.
Definition opened : test Dir DemoState := unwrap opening.
(** [unwrap] of a storage result. *)
Definition stored {S : Type} (m : io (StorageResult unit * S)) : test Dir S :=
  '(r, s) ← call m; _ ← assert (is_ok r); mret s.
Definition writing (store : DemoState) (record : DemoRecord) : test Dir DemoState := stored (write_record demo_index id 1 store record LogStorage).
Definition file (name : string) : test Dir (list byte) := d ← reading; value (ok_or (d !! name) missing).
(** [bytes[index] ^= mask] *)
Definition flip (name : string) (index : nat) (mask : Z) : test Dir unit :=
  changing (fun d => alter (fun bytes => alter (fun byte => to_u8 (Z.lxor (u8 byte) mask)) index bytes) name d).
(** [ErrorKind::InvalidData], of a checksum. *)
Definition invalid_data (message : string) (e : Error) : bool := bool_decide (e = Io message).

Definition journal_recovers_vote_commit_logs_truncation_and_purge : test Dir unit :=
  store ← opened;
  store ← stored (save_vote demo_index id 1 store x31);
  store ← stored (save_committed demo_index id 1 store (Some x02));
  store ← writing store (Append [x00; x01; x02; x03]);
  store ← writing store (Truncate x03);
  _ ← writing store (Purge x00);
  journal ← file "raft.journal";
  _ ← assert (bool_decide (journal = []));
  _ ← file "raft.checkpoint";
  reopened ← opened;
  _ ← assert (bool_decide (read_vote reopened = Some x31));
  _ ← assert (bool_decide (read_committed reopened = Some x02));
  let '(last_purged_log_id, last_log_id) := get_log_state id reopened in
  _ ← assert (bool_decide (last_purged_log_id = Some x00));
  _ ← assert (bool_decide (last_log_id = Some x02));
  assert (bool_decide (map demo_index (try_get_log_entries reopened (fun index => Z.leb 0 index && Z.ltb index 10)) = [1; 2])).

Definition torn_final_record_is_discarded_but_checksum_corruption_fails_closed : test Dir unit :=
  _ ← opened;
  _ ← unwrap (append_record raft_journal (SaveVote x11 : DemoRecord));
  _ ← unwrap (Disk.append "raft.journal" JOURNAL_MAGIC);
  _ ← opened;
  _ ← flip "raft.journal" 10 0x40;
  e ← unwrap_err opening;
  assert (invalid_data (bad_checksum raft_journal) e).

Definition checkpoint_corruption_fails_closed : test Dir unit :=
  store ← opened;
  _ ← writing store (Purge x00);
  _ ← flip "raft.checkpoint" 13 0x80;
  e ← unwrap_err opening;
  assert (invalid_data "Raft checkpoint checksum mismatch" e).

Example raft_storage_tests_pass :
  forallb (fun t => passes t ∅) [journal_recovers_vote_commit_logs_truncation_and_purge;
    torn_final_record_is_discarded_but_checksum_corruption_fails_closed; checkpoint_corruption_fails_closed] = true.
Proof. vm_compute. reflexivity. Qed.
End raft_storage.
